(* ===== verification/_CoqProject ===== *)
-Q . S2P
Prelude.v
BitField.v
PpuOpcodes.v
PpuAsm.v
PpuState.v
PpuInt.v
PpuIntWf.v
PpuArith.v
PpuBits.v
PpuMem.v
PpuMemSpec.v
PpuString.v
PpuBranch.v
PpuStep.v
PpuChain.v
PpuBranchSpec.v
Lv2Queue.v
Lv2Base.v
Lv2Sema.v
Lv2SemaSpec.v
Lv2Mutex.v
Lv2MutexSpec.v
Lv2EventFlag.v
Lv2EventFlagSpec.v
Lv2Sched.v
Lv2SchedSpec.v
Lv2Rwlock.v
Lv2RwlockSpec.v
Simd.v
SpuOpcodes.v
SpuInterp.v
SpuWf.v
SpuRun.v
SpuQuad.v
SpuArith.v
SpuMul.v
SpuShift.v
SpuShuf.v
SpuStore.v
SpuBytes.v
SpuBranch.v
SpuChannel.v
SpuChannelSpec.v
SpuOutboxSpec.v
SpuMailbox.v
SpuMailboxSpec.v
