(* ===== verification/Prelude.v ===== *)
(** PS3Native: the PPU and SPU interpreters and the kernel's scheduling and synchronisation.

    The program is a PlayStation 3 emulator (a fork of RPCS3, src/rpcs3).  This development models three
    of its layers.  Two meet in the thread: the interpreter of the main processor (PPU), which
    executes guest instructions one thread at a time (Emu/Cell/PPUOpcodes.h, PPUInterpreter.cpp,
    PPUThread.h/.cpp, Emu/Memory/vm.h, Utilities/BitField.h), and the lv2 kernel, which decides which
    threads execute and implements the objects they synchronise with (Emu/Cell/lv2/sys_sync.h,
    lv2.cpp, sys_semaphore, sys_mutex, sys_event_flag, sys_rwlock).  The third is the interpreter
    of the vector coprocessors (SPU), each of which runs code from its own local storage
    (Emu/Cell/SPUOpcodes.h, SPUInterpreter.cpp, SPUThread.h/.cpp, SPUCommonRecompiler.cpp,
    util/v128.hpp, util/simd.hpp).

    * Files and the code they model

    - [Prelude]: machine words as [Z] with explicit wrap-around ([wrap], [sgn]), arithmetic and bit
      lemmas, tactics and the hint database [word].
    - [BitField]: [bf_t], [cf_t], [ff_t] of Utilities/BitField.h.
    - [PpuOpcodes]: [ppu_opcode_t], [ppu_rotate_mask], the 131072-entry table of [ppu_decoder] built by
      [fill_table], and [decode] (PPUOpcodes.h).  [PpuAsm]: the encoders of
      [namespace ppu_instructions] and of its nested [namespace implicts].
    - [PpuState]: the registers of [ppu_thread], guest memory, reservations, and the monad [M] of
      handlers that can throw.
    - [PpuInt] (module [Interp]): fixed-point, logical, rotate, compare, condition-register and
      special-register handlers; [PpuMem] (module [Mem]): loads, stores, string and multiple forms,
      [ppu_feed_data]; [PpuBranch] (module [Branch]): branches, traps, [SC], call history,
      [ppu_interpreter_rt::decode], the cache of decoded handlers at [vm::g_exec_addr] (a map from addresses
      to function pointers, filled by [ppu_fallback] and [ppu_register_function_at] and not refreshed when
      code changes), and the two ways of running code: [step] decodes every instruction
      ([ppu_recompiler_fallback]), [exec_task_iteration] calls the cached handlers, which tail-call the
      next cached one ([chain], for [exec_task]).
    - [PpuIntWf], [PpuArith], [PpuBits], [PpuMemSpec], [PpuString], [PpuStep], [PpuChain],
      [PpuBranchSpec]: the theorems on the interpreter.
    - [Lv2Queue]: [lv2_obj::emplace], [unqueue], [schedule] on an explicit store of [next_cpu]
      pointers; the class [WaitQueue] is the interface the kernel objects are proved against,
      with the linked list and the plain list as instances.
    - [Lv2Base]: error codes, sleeping and waking as the objects see them, and [answers], which relates the
      codes returned to a thread to the abstract actions that decided them.
    - [Lv2Sema], [Lv2Mutex], [Lv2Rwlock] (modules [Sema], [Mutex], [Rwlock]): the system calls as step functions with a program
      counter per thread, one step per atomic access, so that a run is any interleaving of any
      number of threads; [Lv2EventFlag] (module [EventFlag]): the operations under the flag's
      mutex, with the lock-free accesses of other threads as an argument.  The files ending in
      [Spec] hold the theorems.
    - [Lv2Sched] (module [Sched]), [Lv2SchedSpec]: the scheduler of lv2.cpp: [sleep_unlocked],
      [awake_unlocked] with its four commands, [schedule_all], [yield], [set_priority], [ppu_state].
    - [Simd]: [v128] as a 128-bit number with lanes, the host vector instructions behind the intrinsics, and
      the [gv_] functions built on them.  [SpuOpcodes] (module [SpuOp]): [spu_opcode_t] and the
      2048-entry table of [spu_decoder].  [SpuInterp] (module [Spu]): the state of [spu_thread], 168
      of the 200 handlers, interrupts, and the loop [old_interpreter].
    - [SpuWf], [SpuArith], [SpuMul], [SpuShift], [SpuQuad], [SpuShuf], [SpuStore], [SpuBytes], [SpuBranch]:
      the theorems on the SPU.  [SpuRun] encodes instruction words and steps through code in local
      storage, so that theorems can speak of whole instruction sequences run by the loop.
    - [SpuChannel]: [spu_channel], through which an SPU exchanges words with other threads, as interleaved
      accesses: [push] and [pop_wait] (module [Signal]), [push_wait] and [pop] (module [Outbox]), and
      [push_snr].  [SpuMailbox] (module [Mailbox]): the four-entry [spu_channel_4_t].  The theorems
      are in [SpuChannelSpec], [SpuOutboxSpec] and [SpuMailboxSpec].

    * What the theorems show

    - Decoding: the table decoder equals field-by-field matching of the instruction word for every
      word; the word that an encoder of the assembler, or an extended mnemonic, produces is decoded to its
      instruction, with its operands up to the width of their fields (displacements rounded to words).
    - Instructions: results, carry, overflow and CR0 of the arithmetic instructions against exact
      integer arithmetic, multi-word addition chains, full products, division including the
      undefined cases, rotates and shifts against the bit numbering of the Power ISA, comparisons,
      round trips through CR and SPRs; loads and stores byte by byte with their failures, the
      reservation check of [ppu_feed_data] against a byte-level reference, round trips of all
      widths and of the string forms; branches against the ISA.
    - Execution: one iteration of the interpreter keeps the machine well-formed whatever the guest code
      and the cached handlers are; a chain of tail calls through the cache and single steps agree as long
      as no instruction was rewritten after its handler was cached (with a stale handler they differ,
      [stale_handler]); a counted loop terminates after the
      right number of iterations.
    - Kernel objects: the pointer queues implement list queues, and the selected thread is the highest
      priority, first come first served; the semaphore refines a counting semaphore and never
      loses or invents a token; the mutex refines an ownership automaton, has at most one owner,
      and its recursion count never wraps; the reader-writer lock refines one that admits readers or a
      writer, and its timeout path has one divergence, exhibited; both return to each thread the code that
      the abstract action on its call decided, once; whoever holds a semaphore's internal mutex releases it;
      [sys_event_flag_set] acts as one atomic update of all waiters although others change the
      pattern meanwhile.
    - Scheduler: if the callers pass priorities in range and do not sleep with a timeout while an earlier
      notification is unanswered, none of the five [ensure]s of the modelled functions fails (the counter
      of threads asked to stop is not 0 when one has stopped, a thread that is stopped was running, a thread whose
      timeout expires was not notified before); at most [ppu_threads] threads execute at any time, the run queue is
      sorted and first in first out within a priority, and once the threads asked to stop have
      stopped, exactly the first [ppu_threads] of the queue execute.
    - SPU: the table decoder equals matching of the leading bits; whatever the code, registers, storage and
      program counter keep their types and alignment; a run that starts with program counter and SRR0 inside
      local storage fetches only from its mapped copies for 131072 iterations; arithmetic with carries and borrows, multiplications, shifts and rotates of lanes
      and of the whole register, comparisons, masks and byte operations are exact in every lane,
      also when target and source coincide; [SHUFB] and both emitted machine-code versions of it agree
      with the ISA; the usual sequences for 128-bit addition, 32-bit multiplication, variable
      shifts, population count and storing an element do what they are used for, and change nothing
      else; branches, and interrupts from entry to return.
    - SPU channels: a signal register refines an abstract one that hands values to a waiting SPU, and a
      value handed over is returned without a lost wake-up; mailboxes in both directions are
      first-in-first-out queues.  Each of these holds under a stated condition on how calls overlap,
      and runs are exhibited that break it when the condition is dropped: two readers at once, calls of
      [push] without a mutex or on a full mailbox, a [push] that outlasts the wait it has seen, an SPU
      stopped while it waits.  [push_snr] is shown to raise its event in the wrong case.

    * Bounds and fuel

    Loops over linked lists take fuel [enough q], one more than the number of stored pointers; a list
    that ends in [nullptr] visits each thread once, so it suffices ([queue_fuel]).  Loops of the
    string and multiple instructions recurse on their register count.  [visit_loop] gets one unit
    of fuel per waiter and one more, and marks a waiter in each turn.  [Branch.chain] and
    [Branch.run] take the number of instructions to run, [Spu.iterations] the number of iterations; the
    theorems hold for every number, except that [spu_fetch_safe] is limited to 131072 iterations, the
    instructions of two copies of local storage, from a program counter and SRR0 inside it, and to fewer from
    larger ones.
    Integers have their C++ widths; no bound is put on the number of steps, on the size of guest memory
    or on the number of threads, except that the semaphore needs fewer than [2^31] of them, its
    counter being an [s32], the reader-writer lock thread ids below [2^31] and a run short enough that
    its 64-bit owner word does not overflow, and [ppu_threads] has to fit [g_pending], a [u32].

    * Not modelled, and why

    - PPU floating-point and vector instructions: their handlers are written with host SIMD and rounding
      intrinsics.  [LWARX], [STWCX] and the doubleword forms: they race with other threads on host
      memory with transactional fallbacks.
    - Serialisation of kernel objects, the id manager and IPC keys: [create] and [destroy] are
      modelled up to their parameter checks.
    - In the objects' models a thread that is awakened runs at once; which thread runs is the subject of
      [Lv2Sched].  There, the list of threads to wake on the host ([g_to_notify]), the timing
      penalties ([hw_sleep_time], preemption by TSC) and the end of a thread's life are left out,
      as they change neither the queue nor who may execute.
    - Savestates, debugger hooks (breakpoints, far jumps and the other native functions that can be put in the
      place of a cached handler end a run of the model), logging and statistics counters.
    - SPU DMA, which races with other threads on guest memory, and the 26 SPU handlers that compute in host
      floating point.  The channels are modelled on their own: reaching a channel instruction or [STOP]
      ends a run of the interpreter's model, as do [check_state], [do_mfc] and [halt].
    - RSX, audio, I/O, loaders, file systems, HLE modules, recompilers, user interface: hardware
      back ends, host I/O, generated code, or components with no link to the parts above other than
      through guest memory. *)

From Stdlib Require Import ZArith Lia Bool.
From stdpp Require Import base tactics option list numbers.
Local Open Scope Z_scope.

(** ** Machine words *)

(** [wrap w x] is the value of [x] after conversion to an unsigned [w]-bit
    type; [sgn w x] after conversion to a signed (two's complement) one. *)
Definition wrap (w x : Z) : Z := x mod 2 ^ w.
Definition sgn (w x : Z) : Z := (x + 2 ^ (w - 1)) mod 2 ^ w - 2 ^ (w - 1).

(** [~x] on a [w]-bit unsigned operand. *)
Definition bnot (w x : Z) : Z := wrap w (Z.lnot x).

(** [std::rotl] on a [w]-bit unsigned operand, rotation count in [0, w). *)
Definition rotl (w x n : Z) : Z :=
  wrap w (Z.lor (Z.shiftl x n) (Z.shiftr x (w - n))).

(** [std::countl_zero] on a [w]-bit unsigned operand. *)
Definition countl_zero (w x : Z) : Z :=
  if x =? 0 then w else w - 1 - Z.log2 x.

(** C++ conversion of [bool] to an integer type. *)
Definition b2z (b : bool) : Z := if b then 1 else 0.

Declare Scope word_scope.
Delimit Scope word_scope with word.
Abbreviation u8 := (wrap 8).
Abbreviation u16 := (wrap 16).
Abbreviation u32 := (wrap 32).
Abbreviation u64 := (wrap 64).
Abbreviation s8 := (sgn 8).
Abbreviation s16 := (sgn 16).
Abbreviation s32 := (sgn 32).
Abbreviation s64 := (sgn 64).
Notation "x .& y" := (Z.land x y) (at level 40, left associativity) : word_scope.
Notation "x .| y" := (Z.lor x y) (at level 50, left associativity) : word_scope.
Notation "x .^ y" := (Z.lxor x y) (at level 45, left associativity) : word_scope.

(** [x] is a value of an unsigned (signed) [w]-bit type. *)
Definition in_u (w x : Z) : Prop := 0 <= x < 2 ^ w.
Definition in_s (w x : Z) : Prop := - 2 ^ (w - 1) <= x < 2 ^ (w - 1).

(** ** Arithmetic lemmas and automation *)

Create HintDb word discriminated.

Lemma pow2_pos n : 0 <= n -> 0 < 2 ^ n.
Proof. intros. apply Z.pow_pos_nonneg; lia. Qed.

Lemma pow2_half w : 0 < w -> 2 ^ w = 2 * 2 ^ (w - 1).
Proof.
  intros. rewrite <- Z.pow_succ_r by lia. f_equal. lia.
Qed.

Lemma wrap_in_u w x : 0 <= w -> in_u w (wrap w x).
Proof. intros. apply Z.mod_pos_bound. by apply pow2_pos. Qed.

Lemma in_u_0 w : 0 <= w -> in_u w 0.
Proof. intros. split; [done|]. by apply pow2_pos. Qed.

Lemma sgn_in_s w x : 0 < w -> in_s w (sgn w x).
Proof.
  intros Hw. unfold in_s, sgn.
  pose proof (Z.mod_pos_bound (x + 2 ^ (w - 1)) (2 ^ w) (pow2_pos w ltac:(lia))).
  pose proof (pow2_half w Hw). lia.
Qed.

Lemma wrap_small w x : in_u w x -> wrap w x = x.
Proof. apply Z.mod_small. Qed.

Lemma sgn_small w x : 0 < w -> in_s w x -> sgn w x = x.
Proof.
  unfold in_s, sgn. intros Hw H. pose proof (pow2_half w Hw).
  rewrite Z.mod_small by lia. lia.
Qed.

Lemma wrap_wrap w x : wrap w (wrap w x) = wrap w x.
Proof. apply Z.mod_mod_divide, Z.divide_refl. Qed.

Lemma wrap_wrap_le w v x : 0 <= w <= v -> wrap w (wrap v x) = wrap w x.
Proof.
  intros. unfold wrap. apply Z.mod_mod_divide.
  exists (2 ^ (v - w)). rewrite <- Z.pow_add_r by lia. f_equal. lia.
Qed.

Lemma sgn_eq w x : 0 < w ->
  sgn w x = if wrap w x <? 2 ^ (w - 1) then wrap w x else wrap w x - 2 ^ w.
Proof.
  intros Hw. unfold sgn, wrap. pose proof (pow2_half w Hw).
  pose proof (pow2_pos (w - 1) ltac:(lia)).
  pose proof (Z.mod_pos_bound x (2 ^ w) ltac:(lia)).
  rewrite <- (Z.add_mod_idemp_l x) by lia.
  set (y := x mod 2 ^ w) in *. destruct (Z.ltb_spec y (2 ^ (w - 1))).
  - rewrite Z.mod_small by lia. lia.
  - replace (y + 2 ^ (w - 1)) with (y - 2 ^ (w - 1) + 1 * 2 ^ w) by lia.
    rewrite Z.mod_add, Z.mod_small by lia. lia.
Qed.

Lemma wrap_add_pow w x k : 0 <= w -> wrap w (x + k * 2 ^ w) = wrap w x.
Proof. intros. apply Z.mod_add. pose proof (pow2_pos w). lia. Qed.

Lemma wrap_sgn w x : 0 < w -> wrap w (sgn w x) = wrap w x.
Proof.
  intros Hw. rewrite sgn_eq by done. destruct (_ <? _); [apply wrap_wrap|].
  replace (wrap w x - 2 ^ w) with (wrap w x + (-1) * 2 ^ w) by lia.
  rewrite wrap_add_pow by lia. apply wrap_wrap.
Qed.

Lemma sgn_wrap w x : 0 < w -> sgn w (wrap w x) = sgn w x.
Proof. intros. by rewrite !sgn_eq, wrap_wrap. Qed.

Lemma wrap_add_l w x y : 0 <= w -> wrap w (wrap w x + y) = wrap w (x + y).
Proof. intros. apply Z.add_mod_idemp_l. pose proof (pow2_pos w). lia. Qed.

Lemma wrap_add_r w x y : 0 <= w -> wrap w (x + wrap w y) = wrap w (x + y).
Proof. intros. apply Z.add_mod_idemp_r. pose proof (pow2_pos w). lia. Qed.

Lemma wrap_mul_l w x y : 0 <= w -> wrap w (wrap w x * y) = wrap w (x * y).
Proof. intros. apply Z.mul_mod_idemp_l. pose proof (pow2_pos w). lia. Qed.

Lemma wrap_mul_r w x y : 0 <= w -> wrap w (x * wrap w y) = wrap w (x * y).
Proof. intros. apply Z.mul_mod_idemp_r. pose proof (pow2_pos w). lia. Qed.

(** The unsigned value determines the signed one: they differ by the sign bit. *)
Lemma sgn_unsigned w x : 0 < w -> in_u w x ->
  sgn w x = x - b2z (2 ^ (w - 1) <=? x) * 2 ^ w.
Proof.
  intros Hw Hx. rewrite sgn_eq, wrap_small by done.
  destruct (Z.ltb_spec x (2 ^ (w - 1))), (Z.leb_spec (2 ^ (w - 1)) x);
    simpl; lia.
Qed.

Lemma b2z_range b : 0 <= b2z b <= 1.
Proof. destruct b; simpl; lia. Qed.

#[export] Hint Resolve wrap_in_u sgn_in_s : word.
#[export] Hint Extern 1 (0 <= _) => lia : word.
#[export] Hint Extern 1 (0 < _) => lia : word.

(** ** Bits *)

Lemma testbit_wrap w x i : 0 <= w ->
  Z.testbit (wrap w x) i = (i <? w) && Z.testbit x i.
Proof.
  intros. unfold wrap. destruct (Z.ltb_spec i w); simpl.
  - destruct (Z.ltb_spec i 0).
    + by rewrite !Z.testbit_neg_r by done.
    + apply Z.mod_pow2_bits_low. lia.
  - apply Z.mod_pow2_bits_high. lia.
Qed.

Lemma testbit_high w x i : in_u w x -> w <= i -> 0 <= w ->
  Z.testbit x i = false.
Proof.
  intros Hx ??. rewrite <- (wrap_small w x Hx), testbit_wrap by done.
  by destruct (Z.ltb_spec i w); [lia|].
Qed.

Lemma testbit_shiftl x n i : 0 <= n -> 0 <= i ->
  Z.testbit (Z.shiftl x n) i = (n <=? i) && Z.testbit x (i - n).
Proof.
  intros. rewrite Z.shiftl_spec by done.
  destruct (Z.leb_spec n i); [done|]. by rewrite Z.testbit_neg_r by lia.
Qed.

Lemma testbit_shiftr x n i : 0 <= i ->
  Z.testbit (Z.shiftr x n) i = Z.testbit x (i + n).
Proof. intros. by apply Z.shiftr_spec. Qed.

Lemma testbit_ones n i : 0 <= n -> 0 <= i ->
  Z.testbit (Z.ones n) i = (i <? n).
Proof.
  intros. destruct (Z.ltb_spec i n).
  - apply Z.ones_spec_low. lia.
  - apply Z.ones_spec_high. lia.
Qed.

Lemma testbit_bnot w x i : 0 <= w -> 0 <= i ->
  Z.testbit (bnot w x) i = (i <? w) && negb (Z.testbit x i).
Proof.
  intros. unfold bnot. rewrite testbit_wrap by done. f_equal.
  by apply Z.lnot_spec.
Qed.

Lemma bits_inj_u w x y : 0 <= w -> in_u w x -> in_u w y ->
  (forall i, 0 <= i < w -> Z.testbit x i = Z.testbit y i) -> x = y.
Proof.
  intros Hw Hx Hy H. apply Z.bits_inj'. intros i Hi.
  destruct (Z.ltb_spec i w); [by apply H|].
  by rewrite !(testbit_high w) by done.
Qed.

Lemma in_u_bits w x : 0 <= w -> 0 <= x ->
  (forall i, w <= i -> Z.testbit x i = false) -> in_u w x.
Proof.
  intros Hw Hx H. split; [done|]. destruct (Z.eq_dec x 0) as [->|Hne].
  { by apply pow2_pos. }
  apply Z.log2_lt_pow2; [lia|].
  destruct (Z.lt_ge_cases (Z.log2 x) w) as [|Hge]; [done|].
  specialize (H _ Hge). rewrite Z.bit_log2 in H by lia. done.
Qed.

Lemma wrap_land w x : 0 <= w -> wrap w x = Z.land x (Z.ones w).
Proof. intros. by rewrite Z.land_ones. Qed.

Lemma land_in_u_l w x y : 0 <= w -> in_u w x -> in_u w (Z.land x y).
Proof.
  intros Hw Hx. apply in_u_bits; [done|apply Z.land_nonneg; left; apply Hx|].
  intros i Hi. by rewrite Z.land_spec, (testbit_high w x i) by done.
Qed.

Lemma land_in_u_r w x y : 0 <= w -> in_u w y -> in_u w (Z.land x y).
Proof. intros. rewrite Z.land_comm. by apply land_in_u_l. Qed.

Lemma lor_in_u w x y : 0 <= w -> in_u w x -> in_u w y -> in_u w (Z.lor x y).
Proof.
  intros Hw Hx Hy.
  apply in_u_bits; [done|apply Z.lor_nonneg; split; [apply Hx|apply Hy]|].
  intros i Hi. by rewrite Z.lor_spec, (testbit_high w x i), (testbit_high w y i).
Qed.

Lemma lxor_in_u w x y : 0 <= w -> in_u w x -> in_u w y -> in_u w (Z.lxor x y).
Proof.
  intros Hw Hx Hy.
  apply in_u_bits; [done|apply Z.lxor_nonneg; split; intros; [apply Hy|apply Hx]|].
  intros i Hi. by rewrite Z.lxor_spec, (testbit_high w x i), (testbit_high w y i).
Qed.

Lemma shiftr_in_u w x n : 0 <= w -> 0 <= n -> in_u w x -> in_u w (Z.shiftr x n).
Proof.
  intros Hw Hn Hx. apply in_u_bits; [done|apply Z.shiftr_nonneg, Hx|].
  intros i Hi. rewrite testbit_shiftr by lia. apply (testbit_high w); [done|lia|lia].
Qed.

Lemma bnot_in_u w x : 0 <= w -> in_u w (bnot w x).
Proof. apply wrap_in_u. Qed.

Lemma bnot_val w x : 0 <= w -> in_u w x -> bnot w x = 2 ^ w - 1 - x.
Proof.
  intros Hw Hx. unfold bnot, Z.lnot.
  replace (Z.pred (- x)) with (2 ^ w - 1 - x + (-1) * 2 ^ w) by lia.
  rewrite wrap_add_pow by done. apply wrap_small. unfold in_u in *. lia.
Qed.

Lemma lor_shiftl_add a b n : 0 <= n -> 0 <= b < 2 ^ n ->
  Z.lor (Z.shiftl a n) b = a * 2 ^ n + b.
Proof.
  intros Hn Hb. rewrite <- Z.shiftl_mul_pow2 by done.
  assert (Z.land (Z.shiftl a n) b = 0) as E.
  { apply Z.bits_inj'. intros i Hi. rewrite Z.land_spec, testbit_shiftl, Z.bits_0 by done.
    destruct (Z.leb_spec n i); [|done].
    by rewrite (testbit_high n b i), andb_false_r. }
  by rewrite <- Z.lxor_lor, <- Z.add_nocarry_lxor by done.
Qed.

#[export] Hint Resolve land_in_u_l land_in_u_r lor_in_u lxor_in_u shiftr_in_u
  bnot_in_u : word.

(** Rewriting [Z.testbit] through every word operation; side conditions are
    linear. *)
Create Rewrite HintDb bits.
#[export] Hint Rewrite testbit_wrap testbit_shiftl testbit_shiftr testbit_ones
  testbit_bnot Z.land_spec Z.lor_spec Z.lxor_spec Z.testbit_0_l
  using lia : bits.

(** Decide the comparisons that occur in a boolean goal. *)
Ltac case_cmp :=
  repeat match goal with
  | |- context [?a <? ?b] => destruct (Z.ltb_spec a b); try lia
  | |- context [?a <=? ?b] => destruct (Z.leb_spec a b); try lia
  | |- context [?a =? ?b] => destruct (Z.eqb_spec a b); try lia
  end.

(** Word arithmetic by linear arithmetic on the quotients of [mod]. *)
Ltac word_lia :=
  unfold in_u, in_s, sgn, wrap in *;
  Z.div_mod_to_equations; lia.

(** ** Rotation, masks and conversions *)

Lemma testbit_rotl w x n i : 0 < w -> in_u w x -> 0 <= n < w -> 0 <= i < w ->
  Z.testbit (rotl w x n) i = Z.testbit x ((i - n) mod w).
Proof.
  intros Hw Hx Hn Hi. unfold rotl.
  rewrite testbit_wrap, Z.lor_spec, testbit_shiftl, testbit_shiftr by lia.
  destruct (Z.ltb_spec i w); [|lia]. simpl. destruct (Z.leb_spec n i); simpl.
  - rewrite (testbit_high w x (i + (w - n))), orb_false_r by (done || lia).
    by rewrite Z.mod_small by lia.
  - f_equal. rewrite <- (Z.mod_small (i + (w - n)) w) by lia.
    replace (i + (w - n)) with (i - n + 1 * w) by lia. by rewrite Z.mod_add by lia.
Qed.

(** Rotations add up. *)
Lemma rotl_rotl w x m n : 0 < w -> in_u w x -> 0 <= m < w -> 0 <= n < w ->
  rotl w (rotl w x m) n = rotl w x ((m + n) mod w).
Proof.
  intros Hw Hx Hm Hn. apply (bits_inj_u w); [lia|apply wrap_in_u; lia..|]. intros i Hi.
  pose proof (Z.mod_pos_bound (m + n) w Hw). pose proof (Z.mod_pos_bound (i - n) w Hw).
  rewrite !testbit_rotl by (done || lia || (apply wrap_in_u; lia)).
  f_equal. rewrite Zminus_mod_idemp_l, Zminus_mod_idemp_r. f_equal. lia.
Qed.

Lemma land_pow2 n k : 0 <= k -> (Z.land n (2 ^ k) =? 0) = negb (Z.testbit n k).
Proof.
  intros Hk. destruct (Z.testbit n k) eqn:E; simpl.
  - apply Z.eqb_neq. intros H. assert (Z.testbit (Z.land n (2 ^ k)) k = false) as F
      by (rewrite H; apply Z.bits_0).
    rewrite Z.land_spec, Z.pow2_bits_true, E in F by lia. discriminate F.
  - apply Z.eqb_eq, Z.bits_inj'. intros i Hi. rewrite Z.land_spec, Z.bits_0, Z.pow2_bits_eqb by lia.
    destruct (Z.eqb_spec k i) as [<-|]; [by rewrite E|apply andb_false_r].
Qed.

Lemma land_mod x k : 0 <= k -> Z.land x (2 ^ k - 1) = x mod 2 ^ k.
Proof. intros. rewrite Z.sub_1_r, <- Z.ones_equiv, Z.land_ones by lia. done. Qed.

Lemma land_7 x : Z.land x 7 = x mod 8.
Proof. apply (land_mod x 3). lia. Qed.
Lemma land_15 x : Z.land x 15 = x mod 16.
Proof. apply (land_mod x 4). lia. Qed.
Lemma land_31 x : Z.land x 31 = x mod 32.
Proof. apply (land_mod x 5). lia. Qed.
Lemma land_63 x : Z.land x 63 = x mod 64.
Proof. apply (land_mod x 6). lia. Qed.

(** Conversions that keep the low bits. *)
Lemma wrap_mod w k x : 0 <= k <= w -> wrap w x mod 2 ^ k = x mod 2 ^ k.
Proof. intros. by apply (wrap_wrap_le k w). Qed.

Lemma sgn_mod w k x : 0 <= k <= w -> 0 < w -> sgn w x mod 2 ^ k = x mod 2 ^ k.
Proof. intros. by rewrite <- (wrap_mod w k (sgn w x)), wrap_sgn, wrap_mod by lia. Qed.

Lemma sgn_opp_mod w k x : 0 <= k <= w -> 0 < w -> (- sgn w x) mod 2 ^ k = (- x) mod 2 ^ k.
Proof.
  intros. pose proof (pow2_pos k ltac:(lia)).
  rewrite <- (Z.sub_0_l (sgn w x)), <- Zminus_mod_idemp_r, sgn_mod, Zminus_mod_idemp_r by lia. done.
Qed.

(** ** Lists *)

(** Byte arrays and register files are lists read with a default. *)
Definition get (l : list Z) (i : Z) : Z := nth (Z.to_nat i) l 0.
Definition set (l : list Z) (i v : Z) : list Z := <[Z.to_nat i := v]> l.

Lemma length_set l i v : length (set l i v) = length l.
Proof. apply length_insert. Qed.

Lemma get_set_eq l i v : 0 <= i < Z.of_nat (length l) -> get (set l i v) i = v.
Proof.
  intros. unfold get, set. rewrite nth_lookup, list_lookup_insert_eq by lia. done.
Qed.

Lemma get_set_ne l i j v : 0 <= i -> 0 <= j -> i <> j ->
  get (set l i v) j = get l j.
Proof.
  intros. unfold get, set. rewrite !nth_lookup, list_lookup_insert_ne by lia. done.
Qed.

Lemma get_Forall (P : Z -> Prop) l i :
  P 0 -> Forall P l -> P (get l i).
Proof.
  intros H0 Hl. unfold get. rewrite nth_lookup.
  destruct (l !! Z.to_nat i) eqn:E; simpl; [|done].
  by eapply Forall_lookup_1 in E.
Qed.

Lemma set_Forall (P : Z -> Prop) l i v :
  P v -> Forall P l -> Forall P (set l i v).
Proof. intros. by apply Forall_insert. Qed.

(** ** Threads *)

(** Threads are named by their pointers. *)
Definition tid : Type := Z.

(** One thread's entry changed. *)
Definition upd {A} (t : tid) (v : A) (f : tid -> A) : tid -> A := fun y => if y =? t then v else f y.

Lemma upd_eq {A} t (v : A) f : upd t v f t = v.
Proof. unfold upd. by rewrite Z.eqb_refl. Qed.

Lemma upd_ne {A} t (v : A) f y : y <> t -> upd t v f y = f y.
Proof. unfold upd. by intros ->%Z.eqb_neq. Qed.

(** A test of the entries, after one of them changed. *)
Lemma test_upd {A} (P : A -> bool) t (v : A) f y : P (upd t v f y) = if y =? t then P v else P (f y).
Proof. unfold upd. by case_match. Qed.

(** At most one entry passes the test, and [b] says whether there is one. *)
Definition only {A} (P : A -> bool) (b : bool) (f : tid -> A) : Prop :=
  if b then exists t, forall y, P (f y) = (y =? t) else forall y, P (f y) = false.

Lemma only_upd {A} (P : A -> bool) b t (v : A) f : only P b f -> P (f t) = false -> P v = false -> only P b (upd t v f).
Proof.
  intros H Hf Hp. destruct b; [destruct H as [x H]; exists x|]; intros y; rewrite test_upd;
    (destruct (Z.eqb_spec y t) as [->|]; [transitivity (P (f t)); [congruence|]|]; apply H).
Qed.

Lemma only_set {A} (P : A -> bool) t (v : A) f : only P false f -> P v = true -> only P true (upd t v f).
Proof. intros H Hp. exists t. intros y. rewrite test_upd, H, Hp. by case_match. Qed.

Lemma only_unset {A} (P : A -> bool) b t (v : A) f : only P b f -> P (f t) = true -> P v = false ->
  b = true /\ only P false (upd t v f).
Proof.
  intros H Hf Hp. destruct b; [|by rewrite (H t) in Hf]. split; [done|]. destruct H as [x H]. intros y.
  rewrite test_upd, Hp. rewrite H in Hf. apply Z.eqb_eq in Hf as <-. rewrite H. by destruct (y =? t).
Qed.

Lemma only_none {A} (P : A -> bool) b (f : tid -> A) : only P b f -> (forall t, P (f t) = false) -> b = false.
Proof. intros Hb Hf. destruct b; [|done]. destruct Hb as [t Ht]. specialize (Ht t). by rewrite Hf, Z.eqb_refl in Ht. Qed.

(** The changed entry did not pass, so another one still does. *)
Lemma exists_upd {A} (P : A -> bool) t (v : A) f : P (f t) = false -> (exists y, P (f y) = true) ->
  exists y, P (upd t v f y) = true.
Proof. intros Hf [y Hy]. exists y. rewrite test_upd. destruct (Z.eqb_spec y t) as [->|]; [congruence|done]. Qed.

Lemma exists_set {A} (P : A -> bool) t (v : A) f : P v = true -> exists y, P (upd t v f y) = true.
Proof. intros Hv. exists t. by rewrite upd_eq. Qed.

Lemma none_upd {A} (P : A -> bool) t (v : A) f : P v = false -> (forall y, P (f y) = false) -> forall y, P (upd t v f y) = false.
Proof. intros Hv H y. rewrite test_upd, H, Hv. by case_match. Qed.

(** At most one entry passes. *)
Lemma unique_upd {A} (P : A -> bool) t (v : A) f : (forall x y, P (f x) = true -> P (f y) = true -> x = y) ->
  P v = false \/ P (f t) = true -> forall x y, P (upd t v f x) = true -> P (upd t v f y) = true -> x = y.
Proof.
  intros Ha Hq x y. unfold upd. destruct (Z.eqb_spec x t) as [->|], (Z.eqb_spec y t) as [->|]; try done;
    intros Hx Hy; (destruct Hq as [Hq|Hq]; [first [congruence | by apply Ha]|by apply Ha]).
Qed.
