(* ===== verification/BitField.v ===== *)
(** Bit-field accessors of Utilities/BitField.h.

    [bf] is an instance of [bf_t<T, I, N>] (a field of [N] bits at position [I],
    0 being the least significant bit, of a [T] with [bitmax] bits), [cf] an
    instance of [cf_t<Fields...>], the concatenation of fields from left to right,
    whose members may be constants ([ff_t<T, V, N>]).  The storage is the unsigned
    bit pattern of [T].  The lemmas give the laws every user of the accessors
    relies on: a stored value is read back truncated (and sign-extended) to the
    width of the field, and storing to a field leaves disjoint fields alone. *)

From Stdlib Require Import ZArith Lia Bool.
From stdpp Require Import base tactics option list numbers.
From S2P Require Import Prelude.
Local Open Scope Z_scope.

Module BitField.

Record bf := Bf { bitmax : Z; is_signed : bool; bitpos : Z; bitsize : Z }.

(** [bf_base::vmask]: [mask1 >> (bitmax - bitsize)]. *)
Definition vmask (f : bf) : Z := Z.shiftr (Z.ones (bitmax f)) (bitmax f - bitsize f).

Definition data_mask (f : bf) : Z := wrap (bitmax f) (Z.shiftl (vmask f) (bitpos f)).

Definition extract (f : bf) (data : Z) : Z :=
  if is_signed f then
    Z.shiftr
      (sgn (bitmax f) (wrap (bitmax f) (Z.shiftl data (bitmax f - bitpos f - bitsize f))))
      (bitmax f - bitsize f)
  else Z.land (Z.shiftr data (bitpos f)) (vmask f).

Definition insert (f : bf) (value : Z) : Z :=
  wrap (bitmax f) (Z.shiftl (Z.land value (vmask f)) (bitpos f)).

Definition store (f : bf) (data value : Z) : Z :=
  Z.lor (Z.land data (bnot (bitmax f) (data_mask f))) (insert f value).

(** The "optimized bool conversion": [unshifted() != 0u]. *)
Definition to_bool (f : bf) (data : Z) : bool :=
  negb (Z.land data (data_mask f) =? 0).

(** The compound assignments and increments, through the value of the field.  The casts to
    [compact_type], which has at least the width of the field, keep the bits that are stored. *)
Definition add_assign (f : bf) (data right : Z) : Z := store f data (extract f data + right).
Definition sub_assign (f : bf) (data right : Z) : Z := store f data (extract f data - right).
Definition mul_assign (f : bf) (data right : Z) : Z := store f data (extract f data * right).
Definition increment (f : bf) (data : Z) : Z := store f data (extract f data + 1).
Definition decrement (f : bf) (data : Z) : Z := store f data (extract f data - 1).

(** The bitwise ones work on the storage. *)
Definition and_assign (f : bf) (data right : Z) : Z :=
  Z.land data (wrap (bitmax f) (Z.lor (Z.shiftl (Z.land right (vmask f)) (bitpos f))
                                      (Z.lnot (Z.shiftl (vmask f) (bitpos f))))).
Definition or_assign (f : bf) (data right : Z) : Z :=
  Z.lor data (wrap (bitmax f) (Z.shiftl (Z.land right (vmask f)) (bitpos f))).
Definition xor_assign (f : bf) (data right : Z) : Z :=
  Z.lxor data (wrap (bitmax f) (Z.shiftl (Z.land right (vmask f)) (bitpos f))).

(** Members of a field pack: [bf_t] or [ff_t]. *)
Inductive cf_item :=
| CfField (f : bf)
| CfConst (v n : Z).

Definition item_size (c : cf_item) : Z :=
  match c with CfField f => bitsize f | CfConst _ n => n end.

Definition item_extract (c : cf_item) (data : Z) : Z :=
  match c with CfField f => extract f data | CfConst v _ => v end.

Fixpoint cf_size (fs : list cf_item) : Z :=
  match fs with [] => 0 | c :: r => item_size c + cf_size r end.

(** [cf_t::extract], in a [bm]-bit (signed or unsigned) type. *)
Fixpoint cf_extract (bm : Z) (sg : bool) (fs : list cf_item) (data : Z) : Z :=
  match fs with
  | [] => 0
  | c :: r =>
      let x := Z.lor (Z.shiftl (wrap bm (item_extract c data)) (cf_size r))
                     (wrap bm (cf_extract bm sg r data)) in
      if sg then sgn bm x else wrap bm x
  end.

Fixpoint cf_insert (bm : Z) (fs : list cf_item) (value : Z) : Z :=
  match fs with
  | [] => 0
  | c :: r =>
      Z.lor (match c with
             | CfField f => insert f (Z.shiftr value (cf_size r))
             | CfConst _ _ => 0
             end) (cf_insert bm r value)
  end.

Fixpoint cf_data_mask (fs : list cf_item) : Z :=
  match fs with
  | [] => 0
  | CfField f :: r => Z.lor (data_mask f) (cf_data_mask r)
  | CfConst _ _ :: r => cf_data_mask r
  end.

Definition cf_store (bm : Z) (fs : list cf_item) (data value : Z) : Z :=
  Z.lor (Z.land data (bnot bm (cf_data_mask fs))) (cf_insert bm fs value).

(** *** Laws *)

(** The [static_assert]s of the class. *)
Definition valid (f : bf) : Prop :=
  0 <= bitpos f /\ 0 < bitsize f /\ bitpos f + bitsize f <= bitmax f.

(** The value a field of this type holds after [value] is assigned to it. *)
Definition truncate (f : bf) (value : Z) : Z :=
  if is_signed f then sgn (bitsize f) value else wrap (bitsize f) value.

Lemma vmask_ones f : valid f -> vmask f = Z.ones (bitsize f).
Proof.
  intros (?&?&?). apply Z.bits_inj'. intros i Hi. unfold vmask.
  autorewrite with bits. case_cmp; done.
Qed.

Lemma testbit_data_mask f i : valid f -> 0 <= i ->
  Z.testbit (data_mask f) i = (bitpos f <=? i) && (i <? bitpos f + bitsize f).
Proof.
  intros Hv Hi. unfold data_mask. rewrite vmask_ones by done.
  destruct Hv as (?&?&?). rewrite testbit_wrap, testbit_shiftl by lia.
  destruct (Z.leb_spec (bitpos f) i); simpl.
  - rewrite testbit_ones by lia. case_cmp; done.
  - case_cmp; done.
Qed.

Lemma testbit_insert f v i : valid f -> 0 <= i ->
  Z.testbit (insert f v) i =
  (bitpos f <=? i) && (i <? bitpos f + bitsize f) && Z.testbit v (i - bitpos f).
Proof.
  intros Hv Hi. unfold insert. rewrite vmask_ones by done.
  destruct Hv as (?&?&?). rewrite testbit_wrap, testbit_shiftl, Z.land_spec by lia.
  destruct (Z.leb_spec (bitpos f) i); simpl.
  - rewrite testbit_ones by lia. case_cmp; simpl; try done.
    all: by rewrite ?andb_true_r, ?andb_false_r.
  - case_cmp; done.
Qed.

Lemma testbit_store f d v i : valid f -> 0 <= i < bitmax f ->
  Z.testbit (store f d v) i =
  if (bitpos f <=? i) && (i <? bitpos f + bitsize f)
  then Z.testbit v (i - bitpos f) else Z.testbit d i.
Proof.
  intros Hv Hi. unfold store.
  rewrite Z.lor_spec, Z.land_spec, testbit_bnot, testbit_data_mask, testbit_insert
    by (done || lia || (destruct Hv; lia)).
  destruct (Z.ltb_spec i (bitmax f)); [|lia].
  destruct ((bitpos f <=? i) && _); simpl; [by rewrite andb_false_r|].
  by rewrite andb_true_r, orb_false_r.
Qed.

Lemma insert_in_u f v : valid f -> in_u (bitmax f) (insert f v).
Proof. intros (?&?&?). apply wrap_in_u. lia. Qed.

Lemma store_in_u f d v : valid f -> in_u (bitmax f) d -> in_u (bitmax f) (store f d v).
Proof.
  intros Hv Hd. pose proof Hv as (?&?&?). unfold store.
  apply lor_in_u; [lia|apply land_in_u_l; [lia|done]|by apply insert_in_u].
Qed.

(** The bits of an extracted field: bits of the storage, then the extension. *)
Lemma extract_mod f d : valid f ->
  extract f d = truncate f (Z.shiftr d (bitpos f)).
Proof.
  intros Hv. unfold extract, truncate. destruct (is_signed f).
  - destruct Hv as (?&?&?). set (w := bitmax f) in *. set (n := bitsize f) in *.
    set (p := bitpos f) in *.
    rewrite sgn_wrap by lia. unfold sgn.
    rewrite Z.shiftl_mul_pow2, Z.shiftr_div_pow2, Z.shiftr_div_pow2 by lia.
    assert (2 ^ w = 2 ^ n * 2 ^ (w - n)) as Ew by (rewrite <- Z.pow_add_r by lia; f_equal; lia).
    assert (2 ^ (w - 1) = 2 ^ (n - 1) * 2 ^ (w - n)) as Ew1
      by (rewrite <- Z.pow_add_r by lia; f_equal; lia).
    assert (2 ^ (w - n) = 2 ^ (w - p - n) * 2 ^ p) as Ep
      by (rewrite <- Z.pow_add_r by lia; f_equal; lia).
    pose proof (pow2_pos (w - n) ltac:(lia)). pose proof (pow2_pos (w - p - n) ltac:(lia)).
    pose proof (pow2_pos p ltac:(lia)). pose proof (pow2_pos n ltac:(lia)).
    rewrite Ew1. rewrite <- Z.add_opp_r, <- Z.mul_opp_l, Z.div_add by lia.
    rewrite Ew, (Z.mul_comm (2 ^ n)), Z.rem_mul_r by lia.
    rewrite (Z.mul_comm (2 ^ (w - n)) (_ mod _)), Z.div_add by lia.
    rewrite (Z.div_small (_ mod 2 ^ (w - n))) by (apply Z.mod_pos_bound; lia).
    rewrite Z.div_add, Z.add_0_l by lia.
    rewrite Ep, (Z.mul_comm d), Z.div_mul_cancel_l by lia. done.
  - rewrite vmask_ones by done. destruct Hv as (?&?&?).
    rewrite Z.land_ones by lia. done.
Qed.

Lemma truncate_bits f x y : valid f ->
  (forall i, 0 <= i < bitsize f -> Z.testbit x i = Z.testbit y i) ->
  truncate f x = truncate f y.
Proof.
  intros (?&?&?) Hb. assert (wrap (bitsize f) x = wrap (bitsize f) y) as E.
  { apply Z.bits_inj'. intros i Hi. rewrite !testbit_wrap by lia.
    destruct (Z.ltb_spec i (bitsize f)); simpl; [apply Hb; lia|done]. }
  unfold truncate. destruct (is_signed f); [|done].
  by rewrite <- (sgn_wrap _ x), <- (sgn_wrap _ y), E by lia.
Qed.

(** Reading a field [g] that lies inside the field [f] just stored. *)
Lemma extract_store_sub f g d v : valid f -> valid g -> bitmax f = bitmax g ->
  bitpos f <= bitpos g -> bitpos g + bitsize g <= bitpos f + bitsize f ->
  extract g (store f d v) = truncate g (Z.shiftr v (bitpos g - bitpos f)).
Proof.
  intros Hf Hg ???. rewrite extract_mod by done. apply truncate_bits; [done|].
  pose proof Hf as (?&?&?). pose proof Hg as (?&?&?).
  intros i Hi. rewrite !testbit_shiftr, testbit_store by (done || lia).
  case_cmp. simpl. f_equal. lia.
Qed.

(** Reading a field back after storing to it. *)
Lemma extract_store f d v : valid f -> extract f (store f d v) = truncate f v.
Proof.
  intros Hv. rewrite (extract_store_sub f f) by (done || lia).
  by rewrite Z.sub_diag, Z.shiftr_0_r.
Qed.

(** Two fields of the same storage that do not share a bit. *)
Definition disjoint_fields (f g : bf) : Prop :=
  bitmax f = bitmax g /\
  (bitpos f + bitsize f <= bitpos g \/ bitpos g + bitsize g <= bitpos f).

Lemma extract_store_ne f g d v : valid f -> valid g -> disjoint_fields f g ->
  extract g (store f d v) = extract g d.
Proof.
  intros Hf Hg (?&Hd). rewrite !extract_mod by done. apply truncate_bits; [done|].
  pose proof Hf as (?&?&?). pose proof Hg as (?&?&?).
  intros i Hi. rewrite !testbit_shiftr, testbit_store by (done || lia). case_cmp; done.
Qed.

(** A pack of two fields is assigned and read member by member. *)
Lemma cf_store_two f g d v : valid f -> valid g -> disjoint_fields f g ->
  in_u (bitmax f) d ->
  cf_store (bitmax f) [CfField f; CfField g] d v =
  store f (store g d v) (Z.shiftr v (bitsize g)).
Proof.
  intros Hf Hg Hd Hu. pose proof Hd as (E&Hpos). pose proof Hf as (?&?&?).
  pose proof Hg as (?&?&?). apply (bits_inj_u (bitmax f)); [lia| | |].
  - unfold cf_store. simpl. rewrite !Z.lor_0_r.
    apply lor_in_u; [lia|apply land_in_u_l; [lia|done]|].
    apply lor_in_u; [lia|by apply insert_in_u|rewrite E; by apply insert_in_u].
  - apply store_in_u; [done|]. rewrite E. apply store_in_u; [done|by rewrite <- E].
  - intros i Hi. rewrite !testbit_store by (done || lia). unfold cf_store. simpl.
    rewrite !Z.lor_0_r, Z.shiftr_0_r, !Z.lor_spec, Z.land_spec, testbit_bnot, Z.lor_spec,
      !testbit_data_mask, !testbit_insert, Z.add_0_r by (done || lia).
    case_cmp; simpl; rewrite ?andb_false_r, ?andb_true_r, ?orb_false_r; try done.
Qed.

Lemma cf_extract_two f g d : valid f -> valid g ->
  is_signed f = false -> is_signed g = false -> bitmax f = bitmax g ->
  bitsize f + bitsize g <= bitmax f ->
  cf_extract (bitmax f) false [CfField f; CfField g] d =
  extract f d * 2 ^ bitsize g + extract g d.
Proof.
  intros Hf Hg Sf Sg E Hs. pose proof Hf as (?&?&?). pose proof Hg as (?&?&?).
  assert (in_u (bitsize f) (extract f d)) as Uf.
  { rewrite extract_mod by done. unfold truncate. rewrite Sf. apply wrap_in_u. lia. }
  assert (in_u (bitsize g) (extract g d)) as Ug.
  { rewrite extract_mod by done. unfold truncate. rewrite Sg. apply wrap_in_u. lia. }
  assert (2 ^ (bitsize f + bitsize g) <= 2 ^ bitmax f) as Hle
    by (apply Z.pow_le_mono_r; lia).
  rewrite Z.pow_add_r in Hle by lia. unfold in_u in *.
  pose proof (pow2_pos (bitsize f) ltac:(lia)). pose proof (pow2_pos (bitsize g) ltac:(lia)).
  simpl. rewrite !Z.add_0_r, Z.shiftl_0_r. change (wrap (bitmax f) 0) with (0 mod 2 ^ bitmax f).
  rewrite Z.mod_0_l, Z.lor_0_r by nia.
  rewrite (wrap_small _ (extract f d)), !(wrap_small _ (extract g d)) by (unfold in_u; nia).
  rewrite lor_shiftl_add by lia. apply wrap_small. unfold in_u. nia.
Qed.

Lemma truncate_in f v : valid f ->
  if is_signed f then in_s (bitsize f) (truncate f v)
  else in_u (bitsize f) (truncate f v).
Proof.
  intros (?&?&?). unfold truncate. destruct (is_signed f).
  - by apply sgn_in_s.
  - apply wrap_in_u. lia.
Qed.

(** [operator bool] tests exactly the field. *)
Lemma to_bool_extract f d : valid f -> to_bool f d = negb (extract f d =? 0).
Proof.
  intros Hv. pose proof Hv as (?&?&?). unfold to_bool. f_equal.
  apply eq_true_iff_eq. rewrite !Z.eqb_eq, extract_mod by done.
  assert (truncate f (Z.shiftr d (bitpos f)) = 0 <->
          wrap (bitsize f) (Z.shiftr d (bitpos f)) = 0) as ->.
  { unfold truncate. destruct (is_signed f); [|done].
    rewrite sgn_eq by lia. pose proof (wrap_in_u (bitsize f) (Z.shiftr d (bitpos f))).
    pose proof (pow2_pos (bitsize f - 1) ltac:(lia)).
    pose proof (pow2_half (bitsize f) ltac:(lia)). unfold in_u in *. case_cmp. }
  split; intros E; apply Z.bits_inj'; intros i Hi; rewrite Z.bits_0.
  - rewrite testbit_wrap by lia. destruct (Z.ltb_spec i (bitsize f)); simpl; [|done].
    rewrite testbit_shiftr by lia.
    assert (Z.testbit (Z.land d (data_mask f)) (i + bitpos f) = false) as E'
      by (by rewrite E, Z.bits_0).
    rewrite Z.land_spec, testbit_data_mask in E' by (done || lia).
    revert E'. case_cmp. simpl. by rewrite andb_true_r.
  - rewrite Z.land_spec, testbit_data_mask by done.
    destruct (Z.leb_spec (bitpos f) i), (Z.ltb_spec i (bitpos f + bitsize f)); simpl;
      try (by rewrite andb_false_r).
    assert (Z.testbit (wrap (bitsize f) (Z.shiftr d (bitpos f))) (i - bitpos f) = false) as E'
      by (by rewrite E, Z.bits_0).
    rewrite testbit_wrap, testbit_shiftr in E' by lia.
    revert E'. case_cmp. replace (i - bitpos f + bitpos f) with i by lia.
    simpl. by intros ->.
Qed.

Lemma testbit_extract f d i : valid f -> 0 <= i < bitsize f ->
  Z.testbit (extract f d) i = Z.testbit d (i + bitpos f).
Proof.
  intros Hv Hi. pose proof Hv as (?&?&?). rewrite extract_mod by done.
  transitivity (Z.testbit (wrap (bitsize f) (truncate f (Z.shiftr d (bitpos f)))) i).
  { rewrite testbit_wrap by lia. by case_cmp. }
  assert (wrap (bitsize f) (truncate f (Z.shiftr d (bitpos f))) =
          wrap (bitsize f) (Z.shiftr d (bitpos f))) as ->.
  { unfold truncate. destruct (is_signed f); [by rewrite wrap_sgn by lia|by rewrite wrap_wrap by lia]. }
  rewrite testbit_wrap, testbit_shiftr by lia. by case_cmp.
Qed.

(** The bitwise assignments on the storage are assignments of the combined value. *)
Lemma bitwise_assign f d r : valid f -> in_u (bitmax f) d ->
  and_assign f d r = store f d (Z.land (extract f d) r) /\
  or_assign f d r = store f d (Z.lor (extract f d) r) /\
  xor_assign f d r = store f d (Z.lxor (extract f d) r).
Proof.
  intros Hv Hd. pose proof Hv as (?&?&?). unfold and_assign, or_assign, xor_assign.
  rewrite !vmask_ones by done. split_and!.
  all: apply (bits_inj_u (bitmax f)); [lia| |by apply store_in_u|].
  1: apply land_in_u_l; [lia|done].
  2: apply lor_in_u; [lia|done|apply wrap_in_u; lia].
  3: apply lxor_in_u; [lia|done|apply wrap_in_u; lia].
  all: intros i Hi; rewrite testbit_store by (done || lia);
    rewrite ?Z.land_spec, ?Z.lor_spec, ?Z.lxor_spec, testbit_wrap by lia;
    rewrite ?Z.lor_spec, ?Z.lnot_spec, !testbit_shiftl, ?Z.land_spec by lia;
    destruct (Z.ltb_spec i (bitmax f)), (Z.leb_spec (bitpos f) i),
      (Z.ltb_spec i (bitpos f + bitsize f)); try lia; cbn [andb orb negb].
  all: rewrite ?testbit_ones, ?testbit_extract by (done || lia);
    replace (i - bitpos f + bitpos f) with i by lia.
  all: case_cmp; cbn [negb]; rewrite ?andb_true_r, ?andb_false_r, ?orb_false_r, ?orb_true_r, ?xorb_false_r;
    cbn [orb]; rewrite ?andb_true_r; done.
Qed.

End BitField.
