(* ===== verification/PpuOpcodes.v ===== *)
(** PPU instruction words: rpcs3/Emu/Cell/PPUOpcodes.h.

    [ppu_field] lists the members of [union ppu_opcode_t]; [op_get] and [op_set]
    read and assign them through the accessors of BitField.  [Itype.itype]
    lists every instruction name of the decoder; [ppu_decoder_table] builds the
    131072-entry table of [ppu_decoder] by the same writes as [fill_table], and
    [decode] looks an instruction word up in it.  [decode_ref] is the reference
    decoder (compare the opcode fields of the instruction word with each table
    row); [decode_eq_ref] shows that the table computes it.  The assembler of the same
    header is in PpuAsm. *)

From Stdlib Require Import ZArith Lia Bool.
From stdpp Require Import base tactics option list numbers gmap.
From S2P Require Import Prelude BitField.
Import BitField.
Local Open Scope Z_scope.
Local Open Scope word_scope.

(** ** Fields of [ppu_opcode_t] *)

Inductive ppu_field : Set :=
| f_main | f_sh64 | f_mbe64 | f_vuimm | f_vs | f_vsh | f_oe | f_spr | f_vc | f_vb
| f_va | f_vd | f_lk | f_aa | f_rb | f_ra | f_rd | f_uimm16 | f_l11 | f_rs
| f_simm16 | f_ds | f_vsimm | f_ll | f_li | f_lev | f_i | f_crfs | f_l10 | f_crfd
| f_crbb | f_crba | f_crbd | f_rc | f_me32 | f_mb32 | f_sh32 | f_bi | f_bo | f_bh
| f_frc | f_frb | f_fra | f_frd | f_crm | f_frs | f_flm | f_l6 | f_l15 | f_bt14
| f_bt24.

(** [ppu_bf_t<T, I, N>]: big-endian bit numbering. *)
Definition ppu_bf (sg : bool) (i n : Z) : bf := Bf 32 sg (32 - n - i) n.

Inductive field_ty :=
| FBf (f : bf)
| FCf (sg : bool) (fs : list cf_item).

Definition field_desc (f : ppu_field) : field_ty :=
  match f with
  | f_main => FBf (ppu_bf false 0 6)
  | f_sh64 => FCf false [CfField (ppu_bf false 30 1); CfField (ppu_bf false 16 5)]
  | f_mbe64 => FCf false [CfField (ppu_bf false 26 1); CfField (ppu_bf false 21 5)]
  | f_vuimm => FBf (ppu_bf false 11 5)
  | f_vs => FBf (ppu_bf false 6 5)
  | f_vsh => FBf (ppu_bf false 22 4)
  | f_oe => FBf (ppu_bf false 21 1)
  | f_spr => FBf (ppu_bf false 11 10)
  | f_vc => FBf (ppu_bf false 21 5)
  | f_vb => FBf (ppu_bf false 16 5)
  | f_va => FBf (ppu_bf false 11 5)
  | f_vd => FBf (ppu_bf false 6 5)
  | f_lk => FBf (ppu_bf false 31 1)
  | f_aa => FBf (ppu_bf false 30 1)
  | f_rb => FBf (ppu_bf false 16 5)
  | f_ra => FBf (ppu_bf false 11 5)
  | f_rd => FBf (ppu_bf false 6 5)
  | f_uimm16 => FBf (ppu_bf false 16 16)
  | f_l11 => FBf (ppu_bf false 11 1)
  | f_rs => FBf (ppu_bf false 6 5)
  | f_simm16 => FBf (ppu_bf true 16 16)
  | f_ds => FBf (ppu_bf true 16 14)
  | f_vsimm => FBf (ppu_bf true 11 5)
  | f_ll => FBf (ppu_bf true 6 26)
  | f_li => FBf (ppu_bf true 6 24)
  | f_lev => FBf (ppu_bf false 20 7)
  | f_i => FBf (ppu_bf false 16 4)
  | f_crfs => FBf (ppu_bf false 11 3)
  | f_l10 => FBf (ppu_bf false 10 1)
  | f_crfd => FBf (ppu_bf false 6 3)
  | f_crbb => FBf (ppu_bf false 16 5)
  | f_crba => FBf (ppu_bf false 11 5)
  | f_crbd => FBf (ppu_bf false 6 5)
  | f_rc => FBf (ppu_bf false 31 1)
  | f_me32 => FBf (ppu_bf false 26 5)
  | f_mb32 => FBf (ppu_bf false 21 5)
  | f_sh32 => FBf (ppu_bf false 16 5)
  | f_bi => FBf (ppu_bf false 11 5)
  | f_bo => FBf (ppu_bf false 6 5)
  | f_bh => FBf (ppu_bf false 19 2)
  | f_frc => FBf (ppu_bf false 21 5)
  | f_frb => FBf (ppu_bf false 16 5)
  | f_fra => FBf (ppu_bf false 11 5)
  | f_frd => FBf (ppu_bf false 6 5)
  | f_crm => FBf (ppu_bf false 12 8)
  | f_frs => FBf (ppu_bf false 6 5)
  | f_flm => FBf (ppu_bf false 7 8)
  | f_l6 => FBf (ppu_bf false 6 1)
  | f_l15 => FBf (ppu_bf false 15 1)
  | f_bt14 => FCf true [CfField (ppu_bf true 16 14); CfConst 0 2]
  | f_bt24 => FCf true [CfField (ppu_bf true 6 24); CfConst 0 2]
  end.

Definition op_get (f : ppu_field) (op : Z) : Z :=
  match field_desc f with
  | FBf b => extract b op
  | FCf sg fs => cf_extract 32 sg fs op
  end.

Definition op_set (f : ppu_field) (op v : Z) : Z :=
  match field_desc f with
  | FBf b => store b op v
  | FCf _ fs => cf_store 32 fs op v
  end.

Notation "op .[ f ]" := (op_get f op) (at level 1, format "op .[ f ]") : word_scope.

(** ** Rotate mask and decoder key *)

Definition ppu_rotate_mask (mb me : Z) : Z :=
  let mask := u64 (Z.shiftl (bnot 64 0) (bnot 32 (u32 (me - mb)) .& 63)) in
  Z.lor (Z.shiftr mask (mb .& 63)) (u64 (Z.shiftl mask (u32 (64 - mb) .& 63))).

Definition ppu_decode (inst : Z) : Z :=
  Z.land (Z.lor (Z.shiftr inst 26) (u32 (Z.shiftl inst 6))) 131071 (* 0x1ffff *).

#[global] Arguments ppu_rotate_mask : simpl never.
#[global] Arguments ppu_decode : simpl never.

(** ** Decoder *)

Module Itype.
Inductive itype : Set :=
  | TDI | TWI | MULLI | SUBFIC | CMPLI | CMPI | ADDIC | ADDI | ADDIS | BC
  | SC | B | RLWIMI | RLWIMI_ | RLWINM | RLWINM_ | RLWNM | RLWNM_ | ORI
  | ORIS | XORI | XORIS | ANDI | ANDIS | LWZ | LWZU | LBZ | LBZU | STW | STWU
  | STB | STBU | LHZ | LHZU | LHA | LHAU | STH | STHU | LMW | STMW | LFS
  | LFSU | LFD | LFDU | STFS | STFSU | STFD | STFDU | VADDUBM | VMAXUB | VRLB
  | VCMPEQUB | VCMPEQUB_ | VMULOUB | VADDFP | VMRGHB | VPKUHUM | VMHADDSHS
  | VMHRADDSHS | VMLADDUHM | VMSUMUBM | VMSUMMBM | VMSUMUHM | VMSUMUHS
  | VMSUMSHM | VMSUMSHS | VSEL | VPERM | VSLDOI | VMADDFP | VNMSUBFP
  | VADDUHM | VMAXUH | VRLH | VCMPEQUH | VCMPEQUH_ | VMULOUH | VSUBFP
  | VMRGHH | VPKUWUM | VADDUWM | VMAXUW | VRLW | VCMPEQUW | VCMPEQUW_
  | VMRGHW | VPKUHUS | VCMPEQFP | VCMPEQFP_ | VPKUWUS | VMAXSB | VSLB
  | VMULOSB | VREFP | VMRGLB | VPKSHUS | VMAXSH | VSLH | VMULOSH | VRSQRTEFP
  | VMRGLH | VPKSWUS | VADDCUW | VMAXSW | VSLW | VEXPTEFP | VMRGLW | VPKSHSS
  | VSL | VCMPGEFP | VCMPGEFP_ | VLOGEFP | VPKSWSS | VADDUBS | VMINUB | VSRB
  | VCMPGTUB | VCMPGTUB_ | VMULEUB | VRFIN | VSPLTB | VUPKHSB | VADDUHS
  | VMINUH | VSRH | VCMPGTUH | VCMPGTUH_ | VMULEUH | VRFIZ | VSPLTH | VUPKHSH
  | VADDUWS | VMINUW | VSRW | VCMPGTUW | VCMPGTUW_ | VRFIP | VSPLTW | VUPKLSB
  | VSR | VCMPGTFP | VCMPGTFP_ | VRFIM | VUPKLSH | VADDSBS | VMINSB | VSRAB
  | VCMPGTSB | VCMPGTSB_ | VMULESB | VCFUX | VSPLTISB | VPKPX | VADDSHS
  | VMINSH | VSRAH | VCMPGTSH | VCMPGTSH_ | VMULESH | VCFSX | VSPLTISH
  | VUPKHPX | VADDSWS | VMINSW | VSRAW | VCMPGTSW | VCMPGTSW_ | VCTUXS
  | VSPLTISW | VCMPBFP | VCMPBFP_ | VCTSXS | VUPKLPX | VSUBUBM | VAVGUB
  | VAND | VMAXFP | VSLO | VSUBUHM | VAVGUH | VANDC | VMINFP | VSRO | VSUBUWM
  | VAVGUW | VOR | VXOR | VAVGSB | VNOR | VAVGSH | VSUBCUW | VAVGSW | VSUBUBS
  | MFVSCR | VSUM4UBS | VSUBUHS | MTVSCR | VSUM4SHS | VSUBUWS | VSUM2SWS
  | VSUBSBS | VSUM4SBS | VSUBSHS | VSUBSWS | VSUMSWS | MCRF | BCLR | CRNOR
  | CRANDC | ISYNC | CRXOR | CRNAND | CRAND | CREQV | CRORC | CROR | BCCTR
  | RLDICL | RLDICL_ | RLDICR | RLDICR_ | RLDIC | RLDIC_ | RLDIMI | RLDIMI_
  | RLDCL | RLDCL_ | RLDCR | RLDCR_ | CMP | TW | LVSL | LVEBX | SUBFC
  | SUBFC_ | SUBFCO | SUBFCO_ | MULHDU | MULHDU_ | ADDC | ADDC_ | ADDCO
  | ADDCO_ | MULHWU | MULHWU_ | MFOCRF | LWARX | LDX | LWZX | SLW | SLW_
  | CNTLZW | CNTLZW_ | SLD | SLD_ | AND | AND_ | CMPL | LVSR | LVEHX | SUBF
  | SUBF_ | SUBFO | SUBFO_ | LDUX | DCBST | LWZUX | CNTLZD | CNTLZD_ | ANDC
  | ANDC_ | TD | LVEWX | MULHD | MULHD_ | MULHW | MULHW_ | LDARX | DCBF
  | LBZX | LVX | NEG | NEG_ | NEGO | NEGO_ | LBZUX | NOR | NOR_ | STVEBX
  | SUBFE | SUBFE_ | SUBFEO | SUBFEO_ | ADDE | ADDE_ | ADDEO | ADDEO_
  | MTOCRF | STDX | STWCX | STWX | STVEHX | STDUX | STWUX | STVEWX | SUBFZE
  | SUBFZE_ | SUBFZEO | SUBFZEO_ | ADDZE | ADDZE_ | ADDZEO | ADDZEO_ | STDCX
  | STBX | STVX | SUBFME | SUBFME_ | SUBFMEO | SUBFMEO_ | MULLD | MULLD_
  | MULLDO | MULLDO_ | ADDME | ADDME_ | ADDMEO | ADDMEO_ | MULLW | MULLW_
  | MULLWO | MULLWO_ | DCBTST | STBUX | ADD | ADD_ | ADDO | ADDO_ | DCBT
  | LHZX | EQV | EQV_ | ECIWX | LHZUX | XOR | XOR_ | MFSPR | LWAX | DST
  | LHAX | LVXL | MFTB | LWAUX | DSTST | LHAUX | STHX | ORC | ORC_ | ECOWX
  | STHUX | OR | OR_ | DIVDU | DIVDU_ | DIVDUO | DIVDUO_ | DIVWU | DIVWU_
  | DIVWUO | DIVWUO_ | MTSPR | DCBI | NAND | NAND_ | STVXL | DIVD | DIVD_
  | DIVDO | DIVDO_ | DIVW | DIVW_ | DIVWO | DIVWO_ | LVLX | LDBRX | LSWX
  | LWBRX | LFSX | SRW | SRW_ | SRD | SRD_ | LVRX | LFSUX | LSWI | SYNC
  | LFDX | LFDUX | STVLX | STDBRX | STSWX | STWBRX | STFSX | STVRX | STFSUX
  | STSWI | STFDX | STFDUX | LVLXL | LHBRX | SRAW | SRAW_ | SRAD | SRAD_
  | LVRXL | DSS | SRAWI | SRAWI_ | SRADI | SRADI_ | EIEIO | STVLXL | STHBRX
  | EXTSH | EXTSH_ | STVRXL | EXTSB | EXTSB_ | STFIWX | EXTSW | EXTSW_ | ICBI
  | DCBZ | LD | LDU | LWA | FDIVS | FDIVS_ | FSUBS | FSUBS_ | FADDS | FADDS_
  | FSQRTS | FSQRTS_ | FRES | FRES_ | FMULS | FMULS_ | FMSUBS | FMSUBS_
  | FMADDS | FMADDS_ | FNMSUBS | FNMSUBS_ | FNMADDS | FNMADDS_ | STD | STDU
  | MTFSB1 | MTFSB1_ | MCRFS | MTFSB0 | MTFSB0_ | MTFSFI | MTFSFI_ | MFFS
  | MFFS_ | MTFSF | MTFSF_ | FCMPU | FRSP | FRSP_ | FCTIW | FCTIW_ | FCTIWZ
  | FCTIWZ_ | FDIV | FDIV_ | FSUB | FSUB_ | FADD | FADD_ | FSQRT | FSQRT_
  | FSEL | FSEL_ | FMUL | FMUL_ | FRSQRTE | FRSQRTE_ | FMSUB | FMSUB_ | FMADD
  | FMADD_ | FNMSUB | FNMSUB_ | FNMADD | FNMADD_ | FCMPO | FNEG | FNEG_ | FMR
  | FMR_ | FNABS | FNABS_ | FABS | FABS_ | FCTID | FCTID_ | FCTIDZ | FCTIDZ_
  | FCFID | FCFID_ | UNK.
End Itype.

Abbreviation itype := Itype.itype.

(** [ppu_decoder::instruction_info] *)
Record instruction_info := Info {
  value : Z;
  ptr0 : itype;
  ptr_rc : itype;
  magn : Z
}.

(** The writes [fill_table] makes for one row: (index of [m_table], pointer). *)
Definition fill_entry (main_op count sh : Z) (v : instruction_info) : list (Z * itype) :=
  if sh <? 11 then
    i ← seqZ 0 (2 ^ (magn v + (11 - sh - count)));
    j ← seqZ 0 (2 ^ sh);
    let k := Z.lor (Z.shiftl (Z.lor (Z.shiftl i (count - magn v)) (value v)) sh) j in
    [(Z.lor (Z.shiftl k 6) main_op, if Z.odd k then ptr_rc v else ptr0 v)]
  else
    i ← seqZ 0 (2 ^ 11);
    [(Z.lor (Z.shiftl i 6) (value v), if Z.odd i then ptr_rc v else ptr0 v)].

#[global] Arguments fill_entry : simpl never.

Definition fill_table (main_op count sh : Z) (entries : list instruction_info)
    : list (Z * itype) :=
  v ← entries; fill_entry main_op count sh v.

Section tables.
Import Itype.

(** PPUOpcodes.h, lines 161-209. *)
Definition main_entries : list instruction_info :=
  [Info 0x02 TDI TDI 0; Info 0x03 TWI TWI 0; Info 0x07 MULLI MULLI 0;
   Info 0x08 SUBFIC SUBFIC 0; Info 0x0a CMPLI CMPLI 0; Info 0x0b CMPI CMPI 0;
   Info 0x0c ADDIC ADDIC 0; Info 0x0d ADDIC ADDIC 0; Info 0x0e ADDI ADDI 0;
   Info 0x0f ADDIS ADDIS 0; Info 0x10 BC BC 0; Info 0x11 SC SC 0;
   Info 0x12 B B 0; Info 0x14 RLWIMI RLWIMI_ 0; Info 0x15 RLWINM RLWINM_ 0;
   Info 0x17 RLWNM RLWNM_ 0; Info 0x18 ORI ORI 0; Info 0x19 ORIS ORIS 0;
   Info 0x1a XORI XORI 0; Info 0x1b XORIS XORIS 0; Info 0x1c ANDI ANDI 0;
   Info 0x1d ANDIS ANDIS 0; Info 0x20 LWZ LWZ 0; Info 0x21 LWZU LWZU 0;
   Info 0x22 LBZ LBZ 0; Info 0x23 LBZU LBZU 0; Info 0x24 STW STW 0;
   Info 0x25 STWU STWU 0; Info 0x26 STB STB 0; Info 0x27 STBU STBU 0;
   Info 0x28 LHZ LHZ 0; Info 0x29 LHZU LHZU 0; Info 0x2a LHA LHA 0;
   Info 0x2b LHAU LHAU 0; Info 0x2c STH STH 0; Info 0x2d STHU STHU 0;
   Info 0x2e LMW LMW 0; Info 0x2f STMW STMW 0; Info 0x30 LFS LFS 0;
   Info 0x31 LFSU LFSU 0; Info 0x32 LFD LFD 0; Info 0x33 LFDU LFDU 0;
   Info 0x34 STFS STFS 0; Info 0x35 STFSU STFSU 0; Info 0x36 STFD STFD 0;
   Info 0x37 STFDU STFDU 0].

(** PPUOpcodes.h, lines 212-374. *)
Definition group_04_entries : list instruction_info :=
  [Info 0x0 VADDUBM VADDUBM 0; Info 0x2 VMAXUB VMAXUB 0; Info 0x4 VRLB VRLB 0;
   Info 0x006 VCMPEQUB VCMPEQUB 0; Info 0x406 VCMPEQUB_ VCMPEQUB_ 0;
   Info 0x8 VMULOUB VMULOUB 0; Info 0xa VADDFP VADDFP 0;
   Info 0xc VMRGHB VMRGHB 0; Info 0xe VPKUHUM VPKUHUM 0;
   Info 0x20 VMHADDSHS VMHADDSHS 5; Info 0x21 VMHRADDSHS VMHRADDSHS 5;
   Info 0x22 VMLADDUHM VMLADDUHM 5; Info 0x24 VMSUMUBM VMSUMUBM 5;
   Info 0x25 VMSUMMBM VMSUMMBM 5; Info 0x26 VMSUMUHM VMSUMUHM 5;
   Info 0x27 VMSUMUHS VMSUMUHS 5; Info 0x28 VMSUMSHM VMSUMSHM 5;
   Info 0x29 VMSUMSHS VMSUMSHS 5; Info 0x2a VSEL VSEL 5;
   Info 0x2b VPERM VPERM 5; Info 0x2c VSLDOI VSLDOI 5;
   Info 0x2e VMADDFP VMADDFP 5; Info 0x2f VNMSUBFP VNMSUBFP 5;
   Info 0x40 VADDUHM VADDUHM 0; Info 0x42 VMAXUH VMAXUH 0;
   Info 0x44 VRLH VRLH 0; Info 0x046 VCMPEQUH VCMPEQUH 0;
   Info 0x446 VCMPEQUH_ VCMPEQUH_ 0; Info 0x48 VMULOUH VMULOUH 0;
   Info 0x4a VSUBFP VSUBFP 0; Info 0x4c VMRGHH VMRGHH 0;
   Info 0x4e VPKUWUM VPKUWUM 0; Info 0x80 VADDUWM VADDUWM 0;
   Info 0x82 VMAXUW VMAXUW 0; Info 0x84 VRLW VRLW 0;
   Info 0x086 VCMPEQUW VCMPEQUW 0; Info 0x486 VCMPEQUW_ VCMPEQUW_ 0;
   Info 0x8c VMRGHW VMRGHW 0; Info 0x8e VPKUHUS VPKUHUS 0;
   Info 0x0c6 VCMPEQFP VCMPEQFP 0; Info 0x4c6 VCMPEQFP_ VCMPEQFP_ 0;
   Info 0xce VPKUWUS VPKUWUS 0; Info 0x102 VMAXSB VMAXSB 0;
   Info 0x104 VSLB VSLB 0; Info 0x108 VMULOSB VMULOSB 0;
   Info 0x10a VREFP VREFP 0; Info 0x10c VMRGLB VMRGLB 0;
   Info 0x10e VPKSHUS VPKSHUS 0; Info 0x142 VMAXSH VMAXSH 0;
   Info 0x144 VSLH VSLH 0; Info 0x148 VMULOSH VMULOSH 0;
   Info 0x14a VRSQRTEFP VRSQRTEFP 0; Info 0x14c VMRGLH VMRGLH 0;
   Info 0x14e VPKSWUS VPKSWUS 0; Info 0x180 VADDCUW VADDCUW 0;
   Info 0x182 VMAXSW VMAXSW 0; Info 0x184 VSLW VSLW 0;
   Info 0x18a VEXPTEFP VEXPTEFP 0; Info 0x18c VMRGLW VMRGLW 0;
   Info 0x18e VPKSHSS VPKSHSS 0; Info 0x1c4 VSL VSL 0;
   Info 0x1c6 VCMPGEFP VCMPGEFP 0; Info 0x5c6 VCMPGEFP_ VCMPGEFP_ 0;
   Info 0x1ca VLOGEFP VLOGEFP 0; Info 0x1ce VPKSWSS VPKSWSS 0;
   Info 0x200 VADDUBS VADDUBS 0; Info 0x202 VMINUB VMINUB 0;
   Info 0x204 VSRB VSRB 0; Info 0x206 VCMPGTUB VCMPGTUB 0;
   Info 0x606 VCMPGTUB_ VCMPGTUB_ 0; Info 0x208 VMULEUB VMULEUB 0;
   Info 0x20a VRFIN VRFIN 0; Info 0x20c VSPLTB VSPLTB 0;
   Info 0x20e VUPKHSB VUPKHSB 0; Info 0x240 VADDUHS VADDUHS 0;
   Info 0x242 VMINUH VMINUH 0; Info 0x244 VSRH VSRH 0;
   Info 0x246 VCMPGTUH VCMPGTUH 0; Info 0x646 VCMPGTUH_ VCMPGTUH_ 0;
   Info 0x248 VMULEUH VMULEUH 0; Info 0x24a VRFIZ VRFIZ 0;
   Info 0x24c VSPLTH VSPLTH 0; Info 0x24e VUPKHSH VUPKHSH 0;
   Info 0x280 VADDUWS VADDUWS 0; Info 0x282 VMINUW VMINUW 0;
   Info 0x284 VSRW VSRW 0; Info 0x286 VCMPGTUW VCMPGTUW 0;
   Info 0x686 VCMPGTUW_ VCMPGTUW_ 0; Info 0x28a VRFIP VRFIP 0;
   Info 0x28c VSPLTW VSPLTW 0; Info 0x28e VUPKLSB VUPKLSB 0;
   Info 0x2c4 VSR VSR 0; Info 0x2c6 VCMPGTFP VCMPGTFP 0;
   Info 0x6c6 VCMPGTFP_ VCMPGTFP_ 0; Info 0x2ca VRFIM VRFIM 0;
   Info 0x2ce VUPKLSH VUPKLSH 0; Info 0x300 VADDSBS VADDSBS 0;
   Info 0x302 VMINSB VMINSB 0; Info 0x304 VSRAB VSRAB 0;
   Info 0x306 VCMPGTSB VCMPGTSB 0; Info 0x706 VCMPGTSB_ VCMPGTSB_ 0;
   Info 0x308 VMULESB VMULESB 0; Info 0x30a VCFUX VCFUX 0;
   Info 0x30c VSPLTISB VSPLTISB 0; Info 0x30e VPKPX VPKPX 0;
   Info 0x340 VADDSHS VADDSHS 0; Info 0x342 VMINSH VMINSH 0;
   Info 0x344 VSRAH VSRAH 0; Info 0x346 VCMPGTSH VCMPGTSH 0;
   Info 0x746 VCMPGTSH_ VCMPGTSH_ 0; Info 0x348 VMULESH VMULESH 0;
   Info 0x34a VCFSX VCFSX 0; Info 0x34c VSPLTISH VSPLTISH 0;
   Info 0x34e VUPKHPX VUPKHPX 0; Info 0x380 VADDSWS VADDSWS 0;
   Info 0x382 VMINSW VMINSW 0; Info 0x384 VSRAW VSRAW 0;
   Info 0x386 VCMPGTSW VCMPGTSW 0; Info 0x786 VCMPGTSW_ VCMPGTSW_ 0;
   Info 0x38a VCTUXS VCTUXS 0; Info 0x38c VSPLTISW VSPLTISW 0;
   Info 0x3c6 VCMPBFP VCMPBFP 0; Info 0x7c6 VCMPBFP_ VCMPBFP_ 0;
   Info 0x3ca VCTSXS VCTSXS 0; Info 0x3ce VUPKLPX VUPKLPX 0;
   Info 0x400 VSUBUBM VSUBUBM 0; Info 0x402 VAVGUB VAVGUB 0;
   Info 0x404 VAND VAND 0; Info 0x40a VMAXFP VMAXFP 0; Info 0x40c VSLO VSLO 0;
   Info 0x440 VSUBUHM VSUBUHM 0; Info 0x442 VAVGUH VAVGUH 0;
   Info 0x444 VANDC VANDC 0; Info 0x44a VMINFP VMINFP 0;
   Info 0x44c VSRO VSRO 0; Info 0x480 VSUBUWM VSUBUWM 0;
   Info 0x482 VAVGUW VAVGUW 0; Info 0x484 VOR VOR 0; Info 0x4c4 VXOR VXOR 0;
   Info 0x502 VAVGSB VAVGSB 0; Info 0x504 VNOR VNOR 0;
   Info 0x542 VAVGSH VAVGSH 0; Info 0x580 VSUBCUW VSUBCUW 0;
   Info 0x582 VAVGSW VAVGSW 0; Info 0x600 VSUBUBS VSUBUBS 0;
   Info 0x604 MFVSCR MFVSCR 0; Info 0x608 VSUM4UBS VSUM4UBS 0;
   Info 0x640 VSUBUHS VSUBUHS 0; Info 0x644 MTVSCR MTVSCR 0;
   Info 0x648 VSUM4SHS VSUM4SHS 0; Info 0x680 VSUBUWS VSUBUWS 0;
   Info 0x688 VSUM2SWS VSUM2SWS 0; Info 0x700 VSUBSBS VSUBSBS 0;
   Info 0x708 VSUM4SBS VSUM4SBS 0; Info 0x740 VSUBSHS VSUBSHS 0;
   Info 0x780 VSUBSWS VSUBSWS 0; Info 0x788 VSUMSWS VSUMSWS 0].

(** PPUOpcodes.h, lines 377-391. *)
Definition group_13_entries : list instruction_info :=
  [Info 0x000 MCRF MCRF 0; Info 0x010 BCLR BCLR 0; Info 0x021 CRNOR CRNOR 0;
   Info 0x081 CRANDC CRANDC 0; Info 0x096 ISYNC ISYNC 0;
   Info 0x0c1 CRXOR CRXOR 0; Info 0x0e1 CRNAND CRNAND 0;
   Info 0x101 CRAND CRAND 0; Info 0x121 CREQV CREQV 0;
   Info 0x1a1 CRORC CRORC 0; Info 0x1c1 CROR CROR 0; Info 0x210 BCCTR BCCTR 0].

(** PPUOpcodes.h, lines 394-406. *)
Definition group_1e_entries : list instruction_info :=
  [Info 0x0 RLDICL RLDICL_ 0; Info 0x1 RLDICL RLDICL_ 0;
   Info 0x2 RLDICR RLDICR_ 0; Info 0x3 RLDICR RLDICR_ 0;
   Info 0x4 RLDIC RLDIC_ 0; Info 0x5 RLDIC RLDIC_ 0; Info 0x6 RLDIMI RLDIMI_ 0;
   Info 0x7 RLDIMI RLDIMI_ 0; Info 0x8 RLDCL RLDCL_ 0;
   Info 0x9 RLDCR RLDCR_ 0].

(** PPUOpcodes.h, lines 409-557. *)
Definition group_1f_entries : list instruction_info :=
  [Info 0x000 CMP CMP 0; Info 0x004 TW TW 0; Info 0x006 LVSL LVSL 0;
   Info 0x007 LVEBX LVEBX 0; Info 0x008 SUBFC SUBFC_ 0;
   Info 0x208 SUBFCO SUBFCO_ 0; Info 0x009 MULHDU MULHDU_ 0;
   Info 0x00a ADDC ADDC_ 0; Info 0x20a ADDCO ADDCO_ 0;
   Info 0x00b MULHWU MULHWU_ 0; Info 0x013 MFOCRF MFOCRF 0;
   Info 0x014 LWARX LWARX 0; Info 0x015 LDX LDX 0; Info 0x017 LWZX LWZX 0;
   Info 0x018 SLW SLW_ 0; Info 0x01a CNTLZW CNTLZW_ 0; Info 0x01b SLD SLD_ 0;
   Info 0x01c AND AND_ 0; Info 0x020 CMPL CMPL 0; Info 0x026 LVSR LVSR 0;
   Info 0x027 LVEHX LVEHX 0; Info 0x028 SUBF SUBF_ 0;
   Info 0x228 SUBFO SUBFO_ 0; Info 0x035 LDUX LDUX 0; Info 0x036 DCBST DCBST 0;
   Info 0x037 LWZUX LWZUX 0; Info 0x03a CNTLZD CNTLZD_ 0;
   Info 0x03c ANDC ANDC_ 0; Info 0x044 TD TD 0; Info 0x047 LVEWX LVEWX 0;
   Info 0x049 MULHD MULHD_ 0; Info 0x04b MULHW MULHW_ 0;
   Info 0x054 LDARX LDARX 0; Info 0x056 DCBF DCBF 0; Info 0x057 LBZX LBZX 0;
   Info 0x067 LVX LVX 0; Info 0x068 NEG NEG_ 0; Info 0x268 NEGO NEGO_ 0;
   Info 0x077 LBZUX LBZUX 0; Info 0x07c NOR NOR_ 0; Info 0x087 STVEBX STVEBX 0;
   Info 0x088 SUBFE SUBFE_ 0; Info 0x288 SUBFEO SUBFEO_ 0;
   Info 0x08a ADDE ADDE_ 0; Info 0x28a ADDEO ADDEO_ 0;
   Info 0x090 MTOCRF MTOCRF 0; Info 0x095 STDX STDX 0;
   Info 0x096 STWCX STWCX 0; Info 0x097 STWX STWX 0;
   Info 0x0a7 STVEHX STVEHX 0; Info 0x0b5 STDUX STDUX 0;
   Info 0x0b7 STWUX STWUX 0; Info 0x0c7 STVEWX STVEWX 0;
   Info 0x0c8 SUBFZE SUBFZE_ 0; Info 0x2c8 SUBFZEO SUBFZEO_ 0;
   Info 0x0ca ADDZE ADDZE_ 0; Info 0x2ca ADDZEO ADDZEO_ 0;
   Info 0x0d6 STDCX STDCX 0; Info 0x0d7 STBX STBX 0; Info 0x0e7 STVX STVX 0;
   Info 0x0e8 SUBFME SUBFME_ 0; Info 0x2e8 SUBFMEO SUBFMEO_ 0;
   Info 0x0e9 MULLD MULLD_ 0; Info 0x2e9 MULLDO MULLDO_ 0;
   Info 0x0ea ADDME ADDME_ 0; Info 0x2ea ADDMEO ADDMEO_ 0;
   Info 0x0eb MULLW MULLW_ 0; Info 0x2eb MULLWO MULLWO_ 0;
   Info 0x0f6 DCBTST DCBTST 0; Info 0x0f7 STBUX STBUX 0; Info 0x10a ADD ADD_ 0;
   Info 0x30a ADDO ADDO_ 0; Info 0x116 DCBT DCBT 0; Info 0x117 LHZX LHZX 0;
   Info 0x11c EQV EQV_ 0; Info 0x136 ECIWX ECIWX 0; Info 0x137 LHZUX LHZUX 0;
   Info 0x13c XOR XOR_ 0; Info 0x153 MFSPR MFSPR 0; Info 0x155 LWAX LWAX 0;
   Info 0x156 DST DST 0; Info 0x157 LHAX LHAX 0; Info 0x167 LVXL LVXL 0;
   Info 0x173 MFTB MFTB 0; Info 0x175 LWAUX LWAUX 0; Info 0x176 DSTST DSTST 0;
   Info 0x177 LHAUX LHAUX 0; Info 0x197 STHX STHX 0; Info 0x19c ORC ORC_ 0;
   Info 0x1b6 ECOWX ECOWX 0; Info 0x1b7 STHUX STHUX 0; Info 0x1bc OR OR_ 0;
   Info 0x1c9 DIVDU DIVDU_ 0; Info 0x3c9 DIVDUO DIVDUO_ 0;
   Info 0x1cb DIVWU DIVWU_ 0; Info 0x3cb DIVWUO DIVWUO_ 0;
   Info 0x1d3 MTSPR MTSPR 0; Info 0x1d6 DCBI DCBI 0; Info 0x1dc NAND NAND_ 0;
   Info 0x1e7 STVXL STVXL 0; Info 0x1e9 DIVD DIVD_ 0;
   Info 0x3e9 DIVDO DIVDO_ 0; Info 0x1eb DIVW DIVW_ 0;
   Info 0x3eb DIVWO DIVWO_ 0; Info 0x207 LVLX LVLX 0; Info 0x214 LDBRX LDBRX 0;
   Info 0x215 LSWX LSWX 0; Info 0x216 LWBRX LWBRX 0; Info 0x217 LFSX LFSX 0;
   Info 0x218 SRW SRW_ 0; Info 0x21b SRD SRD_ 0; Info 0x227 LVRX LVRX 0;
   Info 0x237 LFSUX LFSUX 0; Info 0x255 LSWI LSWI 0; Info 0x256 SYNC SYNC 0;
   Info 0x257 LFDX LFDX 0; Info 0x277 LFDUX LFDUX 0; Info 0x287 STVLX STVLX 0;
   Info 0x294 STDBRX STDBRX 0; Info 0x295 STSWX STSWX 0;
   Info 0x296 STWBRX STWBRX 0; Info 0x297 STFSX STFSX 0;
   Info 0x2a7 STVRX STVRX 0; Info 0x2b7 STFSUX STFSUX 0;
   Info 0x2d5 STSWI STSWI 0; Info 0x2d7 STFDX STFDX 0;
   Info 0x2f7 STFDUX STFDUX 0; Info 0x307 LVLXL LVLXL 0;
   Info 0x316 LHBRX LHBRX 0; Info 0x318 SRAW SRAW_ 0; Info 0x31a SRAD SRAD_ 0;
   Info 0x327 LVRXL LVRXL 0; Info 0x336 DSS DSS 0; Info 0x338 SRAWI SRAWI_ 0;
   Info 0x33a SRADI SRADI_ 0; Info 0x33b SRADI SRADI_ 0;
   Info 0x356 EIEIO EIEIO 0; Info 0x387 STVLXL STVLXL 0;
   Info 0x396 STHBRX STHBRX 0; Info 0x39a EXTSH EXTSH_ 0;
   Info 0x3a7 STVRXL STVRXL 0; Info 0x3ba EXTSB EXTSB_ 0;
   Info 0x3d7 STFIWX STFIWX 0; Info 0x3da EXTSW EXTSW_ 0;
   Info 0x3d6 ICBI ICBI 0; Info 0x3f6 DCBZ DCBZ 0].

(** PPUOpcodes.h, lines 560-565. *)
Definition group_3a_entries : list instruction_info :=
  [Info 0x0 LD LD 0; Info 0x1 LDU LDU 0; Info 0x2 LWA LWA 0].

(** PPUOpcodes.h, lines 568-580. *)
Definition group_3b_entries : list instruction_info :=
  [Info 0x12 FDIVS FDIVS_ 5; Info 0x14 FSUBS FSUBS_ 5;
   Info 0x15 FADDS FADDS_ 5; Info 0x16 FSQRTS FSQRTS_ 5;
   Info 0x18 FRES FRES_ 5; Info 0x19 FMULS FMULS_ 5;
   Info 0x1c FMSUBS FMSUBS_ 5; Info 0x1d FMADDS FMADDS_ 5;
   Info 0x1e FNMSUBS FNMSUBS_ 5; Info 0x1f FNMADDS FNMADDS_ 5].

(** PPUOpcodes.h, lines 583-587. *)
Definition group_3e_entries : list instruction_info :=
  [Info 0x0 STD STD 0; Info 0x1 STDU STDU 0].

(** PPUOpcodes.h, lines 590-624. *)
Definition group_3f_entries : list instruction_info :=
  [Info 0x026 MTFSB1 MTFSB1_ 0; Info 0x040 MCRFS MCRFS 0;
   Info 0x046 MTFSB0 MTFSB0_ 0; Info 0x086 MTFSFI MTFSFI_ 0;
   Info 0x247 MFFS MFFS_ 0; Info 0x2c7 MTFSF MTFSF_ 0;
   Info 0x000 FCMPU FCMPU 0; Info 0x00c FRSP FRSP_ 0;
   Info 0x00e FCTIW FCTIW_ 0; Info 0x00f FCTIWZ FCTIWZ_ 0;
   Info 0x012 FDIV FDIV_ 5; Info 0x014 FSUB FSUB_ 5; Info 0x015 FADD FADD_ 5;
   Info 0x016 FSQRT FSQRT_ 5; Info 0x017 FSEL FSEL_ 5; Info 0x019 FMUL FMUL_ 5;
   Info 0x01a FRSQRTE FRSQRTE_ 5; Info 0x01c FMSUB FMSUB_ 5;
   Info 0x01d FMADD FMADD_ 5; Info 0x01e FNMSUB FNMSUB_ 5;
   Info 0x01f FNMADD FNMADD_ 5; Info 0x020 FCMPO FCMPO 0;
   Info 0x028 FNEG FNEG_ 0; Info 0x048 FMR FMR_ 0; Info 0x088 FNABS FNABS_ 0;
   Info 0x108 FABS FABS_ 0; Info 0x32e FCTID FCTID_ 0;
   Info 0x32f FCTIDZ FCTIDZ_ 0; Info 0x34e FCFID FCFID_ 0].
End tables.

(** The calls of [fill_table] made by the constructor, in order. *)
Definition decoder_groups : list (Z * Z * Z * list instruction_info) :=
  [(0x00, 6, u32 (-1), main_entries);
   (0x04, 11, 0, group_04_entries);
   (0x13, 10, 1, group_13_entries);
   (0x1e, 4, 1, group_1e_entries);
   (0x1f, 10, 1, group_1f_entries);
   (0x3a, 2, 0, group_3a_entries);
   (0x3b, 10, 1, group_3b_entries);
   (0x3e, 2, 0, group_3e_entries);
   (0x3f, 10, 1, group_3f_entries)].

Definition decoder_writes : list (Z * itype) :=
  g ← decoder_groups;
  let '(main_op, count, sh, entries) := g in fill_table main_op count sh entries.

(** [m_table]; an index that is absent holds the initial value [UNK]. *)
Definition ppu_decoder_table : gmap Z itype :=
  foldl (fun t w => <[w.1 := w.2]> t) ∅ decoder_writes.

Definition decode (inst : Z) : itype :=
  default Itype.UNK (ppu_decoder_table !! ppu_decode inst).

(** ** Reference decoder *)

(** A row of the tables read as a pattern on the instruction word: primary
    opcode (bits 0..5) and [p_size] bits at position [p_pos]. *)
Record pattern := Pat {
  p_main : Z; p_pos : Z; p_size : Z; p_val : Z; p_ptr0 : itype; p_ptr_rc : itype
}.

Definition row_pattern (main_op count sh : Z) (v : instruction_info) : pattern :=
  if sh <? 11 then Pat main_op sh (count - magn v) (value v) (ptr0 v) (ptr_rc v)
  else Pat (value v) 0 0 0 (ptr0 v) (ptr_rc v).

Definition patterns : list pattern :=
  g ← decoder_groups;
  let '(main_op, count, sh, entries) := g in row_pattern main_op count sh <$> entries.

Definition pat_matches (inst : Z) (p : pattern) : bool :=
  (Z.shiftr inst 26 =? p_main p) && (wrap (p_size p) (Z.shiftr inst (p_pos p)) =? p_val p).

Definition pat_result (inst : Z) (p : pattern) : itype :=
  if Z.odd inst then p_ptr_rc p else p_ptr0 p.

#[global] Arguments pat_matches : simpl never.
#[global] Arguments pat_result : simpl never.

(** The last row that matches decides, as later writes of [fill_table] win. *)
Definition decode_ref (inst : Z) : itype :=
  foldl (fun acc p => if pat_matches inst p then pat_result inst p else acc)
    Itype.UNK patterns.

(** Rows whose field widths fit the 11 opcode bits of the key. *)
Definition row_ok (main_op count sh : Z) (v : instruction_info) : bool :=
  if sh <? 11 then
    (0 <=? main_op) && (main_op <? 64) && (0 <=? sh) && (0 <=? magn v) &&
    (magn v <=? count) && (count + sh <=? 11) && (0 <=? value v) &&
    (value v <? 2 ^ (count - magn v))
  else (0 <=? value v) && (value v <? 64).

Definition groups_ok : bool :=
  forallb (fun g : Z * Z * Z * list instruction_info =>
    let '(main_op, count, sh, entries) := g in forallb (row_ok main_op count sh) entries)
    decoder_groups.

#[global] Arguments row_ok : simpl never.
#[global] Arguments row_pattern : simpl never.

Lemma ppu_decode_val inst : in_u 32 inst ->
  ppu_decode inst = wrap 11 inst * 64 + Z.shiftr inst 26 /\ in_u 6 (Z.shiftr inst 26).
Proof.
  intros Hi. assert (in_u 6 (Z.shiftr inst 26)) as H6.
  { unfold in_u in *. rewrite Z.shiftr_div_pow2 by lia. word_lia. }
  split; [|done]. rewrite <- (lor_shiftl_add _ _ 6) by (done || lia).
  unfold ppu_decode. change 131071 with (Z.ones 17).
  apply Z.bits_inj'. intros i Hi'. autorewrite with bits.
  destruct (Z.ltb_spec i 6).
  - case_cmp; simpl. by rewrite andb_true_r, orb_false_r.
  - rewrite (testbit_high 32 inst (i + 26)) by (done || lia). simpl.
    case_cmp; simpl; try done.
    all: by rewrite ?andb_true_r, ?andb_false_r, ?orb_false_r.
Qed.

Lemma shiftr_wrap11 inst sh n : 0 <= sh -> 0 <= n -> sh + n <= 11 ->
  wrap n (Z.shiftr (wrap 11 inst) sh) = wrap n (Z.shiftr inst sh).
Proof.
  intros. apply Z.bits_inj'. intros i Hi. autorewrite with bits. case_cmp; done.
Qed.

Lemma odd_wrap11 inst : Z.odd (wrap 11 inst) = Z.odd inst.
Proof. rewrite <- !Z.bit0_odd, testbit_wrap by lia. done. Qed.

(** A write of [fill_table] hits the key of [inst] exactly when the row's
    pattern matches [inst]. *)
Lemma fill_entry_spec main_op count sh v inst t :
  row_ok main_op count sh v = true -> in_u 32 inst ->
  (ppu_decode inst, t) ∈ fill_entry main_op count sh v <->
  pat_matches inst (row_pattern main_op count sh v) = true /\
  t = pat_result inst (row_pattern main_op count sh v).
Proof.
  intros Hok Hi. destruct (ppu_decode_val inst Hi) as [Hk Hm]. rewrite Hk.
  pose proof (wrap_in_u 11 inst ltac:(lia)) as H11. unfold in_u in H11, Hm.
  revert Hok. unfold row_ok, fill_entry, row_pattern, pat_matches, pat_result.
  destruct (Z.ltb_spec sh 11) as [Hsh|Hsh];
    cbn [p_main p_pos p_size p_val p_ptr0 p_ptr_rc]; intros Hok.
  - repeat (apply andb_prop in Hok as [Hok ?]).
    rewrite ?Z.leb_le, ?Z.ltb_lt in *. set (cm := count - magn v) in *.
    assert (2 ^ (magn v + (11 - sh - count)) * 2 ^ (cm + sh) = 2 ^ 11) as E11
      by (rewrite <- Z.pow_add_r by lia; f_equal; lia).
    rewrite <- (shiftr_wrap11 inst sh cm), <- odd_wrap11 by lia.
    set (k := wrap 11 inst) in *. set (M := Z.shiftr inst 26) in *.
    pose proof (pow2_pos cm ltac:(lia)). pose proof (pow2_pos sh ltac:(lia)).
    rewrite (Z.pow_add_r 2 cm sh) in E11 by lia.
    rewrite andb_true_iff, !Z.eqb_eq, list_elem_of_bind. split.
    + intros (i&Hin&Hiin). apply elem_of_seqZ in Hiin.
      apply list_elem_of_bind in Hin as (j&Hin&Hj). apply elem_of_seqZ in Hj.
      apply list_elem_of_singleton in Hin. injection Hin as Hkey ->.
      repeat rewrite lor_shiftl_add in Hkey by lia. rewrite !lor_shiftl_add by lia.
      assert (k = (i * 2 ^ cm + value v) * 2 ^ sh + j) as -> by lia.
      split; [|done]. split; [lia|].
      rewrite Z.shiftr_div_pow2, Z.div_add_l, (Z.div_small j) by lia.
      unfold wrap. rewrite Z.add_0_r, Z.add_comm, Z.mod_add, Z.mod_small by lia. done.
    + intros ((->&Hv)&->). exists (k / (2 ^ cm * 2 ^ sh)).
      rewrite Z.shiftr_div_pow2 in Hv by lia. unfold wrap in Hv.
      assert (k = (k / (2 ^ cm * 2 ^ sh) * 2 ^ cm + value v) * 2 ^ sh + k mod 2 ^ sh) as Ek.
      { rewrite <- Hv, (Z.mul_comm (2 ^ cm)), <- Z.div_div by lia.
        pose proof (Z.div_mod k (2 ^ sh) ltac:(lia)).
        pose proof (Z.div_mod (k / 2 ^ sh) (2 ^ cm) ltac:(lia)). nia. }
      pose proof (Z.mod_pos_bound k (2 ^ sh) ltac:(lia)).
      split; [|apply elem_of_seqZ; split; [apply Z.div_pos; nia|]].
      * apply list_elem_of_bind. exists (k mod 2 ^ sh).
        split; [|apply elem_of_seqZ; lia]. apply list_elem_of_singleton.
        rewrite !lor_shiftl_add by lia. by rewrite <- Ek.
      * rewrite Z.add_0_l. apply Z.div_lt_upper_bound; nia.
  - apply andb_prop in Hok as [? ?]. rewrite ?Z.leb_le, ?Z.ltb_lt in *.
    rewrite <- odd_wrap11. set (k := wrap 11 inst) in *. set (M := Z.shiftr inst 26) in *.
    unfold wrap. rewrite Z.mod_1_r, andb_true_r, Z.eqb_eq, list_elem_of_bind. split.
    + intros (i&Hin&Hiin). apply elem_of_seqZ in Hiin.
      apply list_elem_of_singleton in Hin. injection Hin as Hkey ->.
      rewrite lor_shiftl_add in Hkey by lia. assert (i = k) as -> by lia.
      split; [lia|done].
    + intros [-> ->]. exists k. split; [|apply elem_of_seqZ; lia].
      apply list_elem_of_singleton. by rewrite lor_shiftl_add by lia.
Qed.

(** Looking up a key after a sequence of array writes finds the last one. *)
Lemma foldl_insert_lookup (ws : list (Z * itype)) (t : gmap Z itype) k :
  foldl (fun t w => <[w.1 := w.2]> t) t ws !! k =
  foldl (fun acc w => if decide (w.1 = k) then Some w.2 else acc) (t !! k) ws.
Proof.
  revert t. induction ws as [|w ws IH]; intros t; simpl; [done|].
  rewrite IH, lookup_insert. done.
Qed.

(** If all writes of a list that hit the key write the same value, so does the
    whole list. *)
Lemma foldl_hit_stay (ws : list (Z * itype)) k x :
  (forall t, (k, t) ∈ ws -> t = x) ->
  foldl (fun acc w => if decide (w.1 = k) then Some w.2 else acc) (Some x) ws = Some x.
Proof.
  induction ws as [|[k' t'] ws IH]; intros Hx; simpl; [done|].
  assert (forall t, (k, t) ∈ ws -> t = x) by (intros; apply Hx; by right).
  destruct (decide (k' = k)) as [->|]; [rewrite (Hx t') by left|]; by apply IH.
Qed.

Lemma foldl_hit_const (ws : list (Z * itype)) k (b : bool) x acc :
  (forall t, (k, t) ∈ ws <-> b = true /\ t = x) ->
  foldl (fun acc w => if decide (w.1 = k) then Some w.2 else acc) acc ws =
  if b then Some x else acc.
Proof.
  intros H. assert (forall t, (k, t) ∈ ws -> t = x) as Hx by (intros t Ht; by apply H in Ht as [_ ?]).
  assert ((k, x) ∈ ws <-> b = true) as Hb by (rewrite H; naive_solver).
  clear H. revert acc Hb. induction ws as [|[k' t'] ws IH]; intros acc Hb; simpl.
  { destruct b; [|done]. by destruct (not_elem_of_nil (k, x)); apply Hb. }
  assert (forall t, (k, t) ∈ ws -> t = x) by (intros; apply Hx; by right).
  destruct (decide (k' = k)) as [->|Hne].
  - rewrite (Hx t') in * by left. rewrite foldl_hit_stay by done.
    by rewrite (proj1 Hb) by left.
  - apply IH; [done|]. rewrite <- Hb, elem_of_cons. naive_solver.
Qed.

Lemma fold_rows_spec main_op count sh entries inst acc :
  forallb (row_ok main_op count sh) entries = true -> in_u 32 inst ->
  foldl (fun acc w => if decide (w.1 = ppu_decode inst) then Some w.2 else acc) (Some acc)
    (fill_table main_op count sh entries) =
  Some (foldl (fun acc p => if pat_matches inst p then pat_result inst p else acc) acc
    (row_pattern main_op count sh <$> entries)).
Proof.
  intros Hok Hi. unfold fill_table. revert acc Hok.
  induction entries as [|v entries IH]; intros acc; [done|]; cbn [forallb mbind list_bind foldl fmap list_fmap].
  intros [Hv Hok]%andb_prop. rewrite foldl_app.
  rewrite (foldl_hit_const (fill_entry main_op count sh v) _ (pat_matches inst (row_pattern main_op count sh v))
             (pat_result inst (row_pattern main_op count sh v)))
    by (intros; by apply fill_entry_spec).
  destruct (pat_matches inst (row_pattern _ _ _ _)); by apply IH.
Qed.

Lemma groups_ok_true : groups_ok = true.
Proof. vm_compute. reflexivity. Qed.

Lemma foldl_default (ws : list (Z * itype)) k d :
  default d (foldl (fun acc w => if decide (w.1 = k) then Some w.2 else acc) None ws) =
  default d (foldl (fun acc w => if decide (w.1 = k) then Some w.2 else acc) (Some d) ws).
Proof.
  assert (forall acc acc' : option itype, default d acc = default d acc' ->
    default d (foldl (fun acc w => if decide (w.1 = k) then Some w.2 else acc) acc ws) =
    default d (foldl (fun acc w => if decide (w.1 = k) then Some w.2 else acc) acc' ws))
    as Hgen; [|by apply Hgen].
  induction ws as [|w ws IH]; intros acc acc' E; simpl; [done|].
  apply IH. by destruct (decide (w.1 = k)).
Qed.

Lemma fold_groups_spec (gs : list (Z * Z * Z * list instruction_info)) inst acc :
  forallb (fun g : Z * Z * Z * list instruction_info =>
    let '(main_op, count, sh, entries) := g in forallb (row_ok main_op count sh) entries)
    gs = true -> in_u 32 inst ->
  foldl (fun acc w => if decide (w.1 = ppu_decode inst) then Some w.2 else acc) (Some acc)
    (gs ≫= fun '(main_op, count, sh, entries) => fill_table main_op count sh entries) =
  Some (foldl (fun acc p => if pat_matches inst p then pat_result inst p else acc) acc
    (gs ≫= fun '(main_op, count, sh, entries) => row_pattern main_op count sh <$> entries)).
Proof.
  intros Hok Hi. revert acc Hok.
  induction gs as [|[[[main_op count] sh] entries] gs IH]; intros acc Hok; [done|].
  cbn [forallb] in Hok. apply andb_prop in Hok as [Hg Hok].
  cbn [mbind list_bind]. rewrite !foldl_app, fold_rows_spec by done. by apply IH.
Qed.

Lemma decode_table_ref inst : in_u 32 inst -> decode inst = decode_ref inst.
Proof.
  intros Hi. unfold decode, ppu_decoder_table, decode_ref, decoder_writes, patterns.
  rewrite foldl_insert_lookup, lookup_empty, foldl_default.
  by rewrite fold_groups_spec by (exact groups_ok_true || done).
Qed.

(** Two patterns that no instruction word satisfies at once. *)
Definition pat_apart (p q : pattern) : bool :=
  negb (p_main p =? p_main q) ||
  ((p_pos p =? p_pos q) &&
   negb (wrap (Z.min (p_size p) (p_size q)) (p_val p) =?
         wrap (Z.min (p_size p) (p_size q)) (p_val q))).

Lemma pat_apart_spec p q inst : 0 <= p_size p -> 0 <= p_size q ->
  pat_apart p q = true -> pat_matches inst p = true -> pat_matches inst q = true -> False.
Proof.
  intros Hp Hq Ha. unfold pat_matches. rewrite !andb_true_iff, !Z.eqb_eq.
  intros [E1 E2] [E3 E4]. unfold pat_apart in Ha.
  rewrite orb_true_iff, andb_true_iff, !negb_true_iff, !Z.eqb_neq, Z.eqb_eq in Ha.
  destruct Ha as [?|[Epos Hne]]; [congruence|]. apply Hne.
  rewrite <- E2, <- E4, Epos, !wrap_wrap_le by lia. done.
Qed.

Fixpoint pairwise {A} (f : A -> A -> bool) (l : list A) : bool :=
  match l with [] => true | x :: r => forallb (f x) r && pairwise f r end.

Lemma pairwise_lookup {A} (f : A -> A -> bool) l i j x y :
  pairwise f l = true -> (i < j)%nat -> l !! i = Some x -> l !! j = Some y -> f x y = true.
Proof.
  revert i j. induction l as [|z l IH]; intros i j Hl Hij Hx Hy; [done|].
  simpl in Hl. apply andb_prop in Hl as [Hz Hl]. destruct j as [|j]; [lia|].
  destruct i as [|i]; simpl in *.
  - injection Hx as <-. rewrite forallb_forall in Hz. apply Hz.
    apply list_elem_of_In, list_elem_of_lookup. eauto.
  - apply (IH i j); auto with lia.
Qed.

Lemma patterns_apart :
  pairwise pat_apart patterns && forallb (fun p => 0 <=? p_size p) patterns = true.
Proof. vm_compute. reflexivity. Qed.

(** C13: the 131072-entry table filled by [ppu_decoder] decodes every 32-bit
    instruction word as the reference decoder, which compares the primary opcode
    and the extended opcode bits of the word with each row of the tables; and no
    word matches two rows, so the order of the [fill_table] writes is irrelevant. *)
Theorem decode_eq_ref inst : in_u 32 inst ->
  decode inst = decode_ref inst /\
  forall i j p q, patterns !! i = Some p -> patterns !! j = Some q ->
    pat_matches inst p = true -> pat_matches inst q = true -> i = j.
Proof.
  intros Hi. split; [by apply decode_table_ref|]. intros i j p q Hp Hq Mp Mq.
  destruct (andb_prop _ _ patterns_apart) as [Ha Hs]. rewrite forallb_forall in Hs.
  assert (0 <= p_size p) as Sp by (apply Z.leb_le, Hs, list_elem_of_In, list_elem_of_lookup; eauto).
  assert (0 <= p_size q) as Sq by (apply Z.leb_le, Hs, list_elem_of_In, list_elem_of_lookup; eauto).
  destruct (Nat.lt_total i j) as [Hlt|[?|Hlt]]; [exfalso|done|exfalso].
  - exact (pat_apart_spec p q inst Sp Sq (pairwise_lookup _ _ i j p q Ha Hlt Hp Hq) Mp Mq).
  - exact (pat_apart_spec q p inst Sq Sp (pairwise_lookup _ _ j i q p Ha Hlt Hq Hp) Mq Mp).
Qed.

Lemma decode_eq_ref_witness :
  decode 0x7c632a14 = Itype.ADD /\ decode_ref 0x7c632a14 = Itype.ADD.
Proof.
  assert (decode_ref 0x7c632a14 = Itype.ADD) as E by (vm_compute; reflexivity).
  split; [|exact E]. destruct (decode_eq_ref 0x7c632a14) as [H _]; [vm_compute; split; congruence|].
  rewrite H. exact E.
Defined.

(** ** Rotate masks *)

Lemma land63 x : Z.land x 63 = wrap 6 x.
Proof. change 63 with (Z.ones 6). by rewrite Z.land_ones. Qed.

(** Bits of [MASK(mb, me)] of the Power ISA, big-endian numbering. *)
Definition isa_mask_bit (mb me i : Z) : bool :=
  if mb <=? me then (mb <=? i) && (i <=? me) else (mb <=? i) || (i <=? me).

Lemma testbit_high_ones n j : 0 <= n -> 0 <= j ->
  Z.testbit (u64 (Z.shiftl (bnot 64 0) n)) j = (n <=? j) && (j <? 64).
Proof.
  intros. rewrite testbit_wrap, testbit_shiftl by lia. destruct (Z.leb_spec n j); simpl.
  - rewrite testbit_bnot, Z.bits_0 by lia. case_cmp; done.
  - by rewrite andb_false_r.
Qed.

Lemma testbit_rotate_mask mb me i : 0 <= mb < 64 -> 0 <= me < 64 -> 0 <= i < 64 ->
  Z.testbit (ppu_rotate_mask mb me) (63 - i) = isa_mask_bit mb me i.
Proof.
  intros Hb He Hi. unfold ppu_rotate_mask, isa_mask_bit.
  rewrite !land63, (wrap_small 6 mb) by (unfold in_u; lia).
  assert (wrap 6 (bnot 32 (u32 (me - mb))) = if mb <=? me then 63 - (me - mb) else mb - me - 1)
    as ->.
  { rewrite bnot_val by auto with word. case_cmp; word_lia. }
  assert (wrap 6 (u32 (64 - mb)) = if mb =? 0 then 0 else 64 - mb) as ->.
  { case_cmp; word_lia. }
  set (n := if mb <=? me then _ else _). assert (0 <= n < 64) by (subst n; case_cmp).
  set (s := if mb =? 0 then _ else _). assert (0 <= s < 64) by (subst s; case_cmp).
  rewrite Z.lor_spec, testbit_shiftr, testbit_high_ones, testbit_wrap, testbit_shiftl by lia.
  destruct (Z.leb_spec s (63 - i)); [rewrite testbit_high_ones by lia|];
    subst n s; destruct (Z.leb_spec mb me), (Z.eqb_spec mb 0);
    repeat case_cmp; simpl; try done; lia.
Qed.
