(* ===== verification/PpuAsm.v ===== *)
(** The assembler [namespace ppu_instructions] of PPUOpcodes.h.

    Each encoder builds an instruction word by assigning the fields of a
    [ppu_opcode_t]; the module [ppu_instructions] transcribes them.  [insn] lists
    them as data, [assemble] applies them, and [assemble_decode] is the round trip
    through the decoder of PpuOpcodes: the word decodes to the instruction it was
    written as, and every operand is read back, truncated to its field. *)

From Stdlib Require Import ZArith Lia Bool.
From stdpp Require Import base tactics option list numbers.
From S2P Require Import Prelude BitField PpuOpcodes.
Import BitField.
Local Open Scope Z_scope.
Local Open Scope word_scope.

Notation "op .[ f ] <- v" := (op_set f op v)
  (at level 1, v at level 9, format "op .[ f ] <- v") : word_scope.

Module ppu_instructions.

Definition ADDI (rt ra si : Z) : Z :=
  let op := Z.shiftl 0x0e 26 in
  let op := op.[f_rd] <- rt in let op := op.[f_ra] <- ra in op.[f_simm16] <- si.
Definition ADDIS (rt ra si : Z) : Z :=
  let op := Z.shiftl 0x0f 26 in
  let op := op.[f_rd] <- rt in let op := op.[f_ra] <- ra in op.[f_simm16] <- si.
Definition XORIS (rt ra si : Z) : Z :=
  let op := Z.shiftl 0x1b 26 in
  let op := op.[f_rd] <- rt in let op := op.[f_ra] <- ra in op.[f_simm16] <- si.
Definition ORI (rt ra ui : Z) : Z :=
  let op := Z.shiftl 0x18 26 in
  let op := op.[f_rd] <- rt in let op := op.[f_ra] <- ra in op.[f_uimm16] <- ui.
Definition ORIS (rt ra ui : Z) : Z :=
  let op := Z.shiftl 0x19 26 in
  let op := op.[f_rd] <- rt in let op := op.[f_ra] <- ra in op.[f_uimm16] <- ui.
Definition OR (ra rs rb : Z) (rc : bool) : Z :=
  let op := Z.lor (Z.shiftl 0x1f 26) (Z.shiftl 0x1bc 1) in
  let op := op.[f_rs] <- rs in let op := op.[f_ra] <- ra in
  let op := op.[f_rb] <- rb in op.[f_rc] <- (b2z rc).
Definition SC (lev : Z) : Z :=
  let op := Z.lor (Z.shiftl 0x11 26) (Z.shiftl 1 1) in op.[f_lev] <- lev.
Definition B (li : Z) (aa lk : bool) : Z :=
  let op := Z.shiftl 0x12 26 in
  let op := op.[f_ll] <- li in let op := op.[f_aa] <- (b2z aa) in op.[f_lk] <- (b2z lk).
Definition BC (bo bi bd : Z) (aa lk : bool) : Z :=
  let op := Z.shiftl 0x10 26 in
  let op := op.[f_bo] <- bo in let op := op.[f_bi] <- bi in
  let op := op.[f_ds] <- (Z.quot bd 4) in
  let op := op.[f_aa] <- (b2z aa) in op.[f_lk] <- (b2z lk).
Definition BCLR (bo bi bh : Z) (lk : bool) : Z :=
  let op := Z.lor (Z.shiftl 0x13 26) (Z.shiftl 0x10 1) in
  let op := op.[f_bo] <- bo in let op := op.[f_bi] <- bi in
  let op := op.[f_bh] <- bh in op.[f_lk] <- (b2z lk).
Definition BCCTR (bo bi bh : Z) (lk : bool) : Z :=
  let op := Z.lor (Z.shiftl 0x13 26) (Z.shiftl 0x210 1) in
  let op := op.[f_bo] <- bo in let op := op.[f_bi] <- bi in
  let op := op.[f_bh] <- bh in op.[f_lk] <- (b2z lk).
Definition MFSPR (rt spr : Z) : Z :=
  let op := Z.lor (Z.shiftl 0x1f 26) (Z.shiftl 0x153 1) in
  let op := op.[f_rd] <- rt in op.[f_spr] <- spr.
Definition MTSPR (spr rs : Z) : Z :=
  let op := Z.lor (Z.shiftl 0x1f 26) (Z.shiftl 0x1d3 1) in
  let op := op.[f_rs] <- rs in op.[f_spr] <- spr.
Definition LWZ (rt ra si : Z) : Z :=
  let op := Z.shiftl 0x20 26 in
  let op := op.[f_rd] <- rt in let op := op.[f_ra] <- ra in op.[f_simm16] <- si.
Definition STW (rt ra si : Z) : Z :=
  let op := Z.shiftl 0x24 26 in
  let op := op.[f_rd] <- rt in let op := op.[f_ra] <- ra in op.[f_simm16] <- si.
Definition STD (rs ra si : Z) : Z :=
  let op := Z.shiftl 0x3e 26 in
  let op := op.[f_rs] <- rs in let op := op.[f_ra] <- ra in op.[f_ds] <- (Z.quot si 4).
Definition STDU (rs ra si : Z) : Z :=
  let op := Z.lor (Z.shiftl 0x3e 26) 1 in
  let op := op.[f_rs] <- rs in let op := op.[f_ra] <- ra in op.[f_ds] <- (Z.quot si 4).
Definition LD (rt ra si : Z) : Z :=
  let op := Z.shiftl 0x3a 26 in
  let op := op.[f_rd] <- rt in let op := op.[f_ra] <- ra in op.[f_ds] <- (Z.quot si 4).
Definition LDU (rt ra si : Z) : Z :=
  let op := Z.lor (Z.shiftl 0x3a 26) 1 in
  let op := op.[f_rd] <- rt in let op := op.[f_ra] <- ra in op.[f_ds] <- (Z.quot si 4).
Definition CMPI (bf l ra ui : Z) : Z :=
  let op := Z.shiftl 0xb 26 in
  let op := op.[f_crfd] <- bf in let op := op.[f_l10] <- l in
  let op := op.[f_ra] <- ra in op.[f_uimm16] <- ui.
Definition CMPLI (bf l ra ui : Z) : Z :=
  let op := Z.shiftl 0xa 26 in
  let op := op.[f_crfd] <- bf in let op := op.[f_l10] <- l in
  let op := op.[f_ra] <- ra in op.[f_uimm16] <- ui.
Definition RLDICL (ra rs sh mb : Z) (rc : bool) : Z :=
  let op := Z.shiftl 30 26 in
  let op := op.[f_ra] <- ra in let op := op.[f_rs] <- rs in
  let op := op.[f_sh64] <- sh in let op := op.[f_mbe64] <- mb in op.[f_rc] <- (b2z rc).
Definition RLDICR (ra rs sh mb : Z) (rc : bool) : Z :=
  Z.lor (RLDICL ra rs sh mb rc) (Z.shiftl 1 2).
Definition STFD (frs ra si : Z) : Z :=
  let op := Z.shiftl 54 26 in
  let op := op.[f_frs] <- frs in let op := op.[f_ra] <- ra in op.[f_simm16] <- si.
Definition STVX (vs ra rb : Z) : Z :=
  let op := Z.lor (Z.shiftl 31 26) (Z.shiftl 231 1) in
  let op := op.[f_vs] <- vs in let op := op.[f_ra] <- ra in op.[f_rb] <- rb.
Definition LFD (frd ra si : Z) : Z :=
  let op := Z.shiftl 50 26 in
  let op := op.[f_frd] <- frd in let op := op.[f_ra] <- ra in op.[f_simm16] <- si.
Definition LVX (vd ra rb : Z) : Z :=
  let op := Z.lor (Z.shiftl 31 26) (Z.shiftl 103 1) in
  let op := op.[f_vd] <- vd in let op := op.[f_ra] <- ra in op.[f_rb] <- rb.
Definition EIEIO : Z := 0x7c0006ac.

(** *** Extended mnemonics (namespace [implicts]) *)

Definition NOP : Z := ORI 0 0 0.
Definition MR (rt ra : Z) : Z := OR rt ra ra false.
Definition LI (rt imm : Z) : Z := ADDI rt 0 imm.
Definition LIS (rt imm : Z) : Z := ADDIS rt 0 imm.
Definition BLR : Z := BCLR (Z.lor 0x10 0x04) 0 0 false.
Definition BCTR : Z := BCCTR (Z.lor 0x10 0x04) 0 0 false.
Definition BCTRL : Z := BCCTR (Z.lor 0x10 0x04) 0 0 true.
Definition MFCTR (reg : Z) : Z := MFSPR reg (Z.shiftl 9 5).
Definition MTCTR (reg : Z) : Z := MTSPR (Z.shiftl 9 5) reg.
Definition MFLR (reg : Z) : Z := MFSPR reg (Z.shiftl 8 5).
Definition MTLR (reg : Z) : Z := MTSPR (Z.shiftl 8 5) reg.
Definition BNE (cr imm : Z) : Z := BC 4 (Z.lor 2 (Z.shiftl cr 2)) imm false false.
Definition BEQ (cr imm : Z) : Z := BC 12 (Z.lor 2 (Z.shiftl cr 2)) imm false false.
Definition BGT (cr imm : Z) : Z := BC 12 (Z.lor 1 (Z.shiftl cr 2)) imm false false.
Definition CMPDI (cr reg imm : Z) : Z := CMPI cr 1 reg imm.
Definition CMPWI (cr reg imm : Z) : Z := CMPI cr 0 reg imm.
Definition CMPLDI (cr reg imm : Z) : Z := CMPLI cr 1 reg imm.
Definition CMPLWI (cr reg imm : Z) : Z := CMPLI cr 0 reg imm.
Definition EXTRDI (x y n b : Z) : Z := RLDICL x y (u32 (b + n)) (u32 (64 - b)) false.
Definition SRDI (x y n : Z) : Z := RLDICL x y (u32 (64 - n)) n false.
Definition CLRLDI (x y n : Z) : Z := RLDICL x y 0 n false.
Definition CLRRDI (x y n : Z) : Z := RLDICR x y 0 (u32 (63 - n)) false.
Definition TRAP : Z := 0x7FE00008.

End ppu_instructions.

(** ** The encoders as data *)

Inductive insn : Set :=
| I_ADDI (rt ra si : Z) | I_ADDIS (rt ra si : Z) | I_XORIS (rt ra si : Z)
| I_ORI (rt ra ui : Z) | I_ORIS (rt ra ui : Z) | I_OR (ra rs rb : Z) (rc : bool)
| I_SC (lev : Z) | I_B (li : Z) (aa lk : bool) | I_BC (bo bi bd : Z) (aa lk : bool)
| I_BCLR (bo bi bh : Z) (lk : bool) | I_BCCTR (bo bi bh : Z) (lk : bool)
| I_MFSPR (rt spr : Z) | I_MTSPR (spr rs : Z) | I_LWZ (rt ra si : Z)
| I_STW (rt ra si : Z) | I_STD (rs ra si : Z) | I_STDU (rs ra si : Z)
| I_LD (rt ra si : Z) | I_LDU (rt ra si : Z) | I_CMPI (bf l ra ui : Z)
| I_CMPLI (bf l ra ui : Z) | I_RLDICL (ra rs sh mb : Z) (rc : bool)
| I_RLDICR (ra rs sh mb : Z) (rc : bool) | I_STFD (frs ra si : Z)
| I_STVX (vs ra rb : Z) | I_LFD (frd ra si : Z) | I_LVX (vd ra rb : Z) | I_EIEIO.

Definition assemble (x : insn) : Z :=
  match x with
  | I_ADDI rt ra si => ppu_instructions.ADDI rt ra si
  | I_ADDIS rt ra si => ppu_instructions.ADDIS rt ra si
  | I_XORIS rt ra si => ppu_instructions.XORIS rt ra si
  | I_ORI rt ra ui => ppu_instructions.ORI rt ra ui
  | I_ORIS rt ra ui => ppu_instructions.ORIS rt ra ui
  | I_OR ra rs rb rc => ppu_instructions.OR ra rs rb rc
  | I_SC lev => ppu_instructions.SC lev
  | I_B li aa lk => ppu_instructions.B li aa lk
  | I_BC bo bi bd aa lk => ppu_instructions.BC bo bi bd aa lk
  | I_BCLR bo bi bh lk => ppu_instructions.BCLR bo bi bh lk
  | I_BCCTR bo bi bh lk => ppu_instructions.BCCTR bo bi bh lk
  | I_MFSPR rt spr => ppu_instructions.MFSPR rt spr
  | I_MTSPR spr rs => ppu_instructions.MTSPR spr rs
  | I_LWZ rt ra si => ppu_instructions.LWZ rt ra si
  | I_STW rt ra si => ppu_instructions.STW rt ra si
  | I_STD rs ra si => ppu_instructions.STD rs ra si
  | I_STDU rs ra si => ppu_instructions.STDU rs ra si
  | I_LD rt ra si => ppu_instructions.LD rt ra si
  | I_LDU rt ra si => ppu_instructions.LDU rt ra si
  | I_CMPI bf l ra ui => ppu_instructions.CMPI bf l ra ui
  | I_CMPLI bf l ra ui => ppu_instructions.CMPLI bf l ra ui
  | I_RLDICL ra rs sh mb rc => ppu_instructions.RLDICL ra rs sh mb rc
  | I_RLDICR ra rs sh mb rc => ppu_instructions.RLDICR ra rs sh mb rc
  | I_STFD frs ra si => ppu_instructions.STFD frs ra si
  | I_STVX vs ra rb => ppu_instructions.STVX vs ra rb
  | I_LFD frd ra si => ppu_instructions.LFD frd ra si
  | I_LVX vd ra rb => ppu_instructions.LVX vd ra rb
  | I_EIEIO => ppu_instructions.EIEIO
  end.

(** The entry of the decoder table an encoder is written for. *)
Definition insn_itype (x : insn) : itype :=
  match x with
  | I_ADDI _ _ _ => Itype.ADDI | I_ADDIS _ _ _ => Itype.ADDIS
  | I_XORIS _ _ _ => Itype.XORIS | I_ORI _ _ _ => Itype.ORI
  | I_ORIS _ _ _ => Itype.ORIS
  | I_OR _ _ _ rc => if rc then Itype.OR_ else Itype.OR
  | I_SC _ => Itype.SC | I_B _ _ _ => Itype.B | I_BC _ _ _ _ _ => Itype.BC
  | I_BCLR _ _ _ _ => Itype.BCLR | I_BCCTR _ _ _ _ => Itype.BCCTR
  | I_MFSPR _ _ => Itype.MFSPR | I_MTSPR _ _ => Itype.MTSPR
  | I_LWZ _ _ _ => Itype.LWZ | I_STW _ _ _ => Itype.STW | I_STD _ _ _ => Itype.STD
  | I_STDU _ _ _ => Itype.STDU | I_LD _ _ _ => Itype.LD | I_LDU _ _ _ => Itype.LDU
  | I_CMPI _ _ _ _ => Itype.CMPI | I_CMPLI _ _ _ _ => Itype.CMPLI
  | I_RLDICL _ _ _ _ rc => if rc then Itype.RLDICL_ else Itype.RLDICL
  | I_RLDICR _ _ _ _ rc => if rc then Itype.RLDICR_ else Itype.RLDICR
  | I_STFD _ _ _ => Itype.STFD | I_STVX _ _ _ => Itype.STVX
  | I_LFD _ _ _ => Itype.LFD | I_LVX _ _ _ => Itype.LVX | I_EIEIO => Itype.EIEIO
  end.

(** The operands of an instruction, by the field the interpreter reads. *)
Definition operands (x : insn) : list (ppu_field * Z) :=
  match x with
  | I_ADDI rt ra si | I_ADDIS rt ra si | I_LWZ rt ra si =>
      [(f_rd, rt); (f_ra, ra); (f_simm16, si)]
  | I_XORIS rt ra si => [(f_rs, rt); (f_ra, ra); (f_uimm16, si)]
  | I_ORI rt ra ui | I_ORIS rt ra ui => [(f_rs, rt); (f_ra, ra); (f_uimm16, ui)]
  | I_OR ra rs rb rc => [(f_ra, ra); (f_rs, rs); (f_rb, rb); (f_rc, b2z rc)]
  | I_SC lev => [(f_lev, lev)]
  | I_B li aa lk =>
      [(f_bt24, Z.shiftl (Z.shiftr li 2) 2); (f_aa, b2z aa); (f_lk, b2z lk)]
  | I_BC bo bi bd aa lk =>
      [(f_bo, bo); (f_bi, bi); (f_bt14, 4 * Z.quot bd 4); (f_aa, b2z aa); (f_lk, b2z lk)]
  | I_BCLR bo bi bh lk | I_BCCTR bo bi bh lk =>
      [(f_bo, bo); (f_bi, bi); (f_bh, bh); (f_lk, b2z lk)]
  | I_MFSPR rt spr => [(f_rd, rt); (f_spr, spr)]
  | I_MTSPR spr rs => [(f_rs, rs); (f_spr, spr)]
  | I_STW rs ra si => [(f_rs, rs); (f_ra, ra); (f_simm16, si)]
  | I_STD rs ra si | I_STDU rs ra si => [(f_rs, rs); (f_ra, ra); (f_ds, Z.quot si 4)]
  | I_LD rt ra si | I_LDU rt ra si => [(f_rd, rt); (f_ra, ra); (f_ds, Z.quot si 4)]
  | I_CMPI bf l ra ui => [(f_crfd, bf); (f_l10, l); (f_ra, ra); (f_simm16, ui)]
  | I_CMPLI bf l ra ui => [(f_crfd, bf); (f_l10, l); (f_ra, ra); (f_uimm16, ui)]
  | I_RLDICL ra rs sh mb rc | I_RLDICR ra rs sh mb rc =>
      [(f_ra, ra); (f_rs, rs); (f_sh64, sh); (f_mbe64, mb); (f_rc, b2z rc)]
  | I_STFD frs ra si => [(f_frs, frs); (f_ra, ra); (f_simm16, si)]
  | I_STVX vs ra rb => [(f_vs, vs); (f_ra, ra); (f_rb, rb)]
  | I_LFD frd ra si => [(f_frd, frd); (f_ra, ra); (f_simm16, si)]
  | I_LVX vd ra rb => [(f_vd, vd); (f_ra, ra); (f_rb, rb)]
  | I_EIEIO => []
  end.

(** The value of a field of this type that was assigned [v]. *)
Definition field_truncate (f : ppu_field) (v : Z) : Z :=
  match field_desc f with
  | FBf b => truncate b v
  | FCf sg fs => if sg then sgn (cf_size fs) v else wrap (cf_size fs) v
  end.

(** ** Decoding by fields *)

(** All rows of primary opcode [m] compare the same bits. *)
Definition uniform (m pos size : Z) : bool :=
  forallb (fun p => negb (p_main p =? m) || ((p_pos p =? pos) && (p_size p =? size))) patterns.

Definition decode_fields (m e : Z) (rc : bool) : itype :=
  foldl (fun acc p => if (p_main p =? m) && (p_val p =? e)
                      then if rc then p_ptr_rc p else p_ptr0 p else acc)
    Itype.UNK patterns.

#[global] Arguments patterns : simpl never.
#[global] Arguments decode_fields : simpl never.

Lemma decode_by_fields m pos size inst :
  uniform m pos size = true -> in_u 32 inst -> Z.shiftr inst 26 = m ->
  decode inst = decode_fields m (wrap size (Z.shiftr inst pos)) (Z.odd inst).
Proof.
  intros Hu Hi Hm. rewrite decode_table_ref by done. unfold decode_ref, decode_fields.
  unfold uniform in Hu. generalize Itype.UNK. induction patterns as [|p ps IH]; intros acc;
    [done|]. cbn [forallb foldl] in *. apply andb_prop in Hu as [Hp Hu].
  rewrite IH by done. f_equal. unfold pat_matches, pat_result. rewrite Hm, (Z.eqb_sym m).
  destruct (Z.eqb_spec (p_main p) m); cbn [negb orb andb] in *; [|done].
  apply andb_prop in Hp as [->%Z.eqb_eq ->%Z.eqb_eq]. rewrite Z.eqb_sym. by destruct (_ =? _).
Qed.

Lemma extract_main inst : in_u 32 inst -> extract (Bf 32 false 26 6) inst = Z.shiftr inst 26.
Proof.
  intros Hi. rewrite extract_mod by (unfold valid; simpl; lia). apply wrap_small.
  unfold in_u in *. simpl. rewrite Z.shiftr_div_pow2 by lia. word_lia.
Qed.

Lemma extract_lk inst : extract (Bf 32 false 0 1) inst = b2z (Z.odd inst).
Proof.
  rewrite extract_mod by (unfold valid; simpl; lia). unfold truncate. simpl.
  rewrite Z.shiftr_0_r. unfold wrap. change (2 ^ 1) with 2. rewrite Zmod_odd.
  by destruct (Z.odd inst).
Qed.

(** Primary opcodes without extended opcode. *)
Lemma decode_main m inst : uniform m 0 0 = true -> in_u 32 inst ->
  extract (Bf 32 false 26 6) inst = m ->
  decode_fields m 0 true = decode_fields m 0 false -> decode inst = decode_fields m 0 false.
Proof.
  intros Hu Hi Hm Hd. rewrite extract_main in Hm by done.
  rewrite (decode_by_fields m 0 0 _ Hu Hi Hm). unfold wrap. rewrite Z.mod_1_r.
  by destruct (Z.odd inst).
Qed.

(** Primary opcodes with [size] extended opcode bits at [pos]. *)
Lemma decode_ext m pos size e rc inst : uniform m pos size = true -> in_u 32 inst ->
  valid (Bf 32 false pos size) -> extract (Bf 32 false 26 6) inst = m ->
  extract (Bf 32 false pos size) inst = e ->
  (extract (Bf 32 false 0 1) inst = b2z rc \/ decode_fields m e true = decode_fields m e false) ->
  decode inst = decode_fields m e rc.
Proof.
  intros Hu Hi Hv Hm He Hr. rewrite extract_main in Hm by done.
  rewrite (decode_by_fields m pos size _ Hu Hi Hm).
  rewrite extract_mod in He by done. unfold truncate in He. simpl in He. rewrite He.
  destruct Hr as [Hr|Hr].
  - rewrite extract_lk in Hr. by destruct (Z.odd inst), rc.
  - by destruct (Z.odd inst), rc.
Qed.

(** ** Field assignments as nested stores *)

Lemma lor_bit_store d p : 0 <= p < 32 -> in_u 32 d ->
  Z.lor d (Z.shiftl 1 p) = store (Bf 32 false p 1) d 1.
Proof.
  intros Hp Hd. assert (valid (Bf 32 false p 1)) by (unfold valid; simpl; lia).
  apply (bits_inj_u 32); [lia| | |].
  - apply lor_in_u; [lia|done|]. rewrite Z.shiftl_1_l. split; [lia|]. apply Z.pow_lt_mono_r; lia.
  - by apply (store_in_u (Bf 32 false p 1)).
  - intros i Hi. rewrite testbit_store by (simpl; done || lia). simpl.
    rewrite Z.lor_spec, testbit_shiftl by lia. change 1 with (Z.ones 1) at 1 3.
    case_cmp; simpl; rewrite ?orb_false_r; try done.
    + rewrite !testbit_ones by lia. replace (i - p) with 0 by lia. simpl. by rewrite orb_true_r.
    + rewrite testbit_ones by lia. case_cmp. by rewrite orb_false_r.
Qed.

Lemma sgn_scale n k x : 0 < n -> 0 <= k -> sgn (n + k) (x * 2 ^ k) = sgn n x * 2 ^ k.
Proof.
  intros. unfold sgn. replace (n + k - 1) with (n - 1 + k) by lia.
  rewrite !Z.pow_add_r by lia. pose proof (pow2_pos k ltac:(lia)).
  pose proof (pow2_pos n ltac:(lia)).
  rewrite <- Z.mul_add_distr_r, Z.mul_mod_distr_r by lia. lia.
Qed.

(** A signed field followed by constant zero bits is a scaled field. *)
Lemma cf_extract_scaled f k d : valid f -> is_signed f = true -> 0 <= k ->
  bitsize f + k <= bitmax f ->
  cf_extract (bitmax f) true [CfField f; CfConst 0 k] d = extract f d * 2 ^ k.
Proof.
  intros Hf Sf Hk Hs. pose proof Hf as (?&?&?).
  assert (in_s (bitsize f) (extract f d)) as U.
  { rewrite extract_mod by done. unfold truncate. rewrite Sf. by apply sgn_in_s. }
  simpl. rewrite !Z.add_0_r, Z.shiftl_0_r.
  assert (wrap (bitmax f) 0 = 0) as E0 by (unfold wrap; apply Z.mod_0_l; pose proof (pow2_pos (bitmax f)); lia).
  rewrite E0, Z.lor_0_l. change (sgn (bitmax f) 0) with (sgn (bitmax f) 0).
  assert (sgn (bitmax f) 0 = 0) as ->.
  { apply sgn_small; [lia|]. pose proof (pow2_pos (bitmax f - 1)). unfold in_s. lia. }
  rewrite E0, Z.lor_0_r, Z.shiftl_mul_pow2 by lia.
  rewrite <- sgn_wrap, wrap_mul_l, sgn_wrap by lia. apply sgn_small; [lia|].
  unfold in_s in *. pose proof (pow2_pos k ltac:(lia)).
  assert (2 ^ (bitsize f - 1) * 2 ^ k <= 2 ^ (bitmax f - 1)).
  { rewrite <- Z.pow_add_r by lia. apply Z.pow_le_mono_r; lia. }
  nia.
Qed.

(** Numeric form of the fields of a goal, and the side conditions on them. *)
Ltac field_norm :=
  cbv [op_set op_get field_truncate field_desc];
  repeat match goal with
  | |- context [ppu_bf ?s ?i ?n] =>
      let t := eval vm_compute in (ppu_bf s i n) in change (ppu_bf s i n) with t
  end.

Ltac field_side :=
  unfold valid, disjoint_fields; cbn [bitmax bitpos bitsize is_signed]; lia.

(** The word is in range. *)
Ltac word_in_u :=
  repeat lazymatch goal with
  | |- in_u 32 (store ?f _ _) => apply (store_in_u f); [field_side|]; cbn [bitmax]
  | |- in_u _ (cf_store _ _ _ _) => fail
  | |- in_u _ _ => vm_compute; split; congruence
  end.

Ltac two_fields f g d v :=
  let H := fresh in pose proof (cf_store_two f g d v) as H; cbn [bitmax bitsize] in H;
  rewrite H by (field_side || word_in_u); clear H.

(** Turn packed and or-ed assignments into nested [store]s, innermost first. *)
Ltac stores_norm :=
  repeat match goal with
  | |- context [cf_store 32 [CfField ?f; CfField ?g] ?d ?v] =>
      lazymatch d with context [cf_store] => fail | _ => two_fields f g d v end
  | |- context [Z.lor (store ?f ?d ?v) (Z.shiftl 1 ?p)] =>
      lazymatch d with context [cf_store] => fail | _ =>
      rewrite (lor_bit_store (store f d v) p) by (lia || word_in_u) end
  end.

(** Read a field of a word built by nested [store]s. *)
Ltac read_field :=
  repeat first
  [ rewrite extract_store_ne by field_side
  | rewrite extract_store by field_side
  | rewrite extract_store_sub by field_side ].

Ltac decode_word m pos size e rc :=
  first
  [ apply (decode_main m);
    [vm_compute; reflexivity|word_in_u|read_field; reflexivity|vm_compute; reflexivity]
  | refine (eq_trans (decode_ext m pos size e rc _ _ _ _ _ _ _) _);
    [vm_compute; reflexivity|word_in_u|field_side|read_field; reflexivity
    |read_field; reflexivity|first [left; read_field; by destruct rc | right; vm_compute; reflexivity]
    |by destruct rc; vm_compute] ].

Ltac asm_unfold :=
  cbv beta delta
    [assemble ppu_instructions.ADDI ppu_instructions.ADDIS ppu_instructions.XORIS
    ppu_instructions.ORI ppu_instructions.ORIS ppu_instructions.OR ppu_instructions.SC
    ppu_instructions.B ppu_instructions.BC ppu_instructions.BCLR ppu_instructions.BCCTR
    ppu_instructions.MFSPR ppu_instructions.MTSPR ppu_instructions.LWZ ppu_instructions.STW
    ppu_instructions.STD ppu_instructions.STDU ppu_instructions.LD ppu_instructions.LDU
    ppu_instructions.CMPI ppu_instructions.CMPLI ppu_instructions.RLDICL
    ppu_instructions.RLDICR ppu_instructions.STFD ppu_instructions.STVX
    ppu_instructions.LFD ppu_instructions.LVX ppu_instructions.EIEIO];
  cbv iota zeta beta; field_norm; stores_norm.

Lemma wrap_split n k v : 0 <= n -> 0 <= k ->
  wrap n (Z.shiftr v k) * 2 ^ k + wrap k v = wrap (n + k) v.
Proof.
  intros. unfold wrap. rewrite Z.shiftr_div_pow2, (Z.add_comm n), Z.pow_add_r by lia.
  pose proof (pow2_pos n ltac:(lia)). pose proof (pow2_pos k ltac:(lia)).
  rewrite Z.rem_mul_r by lia. lia.
Qed.

(** Reading a field pack, member by member. *)
Ltac read_pack :=
  match goal with
  | |- context [cf_extract 32 false [CfField ?f; CfField ?g] ?d] =>
      let H := fresh in pose proof (cf_extract_two f g d) as H; cbn [bitmax bitsize is_signed] in H;
      rewrite H by (reflexivity || field_side); clear H; read_field;
      unfold truncate; cbn [is_signed bitsize bitpos cf_size item_size]; rewrite ?Z.shiftr_0_r;
      apply wrap_split; lia
  | |- context [cf_extract 32 true [CfField ?f; CfConst 0 ?k] ?d] =>
      let H := fresh in pose proof (cf_extract_scaled f k d) as H; cbn [bitmax bitsize is_signed] in H;
      rewrite H by (reflexivity || field_side); clear H; read_field;
      unfold truncate; cbn [is_signed bitsize bitpos cf_size item_size];
      rewrite ?Z.shiftl_mul_pow2, ?(Z.mul_comm 4), ?Z.shiftr_0_r by lia; symmetry;
      apply sgn_scale; lia
  end.

Lemma assemble_operands x :
  Forall (fun '(f, v) => op_get f (assemble x) = field_truncate f v) (operands x).
Proof.
  destruct x; cbn [operands]; repeat apply List.Forall_cons; try apply List.Forall_nil;
    asm_unfold; first [read_field; reflexivity | read_pack].
Qed.

Ltac decode_insn m pos size e rc := asm_unfold; decode_word m pos size e rc.

(** A field read in two parts. *)
Lemma extract_split p n k inst : 0 <= p -> 0 < n -> 0 < k -> p + n + k <= 32 ->
  extract (Bf 32 false p (n + k)) inst =
  extract (Bf 32 false (p + k) n) inst * 2 ^ k + extract (Bf 32 false p k) inst.
Proof.
  intros. rewrite !extract_mod by field_side. unfold truncate.
  cbn [is_signed bitpos bitsize]. rewrite <- wrap_split, Z.shiftr_shiftr by lia. done.
Qed.

(** MD form: the extended opcode is followed by the high bit of the shift. *)
Lemma decode_md e rc inst : in_u 32 inst -> 0 <= e <= 3 ->
  extract (Bf 32 false 26 6) inst = 0x1e -> extract (Bf 32 false 2 3) inst = e ->
  extract (Bf 32 false 0 1) inst = b2z rc -> decode inst = decode_fields 0x1e (e * 2) rc.
Proof.
  intros Hi He Hm Hx Hr. assert (0 <= extract (Bf 32 false 1 1) inst < 2) as Hs.
  { rewrite extract_mod by field_side. exact (wrap_in_u 1 _ ltac:(lia)). }
  pose proof (extract_split 1 3 1 inst ltac:(lia) ltac:(lia) ltac:(lia) ltac:(lia)) as Hmd.
  change (1 + 1) with 2 in Hmd. rewrite Hx in Hmd. change (2 ^ 1) with 2 in Hmd.
  rewrite (decode_ext 0x1e 1 4 (e * 2 + extract (Bf 32 false 1 1) inst) rc inst)
    by (done || field_side || by left).
  revert Hs. generalize (extract (Bf 32 false 1 1) inst). intros s Hs.
  assert (s = 0 \/ s = 1) as [-> | ->] by lia; [by rewrite Z.add_0_r|].
  assert (e = 0 \/ e = 1 \/ e = 2 \/ e = 3) as [-> | [-> | [-> | ->]]] by lia;
    destruct rc; vm_compute; reflexivity.
Qed.

Ltac decode_md_insn e rc :=
  asm_unfold; rewrite (decode_md e rc);
  [by destruct rc; vm_compute|word_in_u|lia|read_field; reflexivity
  |rewrite (extract_split 2 2 1 : forall i, _ -> _ -> _ -> _ -> extract (Bf 32 false 2 3) i = _)
     by lia; read_field; reflexivity
  |read_field; by destruct rc].

Lemma assemble_itype x : decode (assemble x) = insn_itype x.
Proof.
  destruct x; cbn [insn_itype].
  - decode_insn 0x0e 0 0 0 false.
  - decode_insn 0x0f 0 0 0 false.
  - decode_insn 0x1b 0 0 0 false.
  - decode_insn 0x18 0 0 0 false.
  - decode_insn 0x19 0 0 0 false.
  - decode_insn 0x1f 1 10 0x1bc rc.
  - decode_insn 0x11 0 0 0 false.
  - decode_insn 0x12 0 0 0 false.
  - decode_insn 0x10 0 0 0 false.
  - decode_insn 0x13 1 10 0x10 false.
  - decode_insn 0x13 1 10 0x210 false.
  - decode_insn 0x1f 1 10 0x153 false.
  - decode_insn 0x1f 1 10 0x1d3 false.
  - decode_insn 0x20 0 0 0 false.
  - decode_insn 0x24 0 0 0 false.
  - decode_insn 0x3e 0 2 0 false.
  - decode_insn 0x3e 0 2 1 false.
  - decode_insn 0x3a 0 2 0 false.
  - decode_insn 0x3a 0 2 1 false.
  - decode_insn 0x0b 0 0 0 false.
  - decode_insn 0x0a 0 0 0 false.
  - decode_md_insn 0 rc.
  - decode_md_insn 1 rc.
  - decode_insn 0x36 0 0 0 false.
  - decode_insn 0x1f 1 10 231 false.
  - decode_insn 0x32 0 0 0 false.
  - decode_insn 0x1f 1 10 103 false.
  - rewrite decode_table_ref by (vm_compute; split; congruence). vm_compute. reflexivity.
Qed.

(** ** The extended mnemonics as data *)

Inductive mnemonic : Set :=
| M_insn (x : insn)
| M_NOP | M_MR (rt ra : Z) | M_LI (rt imm : Z) | M_LIS (rt imm : Z) | M_BLR | M_BCTR | M_BCTRL
| M_MFCTR (reg : Z) | M_MTCTR (reg : Z) | M_MFLR (reg : Z) | M_MTLR (reg : Z)
| M_BNE (cr imm : Z) | M_BEQ (cr imm : Z) | M_BGT (cr imm : Z)
| M_CMPDI (cr reg imm : Z) | M_CMPWI (cr reg imm : Z) | M_CMPLDI (cr reg imm : Z) | M_CMPLWI (cr reg imm : Z)
| M_EXTRDI (x y n b : Z) | M_SRDI (x y n : Z) | M_CLRLDI (x y n : Z) | M_CLRRDI (x y n : Z) | M_TRAP.

Definition encode (x : mnemonic) : Z :=
  match x with
  | M_insn x => assemble x
  | M_NOP => ppu_instructions.NOP
  | M_MR rt ra => ppu_instructions.MR rt ra
  | M_LI rt imm => ppu_instructions.LI rt imm
  | M_LIS rt imm => ppu_instructions.LIS rt imm
  | M_BLR => ppu_instructions.BLR
  | M_BCTR => ppu_instructions.BCTR
  | M_BCTRL => ppu_instructions.BCTRL
  | M_MFCTR reg => ppu_instructions.MFCTR reg
  | M_MTCTR reg => ppu_instructions.MTCTR reg
  | M_MFLR reg => ppu_instructions.MFLR reg
  | M_MTLR reg => ppu_instructions.MTLR reg
  | M_BNE cr imm => ppu_instructions.BNE cr imm
  | M_BEQ cr imm => ppu_instructions.BEQ cr imm
  | M_BGT cr imm => ppu_instructions.BGT cr imm
  | M_CMPDI cr reg imm => ppu_instructions.CMPDI cr reg imm
  | M_CMPWI cr reg imm => ppu_instructions.CMPWI cr reg imm
  | M_CMPLDI cr reg imm => ppu_instructions.CMPLDI cr reg imm
  | M_CMPLWI cr reg imm => ppu_instructions.CMPLWI cr reg imm
  | M_EXTRDI x y n b => ppu_instructions.EXTRDI x y n b
  | M_SRDI x y n => ppu_instructions.SRDI x y n
  | M_CLRLDI x y n => ppu_instructions.CLRLDI x y n
  | M_CLRRDI x y n => ppu_instructions.CLRRDI x y n
  | M_TRAP => ppu_instructions.TRAP
  end.

(** The instruction that a mnemonic stands for. *)
Definition mnemonic_itype (x : mnemonic) : itype :=
  match x with
  | M_insn x => insn_itype x
  | M_NOP => Itype.ORI | M_MR _ _ => Itype.OR | M_LI _ _ => Itype.ADDI | M_LIS _ _ => Itype.ADDIS
  | M_BLR => Itype.BCLR | M_BCTR | M_BCTRL => Itype.BCCTR
  | M_MFCTR _ | M_MFLR _ => Itype.MFSPR | M_MTCTR _ | M_MTLR _ => Itype.MTSPR
  | M_BNE _ _ | M_BEQ _ _ | M_BGT _ _ => Itype.BC
  | M_CMPDI _ _ _ | M_CMPWI _ _ _ => Itype.CMPI | M_CMPLDI _ _ _ | M_CMPLWI _ _ _ => Itype.CMPLI
  | M_EXTRDI _ _ _ _ | M_SRDI _ _ _ | M_CLRLDI _ _ _ => Itype.RLDICL
  | M_CLRRDI _ _ _ => Itype.RLDICR | M_TRAP => Itype.TW
  end.

(** A conditional branch that does not link, on bit [b] of a CR field: BO is 12 when it branches on a set bit. *)
Definition branch_on (bo cr b imm : Z) : list (ppu_field * Z) :=
  [(f_bo, bo); (f_bi, 4 * cr + b); (f_bt14, 4 * Z.quot imm 4); (f_aa, 0); (f_lk, 0)].

(** The SPR number has its halves exchanged in the word: 9 is CTR, 8 is LR.  BO 20 branches always. *)
Definition mnemonic_operands (x : mnemonic) : list (ppu_field * Z) :=
  match x with
  | M_insn x => operands x
  | M_NOP => [(f_rs, 0); (f_ra, 0); (f_uimm16, 0)]
  | M_MR rt ra => [(f_ra, rt); (f_rs, ra); (f_rb, ra); (f_rc, 0)]
  | M_LI rt imm | M_LIS rt imm => [(f_rd, rt); (f_ra, 0); (f_simm16, imm)]
  | M_BLR | M_BCTR => [(f_bo, 20); (f_bi, 0); (f_bh, 0); (f_lk, 0)]
  | M_BCTRL => [(f_bo, 20); (f_bi, 0); (f_bh, 0); (f_lk, 1)]
  | M_MFCTR reg => [(f_rd, reg); (f_spr, 9 * 32)]
  | M_MFLR reg => [(f_rd, reg); (f_spr, 8 * 32)]
  | M_MTCTR reg => [(f_rs, reg); (f_spr, 9 * 32)]
  | M_MTLR reg => [(f_rs, reg); (f_spr, 8 * 32)]
  | M_BNE cr imm => branch_on 4 cr 2 imm
  | M_BEQ cr imm => branch_on 12 cr 2 imm
  | M_BGT cr imm => branch_on 12 cr 1 imm
  | M_CMPDI cr reg imm => [(f_crfd, cr); (f_l10, 1); (f_ra, reg); (f_simm16, imm)]
  | M_CMPWI cr reg imm => [(f_crfd, cr); (f_l10, 0); (f_ra, reg); (f_simm16, imm)]
  | M_CMPLDI cr reg imm => [(f_crfd, cr); (f_l10, 1); (f_ra, reg); (f_uimm16, imm)]
  | M_CMPLWI cr reg imm => [(f_crfd, cr); (f_l10, 0); (f_ra, reg); (f_uimm16, imm)]
  | M_EXTRDI x y n b => [(f_ra, x); (f_rs, y); (f_sh64, b + n); (f_mbe64, 64 - b); (f_rc, 0)]
  | M_SRDI x y n => [(f_ra, x); (f_rs, y); (f_sh64, 64 - n); (f_mbe64, n); (f_rc, 0)]
  | M_CLRLDI x y n => [(f_ra, x); (f_rs, y); (f_sh64, 0); (f_mbe64, n); (f_rc, 0)]
  | M_CLRRDI x y n => [(f_ra, x); (f_rs, y); (f_sh64, 0); (f_mbe64, 63 - n); (f_rc, 0)]
  | M_TRAP => [(f_bo, 31); (f_ra, 0); (f_rb, 0)]
  end.

Lemma encode_itype x : decode (encode x) = mnemonic_itype x.
Proof.
  destruct x as [x| |rt ra|rt imm|rt imm| | | |reg|reg|reg|reg|cr imm|cr imm|cr imm|cr reg imm|cr reg imm|cr reg imm
    |cr reg imm|x y n b|x y n|x y n|x y n|].
  - apply assemble_itype.
  - apply (assemble_itype (I_ORI 0 0 0)).
  - apply (assemble_itype (I_OR rt ra ra false)).
  - apply (assemble_itype (I_ADDI rt 0 imm)).
  - apply (assemble_itype (I_ADDIS rt 0 imm)).
  - apply (assemble_itype (I_BCLR 20 0 0 false)).
  - apply (assemble_itype (I_BCCTR 20 0 0 false)).
  - apply (assemble_itype (I_BCCTR 20 0 0 true)).
  - apply (assemble_itype (I_MFSPR reg 288)).
  - apply (assemble_itype (I_MTSPR 288 reg)).
  - apply (assemble_itype (I_MFSPR reg 256)).
  - apply (assemble_itype (I_MTSPR 256 reg)).
  - apply (assemble_itype (I_BC 4 _ imm false false)).
  - apply (assemble_itype (I_BC 12 _ imm false false)).
  - apply (assemble_itype (I_BC 12 _ imm false false)).
  - apply (assemble_itype (I_CMPI cr 1 reg imm)).
  - apply (assemble_itype (I_CMPI cr 0 reg imm)).
  - apply (assemble_itype (I_CMPLI cr 1 reg imm)).
  - apply (assemble_itype (I_CMPLI cr 0 reg imm)).
  - apply (assemble_itype (I_RLDICL x y _ _ false)).
  - apply (assemble_itype (I_RLDICL x y _ n false)).
  - apply (assemble_itype (I_RLDICL x y 0 n false)).
  - apply (assemble_itype (I_RLDICR x y 0 _ false)).
  - rewrite decode_table_ref by (vm_compute; split; congruence). vm_compute. reflexivity.
Qed.

Lemma cr_bit cr b : 0 <= b < 4 -> Z.lor b (Z.shiftl cr 2) = 4 * cr + b.
Proof. intros. rewrite Z.lor_comm, lor_shiftl_add by lia. lia. Qed.

(** A shift count, modulo 64. *)
Lemma truncate_sh x : field_truncate f_sh64 (u32 x) = field_truncate f_sh64 x.
Proof. apply (wrap_wrap_le 6 32). lia. Qed.
Lemma truncate_mbe x : field_truncate f_mbe64 (u32 x) = field_truncate f_mbe64 x.
Proof. apply (wrap_wrap_le 6 32). lia. Qed.

Lemma encode_operands x :
  Forall (fun '(f, v) => op_get f (encode x) = field_truncate f v) (mnemonic_operands x).
Proof.
  destruct x as [x| |rt ra|rt imm|rt imm| | | |reg|reg|reg|reg|cr imm|cr imm|cr imm|cr reg imm|cr reg imm|cr reg imm
    |cr reg imm|x y n b|x y n|x y n|x y n|]; cbn [mnemonic_operands]; unfold branch_on.
  all: rewrite <- ?cr_bit by lia.
  - apply assemble_operands.
  - apply (assemble_operands (I_ORI 0 0 0)).
  - apply (assemble_operands (I_OR rt ra ra false)).
  - apply (assemble_operands (I_ADDI rt 0 imm)).
  - apply (assemble_operands (I_ADDIS rt 0 imm)).
  - apply (assemble_operands (I_BCLR 20 0 0 false)).
  - apply (assemble_operands (I_BCCTR 20 0 0 false)).
  - apply (assemble_operands (I_BCCTR 20 0 0 true)).
  - apply (assemble_operands (I_MFSPR reg 288)).
  - apply (assemble_operands (I_MTSPR 288 reg)).
  - apply (assemble_operands (I_MFSPR reg 256)).
  - apply (assemble_operands (I_MTSPR 256 reg)).
  - apply (assemble_operands (I_BC 4 _ imm false false)).
  - apply (assemble_operands (I_BC 12 _ imm false false)).
  - apply (assemble_operands (I_BC 12 _ imm false false)).
  - apply (assemble_operands (I_CMPI cr 1 reg imm)).
  - apply (assemble_operands (I_CMPI cr 0 reg imm)).
  - apply (assemble_operands (I_CMPLI cr 1 reg imm)).
  - apply (assemble_operands (I_CMPLI cr 0 reg imm)).
  - pose proof (assemble_operands (I_RLDICL x y (u32 (b + n)) (u32 (64 - b)) false)) as H. cbn [operands] in H.
    rewrite !List.Forall_cons_iff, ?truncate_sh, ?truncate_mbe in H. rewrite !List.Forall_cons_iff. exact H.
  - pose proof (assemble_operands (I_RLDICL x y (u32 (64 - n)) n false)) as H. cbn [operands] in H.
    rewrite !List.Forall_cons_iff, ?truncate_sh, ?truncate_mbe in H. rewrite !List.Forall_cons_iff. exact H.
  - apply (assemble_operands (I_RLDICL x y 0 n false)).
  - pose proof (assemble_operands (I_RLDICR x y 0 (u32 (63 - n)) false)) as H. cbn [operands] in H.
    rewrite !List.Forall_cons_iff, ?truncate_sh, ?truncate_mbe in H. rewrite !List.Forall_cons_iff. exact H.
  - repeat constructor.
Qed.

(** C25: every encoder of [ppu_instructions], those of its nested namespace [implicts] included, produces a word that the
    decoder maps to the instruction the encoder stands for, and each operand field of the
    word reads back the operand, truncated to the width (and signedness) of the
    field.  Displacements are first rounded to a multiple of 4: down by [B], towards zero by [BC] and its forms and by the
    doubleword loads and stores.  An extended mnemonic encodes the operands of the instruction it is defined by:
    [EXTRDI] has shift [b + n] and mask begin [64 - b]. *)
Theorem assemble_decode x :
  decode (encode x) = mnemonic_itype x /\
  Forall (fun '(f, v) => op_get f (encode x) = field_truncate f v) (mnemonic_operands x).
Proof. split; [apply encode_itype|apply encode_operands]. Qed.
