(* ===== verification/PpuState.v ===== *)
(** PPU thread state, guest memory and the effects of the interpreter.

    [ppu_thread] holds the members of [class ppu_thread] (PPUThread.h) that the
    fixed-point, branch and memory handlers of PPUInterpreter.cpp use, [vm_t] the guest
    memory behind [vm::g_base_addr] and the table [vm::g_reservations].  A handler that
    can throw is a computation of the monad [M], which keeps the state reached when a
    C++ exception (or an access violation) leaves the handler. *)

From Stdlib Require Import ZArith Lia Bool.
From stdpp Require Import base tactics option list numbers gmap.
From S2P Require Import Prelude.
Local Open Scope Z_scope.
Local Open Scope word_scope.

(** ** Thread state *)

Record xer_t := Xer { so : bool; ov : bool; ca : bool; cnt : Z }.

(** [h_overrun] is not in the code: it records that an entry was written past the end of [data]. *)
Record call_history_t := Hist {
  h_data : list Z; h_index : Z; h_last_r1 : Z; h_last_r2 : Z; h_overrun : bool
}.

Definition call_history_max_size : Z := 4096.

Record ppu_thread := Ppu {
  gpr : list Z;            (* u64 gpr[32] *)
  cr : list Z;             (* u8 cr.bits[32], fields[8] are groups of four *)
  lr : Z; ctr : Z;         (* u64 *)
  vrsave : Z; cia : Z;     (* u32 *)
  xer : xer_t;
  raddr : Z;               (* u32 *)
  rdata : list Z;          (* std::byte rdata[128] *)
  use_full_rdata : bool;
  res_cached : Z;          (* u32 *)
  cpu_state : Z;           (* bs_t<cpu_flag> state *)
  exec_bytes : Z;          (* u64 *)
  call_history : call_history_t
}.

Definition with_gpr (p : ppu_thread) (v : list Z) : ppu_thread :=
  Ppu v (cr p) (lr p) (ctr p) (vrsave p) (cia p) (xer p) (raddr p) (rdata p)
    (use_full_rdata p) (res_cached p) (cpu_state p) (exec_bytes p) (call_history p).
Definition with_cr (p : ppu_thread) (v : list Z) : ppu_thread :=
  Ppu (gpr p) v (lr p) (ctr p) (vrsave p) (cia p) (xer p) (raddr p) (rdata p)
    (use_full_rdata p) (res_cached p) (cpu_state p) (exec_bytes p) (call_history p).
Definition with_lr (p : ppu_thread) (v : Z) : ppu_thread :=
  Ppu (gpr p) (cr p) v (ctr p) (vrsave p) (cia p) (xer p) (raddr p) (rdata p)
    (use_full_rdata p) (res_cached p) (cpu_state p) (exec_bytes p) (call_history p).
Definition with_ctr (p : ppu_thread) (v : Z) : ppu_thread :=
  Ppu (gpr p) (cr p) (lr p) v (vrsave p) (cia p) (xer p) (raddr p) (rdata p)
    (use_full_rdata p) (res_cached p) (cpu_state p) (exec_bytes p) (call_history p).
Definition with_vrsave (p : ppu_thread) (v : Z) : ppu_thread :=
  Ppu (gpr p) (cr p) (lr p) (ctr p) v (cia p) (xer p) (raddr p) (rdata p)
    (use_full_rdata p) (res_cached p) (cpu_state p) (exec_bytes p) (call_history p).
Definition with_cia (p : ppu_thread) (v : Z) : ppu_thread :=
  Ppu (gpr p) (cr p) (lr p) (ctr p) (vrsave p) v (xer p) (raddr p) (rdata p)
    (use_full_rdata p) (res_cached p) (cpu_state p) (exec_bytes p) (call_history p).
Definition with_xer (p : ppu_thread) (v : xer_t) : ppu_thread :=
  Ppu (gpr p) (cr p) (lr p) (ctr p) (vrsave p) (cia p) v (raddr p) (rdata p)
    (use_full_rdata p) (res_cached p) (cpu_state p) (exec_bytes p) (call_history p).
Definition with_res (p : ppu_thread) (ra rc : Z) : ppu_thread :=
  Ppu (gpr p) (cr p) (lr p) (ctr p) (vrsave p) (cia p) (xer p) ra (rdata p)
    (use_full_rdata p) rc (cpu_state p) (exec_bytes p) (call_history p).
Definition with_exec_bytes (p : ppu_thread) (v : Z) : ppu_thread :=
  Ppu (gpr p) (cr p) (lr p) (ctr p) (vrsave p) (cia p) (xer p) (raddr p) (rdata p)
    (use_full_rdata p) (res_cached p) (cpu_state p) v (call_history p).
Definition with_history (p : ppu_thread) (v : call_history_t) : ppu_thread :=
  Ppu (gpr p) (cr p) (lr p) (ctr p) (vrsave p) (cia p) (xer p) (raddr p) (rdata p)
    (use_full_rdata p) (res_cached p) (cpu_state p) (exec_bytes p) v.

(** [ppu.gpr[r] = v], [ppu.cr[i] = b], [ppu.xer.ca = c]. *)
Definition set_gpr (r v : Z) (p : ppu_thread) : ppu_thread := with_gpr p (set (gpr p) r v).
Definition set_cr (i b : Z) (p : ppu_thread) : ppu_thread := with_cr p (set (cr p) i b).
Definition set_ca (c : bool) (p : ppu_thread) : ppu_thread :=
  with_xer p (Xer (so (xer p)) (ov (xer p)) c (cnt (xer p))).

(** [cr_bits::pack] and [cr_bits::unpack]. *)
Definition pack (bits : list Z) : Z :=
  foldl (fun result bit => Z.lor (u32 (Z.shiftl result 1)) bit) 0 bits.

Fixpoint unpack_n (n : nat) (value : Z) : list Z :=
  match n with
  | O => []
  | S n => b2z (negb (value .& Z.shiftl 1 31 =? 0)) :: unpack_n n (u32 (Z.shiftl value 1))
  end.

Definition unpack (value : Z) : list Z := unpack_n 32 value.

(** [ppu.cr.fields[n]], read and written as the four bytes it aliases. *)
Definition cr_field (p : ppu_thread) (n : Z) : list Z :=
  (fun k => get (cr p) (n * 4 + k)) <$> [0; 1; 2; 3].

Definition set_cr_field (n : Z) (v : list Z) (p : ppu_thread) : ppu_thread :=
  set_cr (n * 4 + 3) (get v 3) (set_cr (n * 4 + 2) (get v 2)
    (set_cr (n * 4 + 1) (get v 1) (set_cr (n * 4 + 0) (get v 0) p))).

(** ** Well-formed states *)

Definition is_bit (b : Z) : Prop := 0 <= b <= 1.

Record wf (p : ppu_thread) : Prop := Wf {
  wf_gpr_len : length (gpr p) = 32%nat;
  wf_gpr : Forall (in_u 64) (gpr p);
  wf_cr_len : length (cr p) = 32%nat;
  wf_cr : Forall is_bit (cr p);
  wf_lr : in_u 64 (lr p);
  wf_ctr : in_u 64 (ctr p);
  wf_vrsave : in_u 32 (vrsave p);
  wf_cia : in_u 32 (cia p);
  wf_cnt : in_u 7 (cnt (xer p));
  wf_raddr : in_u 32 (raddr p);
  wf_rdata_len : length (rdata p) = 128%nat;
  wf_rdata : Forall (in_u 8) (rdata p);
  wf_res : in_u 32 (res_cached p);
  wf_exec : in_u 64 (exec_bytes p);
  wf_hist : in_u 64 (h_index (call_history p)) /\
            in_u 64 (h_last_r1 (call_history p)) /\ in_u 64 (h_last_r2 (call_history p)) /\
            (length (h_data (call_history p)) = 1%nat \/
             length (h_data (call_history p)) = Z.to_nat call_history_max_size) /\
            Forall (in_u 32) (h_data (call_history p))
}.

(** A running thread with cleared registers; the call history is disabled, so its
    constructor gave it one entry. *)
Definition ppu_init : ppu_thread :=
  Ppu (replicate 32 0) (replicate 32 0) 0 0 0xffffffff 0 (Xer false false false 0) 0
    (replicate 128 0) false 0 0 0 (Hist [0] 0 (2 ^ 64 - 1) (2 ^ 64 - 1) false).

Lemma wf_ppu_init : wf ppu_init.
Proof.
  split; cbn [gpr cr lr ctr vrsave cia xer cnt raddr rdata res_cached exec_bytes call_history
    h_index h_last_r1 h_last_r2 h_data ppu_init]; try reflexivity; try (unfold in_u; lia).
  - apply Forall_replicate. unfold in_u. lia.
  - apply Forall_replicate. unfold is_bit. lia.
  - apply Forall_replicate. unfold in_u. lia.
  - unfold in_u. repeat split; try lia; [by left|]. repeat constructor; unfold in_u; lia.
Qed.

Create HintDb ppu discriminated.

Lemma get_in_u w l i : 0 <= w -> Forall (in_u w) l -> in_u w (get l i).
Proof. intros Hw Hl. apply get_Forall; [by apply in_u_0|done]. Qed.

Lemma get_is_bit l i : Forall is_bit l -> is_bit (get l i).
Proof. intros Hl. apply get_Forall; [unfold is_bit; lia|done]. Qed.

Lemma gpr_in_u p r : wf p -> in_u 64 (get (gpr p) r).
Proof. intros []. by apply get_in_u. Qed.

Lemma wf_set_gpr r v p : wf p -> in_u 64 v -> wf (set_gpr r v p).
Proof.
  intros [] Hv. split; simpl; try done.
  - by rewrite length_set.
  - by apply set_Forall.
Qed.

Lemma wf_set_cr i b p : wf p -> is_bit b -> wf (set_cr i b p).
Proof.
  intros [] Hv. split; simpl; try done.
  - by rewrite length_set.
  - by apply set_Forall.
Qed.

Lemma wf_set_cr_field n v p : wf p -> Forall is_bit v -> wf (set_cr_field n v p).
Proof. intros. repeat apply wf_set_cr; auto using get_is_bit. Qed.

Lemma wf_set_ca c p : wf p -> wf (set_ca c p).
Proof. by intros []. Qed.

Lemma is_bit_b2z b : is_bit (b2z b).
Proof. unfold is_bit. destruct b; simpl; lia. Qed.

#[export] Hint Resolve wf_set_gpr wf_set_cr wf_set_cr_field wf_set_ca gpr_in_u is_bit_b2z : ppu.

(** Reading a register after an update. *)
Lemma gpr_set_gpr_eq r v p : wf p -> 0 <= r < 32 -> get (gpr (set_gpr r v p)) r = v.
Proof. intros [] Hr. apply get_set_eq. rewrite wf_gpr_len0. lia. Qed.

Lemma gpr_set_gpr_ne r r' v p : 0 <= r -> 0 <= r' -> r <> r' ->
  get (gpr (set_gpr r v p)) r' = get (gpr p) r'.
Proof. intros. by apply get_set_ne. Qed.

Lemma cr_set_cr_eq i b p : wf p -> 0 <= i < 32 -> get (cr (set_cr i b p)) i = b.
Proof. intros [] Hr. apply get_set_eq. rewrite wf_cr_len0. lia. Qed.

Lemma cr_set_cr_ne i j b p : 0 <= i -> 0 <= j -> i <> j ->
  get (cr (set_cr i b p)) j = get (cr p) j.
Proof. intros. by apply get_set_ne. Qed.

(** Updates of one component leave the others alone. *)
Lemma gpr_set_cr i b p : gpr (set_cr i b p) = gpr p. Proof. done. Qed.
Lemma gpr_set_ca c p : gpr (set_ca c p) = gpr p. Proof. done. Qed.
Lemma cr_set_gpr r v p : cr (set_gpr r v p) = cr p. Proof. done. Qed.
Lemma xer_set_gpr r v p : xer (set_gpr r v p) = xer p. Proof. done. Qed.
Lemma xer_set_cr i b p : xer (set_cr i b p) = xer p. Proof. done. Qed.
Create Rewrite HintDb ppu_read.
#[export] Hint Rewrite gpr_set_cr gpr_set_ca cr_set_gpr xer_set_gpr xer_set_cr : ppu_read.

(** ** Guest memory and machine state *)

Record vm_t := Vm {
  mem : gmap Z Z;            (* mapped bytes at [g_base_addr] *)
  reservations : gmap Z Z    (* non-zero entries of [g_reservations] *)
}.

Record machine := Mach { thread : ppu_thread; vmem : vm_t }.

(** How a handler can be left other than by returning: the exceptions thrown by
    [fmt::throw_exception] and [ensure], an access violation, or a wait for another thread. *)
Inductive fault :=
| Narrowing (addr : Z)          (* narrow<u32>, called by vm::cast *)
| AccessViolation (addr : Z)
| InvalidInstruction (op : Z)
| InvalidMFOCRF (crm : Z)
| BadSpr (op : Z) (n : Z)       (* MFSPR, MTSPR, MFTB with an unknown register *)
| ExternalControl (op : Z)      (* ECIWX, ECOWX *)
| IllegalSC (op : Z)
| PpuTrap (addr : Z)            (* ppu_trap *)
| EnsureFailed (addr : Z)       (* ensure() at the start of ppu_trap *)
| UnknownOpcode (op addr : Z)   (* UNK *)
| NoCode (addr : Z)             (* a handler read from uncommitted memory of g_exec_addr *)
| Spinning (addr : Z).          (* reservation locked by another thread *)

(** State and exceptions; the state survives an exception. *)
Definition M (A : Type) : Type := machine -> (fault + A) * machine.

#[export] Instance M_ret : MRet M := fun A x s => (inr x, s).
#[export] Instance M_bind : MBind M := fun A B k m s =>
  match m s with
  | (inl e, s') => (inl e, s')
  | (inr x, s') => k x s'
  end.

Definition throw {A} (e : fault) : M A := fun s => (inl e, s).
Definition get_ppu : M ppu_thread := fun s => (inr (thread s), s).
Definition modify (f : ppu_thread -> ppu_thread) : M () :=
  fun s => (inr (), Mach (f (thread s)) (vmem s)).
Definition gets {A} (f : ppu_thread -> A) : M A := fun s => (inr (f (thread s)), s).

(** [vm::cast] of a 64-bit address. *)
Definition vm_cast (addr : Z) : M Z :=
  if addr <? 2 ^ 32 then mret addr else throw (Narrowing addr).

(** Bytes [a .. a + n - 1]; the host address is not reduced modulo [2^32]. *)
Definition read_bytes (m : gmap Z Z) (a : Z) (n : nat) : option (list Z) :=
  mapM (fun i => m !! (a + i)) (seqZ 0 (Z.of_nat n)).

Fixpoint write_bytes (m : gmap Z Z) (a : Z) (bs : list Z) : gmap Z Z :=
  match bs with
  | [] => m
  | b :: bs => write_bytes (<[a := b]> m) (a + 1) bs
  end.

(** Big-endian value of a byte string, and its inverse at [n] bytes. *)
Definition be_value (bs : list Z) : Z := foldl (fun acc b => acc * 256 + b) 0 bs.

Fixpoint be_bytes (n : nat) (v : Z) : list Z :=
  match n with
  | O => []
  | S n => be_bytes n (Z.shiftr v 8) ++ [u8 v]
  end.

(** [vm::_ref<T>(addr)]: the bytes of the referenced object. *)
Definition vm_read (a : Z) (n : nat) : M (list Z) := fun s =>
  match read_bytes (mem (vmem s)) a n with
  | Some bs => (inr bs, s)
  | None => (inl (AccessViolation a), s)
  end.

(** [vm::write8/16/32/64] and [vm::write<T>] of the object representation [bs]. *)
Definition vm_write (a : Z) (bs : list Z) : M () := fun s =>
  match read_bytes (mem (vmem s)) a (length bs) with
  | Some _ => (inr (), Mach (thread s) (Vm (write_bytes (mem (vmem s)) a bs)
                                         (reservations (vmem s))))
  | None => (inl (AccessViolation a), s)
  end.

(** [vm::reservation_update]: one step of [try_reservation_update]; the caller spins
    while the entry carries [rsrv_unique_lock]. *)
Definition reservation_update (addr : Z) : M () := fun s =>
  let key := (addr .& 0xff80) in
  let rtime := default 0 (reservations (vmem s) !! key) in
  if rtime .& 64 =? 0
  then (inr (), Mach (thread s) (Vm (mem (vmem s))
                  (<[key := u64 (rtime + 128)]> (reservations (vmem s)))))
  else (inl (Spinning addr), s).

(** Well-formed memory: bytes. *)
Definition wf_vm (v : vm_t) : Prop :=
  map_Forall (fun _ b => in_u 8 b) (mem v) /\
  map_Forall (fun _ t => in_u 64 t) (reservations v).

Definition wf_machine (s : machine) : Prop := wf (thread s) /\ wf_vm (vmem s).

(** *** Laws of the memory *)

Lemma length_be_bytes n v : length (be_bytes n v) = n.
Proof. revert v. induction n; intros; simpl; [done|]. rewrite length_app, IHn. simpl. lia. Qed.

Lemma be_bytes_in_u n v : Forall (in_u 8) (be_bytes n v).
Proof.
  revert v. induction n; intros; simpl; [constructor|].
  apply Forall_app_2; [done|]. constructor; [auto with word|constructor].
Qed.

Lemma be_value_app bs b : be_value (bs ++ [b]) = be_value bs * 256 + b.
Proof. unfold be_value. by rewrite foldl_app. Qed.

Lemma be_value_bytes n v : 
  be_value (be_bytes n v) = wrap (8 * Z.of_nat n) v.
Proof.
  revert v. induction n; intros v.
  { simpl. unfold wrap. by rewrite Z.mod_1_r. }
  simpl be_bytes. rewrite be_value_app, IHn. unfold wrap.
  replace (8 * Z.of_nat (S n)) with (8 + 8 * Z.of_nat n) by lia.
  pose proof (pow2_pos (8 * Z.of_nat n) ltac:(lia)).
  rewrite Z.pow_add_r, Z.shiftr_div_pow2, Z.rem_mul_r by lia. lia.
Qed.

Lemma be_value_in_u bs : Forall (in_u 8) bs -> in_u (8 * Z.of_nat (length bs)) (be_value bs).
Proof.
  induction bs as [|b bs IH] using rev_ind; intros Hbs.
  { apply in_u_0. simpl. lia. }
  apply Forall_app in Hbs as [Hbs Hb]. apply List.Forall_inv in Hb. specialize (IH Hbs).
  rewrite be_value_app, length_app. unfold in_u in *. cbn [length].
  replace (8 * Z.of_nat (length bs + 1)) with (8 * Z.of_nat (length bs) + 8) by lia.
  rewrite Z.pow_add_r by lia. change (2 ^ 8) with 256 in *. lia.
Qed.

Lemma be_bytes_value bs : Forall (in_u 8) bs -> be_bytes (length bs) (be_value bs) = bs.
Proof.
  induction bs as [|b bs IH] using rev_ind; intros Hbs; [done|].
  apply Forall_app in Hbs as [Hbs Hb]. apply List.Forall_inv in Hb.
  rewrite be_value_app, length_app. replace (length bs + length [b])%nat with (S (length bs)).
  2: { cbn [length]. lia. }
  cbn [be_bytes]. unfold in_u in Hb. f_equal; [|f_equal; word_lia].
  replace (Z.shiftr (be_value bs * 256 + b) 8) with (be_value bs); [by apply IH|].
  rewrite Z.shiftr_div_pow2 by lia. word_lia.
Qed.

Lemma read_bytes_lookup m a n bs : read_bytes m a n = Some bs <->
  length bs = n /\ forall i, (i < n)%nat -> m !! (a + Z.of_nat i) = bs !! i.
Proof.
  unfold read_bytes. rewrite mapM_Some, Forall2_lookup. split.
  - intros H. assert (length bs = n) as Hl.
    { transitivity (length (seqZ 0 (Z.of_nat n))); [|rewrite length_seqZ; lia].
      apply Forall2_length with (P := fun x y => m !! (a + y) = Some x), Forall2_lookup.
      intros i. specialize (H i). inversion H; by constructor. }
    split; [done|]. intros i Hi. specialize (H i).
    rewrite (proj2 (lookup_seqZ 0 (Z.of_nat n) i (0 + Z.of_nat i)))
      in H by lia. inversion H as [x y Hxy E1 E2|]; subst. by rewrite Z.add_0_l in Hxy.
  - intros [Hl H] i. destruct (decide (i < n)%nat) as [Hi|Hi].
    + rewrite (proj2 (lookup_seqZ 0 (Z.of_nat n) i (0 + Z.of_nat i))) by lia.
      destruct (lookup_lt_is_Some_2 bs i ltac:(lia)) as [b Hb]. rewrite Hb.
      constructor. rewrite Z.add_0_l, H by done. done.
    + rewrite lookup_seqZ_ge by lia. rewrite lookup_ge_None_2 by lia. constructor.
Qed.

Lemma lookup_write_bytes m a bs k :
  write_bytes m a bs !! k =
  if (a <=? k) && (k <? a + Z.of_nat (length bs)) then bs !! Z.to_nat (k - a) else m !! k.
Proof.
  revert m a. induction bs as [|b bs IH]; intros m a.
  { cbn [write_bytes length]. case_cmp; done || lia. }
  cbn [write_bytes length]. rewrite IH.
  destruct (Z.eq_dec k a) as [->|Hne].
  - rewrite lookup_insert_eq, Z.sub_diag. case_cmp; simpl; try done; lia.
  - rewrite lookup_insert_ne by lia. case_cmp; simpl; try done; try lia.
    replace (Z.to_nat (k - a)) with (S (Z.to_nat (k - (a + 1)))) by lia. done.
Qed.

(** Reading back what was written, and reading elsewhere. *)
Lemma read_write_bytes_eq m a bs : read_bytes (write_bytes m a bs) a (length bs) = Some bs.
Proof.
  apply read_bytes_lookup. split; [done|]. intros i Hi. rewrite lookup_write_bytes.
  case_cmp; simpl; try lia. f_equal. lia.
Qed.

Lemma read_write_bytes_ne m a bs a' n :
  a' + Z.of_nat n <= a \/ a + Z.of_nat (length bs) <= a' ->
  read_bytes (write_bytes m a bs) a' n = read_bytes m a' n.
Proof.
  intros Hd. apply option_eq. intros bs'. rewrite !read_bytes_lookup.
  assert (forall i, (i < n)%nat ->
    write_bytes m a bs !! (a' + Z.of_nat i) = m !! (a' + Z.of_nat i)) as H.
  { intros i Hi. rewrite lookup_write_bytes. case_cmp; simpl; done || lia. }
  split; intros [Hl Hr]; (split; [done|]); intros i Hi; rewrite <- (Hr i Hi); [symmetry|]; auto.
Qed.
