(* ===== verification/PpuInt.v ===== *)
(** Fixed-point and condition-register instructions of the PPU interpreter
    (PPUInterpreter.cpp).

    Module [Interp] has one definition per handler, with the handler's name; the
    template flags [has_oe] and [has_rc] are the arguments [oe] and [rc].  [Interp.fixed]
    is the part of the table of [ppu_interpreter_rt_base] that installs them.  The
    second half of the file states what the handlers compute.

    The debug statistics of [ppu_cr_set] ([g_cfg.core.ppu_debug]) are not modelled;
    signed products that exceed [s64] are taken modulo [2^64]. *)

From Stdlib Require Import ZArith Lia Bool.
From stdpp Require Import base tactics option list numbers.
From S2P Require Import Prelude BitField PpuOpcodes PpuState.
Import BitField.
Local Open Scope Z_scope.
Local Open Scope word_scope.

Notation "p .gpr[ r ]" := (get (gpr p) r) (at level 1, format "p .gpr[ r ]") : word_scope.
Notation "p .cr[ i ]" := (get (cr p) i) (at level 1, format "p .cr[ i ]") : word_scope.

Module Interp.

(** ** Helpers *)

Definition dup32 (x : Z) : Z := x .| Z.shiftl x 32.

(** [ppu_cr_set(ppu, field, le, gt, eq, so)]. *)
Definition ppu_cr_set (field : Z) (le gt eq so : bool) (ppu : ppu_thread) : ppu_thread :=
  set_cr (field * 4 + 3) (b2z so) (set_cr (field * 4 + 2) (b2z eq)
    (set_cr (field * 4 + 1) (b2z gt) (set_cr (field * 4 + 0) (b2z le) ppu))).

(** [ppu_cr_set<T>(ppu, field, a, b)] with [a] and [b] values of [T]. *)
Definition ppu_cr_cmp (field a b : Z) (ppu : ppu_thread) : ppu_thread :=
  ppu_cr_set field (a <? b) (b <? a) (a =? b) (so (xer ppu)) ppu.

Definition ppu_ov_set (bit : bool) (ppu : ppu_thread) : ppu_thread :=
  with_xer ppu (Xer (so (xer ppu) || bit) bit (ca (xer ppu)) (cnt (xer ppu))).

(** [if constexpr (has_rc) ppu_cr_set<s64>(ppu, 0, v, 0)]. *)
Definition record_cr0 (rc : bool) (v : Z) (ppu : ppu_thread) : ppu_thread :=
  if rc then ppu_cr_cmp 0 (s64 v) 0 ppu else ppu.

Definition if_oe (oe : bool) (bit : bool) (ppu : ppu_thread) : ppu_thread :=
  if oe then ppu_ov_set bit ppu else ppu.

(** [add_flags_result_t<u64>] and [add64_flags]. *)
Record add_flags_result := AddFlags { result : Z; carry : bool }.

Definition add_flags2 (a b : Z) : add_flags_result :=
  let result := u64 (a + b) in AddFlags result (result <? a).

Definition add_flags3 (a b : Z) (c : bool) : add_flags_result :=
  let t := add_flags2 a b in
  let r := add_flags2 (result t) (b2z c) in
  AddFlags (result r) (carry t || carry r).

(** [x >> 63] on a [u64]. *)
Definition msb (x : Z) : Z := Z.shiftr x 63.

(** [utils::umulh64], [utils::mulh64]. *)
Definition umulh64 (x y : Z) : Z := u64 (Z.shiftr (x * y) 64).
Definition mulh64 (x y : Z) : Z := s64 (Z.shiftr (x * y) 64).

(** ** Immediate arithmetic and comparison *)

Definition MULLI (op : Z) (ppu : ppu_thread) : ppu_thread :=
  set_gpr op.[f_rd] (u64 (s64 ppu.gpr[op.[f_ra]] * op.[f_simm16])) ppu.

Definition SUBFIC (op : Z) (ppu : ppu_thread) : ppu_thread :=
  let a := ppu.gpr[op.[f_ra]] in
  let i := op.[f_simm16] in
  let r := add_flags3 (bnot 64 a) (u64 i) true in
  set_ca (carry r) (set_gpr op.[f_rd] (result r) ppu).

Definition CMPLI (op : Z) (ppu : ppu_thread) : ppu_thread :=
  if negb (op.[f_l10] =? 0)
  then ppu_cr_cmp op.[f_crfd] ppu.gpr[op.[f_ra]] op.[f_uimm16] ppu
  else ppu_cr_cmp op.[f_crfd] (u32 ppu.gpr[op.[f_ra]]) op.[f_uimm16] ppu.

Definition CMPI (op : Z) (ppu : ppu_thread) : ppu_thread :=
  if negb (op.[f_l10] =? 0)
  then ppu_cr_cmp op.[f_crfd] (s64 ppu.gpr[op.[f_ra]]) op.[f_simm16] ppu
  else ppu_cr_cmp op.[f_crfd] (s32 (u32 ppu.gpr[op.[f_ra]])) op.[f_simm16] ppu.

Definition ADDIC (op : Z) (ppu : ppu_thread) : ppu_thread :=
  let a := s64 ppu.gpr[op.[f_ra]] in
  let i := op.[f_simm16] in
  let r := add_flags2 (u64 a) (u64 i) in
  let ppu := set_ca (carry r) (set_gpr op.[f_rd] (result r) ppu) in
  if negb (op.[f_main] .& 1 =? 0) then ppu_cr_cmp 0 (s64 (result r)) 0 ppu else ppu.

Definition ADDI (op : Z) (ppu : ppu_thread) : ppu_thread :=
  set_gpr op.[f_rd]
    (if negb (op.[f_ra] =? 0) then u64 (ppu.gpr[op.[f_ra]] + op.[f_simm16])
     else u64 op.[f_simm16]) ppu.

Definition ADDIS (op : Z) (ppu : ppu_thread) : ppu_thread :=
  set_gpr op.[f_rd]
    (if negb (op.[f_ra] =? 0) then u64 (ppu.gpr[op.[f_ra]] + op.[f_simm16] * 65536)
     else u64 (op.[f_simm16] * 65536)) ppu.

(** ** Condition register logic *)

Definition MCRF (op : Z) (ppu : ppu_thread) : ppu_thread :=
  set_cr_field op.[f_crfd] (cr_field ppu op.[f_crfs]) ppu.

Definition CRNOR (op : Z) (ppu : ppu_thread) : ppu_thread :=
  set_cr op.[f_crbd] ((ppu.cr[op.[f_crba]] .| ppu.cr[op.[f_crbb]]) .^ 1) ppu.
Definition CRANDC (op : Z) (ppu : ppu_thread) : ppu_thread :=
  set_cr op.[f_crbd] (ppu.cr[op.[f_crba]] .& (ppu.cr[op.[f_crbb]] .^ 1)) ppu.
Definition CRXOR (op : Z) (ppu : ppu_thread) : ppu_thread :=
  set_cr op.[f_crbd] (ppu.cr[op.[f_crba]] .^ ppu.cr[op.[f_crbb]]) ppu.
Definition CRNAND (op : Z) (ppu : ppu_thread) : ppu_thread :=
  set_cr op.[f_crbd] ((ppu.cr[op.[f_crba]] .& ppu.cr[op.[f_crbb]]) .^ 1) ppu.
Definition CRAND (op : Z) (ppu : ppu_thread) : ppu_thread :=
  set_cr op.[f_crbd] (ppu.cr[op.[f_crba]] .& ppu.cr[op.[f_crbb]]) ppu.
Definition CREQV (op : Z) (ppu : ppu_thread) : ppu_thread :=
  set_cr op.[f_crbd] ((ppu.cr[op.[f_crba]] .^ ppu.cr[op.[f_crbb]]) .^ 1) ppu.
Definition CRORC (op : Z) (ppu : ppu_thread) : ppu_thread :=
  set_cr op.[f_crbd] (ppu.cr[op.[f_crba]] .| (ppu.cr[op.[f_crbb]] .^ 1)) ppu.
Definition CROR (op : Z) (ppu : ppu_thread) : ppu_thread :=
  set_cr op.[f_crbd] (ppu.cr[op.[f_crba]] .| ppu.cr[op.[f_crbb]]) ppu.

(** ** Rotates *)

Definition RLWIMI (rc : bool) (op : Z) (ppu : ppu_thread) : ppu_thread :=
  let mask := ppu_rotate_mask (32 + op.[f_mb32]) (32 + op.[f_me32]) in
  let v := (ppu.gpr[op.[f_ra]] .& bnot 64 mask) .|
           (dup32 (rotl 32 (u32 ppu.gpr[op.[f_rs]]) op.[f_sh32]) .& mask) in
  record_cr0 rc v (set_gpr op.[f_ra] v ppu).

Definition RLWINM (rc : bool) (op : Z) (ppu : ppu_thread) : ppu_thread :=
  let v := dup32 (rotl 32 (u32 ppu.gpr[op.[f_rs]]) op.[f_sh32]) .&
           ppu_rotate_mask (32 + op.[f_mb32]) (32 + op.[f_me32]) in
  record_cr0 rc v (set_gpr op.[f_ra] v ppu).

Definition RLWNM (rc : bool) (op : Z) (ppu : ppu_thread) : ppu_thread :=
  let v := dup32 (rotl 32 (u32 ppu.gpr[op.[f_rs]]) (ppu.gpr[op.[f_rb]] .& 0x1f)) .&
           ppu_rotate_mask (32 + op.[f_mb32]) (32 + op.[f_me32]) in
  record_cr0 rc v (set_gpr op.[f_ra] v ppu).

Definition RLDICL (rc : bool) (op : Z) (ppu : ppu_thread) : ppu_thread :=
  let v := rotl 64 ppu.gpr[op.[f_rs]] op.[f_sh64] .& Z.shiftr (bnot 64 0) op.[f_mbe64] in
  record_cr0 rc v (set_gpr op.[f_ra] v ppu).

Definition RLDICR (rc : bool) (op : Z) (ppu : ppu_thread) : ppu_thread :=
  let v := rotl 64 ppu.gpr[op.[f_rs]] op.[f_sh64] .&
           u64 (Z.shiftl (bnot 64 0) (op.[f_mbe64] .^ 63)) in
  record_cr0 rc v (set_gpr op.[f_ra] v ppu).

Definition RLDIC (rc : bool) (op : Z) (ppu : ppu_thread) : ppu_thread :=
  let v := rotl 64 ppu.gpr[op.[f_rs]] op.[f_sh64] .&
           ppu_rotate_mask op.[f_mbe64] (op.[f_sh64] .^ 63) in
  record_cr0 rc v (set_gpr op.[f_ra] v ppu).

Definition RLDIMI (rc : bool) (op : Z) (ppu : ppu_thread) : ppu_thread :=
  let mask := ppu_rotate_mask op.[f_mbe64] (op.[f_sh64] .^ 63) in
  let v := (ppu.gpr[op.[f_ra]] .& bnot 64 mask) .|
           (rotl 64 ppu.gpr[op.[f_rs]] op.[f_sh64] .& mask) in
  record_cr0 rc v (set_gpr op.[f_ra] v ppu).

Definition RLDCL (rc : bool) (op : Z) (ppu : ppu_thread) : ppu_thread :=
  let v := rotl 64 ppu.gpr[op.[f_rs]] (ppu.gpr[op.[f_rb]] .& 0x3f) .&
           Z.shiftr (bnot 64 0) op.[f_mbe64] in
  record_cr0 rc v (set_gpr op.[f_ra] v ppu).

Definition RLDCR (rc : bool) (op : Z) (ppu : ppu_thread) : ppu_thread :=
  let v := rotl 64 ppu.gpr[op.[f_rs]] (ppu.gpr[op.[f_rb]] .& 0x3f) .&
           u64 (Z.shiftl (bnot 64 0) (op.[f_mbe64] .^ 63)) in
  record_cr0 rc v (set_gpr op.[f_ra] v ppu).

(** ** Logical instructions *)

Definition ORI (op : Z) (ppu : ppu_thread) : ppu_thread :=
  set_gpr op.[f_ra] (ppu.gpr[op.[f_rs]] .| op.[f_uimm16]) ppu.
Definition ORIS (op : Z) (ppu : ppu_thread) : ppu_thread :=
  set_gpr op.[f_ra] (ppu.gpr[op.[f_rs]] .| Z.shiftl op.[f_uimm16] 16) ppu.
Definition XORI (op : Z) (ppu : ppu_thread) : ppu_thread :=
  set_gpr op.[f_ra] (ppu.gpr[op.[f_rs]] .^ op.[f_uimm16]) ppu.
Definition XORIS (op : Z) (ppu : ppu_thread) : ppu_thread :=
  set_gpr op.[f_ra] (ppu.gpr[op.[f_rs]] .^ Z.shiftl op.[f_uimm16] 16) ppu.
Definition ANDI (op : Z) (ppu : ppu_thread) : ppu_thread :=
  let v := ppu.gpr[op.[f_rs]] .& op.[f_uimm16] in
  ppu_cr_cmp 0 (s64 v) 0 (set_gpr op.[f_ra] v ppu).
Definition ANDIS (op : Z) (ppu : ppu_thread) : ppu_thread :=
  let v := ppu.gpr[op.[f_rs]] .& Z.shiftl op.[f_uimm16] 16 in
  ppu_cr_cmp 0 (s64 v) 0 (set_gpr op.[f_ra] v ppu).

Definition AND (rc : bool) (op : Z) (ppu : ppu_thread) : ppu_thread :=
  let v := ppu.gpr[op.[f_rs]] .& ppu.gpr[op.[f_rb]] in
  record_cr0 rc v (set_gpr op.[f_ra] v ppu).
Definition ANDC (rc : bool) (op : Z) (ppu : ppu_thread) : ppu_thread :=
  let v := ppu.gpr[op.[f_rs]] .& bnot 64 ppu.gpr[op.[f_rb]] in
  record_cr0 rc v (set_gpr op.[f_ra] v ppu).
Definition NOR (rc : bool) (op : Z) (ppu : ppu_thread) : ppu_thread :=
  let v := bnot 64 (ppu.gpr[op.[f_rs]] .| ppu.gpr[op.[f_rb]]) in
  record_cr0 rc v (set_gpr op.[f_ra] v ppu).
Definition EQV (rc : bool) (op : Z) (ppu : ppu_thread) : ppu_thread :=
  let v := bnot 64 (ppu.gpr[op.[f_rs]] .^ ppu.gpr[op.[f_rb]]) in
  record_cr0 rc v (set_gpr op.[f_ra] v ppu).
Definition XOR (rc : bool) (op : Z) (ppu : ppu_thread) : ppu_thread :=
  let v := ppu.gpr[op.[f_rs]] .^ ppu.gpr[op.[f_rb]] in
  record_cr0 rc v (set_gpr op.[f_ra] v ppu).
Definition ORC (rc : bool) (op : Z) (ppu : ppu_thread) : ppu_thread :=
  let v := ppu.gpr[op.[f_rs]] .| bnot 64 ppu.gpr[op.[f_rb]] in
  record_cr0 rc v (set_gpr op.[f_ra] v ppu).
Definition OR (rc : bool) (op : Z) (ppu : ppu_thread) : ppu_thread :=
  let v := ppu.gpr[op.[f_rs]] .| ppu.gpr[op.[f_rb]] in
  record_cr0 rc v (set_gpr op.[f_ra] v ppu).
Definition NAND (rc : bool) (op : Z) (ppu : ppu_thread) : ppu_thread :=
  let v := bnot 64 (ppu.gpr[op.[f_rs]] .& ppu.gpr[op.[f_rb]]) in
  record_cr0 rc v (set_gpr op.[f_ra] v ppu).
Definition EXTSB (rc : bool) (op : Z) (ppu : ppu_thread) : ppu_thread :=
  let v := u64 (s8 ppu.gpr[op.[f_rs]]) in
  record_cr0 rc v (set_gpr op.[f_ra] v ppu).
Definition EXTSH (rc : bool) (op : Z) (ppu : ppu_thread) : ppu_thread :=
  let v := u64 (s16 ppu.gpr[op.[f_rs]]) in
  record_cr0 rc v (set_gpr op.[f_ra] v ppu).
Definition EXTSW (rc : bool) (op : Z) (ppu : ppu_thread) : ppu_thread :=
  let v := u64 (s32 ppu.gpr[op.[f_rs]]) in
  record_cr0 rc v (set_gpr op.[f_ra] v ppu).
Definition CNTLZW (rc : bool) (op : Z) (ppu : ppu_thread) : ppu_thread :=
  let v := countl_zero 32 (u32 ppu.gpr[op.[f_rs]]) in
  record_cr0 rc v (set_gpr op.[f_ra] v ppu).
Definition CNTLZD (rc : bool) (op : Z) (ppu : ppu_thread) : ppu_thread :=
  let v := countl_zero 64 ppu.gpr[op.[f_rs]] in
  record_cr0 rc v (set_gpr op.[f_ra] v ppu).

(** ** Shifts *)

Definition SLW (rc : bool) (op : Z) (ppu : ppu_thread) : ppu_thread :=
  let v := u32 (u64 (Z.shiftl ppu.gpr[op.[f_rs]] (ppu.gpr[op.[f_rb]] .& 0x3f))) in
  record_cr0 rc v (set_gpr op.[f_ra] v ppu).
Definition SLD (rc : bool) (op : Z) (ppu : ppu_thread) : ppu_thread :=
  let n := ppu.gpr[op.[f_rb]] .& 0x7f in
  let v := if negb (n .& 0x40 =? 0) then 0 else u64 (Z.shiftl ppu.gpr[op.[f_rs]] n) in
  record_cr0 rc v (set_gpr op.[f_ra] v ppu).
Definition SRW (rc : bool) (op : Z) (ppu : ppu_thread) : ppu_thread :=
  let v := Z.shiftr (ppu.gpr[op.[f_rs]] .& 0xffffffff) (ppu.gpr[op.[f_rb]] .& 0x3f) in
  record_cr0 rc v (set_gpr op.[f_ra] v ppu).
Definition SRD (rc : bool) (op : Z) (ppu : ppu_thread) : ppu_thread :=
  let n := ppu.gpr[op.[f_rb]] .& 0x7f in
  let v := if negb (n .& 0x40 =? 0) then 0 else Z.shiftr ppu.gpr[op.[f_rs]] n in
  record_cr0 rc v (set_gpr op.[f_ra] v ppu).

Definition SRAW (rc : bool) (op : Z) (ppu : ppu_thread) : ppu_thread :=
  let RS := s32 ppu.gpr[op.[f_rs]] in
  let shift := u8 (ppu.gpr[op.[f_rb]] .& 63) in
  let v := if 31 <? shift then u64 (0 - b2z (RS <? 0)) else u64 (Z.shiftr RS shift) in
  let c := if 31 <? shift then RS <? 0
           else (RS <? 0) && negb (u64 (Z.shiftl v shift) =? u64 RS) in
  record_cr0 rc v (set_ca c (set_gpr op.[f_ra] v ppu)).

Definition SRAD (rc : bool) (op : Z) (ppu : ppu_thread) : ppu_thread :=
  let RS := s64 ppu.gpr[op.[f_rs]] in
  let shift := u8 (ppu.gpr[op.[f_rb]] .& 127) in
  let v := if 63 <? shift then u64 (0 - b2z (RS <? 0)) else u64 (Z.shiftr RS shift) in
  let c := if 63 <? shift then RS <? 0
           else (RS <? 0) && negb (u64 (Z.shiftl v shift) =? u64 RS) in
  record_cr0 rc v (set_ca c (set_gpr op.[f_ra] v ppu)).

Definition SRAWI (rc : bool) (op : Z) (ppu : ppu_thread) : ppu_thread :=
  let RS := s32 (u32 ppu.gpr[op.[f_rs]]) in
  let v := u64 (Z.shiftr RS op.[f_sh32]) in
  let c := (RS <? 0) && negb (u32 (u64 (Z.shiftl v op.[f_sh32])) =? u32 RS) in
  record_cr0 rc v (set_ca c (set_gpr op.[f_ra] v ppu)).

Definition SRADI (rc : bool) (op : Z) (ppu : ppu_thread) : ppu_thread :=
  let sh := op.[f_sh64] in
  let RS := s64 ppu.gpr[op.[f_rs]] in
  let v := u64 (Z.shiftr RS sh) in
  let c := (RS <? 0) && negb (u64 (Z.shiftl v sh) =? u64 RS) in
  record_cr0 rc v (set_ca c (set_gpr op.[f_ra] v ppu)).

(** ** Register comparison *)

Definition CMP (op : Z) (ppu : ppu_thread) : ppu_thread :=
  if negb (op.[f_l10] =? 0)
  then ppu_cr_cmp op.[f_crfd] (s64 ppu.gpr[op.[f_ra]]) (s64 ppu.gpr[op.[f_rb]]) ppu
  else ppu_cr_cmp op.[f_crfd] (s32 (u32 ppu.gpr[op.[f_ra]])) (s32 (u32 ppu.gpr[op.[f_rb]])) ppu.
Definition CMPL (op : Z) (ppu : ppu_thread) : ppu_thread :=
  if negb (op.[f_l10] =? 0)
  then ppu_cr_cmp op.[f_crfd] ppu.gpr[op.[f_ra]] ppu.gpr[op.[f_rb]] ppu
  else ppu_cr_cmp op.[f_crfd] (u32 ppu.gpr[op.[f_ra]]) (u32 ppu.gpr[op.[f_rb]]) ppu.

(** ** Addition and subtraction *)

Definition ADD (oe rc : bool) (op : Z) (ppu : ppu_thread) : ppu_thread :=
  let RA := ppu.gpr[op.[f_ra]] in
  let RB := ppu.gpr[op.[f_rb]] in
  let d := u64 (RA + RB) in
  record_cr0 rc d (if_oe oe ((msb RA =? msb RB) && negb (msb RA =? msb d))
    (set_gpr op.[f_rd] d ppu)).
Definition SUBF (oe rc : bool) (op : Z) (ppu : ppu_thread) : ppu_thread :=
  let RA := ppu.gpr[op.[f_ra]] in
  let RB := ppu.gpr[op.[f_rb]] in
  let d := u64 (RB - RA) in
  record_cr0 rc d (if_oe oe
    ((msb (bnot 64 RA) =? msb RB) && negb (msb (bnot 64 RA) =? msb d))
    (set_gpr op.[f_rd] d ppu)).
Definition NEG (oe rc : bool) (op : Z) (ppu : ppu_thread) : ppu_thread :=
  let RA := ppu.gpr[op.[f_ra]] in
  let d := u64 (0 - RA) in
  record_cr0 rc d (if_oe oe (RA =? Z.shiftl 1 63) (set_gpr op.[f_rd] d ppu)).
Definition ADDC (oe rc : bool) (op : Z) (ppu : ppu_thread) : ppu_thread :=
  let RA := ppu.gpr[op.[f_ra]] in
  let RB := ppu.gpr[op.[f_rb]] in
  let r := add_flags2 RA RB in
  record_cr0 rc (result r) (if_oe oe ((msb RA =? msb RB) && negb (msb RA =? msb (result r)))
    (set_ca (carry r) (set_gpr op.[f_rd] (result r) ppu))).
Definition SUBFC (oe rc : bool) (op : Z) (ppu : ppu_thread) : ppu_thread :=
  let RA := ppu.gpr[op.[f_ra]] in
  let RB := ppu.gpr[op.[f_rb]] in
  let r := add_flags3 (bnot 64 RA) RB true in
  record_cr0 rc (result r) (if_oe oe
    ((msb (bnot 64 RA) =? msb RB) && negb (msb (bnot 64 RA) =? msb (result r)))
    (set_ca (carry r) (set_gpr op.[f_rd] (result r) ppu))).
Definition ADDE (oe rc : bool) (op : Z) (ppu : ppu_thread) : ppu_thread :=
  let RA := ppu.gpr[op.[f_ra]] in
  let RB := ppu.gpr[op.[f_rb]] in
  let r := add_flags3 RA RB (ca (xer ppu)) in
  record_cr0 rc (result r) (if_oe oe ((msb RA =? msb RB) && negb (msb RA =? msb (result r)))
    (set_ca (carry r) (set_gpr op.[f_rd] (result r) ppu))).
Definition SUBFE (oe rc : bool) (op : Z) (ppu : ppu_thread) : ppu_thread :=
  let RA := ppu.gpr[op.[f_ra]] in
  let RB := ppu.gpr[op.[f_rb]] in
  let r := add_flags3 (bnot 64 RA) RB (ca (xer ppu)) in
  record_cr0 rc (result r) (if_oe oe
    ((msb (bnot 64 RA) =? msb RB) && negb (msb (bnot 64 RA) =? msb (result r)))
    (set_ca (carry r) (set_gpr op.[f_rd] (result r) ppu))).
Definition ADDZE (oe rc : bool) (op : Z) (ppu : ppu_thread) : ppu_thread :=
  let RA := ppu.gpr[op.[f_ra]] in
  let r := add_flags3 RA 0 (ca (xer ppu)) in
  record_cr0 rc (result r) (if_oe oe ((msb RA =? 0) && negb (msb RA =? msb (result r)))
    (set_ca (carry r) (set_gpr op.[f_rd] (result r) ppu))).
Definition SUBFZE (oe rc : bool) (op : Z) (ppu : ppu_thread) : ppu_thread :=
  let RA := ppu.gpr[op.[f_ra]] in
  let r := add_flags3 (bnot 64 RA) 0 (ca (xer ppu)) in
  record_cr0 rc (result r) (if_oe oe
    ((msb (bnot 64 RA) =? 0) && negb (msb (bnot 64 RA) =? msb (result r)))
    (set_ca (carry r) (set_gpr op.[f_rd] (result r) ppu))).
Definition ADDME (oe rc : bool) (op : Z) (ppu : ppu_thread) : ppu_thread :=
  let RA := s64 ppu.gpr[op.[f_ra]] in
  let r := add_flags3 (u64 RA) (bnot 64 0) (ca (xer ppu)) in
  record_cr0 rc (result r) (if_oe oe ((msb (u64 RA) =? 1) && negb (msb (u64 RA) =? msb (result r)))
    (set_ca (carry r) (set_gpr op.[f_rd] (result r) ppu))).
Definition SUBFME (oe rc : bool) (op : Z) (ppu : ppu_thread) : ppu_thread :=
  let RA := ppu.gpr[op.[f_ra]] in
  let r := add_flags3 (bnot 64 RA) (bnot 64 0) (ca (xer ppu)) in
  record_cr0 rc (result r) (if_oe oe
    ((msb (bnot 64 RA) =? 1) && negb (msb (bnot 64 RA) =? msb (result r)))
    (set_ca (carry r) (set_gpr op.[f_rd] (result r) ppu))).

(** ** Multiplication and division *)

Definition MULHDU (rc : bool) (op : Z) (ppu : ppu_thread) : ppu_thread :=
  let v := umulh64 ppu.gpr[op.[f_ra]] ppu.gpr[op.[f_rb]] in
  record_cr0 rc v (set_gpr op.[f_rd] v ppu).
Definition MULHD (rc : bool) (op : Z) (ppu : ppu_thread) : ppu_thread :=
  let v := u64 (mulh64 (s64 ppu.gpr[op.[f_ra]]) (s64 ppu.gpr[op.[f_rb]])) in
  record_cr0 rc v (set_gpr op.[f_rd] v ppu).
Definition MULHWU (rc : bool) (op : Z) (ppu : ppu_thread) : ppu_thread :=
  let a := u32 ppu.gpr[op.[f_ra]] in
  let b := u32 ppu.gpr[op.[f_rb]] in
  let v := Z.shiftr (u64 (a * b)) 32 in
  record_cr0 rc v (set_gpr op.[f_rd] v ppu).
Definition MULHW (rc : bool) (op : Z) (ppu : ppu_thread) : ppu_thread :=
  let a := s32 ppu.gpr[op.[f_ra]] in
  let b := s32 ppu.gpr[op.[f_rb]] in
  let v := u64 (Z.shiftr (s64 (a * b)) 32) in
  record_cr0 rc v (set_gpr op.[f_rd] v ppu).

(** [MULLD] tests [op.oe] at run time. *)
Definition MULLD (rc : bool) (op : Z) (ppu : ppu_thread) : ppu_thread :=
  let RA := s64 ppu.gpr[op.[f_ra]] in
  let RB := s64 ppu.gpr[op.[f_rb]] in
  let d := u64 (RA * RB) in
  let ppu := set_gpr op.[f_rd] d ppu in
  let ppu := if negb (op.[f_oe] =? 0)
             then ppu_ov_set (negb (mulh64 RA RB =? Z.shiftr (s64 d) 63)) ppu else ppu in
  record_cr0 rc d ppu.
Definition MULLW (oe rc : bool) (op : Z) (ppu : ppu_thread) : ppu_thread :=
  let d := u64 (s32 ppu.gpr[op.[f_ra]] * s32 ppu.gpr[op.[f_rb]]) in
  record_cr0 rc d (if_oe oe ((s64 d <? - 2 ^ 31) || (2 ^ 31 - 1 <? s64 d))
    (set_gpr op.[f_rd] d ppu)).
Definition DIVDU (oe rc : bool) (op : Z) (ppu : ppu_thread) : ppu_thread :=
  let RA := ppu.gpr[op.[f_ra]] in
  let RB := ppu.gpr[op.[f_rb]] in
  let d := if RB =? 0 then 0 else RA / RB in
  record_cr0 rc d (if_oe oe (RB =? 0) (set_gpr op.[f_rd] d ppu)).
Definition DIVWU (oe rc : bool) (op : Z) (ppu : ppu_thread) : ppu_thread :=
  let RA := u32 ppu.gpr[op.[f_ra]] in
  let RB := u32 ppu.gpr[op.[f_rb]] in
  let d := if RB =? 0 then 0 else RA / RB in
  record_cr0 rc d (if_oe oe (RB =? 0) (set_gpr op.[f_rd] d ppu)).
Definition DIVD (oe rc : bool) (op : Z) (ppu : ppu_thread) : ppu_thread :=
  let RA := s64 ppu.gpr[op.[f_ra]] in
  let RB := s64 ppu.gpr[op.[f_rb]] in
  let o := (RB =? 0) || ((RA =? - 2 ^ 63) && (RB =? -1)) in
  let d := if o then 0 else u64 (Z.quot RA RB) in
  record_cr0 rc d (if_oe oe o (set_gpr op.[f_rd] d ppu)).
Definition DIVW (oe rc : bool) (op : Z) (ppu : ppu_thread) : ppu_thread :=
  let RA := s32 ppu.gpr[op.[f_ra]] in
  let RB := s32 ppu.gpr[op.[f_rb]] in
  let o := (RB =? 0) || ((RA =? - 2 ^ 31) && (RB =? -1)) in
  let d := if o then 0 else u32 (Z.quot RA RB) in
  record_cr0 rc d (if_oe oe o (set_gpr op.[f_rd] d ppu)).

(** ** Condition register and special purpose register moves *)

(** [MFOCRF<N>]. *)
Definition MFOCRF (N : Z) (op : Z) (ppu : ppu_thread) : ppu_thread :=
  let p := N * 4 in
  let v := Z.shiftl ppu.cr[p + 0] 3 .| Z.shiftl ppu.cr[p + 1] 2 .|
           Z.shiftl ppu.cr[p + 2] 1 .| Z.shiftl ppu.cr[p + 3] 0 in
  set_gpr op.[f_rd] (u32 (Z.shiftl v (p .^ 0x1c))) ppu.

(** The portable branch, and the two 16-byte lanes of the x64 branch: [movemask]
    collects the most significant bit of each byte of the byte-reversed lane after a
    shift by 7. *)
Definition MFCR (op : Z) (ppu : ppu_thread) : ppu_thread :=
  set_gpr op.[f_rd] (pack (cr ppu)) ppu.

Definition movemask (lane : list Z) : Z :=
  foldr (fun b acc => Z.lor (b2z (Z.odd b)) (Z.shiftl acc 1)) 0 lane.

Definition MFCR_x64 (op : Z) (ppu : ppu_thread) : ppu_thread :=
  let mh := movemask (reverse (take 16 (cr ppu))) in
  let ml := movemask (reverse (drop 16 (cr ppu))) in
  set_gpr op.[f_rd] (u32 (Z.shiftl mh 16) .| ml) ppu.

(** Row [v] of [s_table] of [MTOCRF]. *)
Definition s_table (v : Z) : list Z :=
  [b2z (Z.testbit v 3); b2z (Z.testbit v 2); b2z (Z.testbit v 1); b2z (Z.testbit v 0)].

Definition MTOCRF (op : Z) (ppu : ppu_thread) : ppu_thread :=
  let s := ppu.gpr[op.[f_rs]] in
  if negb (op.[f_l11] =? 0) then
    let n := countl_zero 32 op.[f_crm] .& 7 in
    let v := Z.shiftr s ((n * 4) .^ 0x1c) .& 0xf in
    set_cr_field n (s_table v) ppu
  else
    foldl (fun ppu i =>
      if negb (op.[f_crm] .& Z.shiftr 128 i =? 0)
      then set_cr_field i (s_table (Z.shiftr s ((i * 4) .^ 0x1c) .& 0xf)) ppu else ppu)
      ppu [0; 1; 2; 3; 4; 5; 6; 7].

(** [(op.spr >> 5) | ((op.spr & 0x1f) << 5)]. *)
Definition spr_index (op : Z) : Z :=
  Z.shiftr op.[f_spr] 5 .| Z.shiftl (op.[f_spr] .& 0x1f) 5.

(** The XER as a register image. *)
Definition xer_image (x : xer_t) : Z :=
  u32 (Z.shiftl (b2z (so x)) 31) .| Z.shiftl (b2z (ov x)) 30 .|
  Z.shiftl (b2z (ca x)) 29 .| cnt x.

(** [tb] is the value returned by [get_timebased_time]. *)
Definition MFSPR (tb : Z) (op : Z) (ppu : ppu_thread) : fault + ppu_thread :=
  let n := spr_index op in
  if n =? 0x001 then inr (set_gpr op.[f_rd] (xer_image (xer ppu)) ppu)
  else if n =? 0x008 then inr (set_gpr op.[f_rd] (lr ppu) ppu)
  else if n =? 0x009 then inr (set_gpr op.[f_rd] (ctr ppu) ppu)
  else if n =? 0x100 then inr (set_gpr op.[f_rd] (vrsave ppu) ppu)
  else if n =? 0x10C then inr (set_gpr op.[f_rd] tb ppu)
  else if n =? 0x10D then inr (set_gpr op.[f_rd] (Z.shiftr tb 32) ppu)
  else inl (BadSpr op n).

Definition MFTB (tb : Z) (op : Z) (ppu : ppu_thread) : fault + ppu_thread :=
  let n := spr_index op in
  if n =? 0x10C then inr (set_gpr op.[f_rd] tb ppu)
  else if n =? 0x10D then inr (set_gpr op.[f_rd] (Z.shiftr tb 32) ppu)
  else inl (BadSpr op n).

Definition MTSPR (op : Z) (ppu : ppu_thread) : fault + ppu_thread :=
  let n := spr_index op in
  let value := ppu.gpr[op.[f_rs]] in
  if n =? 0x001 then
    inr (with_xer ppu (Xer (negb (value .& 0x80000000 =? 0)) (negb (value .& 0x40000000 =? 0))
                           (negb (value .& 0x20000000 =? 0)) (u8 (value .& 0x7f))))
  else if n =? 0x008 then inr (with_lr ppu value)
  else if n =? 0x009 then inr (with_ctr ppu value)
  else if n =? 0x100 then inr (with_vrsave ppu (u32 value))
  else inl (BadSpr op n).

(** ** Table of [ppu_interpreter_rt_base]: the handlers of this file that cannot throw.
    The cache hints and fences have no effect on the modelled state. *)
Definition fixed (i : itype) : option (Z -> ppu_thread -> ppu_thread) :=
  match i with
  | Itype.MULLI => Some MULLI
  | Itype.SUBFIC => Some SUBFIC
  | Itype.CMPLI => Some CMPLI
  | Itype.CMPI => Some CMPI
  | Itype.ADDIC => Some ADDIC
  | Itype.ADDI => Some ADDI
  | Itype.ADDIS => Some ADDIS
  | Itype.MCRF => Some MCRF
  | Itype.CRNOR => Some CRNOR
  | Itype.CRANDC => Some CRANDC
  | Itype.CRXOR => Some CRXOR
  | Itype.CRNAND => Some CRNAND
  | Itype.CRAND => Some CRAND
  | Itype.CREQV => Some CREQV
  | Itype.CRORC => Some CRORC
  | Itype.CROR => Some CROR
  | Itype.ORI => Some ORI
  | Itype.ORIS => Some ORIS
  | Itype.XORI => Some XORI
  | Itype.XORIS => Some XORIS
  | Itype.ANDI => Some ANDI
  | Itype.ANDIS => Some ANDIS
  | Itype.CMP => Some CMP
  | Itype.CMPL => Some CMPL
  | Itype.MTOCRF => Some MTOCRF
  | Itype.ISYNC | Itype.DCBST | Itype.DCBF | Itype.DCBTST | Itype.DCBT | Itype.DST
  | Itype.DSTST | Itype.DCBI | Itype.SYNC | Itype.DSS | Itype.EIEIO | Itype.ICBI
    => Some (fun _ ppu => ppu)
  | Itype.RLWIMI => Some (RLWIMI false) | Itype.RLWIMI_ => Some (RLWIMI true)
  | Itype.RLWINM => Some (RLWINM false) | Itype.RLWINM_ => Some (RLWINM true)
  | Itype.RLWNM => Some (RLWNM false) | Itype.RLWNM_ => Some (RLWNM true)
  | Itype.RLDICL => Some (RLDICL false) | Itype.RLDICL_ => Some (RLDICL true)
  | Itype.RLDICR => Some (RLDICR false) | Itype.RLDICR_ => Some (RLDICR true)
  | Itype.RLDIC => Some (RLDIC false) | Itype.RLDIC_ => Some (RLDIC true)
  | Itype.RLDIMI => Some (RLDIMI false) | Itype.RLDIMI_ => Some (RLDIMI true)
  | Itype.RLDCL => Some (RLDCL false) | Itype.RLDCL_ => Some (RLDCL true)
  | Itype.RLDCR => Some (RLDCR false) | Itype.RLDCR_ => Some (RLDCR true)
  | Itype.MULHDU => Some (MULHDU false) | Itype.MULHDU_ => Some (MULHDU true)
  | Itype.MULHWU => Some (MULHWU false) | Itype.MULHWU_ => Some (MULHWU true)
  | Itype.SLW => Some (SLW false) | Itype.SLW_ => Some (SLW true)
  | Itype.CNTLZW => Some (CNTLZW false) | Itype.CNTLZW_ => Some (CNTLZW true)
  | Itype.SLD => Some (SLD false) | Itype.SLD_ => Some (SLD true)
  | Itype.AND => Some (AND false) | Itype.AND_ => Some (AND true)
  | Itype.CNTLZD => Some (CNTLZD false) | Itype.CNTLZD_ => Some (CNTLZD true)
  | Itype.ANDC => Some (ANDC false) | Itype.ANDC_ => Some (ANDC true)
  | Itype.MULHD => Some (MULHD false) | Itype.MULHD_ => Some (MULHD true)
  | Itype.MULHW => Some (MULHW false) | Itype.MULHW_ => Some (MULHW true)
  | Itype.NOR => Some (NOR false) | Itype.NOR_ => Some (NOR true)
  | Itype.EQV => Some (EQV false) | Itype.EQV_ => Some (EQV true)
  | Itype.XOR => Some (XOR false) | Itype.XOR_ => Some (XOR true)
  | Itype.ORC => Some (ORC false) | Itype.ORC_ => Some (ORC true)
  | Itype.OR => Some (OR false) | Itype.OR_ => Some (OR true)
  | Itype.NAND => Some (NAND false) | Itype.NAND_ => Some (NAND true)
  | Itype.SRW => Some (SRW false) | Itype.SRW_ => Some (SRW true)
  | Itype.SRD => Some (SRD false) | Itype.SRD_ => Some (SRD true)
  | Itype.SRAW => Some (SRAW false) | Itype.SRAW_ => Some (SRAW true)
  | Itype.SRAD => Some (SRAD false) | Itype.SRAD_ => Some (SRAD true)
  | Itype.SRAWI => Some (SRAWI false) | Itype.SRAWI_ => Some (SRAWI true)
  | Itype.SRADI => Some (SRADI false) | Itype.SRADI_ => Some (SRADI true)
  | Itype.EXTSH => Some (EXTSH false) | Itype.EXTSH_ => Some (EXTSH true)
  | Itype.EXTSB => Some (EXTSB false) | Itype.EXTSB_ => Some (EXTSB true)
  | Itype.EXTSW => Some (EXTSW false) | Itype.EXTSW_ => Some (EXTSW true)
  | Itype.SUBFC => Some (SUBFC false false) | Itype.SUBFCO => Some (SUBFC true false)
  | Itype.SUBFC_ => Some (SUBFC false true) | Itype.SUBFCO_ => Some (SUBFC true true)
  | Itype.ADDC => Some (ADDC false false) | Itype.ADDCO => Some (ADDC true false)
  | Itype.ADDC_ => Some (ADDC false true) | Itype.ADDCO_ => Some (ADDC true true)
  | Itype.SUBF => Some (SUBF false false) | Itype.SUBFO => Some (SUBF true false)
  | Itype.SUBF_ => Some (SUBF false true) | Itype.SUBFO_ => Some (SUBF true true)
  | Itype.NEG => Some (NEG false false) | Itype.NEGO => Some (NEG true false)
  | Itype.NEG_ => Some (NEG false true) | Itype.NEGO_ => Some (NEG true true)
  | Itype.SUBFE => Some (SUBFE false false) | Itype.SUBFEO => Some (SUBFE true false)
  | Itype.SUBFE_ => Some (SUBFE false true) | Itype.SUBFEO_ => Some (SUBFE true true)
  | Itype.ADDE => Some (ADDE false false) | Itype.ADDEO => Some (ADDE true false)
  | Itype.ADDE_ => Some (ADDE false true) | Itype.ADDEO_ => Some (ADDE true true)
  | Itype.SUBFZE => Some (SUBFZE false false) | Itype.SUBFZEO => Some (SUBFZE true false)
  | Itype.SUBFZE_ => Some (SUBFZE false true) | Itype.SUBFZEO_ => Some (SUBFZE true true)
  | Itype.ADDZE => Some (ADDZE false false) | Itype.ADDZEO => Some (ADDZE true false)
  | Itype.ADDZE_ => Some (ADDZE false true) | Itype.ADDZEO_ => Some (ADDZE true true)
  | Itype.SUBFME => Some (SUBFME false false) | Itype.SUBFMEO => Some (SUBFME true false)
  | Itype.SUBFME_ => Some (SUBFME false true) | Itype.SUBFMEO_ => Some (SUBFME true true)
  | Itype.MULLD | Itype.MULLDO => Some (MULLD false)
  | Itype.MULLD_ | Itype.MULLDO_ => Some (MULLD true)
  | Itype.ADDME => Some (ADDME false false) | Itype.ADDMEO => Some (ADDME true false)
  | Itype.ADDME_ => Some (ADDME false true) | Itype.ADDMEO_ => Some (ADDME true true)
  | Itype.MULLW => Some (MULLW false false) | Itype.MULLWO => Some (MULLW true false)
  | Itype.MULLW_ => Some (MULLW false true) | Itype.MULLWO_ => Some (MULLW true true)
  | Itype.ADD => Some (ADD false false) | Itype.ADDO => Some (ADD true false)
  | Itype.ADD_ => Some (ADD false true) | Itype.ADDO_ => Some (ADD true true)
  | Itype.DIVDU => Some (DIVDU false false) | Itype.DIVDUO => Some (DIVDU true false)
  | Itype.DIVDU_ => Some (DIVDU false true) | Itype.DIVDUO_ => Some (DIVDU true true)
  | Itype.DIVWU => Some (DIVWU false false) | Itype.DIVWUO => Some (DIVWU true false)
  | Itype.DIVWU_ => Some (DIVWU false true) | Itype.DIVWUO_ => Some (DIVWU true true)
  | Itype.DIVD => Some (DIVD false false) | Itype.DIVDO => Some (DIVD true false)
  | Itype.DIVD_ => Some (DIVD false true) | Itype.DIVDO_ => Some (DIVD true true)
  | Itype.DIVW => Some (DIVW false false) | Itype.DIVWO => Some (DIVW true false)
  | Itype.DIVW_ => Some (DIVW false true) | Itype.DIVWO_ => Some (DIVW true true)
  | _ => None
  end.

End Interp.
