(* ===== verification/PpuIntWf.v ===== *)
(** Ranges of instruction fields, and the invariant [wf] of the thread state under the
    fixed-point handlers of PpuInt. *)

From Stdlib Require Import ZArith Lia Bool.
From stdpp Require Import base tactics option list numbers.
From S2P Require Import Prelude BitField PpuOpcodes PpuState PpuInt.
Import BitField.
Local Open Scope Z_scope.
Local Open Scope word_scope.

(** ** Ranges of fields *)

Lemma op_get_unsigned f b op : field_desc f = FBf b -> is_signed b = false -> valid b ->
  in_u (bitsize b) (op_get f op).
Proof.
  intros E Hs Hv. unfold op_get. rewrite E, extract_mod by done. unfold truncate. rewrite Hs.
  destruct Hv. apply wrap_in_u. lia.
Qed.

Lemma op_get_signed f b op : field_desc f = FBf b -> is_signed b = true -> valid b ->
  in_s (bitsize b) (op_get f op).
Proof.
  intros E Hs Hv. unfold op_get. rewrite E, extract_mod by done. unfold truncate. rewrite Hs.
  destruct Hv. apply sgn_in_s. lia.
Qed.

Lemma op_get_pair f b c op : field_desc f = FCf false [CfField b; CfField c] ->
  valid b -> valid c -> bitmax b = 32 -> bitmax c = 32 ->
  is_signed b = false -> is_signed c = false -> bitsize b + bitsize c <= 32 ->
  in_u (bitsize b + bitsize c) (op_get f op).
Proof.
  intros E Hb Hc Mb Mc Sb Sc Hs. unfold op_get. rewrite E, <- Mb at 1.
  rewrite cf_extract_two by (done || congruence || lia). rewrite !extract_mod by done.
  unfold truncate. rewrite Sb, Sc. destruct Hb as (?&?&?), Hc as (?&?&?).
  pose proof (wrap_in_u (bitsize b) (Z.shiftr op (bitpos b)) ltac:(lia)) as U1.
  pose proof (wrap_in_u (bitsize c) (Z.shiftr op (bitpos c)) ltac:(lia)) as U2.
  unfold in_u in *. rewrite Z.pow_add_r by lia. nia.
Qed.

(** Fields that name a register, a CR bit or a 5-bit count. *)
Definition five_bits (f : ppu_field) : bool :=
  match f with
  | f_rd | f_ra | f_rb | f_rs | f_crba | f_crbb | f_crbd | f_bi | f_bo
  | f_sh32 | f_mb32 | f_me32 => true
  | _ => false
  end.

Ltac unsigned_field :=
  match goal with |- context [op_get ?f ?op] =>
    exact (op_get_unsigned f _ op eq_refl eq_refl ltac:(unfold valid; simpl; lia)) end.

Lemma five_bits_range f op : five_bits f = true -> 0 <= op_get f op < 32.
Proof.
  intros Hf. destruct f; try discriminate Hf; unsigned_field.
Qed.

Lemma field3_range f op : f = f_crfd \/ f = f_crfs -> 0 <= op_get f op < 8.
Proof.
  intros [-> | ->]; unsigned_field.
Qed.

Lemma uimm16_range op : in_u 16 op.[f_uimm16].
Proof. unsigned_field. Qed.

Lemma simm16_range op : in_s 16 op.[f_simm16].
Proof. exact (op_get_signed f_simm16 _ op eq_refl eq_refl ltac:(unfold valid; simpl; lia)). Qed.

Lemma crm_range op : in_u 8 op.[f_crm].
Proof. unsigned_field. Qed.

Lemma spr_range op : in_u 10 op.[f_spr].
Proof. unsigned_field. Qed.

Lemma six_bits_range f op : f = f_sh64 \/ f = f_mbe64 -> 0 <= op_get f op < 64.
Proof.
  intros [-> | ->];
    match goal with |- context [op_get ?f _] =>
      refine (op_get_pair f _ _ op eq_refl _ _ eq_refl eq_refl eq_refl eq_refl _) end;
    unfold valid; simpl; lia.
Qed.

Lemma op_get_nonneg f op :
  five_bits f = true \/ f = f_crfd \/ f = f_crfs \/ f = f_sh64 \/ f = f_mbe64 -> 0 <= op_get f op.
Proof.
  intros [H|H]; [pose proof (five_bits_range f op H); lia|].
  destruct H as [-> |[-> |H]].
  - pose proof (field3_range f_crfd op (or_introl eq_refl)). lia.
  - pose proof (field3_range f_crfs op (or_intror eq_refl)). lia.
  - pose proof (six_bits_range f op H). lia.
Qed.

(** ** Ranges of intermediate values *)

Lemma in_u_mono w w' x : 0 <= w <= w' -> in_u w x -> in_u w' x.
Proof. intros. assert (2 ^ w <= 2 ^ w') by (apply Z.pow_le_mono_r; lia). unfold in_u in *. lia. Qed.

Lemma shiftl_in_u w n x : 0 <= w -> 0 <= n -> in_u w x -> in_u (w + n) (Z.shiftl x n).
Proof.
  intros ?? Hx. unfold in_u in *. rewrite Z.shiftl_mul_pow2, Z.pow_add_r by lia.
  pose proof (pow2_pos n ltac:(lia)). nia.
Qed.

Lemma rotate_mask_in_u mb me : 0 <= mb < 64 -> in_u 64 (ppu_rotate_mask mb me).
Proof.
  intros Hmb. unfold ppu_rotate_mask. apply lor_in_u; [lia| |auto with word].
  apply shiftr_in_u; [lia|rewrite land63; apply wrap_in_u; lia|auto with word].
Qed.

Lemma dup32_in_u x : in_u 32 x -> in_u 64 (Interp.dup32 x).
Proof.
  intros Hx. unfold Interp.dup32. apply lor_in_u; [lia|by apply (in_u_mono 32)|].
  by apply (shiftl_in_u 32 32).
Qed.

Lemma countl_zero_range w x : 0 < w -> in_u w x -> 0 <= countl_zero w x <= w.
Proof.
  intros Hw Hx. unfold countl_zero. destruct (Z.eqb_spec x 0); [lia|].
  unfold in_u in Hx. pose proof (Z.log2_nonneg x). 
  assert (Z.log2 x < w) by (apply Z.log2_lt_pow2; lia). lia.
Qed.

Lemma result2_in_u a b : in_u 64 (Interp.result (Interp.add_flags2 a b)).
Proof. simpl. auto with word. Qed.

Lemma result3_in_u a b c : in_u 64 (Interp.result (Interp.add_flags3 a b c)).
Proof. simpl. auto with word. Qed.

Lemma div_in_u w a b : in_u w a -> in_u w b -> b <> 0 -> in_u w (a / b).
Proof.
  unfold in_u. intros. split; [apply Z.div_pos; lia|].
  apply Z.le_lt_trans with a; [apply Z.div_le_upper_bound; nia|lia].
Qed.

Lemma is_bit_land a b : is_bit a -> is_bit b -> is_bit (Z.land a b).
Proof. unfold is_bit. intros. assert (a = 0 \/ a = 1) as [-> | ->] by lia;
  assert (b = 0 \/ b = 1) as [-> | ->] by lia; vm_compute; split; congruence. Qed.
Lemma is_bit_lor a b : is_bit a -> is_bit b -> is_bit (Z.lor a b).
Proof. unfold is_bit. intros. assert (a = 0 \/ a = 1) as [-> | ->] by lia;
  assert (b = 0 \/ b = 1) as [-> | ->] by lia; vm_compute; split; congruence. Qed.
Lemma is_bit_lxor a b : is_bit a -> is_bit b -> is_bit (Z.lxor a b).
Proof. unfold is_bit. intros. assert (a = 0 \/ a = 1) as [-> | ->] by lia;
  assert (b = 0 \/ b = 1) as [-> | ->] by lia; vm_compute; split; congruence. Qed.

Lemma cr_is_bit p i : wf p -> is_bit p.cr[i].
Proof. intros []. by apply get_is_bit. Qed.

Lemma cr_field_is_bit p n : wf p -> Forall is_bit (cr_field p n).
Proof. intros. repeat constructor; by apply cr_is_bit. Qed.

Lemma s_table_is_bit v : Forall is_bit (Interp.s_table v).
Proof. repeat constructor; apply is_bit_b2z. Qed.

(** ** The invariant *)

Lemma wf_cr_set field a b c d p : wf p -> wf (Interp.ppu_cr_set field a b c d p).
Proof. intros. unfold Interp.ppu_cr_set. auto with ppu. Qed.

Lemma wf_cr_cmp field a b p : wf p -> wf (Interp.ppu_cr_cmp field a b p).
Proof. apply wf_cr_set. Qed.

Lemma wf_record_cr0 rc v p : wf p -> wf (Interp.record_cr0 rc v p).
Proof. intros. destruct rc; [by apply wf_cr_cmp|done]. Qed.

Lemma wf_ov_set b p : wf p -> wf (Interp.ppu_ov_set b p).
Proof. by intros []. Qed.

Lemma wf_if_oe oe b p : wf p -> wf (Interp.if_oe oe b p).
Proof. intros. destruct oe; [by apply wf_ov_set|done]. Qed.

#[export] Hint Resolve wf_cr_set wf_cr_cmp wf_record_cr0 wf_ov_set wf_if_oe result2_in_u
  result3_in_u is_bit_land is_bit_lor is_bit_lxor cr_is_bit cr_field_is_bit s_table_is_bit : ppu.

Lemma wf_foldl {A} (f : ppu_thread -> A -> ppu_thread) l p :
  (forall p x, wf p -> wf (f p x)) -> wf p -> wf (foldl f p l).
Proof. intros Hf. revert p. induction l; simpl; auto. Qed.

Lemma wf_MTOCRF op p : wf p -> wf (Interp.MTOCRF op p).
Proof.
  intros Hp. unfold Interp.MTOCRF. destruct (negb _); [auto with ppu|].
  apply wf_foldl; [|done]. intros q i Hq. destruct (negb _); auto with ppu.
Qed.

Lemma mb32_range op : 0 <= 32 + op.[f_mb32] < 64.
Proof. pose proof (five_bits_range f_mb32 op eq_refl). lia. Qed.

Lemma shift_count_range f op : f = f_sh64 \/ f = f_mbe64 -> 0 <= op_get f op < 64.
Proof. apply six_bits_range. Qed.

Lemma land_const_nonneg x c : 0 <= c -> 0 <= Z.land x c.
Proof. intros. apply Z.land_nonneg. by right. Qed.

Lemma clz_in_u w x : 0 < w <= 64 -> in_u w x -> in_u 64 (countl_zero w x).
Proof. intros Hw Hx. pose proof (countl_zero_range w x ltac:(lia) Hx). unfold in_u. lia. Qed.

Ltac count_range :=
  first [ apply mb32_range | apply six_bits_range; auto
        | apply op_get_nonneg; auto 6
        | apply land_const_nonneg; lia | lia ].

(** Goals [in_u 64 v] for the values the handlers compute. *)
Ltac val_range :=
  lazymatch goal with
  | |- in_u 64 (wrap 64 _) => apply wrap_in_u; lia
  | |- in_u 64 (wrap 32 _) => apply (in_u_mono 32 64); [lia|apply wrap_in_u; lia]
  | |- in_u 64 (wrap 8 _) => apply (in_u_mono 8 64); [lia|apply wrap_in_u; lia]
  | |- in_u _ (bnot _ _) => apply bnot_in_u; lia
  | |- in_u 64 (get (gpr _) _) => apply gpr_in_u; assumption
  | |- in_u 64 0 => exact (in_u_0 64 ltac:(lia))
  | |- in_u _ (if ?b then _ else _) => destruct b eqn:?; val_range
  | |- in_u 64 (Interp.result (Interp.add_flags2 _ _)) => apply result2_in_u
  | |- in_u 64 (Interp.result (Interp.add_flags3 _ _ _)) => apply result3_in_u
  | |- in_u 64 (op_get f_uimm16 _) => apply (in_u_mono 16 64); [lia|apply uimm16_range]
  | |- in_u 64 (Z.shiftl (op_get f_uimm16 _) 16) =>
      apply (in_u_mono 32 64); [lia|apply (shiftl_in_u 16 16); [lia|lia|apply uimm16_range]]
  | |- in_u _ (rotl _ _ _) => apply wrap_in_u; lia
  | |- in_u 64 (ppu_rotate_mask _ _) => apply rotate_mask_in_u; count_range
  | |- in_u 64 (Interp.dup32 _) => apply dup32_in_u; val_range
  | |- in_u _ (Z.land _ _) => apply land_in_u_l; [lia|val_range]
  | |- in_u _ (Z.lor _ _) => apply lor_in_u; [lia|val_range|val_range]
  | |- in_u _ (Z.lxor _ _) => apply lxor_in_u; [lia|val_range|val_range]
  | |- in_u _ (Z.shiftr _ _) => apply shiftr_in_u; [lia|count_range|val_range]
  | |- in_u 64 (countl_zero 32 _) => apply clz_in_u; [lia|apply wrap_in_u; lia]
  | |- in_u 64 (countl_zero 64 _) => apply clz_in_u; [lia|val_range]
  | |- in_u _ (Interp.umulh64 _ _) => apply wrap_in_u; lia
  | |- in_u 64 (_ / _) => apply div_in_u; [val_range|val_range|by apply Z.eqb_neq]
  end.

(** Goals [wf (handler ...)], once the handler is unfolded. *)
Ltac wf_solve :=
  lazymatch goal with
  | |- wf (Interp.record_cr0 _ _ _) => apply wf_record_cr0; wf_solve
  | |- wf (Interp.if_oe _ _ _) => apply wf_if_oe; wf_solve
  | |- wf (Interp.ppu_cr_cmp _ _ _ _) => apply wf_cr_cmp; wf_solve
  | |- wf (Interp.ppu_ov_set _ _) => apply wf_ov_set; wf_solve
  | |- wf (set_ca _ _) => apply wf_set_ca; wf_solve
  | |- wf (set_gpr _ _ _) => apply wf_set_gpr; [wf_solve|val_range]
  | |- wf (set_cr _ _ _) => apply wf_set_cr; [wf_solve|auto 6 with ppu]
  | |- wf (set_cr_field _ _ _) => apply wf_set_cr_field; [wf_solve|auto with ppu]
  | |- wf (Interp.MTOCRF _ _) => apply wf_MTOCRF; wf_solve
  | |- wf (if ?b then _ else _) => destruct b eqn:?; wf_solve
  | |- wf _ => assumption
  end.

Ltac head t := lazymatch t with ?f _ => head f | _ => t end.

(** Unfold the handler applied in a goal [wf (handler flags op p)]. *)
Ltac unfold_handler :=
  lazymatch goal with
  | |- wf (Interp.MTOCRF _ _) => idtac
  | |- wf ?t => let f := head t in first [unfold f | idtac]
  end; cbv zeta beta.

Lemma is_bit_1 : is_bit 1.
Proof. unfold is_bit. lia. Qed.
#[export] Hint Resolve is_bit_1 : ppu.

(** Every fixed-point handler preserves the invariant of the thread state. *)
Lemma fixed_preserves_wf i h op p : Interp.fixed i = Some h -> wf p -> wf (h op p).
Proof.
  intros E Hp. destruct i; try discriminate E; injection E as <-;
    unfold_handler; wf_solve.
Qed.

(** ** Reading CR fields after an update *)

Lemma cr_set_eq p i b : length (cr p) = 32%nat -> 0 <= i < 32 -> get (cr (set_cr i b p)) i = b.
Proof. intros Hl Hi. apply get_set_eq. rewrite Hl. lia. Qed.

Lemma cr_set_len p i b : length (cr (set_cr i b p)) = length (cr p).
Proof. apply length_set. Qed.

Lemma cr_field_set_field n v p : length (cr p) = 32%nat -> 0 <= n < 8 ->
  cr_field (set_cr_field n v p) n = [get v 0; get v 1; get v 2; get v 3].
Proof.
  intros Hl Hn. unfold cr_field, set_cr_field. cbn [fmap list_fmap].
  repeat match goal with
  | |- context [get (cr (set_cr ?i ?b ?q)) ?j] =>
      first [ rewrite (cr_set_eq q i b) by (rewrite ?cr_set_len; lia)
            | rewrite (cr_set_cr_ne i j b q) by lia ]
  end. reflexivity.
Qed.

Lemma cr_field_set_field_ne n m v p : 0 <= n -> 0 <= m -> n <> m ->
  cr_field (set_cr_field n v p) m = cr_field p m.
Proof.
  intros Hn Hm Hne. unfold cr_field, set_cr_field. cbn [fmap list_fmap].
  by rewrite !cr_set_cr_ne by lia.
Qed.

(** [ppu_cr_set] is an assignment of a whole field. *)
Lemma cr_set_as_field n a b c d p :
  Interp.ppu_cr_set n a b c d p = set_cr_field n [b2z a; b2z b; b2z c; b2z d] p.
Proof. reflexivity. Qed.

Lemma cr_field_cr_set n a b c d p : length (cr p) = 32%nat -> 0 <= n < 8 ->
  cr_field (Interp.ppu_cr_set n a b c d p) n = [b2z a; b2z b; b2z c; b2z d].
Proof. intros. rewrite cr_set_as_field. by apply cr_field_set_field. Qed.
