(* ===== verification/PpuArith.v ===== *)
(** Arithmetic instructions of the PPU interpreter: results, carry and overflow.

    [add_operands] is the reference for the eleven add-like instructions in all their
    OE/Rc variants (the sum [x + y + c] each one computes); [fixed_add] shows that
    the handlers compute it with exact carry, overflow and CR0.  The multi-precision
    chains, the full products, the divisions and the shift-right-algebraic division
    idiom follow. *)

From Stdlib Require Import ZArith Lia Bool.
From stdpp Require Import base tactics option list numbers.
From S2P Require Import Prelude BitField PpuOpcodes PpuState PpuInt PpuIntWf.
Local Open Scope Z_scope.
Local Open Scope word_scope.

(** ** Carry and overflow *)

Definition s64_fits (v : Z) : bool := (- 2 ^ 63 <=? v) && (v <? 2 ^ 63).
Definition s32_fits (v : Z) : bool := (- 2 ^ 31 <=? v) && (v <? 2 ^ 31).

Lemma add_flags2_spec a b : in_u 64 a -> in_u 64 b ->
  Interp.add_flags2 a b = Interp.AddFlags (u64 (a + b)) (2 ^ 64 <=? a + b).
Proof.
  intros Ha Hb. unfold Interp.add_flags2. f_equal. unfold in_u in *.
  case_cmp; try done; exfalso; word_lia.
Qed.

Lemma add_flags3_spec a b c : in_u 64 a -> in_u 64 b ->
  Interp.add_flags3 a b c = Interp.AddFlags (u64 (a + b + b2z c)) (2 ^ 64 <=? a + b + b2z c).
Proof.
  intros Ha Hb. unfold Interp.add_flags3. pose proof (b2z_range c) as Hc.
  rewrite (add_flags2_spec a b) by done. cbn [Interp.result Interp.carry].
  rewrite add_flags2_spec by (auto with word || (unfold in_u; lia)).
  cbn [Interp.result Interp.carry]. rewrite wrap_add_l by lia. f_equal. unfold in_u in *.
  case_cmp; try done; exfalso; word_lia.
Qed.

Lemma msb_val x : in_u 64 x -> Interp.msb x = b2z (2 ^ 63 <=? x).
Proof.
  intros Hx. unfold Interp.msb, in_u in *. rewrite Z.shiftr_div_pow2 by lia.
  case_cmp; simpl; word_lia.
Qed.

Lemma overflow_spec x y c : in_u 64 x -> in_u 64 y -> 0 <= c <= 1 ->
  (Interp.msb x =? Interp.msb y) && negb (Interp.msb x =? Interp.msb (u64 (x + y + c))) =
  negb (s64_fits (s64 x + s64 y + c)).
Proof.
  intros Hx Hy Hc. rewrite !msb_val by auto with word.
  rewrite (sgn_unsigned 64 x), (sgn_unsigned 64 y) by (done || lia).
  assert (u64 (x + y + c) = x + y + c \/ u64 (x + y + c) = x + y + c - 2 ^ 64) as H
    by (unfold in_u in *; word_lia).
  pose proof (wrap_in_u 64 (x + y + c) ltac:(lia)) as Hr.
  set (r := u64 (x + y + c)) in *. unfold s64_fits, in_u in *.
  change (64 - 1) with 63. destruct (Z.leb_spec (2 ^ 63) x), (Z.leb_spec (2 ^ 63) y),
    (Z.leb_spec (2 ^ 63) r); simpl; case_cmp; simpl; try done; exfalso; lia.
Qed.

(** ** The add-like instructions *)

(** Reference: the unsigned operands [x], [y], the carry-in and whether CA is written. *)
Definition add_operands (i : itype) (RA RB : Z) (CA : bool) : option (Z * Z * Z * bool) :=
  match i with
  | Itype.ADD | Itype.ADDO | Itype.ADD_ | Itype.ADDO_ => Some (RA, RB, 0, false)
  | Itype.SUBF | Itype.SUBFO | Itype.SUBF_ | Itype.SUBFO_ => Some (bnot 64 RA, RB, 1, false)
  | Itype.NEG | Itype.NEGO | Itype.NEG_ | Itype.NEGO_ => Some (bnot 64 RA, 0, 1, false)
  | Itype.ADDC | Itype.ADDCO | Itype.ADDC_ | Itype.ADDCO_ => Some (RA, RB, 0, true)
  | Itype.SUBFC | Itype.SUBFCO | Itype.SUBFC_ | Itype.SUBFCO_ => Some (bnot 64 RA, RB, 1, true)
  | Itype.ADDE | Itype.ADDEO | Itype.ADDE_ | Itype.ADDEO_ => Some (RA, RB, b2z CA, true)
  | Itype.SUBFE | Itype.SUBFEO | Itype.SUBFE_ | Itype.SUBFEO_ =>
      Some (bnot 64 RA, RB, b2z CA, true)
  | Itype.ADDZE | Itype.ADDZEO | Itype.ADDZE_ | Itype.ADDZEO_ => Some (RA, 0, b2z CA, true)
  | Itype.SUBFZE | Itype.SUBFZEO | Itype.SUBFZE_ | Itype.SUBFZEO_ =>
      Some (bnot 64 RA, 0, b2z CA, true)
  | Itype.ADDME | Itype.ADDMEO | Itype.ADDME_ | Itype.ADDMEO_ =>
      Some (RA, 2 ^ 64 - 1, b2z CA, true)
  | Itype.SUBFME | Itype.SUBFMEO | Itype.SUBFME_ | Itype.SUBFMEO_ =>
      Some (bnot 64 RA, 2 ^ 64 - 1, b2z CA, true)
  | _ => None
  end.

Definition has_oe (i : itype) : bool :=
  match i with
  | Itype.ADDO | Itype.SUBFO | Itype.NEGO | Itype.ADDCO | Itype.SUBFCO | Itype.ADDEO
  | Itype.SUBFEO | Itype.ADDZEO | Itype.SUBFZEO | Itype.ADDMEO | Itype.SUBFMEO
  | Itype.ADDO_ | Itype.SUBFO_ | Itype.NEGO_ | Itype.ADDCO_ | Itype.SUBFCO_ | Itype.ADDEO_
  | Itype.SUBFEO_ | Itype.ADDZEO_ | Itype.SUBFZEO_ | Itype.ADDMEO_ | Itype.SUBFMEO_ => true
  | _ => false
  end.

Definition has_rc (i : itype) : bool :=
  match i with
  | Itype.ADD_ | Itype.SUBF_ | Itype.NEG_ | Itype.ADDC_ | Itype.SUBFC_ | Itype.ADDE_
  | Itype.SUBFE_ | Itype.ADDZE_ | Itype.SUBFZE_ | Itype.ADDME_ | Itype.SUBFME_
  | Itype.ADDO_ | Itype.SUBFO_ | Itype.NEGO_ | Itype.ADDCO_ | Itype.SUBFCO_ | Itype.ADDEO_
  | Itype.SUBFEO_ | Itype.ADDZEO_ | Itype.SUBFZEO_ | Itype.ADDMEO_ | Itype.SUBFMEO_ => true
  | _ => false
  end.

(** The state after an add-like instruction with operands [x], [y], [c]. *)
Definition add_post (oe rc carrying : bool) (rd x y c : Z) (p : ppu_thread) : ppu_thread :=
  let d := u64 (x + y + c) in
  let o := negb (s64_fits (s64 x + s64 y + c)) in
  let X := Xer (if oe then so (xer p) || o else so (xer p))
               (if oe then o else ov (xer p))
               (if carrying then 2 ^ 64 <=? x + y + c else ca (xer p)) (cnt (xer p)) in
  let q := with_xer (set_gpr rd d p) X in
  if rc then Interp.ppu_cr_set 0 (s64 d <? 0) (0 <? s64 d) (s64 d =? 0) (so X) q else q.

Lemma add_post_intro (oe rc carrying : bool) rd x y c d o cy p :
  d = u64 (x + y + c) -> o = negb (s64_fits (s64 x + s64 y + c)) ->
  cy = (if carrying then 2 ^ 64 <=? x + y + c else ca (xer p)) ->
  Interp.record_cr0 rc d (Interp.if_oe oe o (set_ca cy (set_gpr rd d p))) =
  add_post oe rc carrying rd x y c p.
Proof. intros -> -> ->. destruct oe, rc; reflexivity. Qed.

Lemma set_ca_same p : set_ca (ca (xer p)) p = p.
Proof. destruct p as [? ? ? ? ? ? [] ? ? ? ? ? ? ?]. reflexivity. Qed.

Lemma bnot_add1 x : in_u 64 x -> bnot 64 x = 2 ^ 64 - 1 - x.
Proof. intros. rewrite bnot_val by (done || lia). lia. Qed.

Lemma set_ca_same_gpr rd d p : set_gpr rd d p = set_ca (ca (xer p)) (set_gpr rd d p).
Proof. symmetry. apply (set_ca_same (set_gpr rd d p)). Qed.

Lemma add_post_intro_nc (oe rc : bool) rd x y c d o p :
  d = u64 (x + y + c) -> o = negb (s64_fits (s64 x + s64 y + c)) ->
  Interp.record_cr0 rc d (Interp.if_oe oe o (set_gpr rd d p)) =
  add_post oe rc false rd x y c p.
Proof.
  intros Hd Ho. rewrite (set_ca_same_gpr rd d p). by apply add_post_intro.
Qed.

(** [0] and [~0ull] as second operands: the sign tests of the handlers. *)
Lemma overflow_zero x c : in_u 64 x -> 0 <= c <= 1 ->
  (Interp.msb x =? 0) && negb (Interp.msb x =? Interp.msb (u64 (x + 0 + c))) =
  negb (s64_fits (s64 x + s64 0 + c)).
Proof. intros. rewrite <- overflow_spec by (done || by apply in_u_0). done. Qed.

Lemma overflow_ones x c : in_u 64 x -> 0 <= c <= 1 ->
  (Interp.msb x =? 1) && negb (Interp.msb x =? Interp.msb (u64 (x + (2 ^ 64 - 1) + c))) =
  negb (s64_fits (s64 x + s64 (2 ^ 64 - 1) + c)).
Proof. intros. rewrite <- overflow_spec by (done || (unfold in_u; lia)). done. Qed.

Lemma neg_overflow a : in_u 64 a ->
  (a =? Z.shiftl 1 63) = negb (s64_fits (s64 (bnot 64 a) + s64 0 + 1)).
Proof.
  intros Ha. pose proof (bnot_in_u 64 a ltac:(lia)) as Hb.
  rewrite (sgn_unsigned 64 (bnot 64 a)) by (done || lia).
  rewrite bnot_add1 in * by done. change (s64 0) with 0. change (Z.shiftl 1 63) with (2 ^ 63).
  unfold s64_fits, in_u in *. change (64 - 1) with 63.
  destruct (Z.leb_spec (2 ^ 63) (2 ^ 64 - 1 - a)); simpl; case_cmp; simpl; try done; lia.
Qed.

Lemma bnot_ones : bnot 64 0 = 2 ^ 64 - 1.
Proof. reflexivity. Qed.

#[local] Hint Resolve gpr_in_u bnot_in_u b2z_range : arith.
#[local] Hint Extern 1 (0 <= _) => lia : arith.
#[local] Hint Extern 1 (0 <= _ <= _) => lia : arith.
#[local] Hint Extern 1 (in_u 64 0) => exact (in_u_0 64 ltac:(lia)) : arith.
#[local] Hint Extern 1 (in_u 64 (2 ^ 64 - 1)) => split; lia : arith.
#[local] Hint Extern 1 (in_u 64 (wrap 64 _)) => apply wrap_in_u; lia : arith.

(** The other handlers' sums in the form [x + y + c]. *)
Lemma add_flags2_spec0 a b : in_u 64 a -> in_u 64 b ->
  Interp.add_flags2 a b = Interp.AddFlags (u64 (a + b + 0)) (2 ^ 64 <=? a + b + 0).
Proof. rewrite Z.add_0_r. apply add_flags2_spec. Qed.

Lemma add_as_sum a b : u64 (a + b) = u64 (a + b + 0).
Proof. by rewrite Z.add_0_r. Qed.

Lemma sub_as_sum a b : in_u 64 a -> u64 (b - a) = u64 (bnot 64 a + b + 1).
Proof.
  intros Ha. rewrite bnot_add1 by done. rewrite <- (wrap_add_pow 64 (b - a) 1) by lia.
  f_equal. lia.
Qed.

Lemma neg_as_sum a : in_u 64 a -> u64 (0 - a) = u64 (bnot 64 a + 0 + 1).
Proof. apply sub_as_sum. Qed.

Ltac overflow_side :=
  first [apply overflow_spec | apply overflow_zero | apply overflow_ones | apply neg_overflow];
  auto with arith.

Ltac add_like :=
  rewrite ?wrap_sgn, ?(wrap_small 64 (get (gpr _) _)), ?bnot_ones by auto with arith lia;
  rewrite ?add_flags3_spec, ?add_flags2_spec0 by auto with arith;
  cbn [Interp.result Interp.carry b2z];
  first
  [ apply add_post_intro_nc; [reflexivity|overflow_side]
  | apply add_post_intro; [reflexivity|overflow_side|reflexivity] ].

(** The handlers of the add-like instructions compute their reference. *)
Lemma fixed_add i h op p x y c carrying :
  Interp.fixed i = Some h -> wf p ->
  add_operands i p.gpr[op.[f_ra]] p.gpr[op.[f_rb]] (ca (xer p)) = Some (x, y, c, carrying) ->
  h op p = add_post (has_oe i) (has_rc i) carrying op.[f_rd] x y c p.
Proof.
  intros E Hp Ho. pose proof (gpr_in_u p op.[f_ra] Hp) as HA.
  destruct i; try discriminate Ho; injection Ho as <- <- <- <-; injection E as <-;
    cbn [has_oe has_rc];
    cbv beta zeta delta [Interp.ADD Interp.SUBF Interp.NEG Interp.ADDC Interp.SUBFC Interp.ADDE
      Interp.SUBFE Interp.ADDZE Interp.SUBFZE Interp.ADDME Interp.SUBFME];
    rewrite ?(neg_as_sum _ HA), ?(sub_as_sum _ _ HA), ?(add_as_sum (get _ _) (get _ _)); add_like.
Qed.

(** C14: the add-like instructions ADD, SUBF, NEG, ADDC, SUBFC, ADDE, SUBFE, ADDZE, SUBFZE,
    ADDME, SUBFME and their O/Rc variants compute the sum of their reference operands
    modulo [2^64]; CA is the carry out of the full sum, OV is set exactly when the signed
    sum does not fit 64 bits, SO is sticky, and the Rc forms record in CR0 the comparison of the signed result
    with zero.  Nothing else changes: no other general register, CA and OV only in the forms that define them,
    no CR field but CR0 and none without Rc, and nothing of LR, CTR, the byte count of XER or the rest of the
    thread.  The thread is well-formed. *)
Theorem add_instructions_exact i h op p x y c carrying :
  Interp.fixed i = Some h -> wf p ->
  add_operands i p.gpr[op.[f_ra]] p.gpr[op.[f_rb]] (ca (xer p)) = Some (x, y, c, carrying) ->
  let q := h op p in
  let d := s64 (x + y + c) in
  q.gpr[op.[f_rd]] = u64 (x + y + c) /\
  (forall r, 0 <= r -> r <> op.[f_rd] -> q.gpr[r] = p.gpr[r]) /\
  ca (xer q) = (if carrying then 2 ^ 64 <=? x + y + c else ca (xer p)) /\
  ov (xer q) = (if has_oe i then negb (s64_fits (s64 x + s64 y + c)) else ov (xer p)) /\
  so (xer q) = so (xer p) || (has_oe i && ov (xer q)) /\
  (has_rc i = true ->
   cr_field q 0 = [b2z (d <? 0); b2z (0 <? d); b2z (d =? 0); b2z (so (xer q))]) /\
  (has_rc i = false -> cr q = cr p) /\ (forall n, 0 < n -> cr_field q n = cr_field p n) /\
  cnt (xer q) = cnt (xer p) /\ q = with_xer (with_cr (with_gpr p (gpr q)) (cr q)) (xer q).
Proof.
  intros E Hp Ho q d. subst q d. rewrite (fixed_add i h op p x y c carrying E Hp Ho).
  pose proof (five_bits_range f_rd op eq_refl) as Hrd. clear E Ho.
  unfold add_post. do 9 try split.
  - destruct (has_rc i); exact (gpr_set_gpr_eq _ _ p Hp Hrd).
  - intros r Hr Hne. destruct (has_rc i);
      exact (gpr_set_gpr_ne op.[f_rd] r _ p ltac:(lia) Hr (not_eq_sym Hne)).
  - by destruct (has_rc i).
  - by destruct (has_rc i).
  - destruct (has_rc i), (has_oe i); simpl; by rewrite ?orb_false_r.
  - intros ->. rewrite sgn_wrap, cr_field_cr_set by (lia || apply Hp). done.
  - by intros ->.
  - intros n Hn. destruct (has_rc i); [|done]. rewrite cr_set_as_field. by rewrite cr_field_set_field_ne by lia.
  - by destruct (has_rc i).
  - by destruct (has_rc i).
Qed.

Lemma add_instructions_exact_witness :
  let p := set_ca true (set_gpr 3 (2 ^ 63 - 1) ppu_init) in
  ov (xer (Interp.ADDE true true 0x7ca32515 p)) = true.
Proof.
  intros p. assert (wf p) as Hp.
  { apply wf_set_ca, wf_set_gpr; [apply wf_ppu_init|unfold in_u; lia]. }
  destruct (add_instructions_exact Itype.ADDEO_ (Interp.ADDE true true) 0x7ca32515 p
    _ _ _ _ eq_refl Hp eq_refl) as (_ & _ & _ & Hov & _).
  refine (eq_trans Hov _). vm_compute. reflexivity.
Defined.

(** ** Multi-precision chains *)

(** A chain of [ADDE] (or [SUBFE]) words, least significant limb first. *)
Definition chain (sub : bool) (ops : list Z) (p : ppu_thread) : ppu_thread :=
  foldl (fun p op => (if sub then Interp.SUBFE else Interp.ADDE) false false op p) p ops.

(** The number held by the registers that field [f] of the words names. *)
Fixpoint limbs (f : ppu_field) (ops : list Z) (p : ppu_thread) : Z :=
  match ops with
  | [] => 0
  | op :: ops => p.gpr[op_get f op] + 2 ^ 64 * limbs f ops p
  end.

(** No word reads or overwrites the destination of an earlier one. *)
Fixpoint limbs_apart (ops : list Z) : bool :=
  match ops with
  | [] => true
  | op :: ops =>
      forallb (fun o => negb (o.[f_ra] =? op.[f_rd]) && negb (o.[f_rb] =? op.[f_rd]) &&
                        negb (o.[f_rd] =? op.[f_rd])) ops && limbs_apart ops
  end.

Lemma limbs_set_gpr f ops r v p :
  0 <= r -> five_bits f = true -> forallb (fun o => negb (op_get f o =? r)) ops = true ->
  limbs f ops (set_gpr r v p) = limbs f ops p.
Proof.
  intros Hr Hf. induction ops as [|op ops IH]; [done|]. cbn [forallb limbs].
  intros [Hne Hops]%andb_prop. rewrite negb_true_iff, Z.eqb_neq in Hne.
  pose proof (five_bits_range f op Hf). by rewrite IH, gpr_set_gpr_ne by (done || lia).
Qed.

(** The limbs only depend on the general-purpose registers. *)
Lemma limbs_gpr f ops p q : gpr p = gpr q -> limbs f ops p = limbs f ops q.
Proof. intros E. induction ops as [|op ops IH]; simpl; [done|]. by rewrite IH, E. Qed.

Definition chain_x (sub : bool) (a : Z) : Z := if sub then bnot 64 a else a.

Lemma chain_step (sub : bool) op p : wf p ->
  (if sub then Interp.SUBFE else Interp.ADDE) false false op p =
  add_post false false true op.[f_rd] (chain_x sub p.gpr[op.[f_ra]]) p.gpr[op.[f_rb]]
    (b2z (ca (xer p))) p.
Proof.
  intros Hp. destruct sub.
  - exact (fixed_add Itype.SUBFE _ op p _ _ _ _ eq_refl Hp eq_refl).
  - exact (fixed_add Itype.ADDE _ op p _ _ _ _ eq_refl Hp eq_refl).
Qed.

Lemma wf_add_post oe rc cy rd x y c p : wf p -> wf (add_post oe rc cy rd x y c p).
Proof.
  intros Hp. unfold add_post. assert (wf (set_gpr rd (u64 (x + y + c)) p)) as H
    by (apply wf_set_gpr; auto with word).
  destruct rc; [apply wf_cr_set|]; destruct H; split; done.
Qed.

Lemma chain_frame (sub : bool) ops p r : wf p -> 0 <= r ->
  forallb (fun o => negb (o.[f_rd] =? r)) ops = true -> (chain sub ops p).gpr[r] = p.gpr[r].
Proof.
  revert p. induction ops as [|op ops IH]; intros p Hp Hr; [done|].
  cbn [forallb]. intros [Hne Hops]%andb_prop. rewrite negb_true_iff, Z.eqb_neq in Hne.
  change (chain sub (op :: ops) p) with
    (chain sub ops ((if sub then Interp.SUBFE else Interp.ADDE) false false op p)).
  rewrite chain_step, IH by (done || by apply wf_add_post).
  apply gpr_set_gpr_ne; [|done..]. by apply op_get_nonneg; left.
Qed.

Lemma forallb_impl {A} (f g : A -> bool) l :
  (forall x, f x = true -> g x = true) -> forallb f l = true -> forallb g l = true.
Proof. intros H. rewrite !forallb_forall. auto. Qed.

(** [sum] of the (possibly complemented) operands. *)
Definition chain_operand (sub : bool) (ops : list Z) (p : ppu_thread) : Z :=
  if sub then 2 ^ (64 * Z.of_nat (length ops)) - 1 - limbs f_ra ops p else limbs f_ra ops p.

Lemma sum_split x y c : in_u 64 x -> in_u 64 y -> 0 <= c <= 1 ->
  u64 (x + y + c) = x + y + c - 2 ^ 64 * b2z (2 ^ 64 <=? x + y + c).
Proof. unfold in_u. intros. case_cmp; simpl; word_lia. Qed.

Lemma chain_sum (sub : bool) ops p : wf p -> limbs_apart ops = true ->
  limbs f_rd ops (chain sub ops p) +
    2 ^ (64 * Z.of_nat (length ops)) * b2z (ca (xer (chain sub ops p))) =
  chain_operand sub ops p + limbs f_rb ops p + b2z (ca (xer p)).
Proof.
  unfold chain_operand. revert p. induction ops as [|op ops IH]; intros p Hp Ha.
  { simpl limbs. change (chain sub [] p) with p. change (2 ^ _) with 1. destruct sub; lia. }
  cbn [limbs_apart] in Ha. apply andb_prop in Ha as [Hop Ha].
  change (chain sub (op :: ops) p) with
    (chain sub ops ((if sub then Interp.SUBFE else Interp.ADDE) false false op p)).
  rewrite chain_step by done. cbn [limbs length].
  set (x := chain_x sub p.gpr[op.[f_ra]]). set (c := b2z (ca (xer p))).
  set (p1 := add_post _ _ _ _ x _ _ p). assert (wf p1) as Hp1 by by apply wf_add_post.
  pose proof (five_bits_range f_rd op eq_refl) as Hrd.
  rewrite chain_frame; [|done|lia|]. 
  2: { eapply forallb_impl, Hop. intros o. rewrite !andb_true_iff. by intros [[]]. }
  specialize (IH p1 Hp1 Ha).
  assert (forall f, five_bits f = true ->
    forallb (fun o => negb (op_get f o =? op.[f_rd])) ops = true ->
    limbs f ops p1 = limbs f ops p) as Hsame.
  { intros f Hf Hn. rewrite (limbs_gpr f ops p1 (set_gpr op.[f_rd] (u64 (x + p.gpr[op.[f_rb]] + c)) p))
      by done. apply limbs_set_gpr; [lia|done..]. }
  rewrite (Hsame f_ra), (Hsame f_rb) in IH
    by (done || (eapply forallb_impl, Hop; intros o; rewrite !andb_true_iff; by intros [[]])).
  assert (p1.gpr[op.[f_rd]] = u64 (x + p.gpr[op.[f_rb]] + c)) as -> by by apply gpr_set_gpr_eq.
  change (ca (xer p1)) with (2 ^ 64 <=? x + p.gpr[op.[f_rb]] + c) in IH.
  assert (u64 (x + p.gpr[op.[f_rb]] + c) =
    x + p.gpr[op.[f_rb]] + c - 2 ^ 64 * b2z (2 ^ 64 <=? x + p.gpr[op.[f_rb]] + c)) as ->.
  { apply sum_split; subst x; unfold chain_x; [destruct sub; [apply bnot_in_u; lia|]|..];
      auto using gpr_in_u. apply b2z_range. }
  replace (64 * Z.of_nat (S (length ops))) with (64 + 64 * Z.of_nat (length ops)) by lia.
  rewrite Z.pow_add_r by lia. set (b := b2z (2 ^ 64 <=? _)) in *. clearbody b.
  assert (x = if sub then 2 ^ 64 - 1 - p.gpr[op.[f_ra]] else p.gpr[op.[f_ra]]) as ->
    by (subst x; destruct sub; [by apply bnot_add1, gpr_in_u|done]).
  apply (f_equal (Z.mul (2 ^ 64))) in IH. destruct sub; lia.
Qed.

Lemma limbs_range f ops p : wf p -> 0 <= limbs f ops p < 2 ^ (64 * Z.of_nat (length ops)).
Proof.
  intros Hp. induction ops as [|op ops IH]; [simpl; lia|]. cbn [limbs length].
  replace (64 * Z.of_nat (S (length ops))) with (64 + 64 * Z.of_nat (length ops)) by lia.
  rewrite Z.pow_add_r by lia. pose proof (gpr_in_u p (op_get f op) Hp) as H.
  unfold in_u in H. nia.
Qed.

Lemma wf_chain sub ops p : wf p -> wf (chain sub ops p).
Proof.
  revert p. induction ops as [|op ops IH]; intros p Hp; [done|].
  change (wf (chain sub ops ((if sub then Interp.SUBFE else Interp.ADDE) false false op p))).
  apply IH. rewrite chain_step by done. by apply wf_add_post.
Qed.

(** A number below [N] plus a multiple of [N] given by a flag. *)
Lemma split_by_flag N v (b : bool) s : 0 < N -> 0 <= v < N -> v + N * b2z b = s ->
  v = s mod N /\ b = (N <=? s).
Proof.
  intros HN Hv <-. split.
  - rewrite Z.mul_comm, Z.mod_add, Z.mod_small by lia. done.
  - destruct b; simpl; case_cmp; done || lia.
Qed.

(** A chain of [ADDE] words adds, and a chain of [SUBFE] words subtracts, numbers of
    any length held in general-purpose registers (64-bit limbs, least significant first),
    with XER.CA as carry in and carry out (for subtraction, as "no borrow"). *)
Theorem carry_chain_exact (sub : bool) ops p : wf p -> limbs_apart ops = true ->
  let q := chain sub ops p in
  let N := 2 ^ (64 * Z.of_nat (length ops)) in
  let A := limbs f_ra ops p in
  let B := limbs f_rb ops p in
  if sub
  then limbs f_rd ops q = (B - A - (1 - b2z (ca (xer p)))) mod N /\
       ca (xer q) = (A + (1 - b2z (ca (xer p))) <=? B)
  else limbs f_rd ops q = (A + B + b2z (ca (xer p))) mod N /\
       ca (xer q) = (N <=? A + B + b2z (ca (xer p))).
Proof.
  intros Hp Ha q N A B. pose proof (chain_sum sub ops p Hp Ha) as H.
  pose proof (limbs_range f_rd ops q (wf_chain sub ops p Hp)) as Hq.
  apply split_by_flag in H as [H1 H2]; [|apply pow2_pos; lia|done].
  fold q N A B in H1, H2. unfold chain_operand in H1, H2. destruct sub; [|done].
  fold A N in H1, H2. rewrite H1, H2. split.
  - rewrite <- (Z.mod_add (B - A - _) 1 N); [f_equal; lia|].
    unfold N. pose proof (pow2_pos (64 * Z.of_nat (length ops))). lia.
  - case_cmp; done || lia.
Qed.

Lemma carry_chain_exact_witness :
  let ops := [0x7ca32114; 0x7d074114] in
  limbs f_rd ops (chain false ops (set_gpr 3 (2 ^ 64 - 1) (set_gpr 4 1 ppu_init))) = 2 ^ 64.
Proof.
  intros ops. set (p := set_gpr 3 (2 ^ 64 - 1) (set_gpr 4 1 ppu_init)).
  assert (wf p) as Hp.
  { repeat apply wf_set_gpr; [apply wf_ppu_init|unfold in_u; lia..]. }
  destruct (carry_chain_exact false ops p Hp eq_refl) as [H _].
  refine (eq_trans H _). vm_compute. reflexivity.
Defined.

(** ** Products *)

Lemma mulh64_spec a b : in_s 64 a -> in_s 64 b ->
  Interp.mulh64 a b * 2 ^ 64 + u64 (a * b) = a * b /\ in_s 64 (Interp.mulh64 a b).
Proof.
  intros Ha Hb. unfold Interp.mulh64, in_s in *. change (64 - 1) with 63 in *.
  rewrite Z.shiftr_div_pow2 by lia.
  assert (- 2 ^ 63 <= a * b / 2 ^ 64 < 2 ^ 63) as Hr.
  { split; [apply Z.div_le_lower_bound; nia|apply Z.div_lt_upper_bound; nia]. }
  rewrite sgn_small by (unfold in_s; lia). split; [|lia].
  unfold wrap. pose proof (Z.div_mod (a * b) (2 ^ 64)). lia.
Qed.

Lemma sgn_shiftr_sign d : in_s 64 d -> Z.shiftr d 63 = - b2z (d <? 0).
Proof.
  intros Hd. unfold in_s in *. change (64 - 1) with 63 in *.
  rewrite Z.shiftr_div_pow2 by lia. case_cmp; simpl; word_lia.
Qed.

Lemma wrap_mul_sgn w a b : 0 < w -> wrap w (sgn w a * sgn w b) = wrap w (a * b).
Proof.
  intros. rewrite <- wrap_mul_l, wrap_sgn, wrap_mul_l, <- wrap_mul_r, wrap_sgn, wrap_mul_r by lia.
  done.
Qed.

Lemma umulh64_spec a b : in_u 64 a -> in_u 64 b ->
  Interp.umulh64 a b * 2 ^ 64 + u64 (a * b) = a * b.
Proof.
  intros Ha Hb. unfold Interp.umulh64, in_u in *. rewrite Z.shiftr_div_pow2 by lia.
  rewrite wrap_small.
  - unfold wrap. pose proof (Z.div_mod (a * b) (2 ^ 64)). lia.
  - unfold in_u. split; [apply Z.div_pos; nia|apply Z.div_lt_upper_bound; nia].
Qed.

(** The high half equals the sign of the low half exactly when the product fits. *)
Lemma mulh64_overflow a b : in_s 64 a -> in_s 64 b ->
  (Interp.mulh64 a b =? Z.shiftr (s64 (u64 (a * b))) 63) = s64_fits (a * b).
Proof.
  intros Ha Hb. destruct (mulh64_spec a b Ha Hb) as [Hm Hr].
  rewrite sgn_shiftr_sign by (apply sgn_in_s; lia).
  rewrite sgn_unsigned by (auto with word || lia). change (64 - 1) with 63.
  pose proof (wrap_in_u 64 (a * b) ltac:(lia)) as Hl. unfold in_u, s64_fits in *.
  set (l := u64 (a * b)) in *. set (m := Interp.mulh64 a b) in *. clearbody l m.
  revert Hm. generalize (a * b). intros ab Hm.
  destruct (Z.leb_spec (2 ^ 63) l); cbn [b2z]; case_cmp; cbn [b2z andb] in *; done || lia.
Qed.

(** [MULHD] and [MULLD] together give the 128-bit signed product (high doubleword
    sign, low doubleword unsigned), [MULHDU] the high half of the unsigned one, and
    [MULLDO] sets OV exactly when the product does not fit 64 bits. *)
Theorem multiply_doubleword op p rc : wf p ->
  let a := s64 p.gpr[op.[f_ra]] in
  let b := s64 p.gpr[op.[f_rb]] in
  let hi := (Interp.MULHD rc op p).gpr[op.[f_rd]] in
  let lo := (Interp.MULLD rc op p).gpr[op.[f_rd]] in
  let hu := (Interp.MULHDU rc op p).gpr[op.[f_rd]] in
  s64 hi * 2 ^ 64 + lo = a * b /\
  hu * 2 ^ 64 + lo = p.gpr[op.[f_ra]] * p.gpr[op.[f_rb]] /\
  ov (xer (Interp.MULLD rc op p)) =
    (if op.[f_oe] =? 0 then ov (xer p) else negb (s64_fits (a * b))).
Proof.
  intros Hp a b hi lo hu. pose proof (five_bits_range f_rd op eq_refl) as Hrd.
  assert (lo = u64 (a * b)) as ->.
  { unfold lo, Interp.MULLD. destruct (negb _), rc; exact (gpr_set_gpr_eq _ _ p Hp Hrd). }
  assert (hi = u64 (Interp.mulh64 a b)) as ->.
  { unfold hi, Interp.MULHD. destruct rc; exact (gpr_set_gpr_eq _ _ p Hp Hrd). }
  assert (hu = Interp.umulh64 p.gpr[op.[f_ra]] p.gpr[op.[f_rb]]) as ->.
  { unfold hu, Interp.MULHDU. destruct rc; exact (gpr_set_gpr_eq _ _ p Hp Hrd). }
  pose proof (sgn_in_s 64 p.gpr[op.[f_ra]] ltac:(lia)) as HA.
  pose proof (sgn_in_s 64 p.gpr[op.[f_rb]] ltac:(lia)) as HB.
  destruct (mulh64_spec a b HA HB) as [Hm Hr].
  rewrite sgn_wrap, sgn_small by (done || lia).
  split; [done|split].
  - unfold a, b. rewrite wrap_mul_sgn by lia. apply umulh64_spec; by apply gpr_in_u.
  - rewrite <- (mulh64_overflow a b) by done. unfold Interp.MULLD.
    destruct (op.[f_oe] =? 0), rc; reflexivity.
Qed.

Lemma multiply_doubleword_witness :
  let p := set_gpr 3 (2 ^ 63) (set_gpr 4 (2 ^ 64 - 1) ppu_init) in
  ov (xer (Interp.MULLD true 0x7ca325d3 p)) = true.
Proof.
  intros p. assert (wf p) as Hp.
  { repeat apply wf_set_gpr; [apply wf_ppu_init|unfold in_u; lia..]. }
  destruct (multiply_doubleword 0x7ca325d3 p true Hp) as (_ & _ & H).
  refine (eq_trans H _). vm_compute. reflexivity.
Defined.

Lemma word_product_in_s x y : in_s 64 (s32 x * s32 y).
Proof.
  pose proof (sgn_in_s 32 x ltac:(lia)) as Ha. pose proof (sgn_in_s 32 y ltac:(lia)) as Hb.
  unfold in_s in *. change (64 - 1) with 63. change (32 - 1) with 31 in *. nia.
Qed.

Lemma div_mod_halves v : v / 2 ^ 32 * 2 ^ 32 + u32 v = v.
Proof. unfold wrap. pose proof (Z.div_mod v (2 ^ 32)). lia. Qed.

(** The upper words of the signed and of the unsigned product of two words. *)
Lemma mulhw_arith x y :
  s64 (u64 (Z.shiftr (s64 (s32 x * s32 y)) 32)) * 2 ^ 32 + u32 (s32 x * s32 y) = s32 x * s32 y.
Proof.
  pose proof (word_product_in_s x y) as H. rewrite sgn_wrap, (sgn_small 64 (_ * _)) by (done || lia).
  rewrite Z.shiftr_div_pow2, sgn_small by (lia || (unfold in_s in *;
    change (64 - 1) with 63 in *; word_lia)).
  apply div_mod_halves.
Qed.

Lemma mulhwu_arith x y :
  Z.shiftr (u64 (u32 x * u32 y)) 32 * 2 ^ 32 + u32 (s32 x * s32 y) = u32 x * u32 y.
Proof.
  assert (u32 (s32 x * s32 y) = u32 (u32 x * u32 y)) as ->
    by by rewrite wrap_mul_sgn, wrap_mul_l, wrap_mul_r by lia.
  pose proof (wrap_in_u 32 x ltac:(lia)) as Hx. pose proof (wrap_in_u 32 y ltac:(lia)) as Hy.
  assert (in_u 64 (u32 x * u32 y)) by (unfold in_u in *; nia).
  rewrite (wrap_small 64), Z.shiftr_div_pow2 by (done || lia). apply div_mod_halves.
Qed.

(** [MULLW], [MULHW] and [MULHWU] compute the 64-bit product of the low words and its
    upper word; [MULLWO] sets OV exactly when the product does not fit 32 bits. *)
Theorem multiply_word op p oe rc : wf p ->
  let a := s32 p.gpr[op.[f_ra]] in
  let b := s32 p.gpr[op.[f_rb]] in
  let lo := (Interp.MULLW oe rc op p).gpr[op.[f_rd]] in
  let hi := (Interp.MULHW rc op p).gpr[op.[f_rd]] in
  let hu := (Interp.MULHWU rc op p).gpr[op.[f_rd]] in
  s64 lo = a * b /\ s64 hi * 2 ^ 32 + u32 lo = a * b /\
  hu * 2 ^ 32 + u32 lo = u32 p.gpr[op.[f_ra]] * u32 p.gpr[op.[f_rb]] /\
  ov (xer (Interp.MULLW oe rc op p)) = if oe then negb (s32_fits (a * b)) else ov (xer p).
Proof.
  intros Hp a b lo hi hu. pose proof (five_bits_range f_rd op eq_refl) as Hrd.
  assert (lo = u64 (a * b)) as ->.
  { unfold lo, Interp.MULLW. destruct oe, rc; exact (gpr_set_gpr_eq _ _ p Hp Hrd). }
  rewrite (wrap_wrap_le 32 64), sgn_wrap by lia.
  assert (s64 (a * b) = a * b) as Hs by (apply sgn_small; [lia|apply word_product_in_s]).
  split; [done|split; [|split]].
  - unfold hi, Interp.MULHW. destruct rc; refine (eq_trans _ (mulhw_arith _ _)); do 3 f_equal;
      exact (gpr_set_gpr_eq _ _ p Hp Hrd).
  - unfold hu, Interp.MULHWU. destruct rc; refine (eq_trans _ (mulhwu_arith _ _)); do 2 f_equal;
      exact (gpr_set_gpr_eq _ _ p Hp Hrd).
  - unfold Interp.MULLW. fold a b. destruct oe; [|by destruct rc].
    assert ((s64 (u64 (a * b)) <? - 2 ^ 31) || (2 ^ 31 - 1 <? s64 (u64 (a * b))) =
      negb (s32_fits (a * b))) as Hov.
    { rewrite sgn_wrap, Hs by lia. unfold s32_fits. case_cmp; done || lia. }
    destruct rc; exact Hov.
Qed.

Lemma multiply_word_witness :
  let p := set_gpr 3 (2 ^ 31) (set_gpr 4 2 ppu_init) in
  s64 (Interp.MULLW false false 0x7ca321d6 p).gpr[0x7ca321d6.[f_rd]] = - 2 ^ 32.
Proof.
  intros p. assert (wf p) as Hp.
  { repeat apply wf_set_gpr; [apply wf_ppu_init|unfold in_u; lia..]. }
  destruct (multiply_word 0x7ca321d6 p false false Hp) as (H & _).
  refine (eq_trans H _). vm_compute. reflexivity.
Defined.

(** ** Division *)

(** [q] is the quotient of [a] by [b], rounded towards zero. *)
Definition quotient (a b q : Z) : Prop :=
  exists r, a = q * b + r /\ Z.abs r < Z.abs b /\ 0 <= r * a.

Lemma quot_quotient a b : b <> 0 -> quotient a b (Z.quot a b).
Proof.
  intros Hb. exists (Z.rem a b). pose proof (Z.quot_rem a b Hb).
  pose proof (Z.rem_bound_abs a b Hb). pose proof (Z.rem_sign_mul a b Hb). lia.
Qed.

Lemma div_quotient a b : 0 <= a -> 0 < b -> quotient a b (a / b).
Proof.
  intros Ha Hb. rewrite <- Z.quot_div_nonneg by lia. apply quot_quotient. lia.
Qed.

Lemma quot_in_s w a b : 0 < w -> in_s w a -> in_s w b -> b <> 0 ->
  ~ (a = - 2 ^ (w - 1) /\ b = -1) -> in_s w (Z.quot a b).
Proof.
  unfold in_s. intros Hw Ha Hb Hb0 Hn. pose proof (pow2_pos (w - 1) ltac:(lia)).
  assert (Z.abs (Z.quot a b) <= Z.abs a) as Hq.
  { rewrite <- Z.quot_abs by done. apply Z.quot_le_upper_bound; [lia|]. nia. }
  destruct (Z.eq_dec (Z.quot a b) (2 ^ (w - 1))) as [E|]; [|lia].
  exfalso. apply Hn. pose proof (Z.quot_rem a b Hb0). pose proof (Z.rem_bound_abs a b Hb0).
  pose proof (Z.rem_sign_mul a b Hb0).
  assert (a = - 2 ^ (w - 1)) by lia. split; [done|]. rewrite E in *. nia.
Qed.

(** The result and OV of a division of [a] by [b] that overflows on [o]. *)
Definition div_post (w : Z) (sg : bool) (oe : bool) (a b rd : Z) (o : bool)
    (p q : ppu_thread) : Prop :=
  ov (xer q) = (if oe then o else ov (xer p)) /\
  (if o then q.gpr[rd] = 0
   else in_u w q.gpr[rd] /\ quotient a b (if sg then sgn w q.gpr[rd] else q.gpr[rd])).

Lemma div_post_intro w (sg oe rc : bool) a b rd (o : bool) v p :
  wf p -> 0 <= rd < 32 -> v = (if o then 0 else v) ->
  (o = false -> in_u w v /\ quotient a b (if sg then sgn w v else v)) ->
  div_post w sg oe a b rd o p (Interp.record_cr0 rc v (Interp.if_oe oe o (set_gpr rd v p))).
Proof.
  intros Hp Hrd Hv Hq. unfold div_post.
  assert ((Interp.record_cr0 rc v (Interp.if_oe oe o (set_gpr rd v p))).gpr[rd] = v) as ->
    by (destruct oe, rc; exact (gpr_set_gpr_eq _ _ p Hp Hrd)).
  split; [by destruct oe, rc|]. destruct o; [done|by apply Hq].
Qed.

Lemma signed_quotient w a b : 0 < w -> in_s w a -> in_s w b -> b <> 0 ->
  ~ (a = - 2 ^ (w - 1) /\ b = -1) -> quotient a b (sgn w (wrap w (Z.quot a b))).
Proof.
  intros. rewrite sgn_wrap, sgn_small by (auto using quot_in_s). by apply quot_quotient.
Qed.

(** C38: [DIVD], [DIVDU], [DIVW], [DIVWU] return the quotient rounded towards zero;
    they return 0 and (with OE) set OV exactly when the divisor is 0 or the signed
    quotient does not fit. *)
Theorem divide_exact op p oe rc : wf p ->
  let A := p.gpr[op.[f_ra]] in
  let B := p.gpr[op.[f_rb]] in
  div_post 64 true oe (s64 A) (s64 B) op.[f_rd]
    ((s64 B =? 0) || ((s64 A =? - 2 ^ 63) && (s64 B =? -1))) p (Interp.DIVD oe rc op p) /\
  div_post 64 false oe A B op.[f_rd] (B =? 0) p (Interp.DIVDU oe rc op p) /\
  div_post 32 true oe (s32 A) (s32 B) op.[f_rd]
    ((s32 B =? 0) || ((s32 A =? - 2 ^ 31) && (s32 B =? -1))) p (Interp.DIVW oe rc op p) /\
  div_post 32 false oe (u32 A) (u32 B) op.[f_rd] (u32 B =? 0) p (Interp.DIVWU oe rc op p).
Proof.
  intros Hp A B. pose proof (five_bits_range f_rd op eq_refl) as Hrd.
  pose proof (gpr_in_u p op.[f_ra] Hp) as HA. pose proof (gpr_in_u p op.[f_rb] Hp) as HB.
  pose proof (wrap_in_u 32 A ltac:(lia)) as HA32. pose proof (wrap_in_u 32 B ltac:(lia)) as HB32.
  fold A in HA. fold B in HB.
  assert (forall o : bool, forall v, (if o then 0 else v) = if o then 0 else if o then 0 else v)
    as Hif by by intros [].
  split; [|split; [|split]]; apply div_post_intro; auto.
  - intros Ho. rewrite Ho. split; [auto with word|].
    rewrite orb_false_iff, andb_false_iff, !Z.eqb_neq in Ho.
    destruct Ho as [Hnz Hn]. apply signed_quotient; auto with word.
    intros [Ea Eb]. destruct Hn as [Hn|Hn]; [exact (Hn Ea)|exact (Hn Eb)].
  - intros Ho. rewrite Ho. apply Z.eqb_neq in Ho. split; [by apply div_in_u|].
    apply div_quotient; subst A B; unfold in_u in *; lia.
  - intros Ho. rewrite Ho. split; [auto with word|].
    rewrite orb_false_iff, andb_false_iff, !Z.eqb_neq in Ho.
    destruct Ho as [Hnz Hn]. apply signed_quotient; auto with word.
    intros [Ea Eb]. destruct Hn as [Hn|Hn]; [exact (Hn Ea)|exact (Hn Eb)].
  - intros Ho. rewrite Ho. apply Z.eqb_neq in Ho. split; [by apply div_in_u|].
    apply div_quotient; subst A B; unfold in_u in *; lia.
Qed.

Lemma divide_exact_witness :
  let p := set_gpr 3 (2 ^ 64 - 7) (set_gpr 4 2 ppu_init) in
  quotient (-7) 2 (s64 (Interp.DIVD true false 0x7ca323d2 p).gpr[0x7ca323d2.[f_rd]]).
Proof.
  intros p. assert (wf p) as Hp.
  { repeat apply wf_set_gpr; [apply wf_ppu_init|unfold in_u; lia..]. }
  destruct (divide_exact 0x7ca323d2 p true false Hp) as ([_ [_ H]] & _).
  exact H.
Defined.

(** ** Shift right algebraic *)

(** Source value and shift count of the four instructions. *)
Definition sra_operands (i : itype) (op : Z) (p : ppu_thread) : option (Z * Z) :=
  match i with
  | Itype.SRAW | Itype.SRAW_ => Some (s32 p.gpr[op.[f_rs]], p.gpr[op.[f_rb]] .& 63)
  | Itype.SRAD | Itype.SRAD_ => Some (s64 p.gpr[op.[f_rs]], p.gpr[op.[f_rb]] .& 127)
  | Itype.SRAWI | Itype.SRAWI_ => Some (s32 p.gpr[op.[f_rs]], op.[f_sh32])
  | Itype.SRADI | Itype.SRADI_ => Some (s64 p.gpr[op.[f_rs]], op.[f_sh64])
  | _ => None
  end.

Definition is_rc (i : itype) : bool :=
  match i with
  | Itype.SRAW_ | Itype.SRAD_ | Itype.SRAWI_ | Itype.SRADI_ => true
  | _ => false
  end.

Definition sra_post (rc : bool) (ra a n : Z) (p : ppu_thread) : ppu_thread :=
  Interp.record_cr0 rc (u64 (a / 2 ^ n))
    (set_ca ((a <? 0) && negb (a mod 2 ^ n =? 0)) (set_gpr ra (u64 (a / 2 ^ n)) p)).

(** Shifting back loses exactly the remainder. *)
Lemma shift_back w a n : 0 < w <= 64 -> in_s w a -> 0 <= n -> n < w ->
  (wrap w (u64 (Z.shiftl (u64 (Z.shiftr a n)) n)) =? wrap w a) = (a mod 2 ^ n =? 0).
Proof.
  intros Hw Ha Hn Hnw. rewrite Z.shiftr_div_pow2, Z.shiftl_mul_pow2 by lia.
  rewrite (wrap_wrap_le w 64), <- wrap_mul_l, wrap_wrap_le, wrap_mul_l by lia.
  pose proof (pow2_pos n Hn). pose proof (Z.div_mod a (2 ^ n) ltac:(lia)) as E.
  pose proof (Z.mod_pos_bound a (2 ^ n) ltac:(lia)) as Hr.
  assert (2 ^ n < 2 ^ w) by (apply Z.pow_lt_mono_r; lia).
  apply eq_true_iff_eq. rewrite !Z.eqb_eq. split.
  - intros Heq. replace (a / 2 ^ n * 2 ^ n) with (a - a mod 2 ^ n) in Heq by lia.
    unfold wrap in Heq. apply Z.cong_iff_0 in Heq.
    replace (a - a mod 2 ^ n - a) with (- (a mod 2 ^ n)) in Heq by lia.
    apply Z.mod_opp_l_z in Heq; [|lia]. rewrite Z.opp_involutive in Heq.
    rewrite Z.mod_small in Heq by lia. done.
  - intros Hz. f_equal. lia.
Qed.

Lemma big_shift a n w : in_s w a -> 0 < w <= n -> a / 2 ^ n = 0 - b2z (a <? 0) /\
  (a <? 0) && negb (a mod 2 ^ n =? 0) = (a <? 0).
Proof.
  intros Ha Hw. assert (2 ^ (w - 1) < 2 ^ n) by (apply Z.pow_lt_mono_r; lia).
  unfold in_s in Ha. destruct (Z.ltb_spec a 0); cbn [b2z andb].
  - assert (a / 2 ^ n = -1) as E by (symmetry; apply Z.div_unique with (a + 2 ^ n); lia).
    rewrite Z.mod_eq, E by lia. split; [done|]. rewrite negb_true_iff, Z.eqb_neq. lia.
  - rewrite Z.div_small by lia. done.
Qed.

Lemma shift_back64 a n : in_s 64 a -> 0 <= n < 64 ->
  (u64 (Z.shiftl (u64 (Z.shiftr a n)) n) =? u64 a) = (a mod 2 ^ n =? 0).
Proof. intros. rewrite <- (shift_back 64), wrap_wrap by lia || done. done. Qed.

(** The two branches of [SRAW] and [SRAD]. *)
Lemma sra_branches w a n : 0 < w <= 64 -> in_s w a -> 0 <= n ->
  (if w - 1 <? n then u64 (0 - b2z (a <? 0)) else u64 (Z.shiftr a n)) = u64 (a / 2 ^ n) /\
  (if w - 1 <? n then a <? 0 else
     (a <? 0) && negb (u64 (Z.shiftl (if w - 1 <? n then u64 (0 - b2z (a <? 0))
                                      else u64 (Z.shiftr a n)) n) =? u64 a)) =
  (a <? 0) && negb (a mod 2 ^ n =? 0).
Proof.
  intros Hw Ha Hn. destruct (Z.ltb_spec (w - 1) n).
  - by destruct (big_shift a n w Ha ltac:(lia)) as [-> ->].
  - assert (in_s 64 a) by (unfold in_s in *; assert (2 ^ (w - 1) <= 2 ^ (64 - 1))
      by (apply Z.pow_le_mono_r; lia); lia).
    rewrite shift_back64 by (done || lia). by rewrite Z.shiftr_div_pow2.
Qed.

Lemma land_ones_range x k : 0 <= k -> 0 <= Z.land x (Z.ones k) < 2 ^ k.
Proof. intros. rewrite Z.land_ones by lia. by apply wrap_in_u. Qed.

Lemma fixed_sra i h op p a n : Interp.fixed i = Some h -> wf p ->
  sra_operands i op p = Some (a, n) -> h op p = sra_post (is_rc i) op.[f_ra] a n p.
Proof.
  intros E Hp Ho. pose proof (five_bits_range f_sh32 op eq_refl) as H5.
  pose proof (six_bits_range f_sh64 op (or_introl eq_refl)) as H6.
  pose proof (land_ones_range p.gpr[op.[f_rb]] 6 ltac:(lia)) as L6. change (Z.ones 6) with 63 in L6.
  pose proof (land_ones_range p.gpr[op.[f_rb]] 7 ltac:(lia)) as L7. change (Z.ones 7) with 127 in L7.
  pose proof (sgn_in_s 32 p.gpr[op.[f_rs]] ltac:(lia)) as S32.
  pose proof (sgn_in_s 64 p.gpr[op.[f_rs]] ltac:(lia)) as S64.
  unfold sra_post.
  destruct i; try discriminate Ho; injection Ho as <- <-; injection E as <-; cbn [is_rc];
    cbv beta zeta delta [Interp.SRAW Interp.SRAD Interp.SRAWI Interp.SRADI];
    rewrite ?(wrap_small 8), ?(sgn_wrap 32) by (unfold in_u; lia).
  1,2: destruct (sra_branches 32 _ _ ltac:(lia) S32 (proj1 L6)) as [E1 E2];
    change (32 - 1) with 31 in *; by rewrite E2, E1.
  1,2: destruct (sra_branches 64 _ _ ltac:(lia) S64 (proj1 L7)) as [E1 E2];
    change (64 - 1) with 63 in *; by rewrite E2, E1.
  1,2: rewrite (shift_back 32), Z.shiftr_div_pow2 by (done || lia); reflexivity.
  all: rewrite shift_back64, Z.shiftr_div_pow2 by (done || lia); reflexivity.
Qed.

(** Rounding towards zero is rounding down, plus one for an inexact negative. *)
Lemma quot_floor a n : 0 <= n ->
  Z.quot a (2 ^ n) = a / 2 ^ n + b2z ((a <? 0) && negb (a mod 2 ^ n =? 0)).
Proof.
  intros Hn. pose proof (pow2_pos n Hn). pose proof (Z.div_mod a (2 ^ n) ltac:(lia)).
  pose proof (Z.mod_pos_bound a (2 ^ n) ltac:(lia)).
  pose proof (Z.quot_rem a (2 ^ n) ltac:(lia)).
  destruct (Z.ltb_spec a 0) as [Hneg|Hpos]; cbn [andb].
  - pose proof (Z.rem_bound_pos_neg a (2 ^ n) ltac:(lia) ltac:(lia)).
    destruct (Z.eqb_spec (a mod 2 ^ n) 0); cbn [negb b2z]; nia.
  - rewrite Z.quot_div_nonneg by lia. cbn [b2z]. lia.
Qed.

(** [SRAW], [SRAD], [SRAWI], [SRADI] divide their signed source by [2^n] rounding
    down, for every shift count, and set CA exactly when the source is negative and the
    division is inexact; a following [ADDZE] therefore yields the quotient rounded
    towards zero. *)
Theorem shift_right_algebraic i h op op2 p a n : Interp.fixed i = Some h -> wf p ->
  sra_operands i op p = Some (a, n) -> op2.[f_ra] = op.[f_ra] ->
  let q := h op p in
  q.gpr[op.[f_ra]] = u64 (a / 2 ^ n) /\
  ca (xer q) = (a <? 0) && negb (a mod 2 ^ n =? 0) /\
  (Interp.ADDZE false false op2 q).gpr[op2.[f_rd]] = u64 (Z.quot a (2 ^ n)).
Proof.
  intros E Hp Ho Hra q. subst q. assert (wf (h op p)) as Hq by by apply (fixed_preserves_wf i).
  assert (0 <= n) as Hn.
  { destruct i; try discriminate Ho; injection Ho as <- <-.
    all: first [apply land_const_nonneg; lia | apply op_get_nonneg; auto 6]. }
  pose proof (five_bits_range f_ra op eq_refl) as Hr.
  pose proof (five_bits_range f_rd op2 eq_refl) as Hd.
  rewrite (fixed_add Itype.ADDZE _ op2 (h op p) _ _ _ _ eq_refl Hq eq_refl), Hra.
  rewrite (fixed_sra i h op p a n E Hp Ho) in *.
  assert ((sra_post (is_rc i) op.[f_ra] a n p).gpr[op.[f_ra]] = u64 (a / 2 ^ n)) as Eg.
  { unfold sra_post. destruct (is_rc i); exact (gpr_set_gpr_eq _ _ p Hp Hr). }
  assert (ca (xer (sra_post (is_rc i) op.[f_ra] a n p)) =
    (a <? 0) && negb (a mod 2 ^ n =? 0)) as Ec by (unfold sra_post; by destruct (is_rc i)).
  split; [done|split; [done|]].
  refine (eq_trans (gpr_set_gpr_eq op2.[f_rd] _ _ Hq Hd) _).
  by rewrite Eg, Ec, Z.add_0_r, wrap_add_l, quot_floor by lia.
Qed.

Lemma shift_right_algebraic_witness :
  let p := set_gpr 3 (2 ^ 64 - 7) ppu_init in
  (Interp.ADDZE false false 0x7c640194 (Interp.SRADI false 0x7c640e74 p)).gpr[0x7c640194.[f_rd]]
  = u64 (-3).
Proof.
  intros p. assert (wf p) as Hp.
  { repeat apply wf_set_gpr; [apply wf_ppu_init|unfold in_u; lia..]. }
  destruct (shift_right_algebraic Itype.SRADI (Interp.SRADI false) 0x7c640e74 0x7c640194 p _ _
    eq_refl Hp eq_refl eq_refl) as (_ & _ & H).
  refine (eq_trans H _). vm_compute. reflexivity.
Defined.
