(* ===== verification/PpuBits.v ===== *)
(** Rotates, shifts, comparisons and register moves of the PPU interpreter, against
    bit-level references in the big-endian bit numbering of the Power ISA. *)

From Stdlib Require Import ZArith Lia Bool.
From stdpp Require Import base tactics option list numbers.
From S2P Require Import Prelude BitField PpuOpcodes PpuAsm PpuState PpuInt PpuIntWf.
Local Open Scope Z_scope.
Local Open Scope word_scope.

(** ** Rotation *)

Lemma testbit_dup32 x i : in_u 32 x -> 0 <= i < 64 ->
  Z.testbit (Interp.dup32 x) i = Z.testbit x (i mod 32).
Proof.
  intros Hx Hi. unfold Interp.dup32. rewrite Z.lor_spec, testbit_shiftl by lia.
  destruct (Z.leb_spec 32 i); simpl.
  - rewrite (testbit_high 32 x i) by (done || lia). simpl. f_equal.
    apply Z.mod_unique with 1; lia.
  - rewrite orb_false_r. by rewrite Z.mod_small by lia.
Qed.

Lemma testbit_dup_rotl x n i : in_u 32 x -> 0 <= n < 32 -> 0 <= i < 64 ->
  Z.testbit (Interp.dup32 (rotl 32 x n)) i = Z.testbit x ((i - n) mod 32).
Proof.
  intros Hx Hn Hi. rewrite testbit_dup32 by (done || apply wrap_in_u; lia).
  rewrite testbit_rotl by (done || lia || (apply Z.mod_pos_bound; lia)). f_equal.
  rewrite Zminus_mod_idemp_l. done.
Qed.

Lemma lxor63 x : 0 <= x < 64 -> x .^ 63 = 63 - x.
Proof.
  intros Hx. apply Z.bits_inj'. intros i Hi. rewrite Z.lxor_spec.
  assert (63 - x = bnot 6 x) as -> by (rewrite bnot_val by (unfold in_u; lia); lia).
  rewrite testbit_bnot by lia. change 63 with (Z.ones 6). rewrite testbit_ones by lia.
  destruct (Z.ltb_spec i 6); simpl; [by rewrite xorb_true_r|].
  rewrite (testbit_high 6 x) by (unfold in_u; lia). done.
Qed.

(** Masks from a bit position to either end. *)
Lemma testbit_mask_low mb i : 0 <= mb < 64 -> 0 <= i < 64 ->
  Z.testbit (Z.shiftr (bnot 64 0) mb) (63 - i) = (mb <=? i).
Proof.
  intros. rewrite testbit_shiftr, testbit_bnot, Z.bits_0 by lia. case_cmp; done || lia.
Qed.

Lemma testbit_mask_high me i : 0 <= me < 64 -> 0 <= i < 64 ->
  Z.testbit (u64 (Z.shiftl (bnot 64 0) (me .^ 63))) (63 - i) = (i <=? me).
Proof.
  intros. rewrite lxor63, testbit_high_ones by lia. case_cmp; done || lia.
Qed.

(** Width, source, count, mask bounds of a rotate, and whether it inserts. *)
Definition rotate_operands (i : itype) (op : Z) (p : ppu_thread)
    : option (Z * Z * Z * Z * Z * bool) :=
  let rs := p.gpr[op.[f_rs]] in
  let mb := op.[f_mbe64] in
  let rb := p.gpr[op.[f_rb]] in
  match i with
  | Itype.RLWINM | Itype.RLWINM_ =>
      Some (32, u32 rs, op.[f_sh32], op.[f_mb32] + 32, op.[f_me32] + 32, false)
  | Itype.RLWNM | Itype.RLWNM_ =>
      Some (32, u32 rs, rb mod 32, op.[f_mb32] + 32, op.[f_me32] + 32, false)
  | Itype.RLWIMI | Itype.RLWIMI_ =>
      Some (32, u32 rs, op.[f_sh32], op.[f_mb32] + 32, op.[f_me32] + 32, true)
  | Itype.RLDICL | Itype.RLDICL_ => Some (64, rs, op.[f_sh64], mb, 63, false)
  | Itype.RLDICR | Itype.RLDICR_ => Some (64, rs, op.[f_sh64], 0, mb, false)
  | Itype.RLDIC | Itype.RLDIC_ => Some (64, rs, op.[f_sh64], mb, 63 - op.[f_sh64], false)
  | Itype.RLDIMI | Itype.RLDIMI_ => Some (64, rs, op.[f_sh64], mb, 63 - op.[f_sh64], true)
  | Itype.RLDCL | Itype.RLDCL_ => Some (64, rs, rb mod 64, mb, 63, false)
  | Itype.RLDCR | Itype.RLDCR_ => Some (64, rs, rb mod 64, 0, mb, false)
  | _ => None
  end.

(** Bit [i] (big-endian) of the result of a rotate. *)
Definition rotate_bit (w src n mb me : Z) (ins : bool) (old i : Z) : bool :=
  if isa_mask_bit mb me i then Z.testbit src ((63 - i - n) mod w)
  else ins && Z.testbit old (63 - i).

Lemma gpr_after_rc rc v r p : wf p -> 0 <= r < 32 ->
  (Interp.record_cr0 rc v (set_gpr r v p)).gpr[r] = v.
Proof. intros Hp Hr. destruct rc; exact (gpr_set_gpr_eq _ _ p Hp Hr). Qed.

(** Masking and insertion, bit by bit. *)
Lemma masked_bit x m j (b : bool) : Z.testbit m j = b ->
  Z.testbit (Z.land x m) j = if b then Z.testbit x j else false.
Proof. intros <-. rewrite Z.land_spec. destruct (Z.testbit m j); [apply andb_true_r|apply andb_false_r]. Qed.

Lemma inserted_bit old x m j (b : bool) : 0 <= j < 64 -> Z.testbit m j = b ->
  Z.testbit (Z.lor (Z.land old (bnot 64 m)) (Z.land x m)) j =
  if b then Z.testbit x j else Z.testbit old j.
Proof.
  intros Hj <-. rewrite Z.lor_spec, !Z.land_spec, testbit_bnot by lia.
  destruct (Z.ltb_spec j 64); [|lia]. destruct (Z.testbit m j); simpl.
  - by rewrite andb_false_r, andb_true_r.
  - by rewrite andb_true_r, andb_false_r, orb_false_r.
Qed.

Lemma mask_low_isa mb i : 0 <= mb < 64 -> 0 <= i < 64 ->
  Z.testbit (Z.shiftr (bnot 64 0) mb) (63 - i) = isa_mask_bit mb 63 i.
Proof. intros. rewrite testbit_mask_low by lia. unfold isa_mask_bit. case_cmp; done || lia. Qed.

Lemma mask_high_isa me i : 0 <= me < 64 -> 0 <= i < 64 ->
  Z.testbit (u64 (Z.shiftl (bnot 64 0) (me .^ 63))) (63 - i) = isa_mask_bit 0 me i.
Proof. intros. rewrite testbit_mask_high by lia. unfold isa_mask_bit. case_cmp; done || lia. Qed.

Lemma land31 x : Z.land x 0x1f = x mod 32.
Proof. change 0x1f with (Z.ones 5). by rewrite Z.land_ones by lia. Qed.

Lemma land63_mod x : Z.land x 0x3f = x mod 64.
Proof. change 0x3f with (Z.ones 6). by rewrite Z.land_ones by lia. Qed.

Ltac rotate_case Hra :=
  rewrite gpr_after_rc by (done || exact Hra); unfold rotate_bit;
  first
  [ erewrite inserted_bit
      by (lia || (apply testbit_rotate_mask; lia)); cbn [andb]
  | erewrite masked_bit
      by first [apply testbit_rotate_mask; lia | apply mask_low_isa; lia
               | apply mask_high_isa; lia]; cbn [andb] ];
  rewrite ?testbit_dup_rotl, ?testbit_rotl by (auto with word || lia || (apply Z.mod_pos_bound; lia));
  reflexivity.

(** C24: the nine rotate instructions and their Rc forms compute, bit by bit, the rotation
    under mask (or the insertion under mask) of the Power ISA. *)
Theorem rotate_exact i h op p w src n mb me ins j :
  Interp.fixed i = Some h -> wf p ->
  rotate_operands i op p = Some (w, src, n, mb, me, ins) -> 0 <= j < 64 ->
  Z.testbit (h op p).gpr[op.[f_ra]] (63 - j) =
  rotate_bit w src n mb me ins p.gpr[op.[f_ra]] j.
Proof.
  intros E Hp Ho Hj. pose proof (five_bits_range f_ra op eq_refl) as Hra.
  pose proof (five_bits_range f_sh32 op eq_refl) as Hsh.
  pose proof (five_bits_range f_mb32 op eq_refl) as Hmb.
  pose proof (five_bits_range f_me32 op eq_refl) as Hme.
  pose proof (six_bits_range f_sh64 op (or_introl eq_refl)) as Hsh6.
  pose proof (six_bits_range f_mbe64 op (or_intror eq_refl)) as Hmb6.
  pose proof (gpr_in_u p op.[f_rs] Hp) as Hrs.
  pose proof (Z.mod_pos_bound p.gpr[op.[f_rb]] 32 ltac:(lia)) as Hb5.
  pose proof (Z.mod_pos_bound p.gpr[op.[f_rb]] 64 ltac:(lia)) as Hb6.
  destruct i; try discriminate Ho; injection Ho as <- <- <- <- <- <-; injection E as <-;
    cbv beta zeta delta [Interp.RLWIMI Interp.RLWINM Interp.RLWNM Interp.RLDICL Interp.RLDICR
      Interp.RLDIC Interp.RLDIMI Interp.RLDCL Interp.RLDCR];
    rewrite ?land31, ?land63_mod, ?(lxor63 op.[f_sh64]), ?(Z.add_comm 32) by done.
  all: rotate_case Hra.
Qed.

Lemma rotate_exact_witness :
  let p := set_gpr 3 0x12345678 ppu_init in
  Z.testbit (Interp.RLWINM false 0x5464402e p).gpr[0x5464402e.[f_ra]] (63 - 32) =
  rotate_bit 32 0x12345678 8 32 55 false 0 32.
Proof.
  intros p. assert (wf p) as Hp.
  { apply wf_set_gpr; [apply wf_ppu_init|unfold in_u; lia]. }
  exact (rotate_exact Itype.RLWINM (Interp.RLWINM false) 0x5464402e p _ _ _ _ _ _ 32
    eq_refl Hp eq_refl ltac:(lia)).
Defined.

(** *** The assembler's [EXTRDI] *)

(** What [extrdi ra, rs, n, b] denotes: [n] bits of [x] from bit [b], right justified. *)
Definition extract_bits (x n b : Z) : Z := wrap n (Z.shiftr x (64 - b - n)).

Lemma land_low_mask x mb : 0 <= mb < 64 -> in_u 64 x ->
  x .& Z.shiftr (bnot 64 0) mb = wrap (64 - mb) x.
Proof.
  intros Hmb Hx. apply (bits_inj_u 64); [lia|by apply land_in_u_l| |].
  { apply (in_u_mono (64 - mb)); [lia|apply wrap_in_u; lia]. }
  intros i Hi. rewrite Z.land_spec, testbit_wrap, testbit_shiftr, testbit_bnot, Z.bits_0 by lia.
  destruct (Z.ltb_spec (i + mb) 64), (Z.ltb_spec i (64 - mb)); simpl; try lia;
    by rewrite ?andb_true_r, ?andb_false_r.
Qed.

Lemma rotl_extract x n b : in_u 64 x -> 0 < n -> 0 < b -> n + b < 64 ->
  wrap n (rotl 64 x (b + n)) = extract_bits x n b.
Proof.
  intros Hx Hn Hb Hs. unfold extract_bits. apply Z.bits_inj'. intros i Hi.
  rewrite !testbit_wrap by lia. destruct (Z.ltb_spec i n); simpl; [|done].
  rewrite testbit_rotl, testbit_shiftr by (done || lia). f_equal.
  replace (i - (b + n)) with (i + (64 - b - n) + (-1) * 64) by lia.
  rewrite Z.mod_add, Z.mod_small by lia. done.
Qed.

Lemma exec_rldicl ra rs sh mb p : wf p -> 0 <= ra < 32 -> 0 <= rs < 32 ->
  0 <= sh < 64 -> 0 <= mb < 64 ->
  (Interp.RLDICL false (ppu_instructions.RLDICL ra rs sh mb false) p).gpr[ra] =
  wrap (64 - mb) (rotl 64 p.gpr[rs] sh).
Proof.
  intros Hp Hra Hrs Hsh Hmb.
  pose proof (assemble_operands (I_RLDICL ra rs sh mb false)) as Ho.
  cbn [operands assemble] in Ho. set (op := ppu_instructions.RLDICL ra rs sh mb false) in *.
  inversion_clear Ho as [|?? E1 Ho']. inversion_clear Ho' as [|?? E2 Ho].
  inversion_clear Ho as [|?? E3 Ho']. inversion_clear Ho' as [|?? E4 _].
  cbv [field_truncate field_desc BitField.truncate ppu_bf BitField.is_signed BitField.bitsize
    BitField.cf_size BitField.item_size] in E1, E2, E3, E4.
  rewrite wrap_small in E1, E2, E3, E4 by (unfold in_u; simpl; lia).
  unfold Interp.RLDICL. rewrite E1, E2, E3, E4. rewrite gpr_after_rc by done.
  apply land_low_mask; [lia|]. apply wrap_in_u. lia.
Qed.

(** The word assembled by [EXTRDI x, y, n, b] keeps the low [b] bits of the rotated
    source instead of the low [n] bits, so it extracts the requested bits exactly when no
    set bit lies in the difference; the word with mask begin [64 - n] always does. *)
Theorem extrdi_keeps_b_bits x y n b p : wf p -> 0 <= x < 32 -> 0 <= y < 32 ->
  0 < n -> 0 < b -> n + b < 64 ->
  (Interp.RLDICL false (ppu_instructions.EXTRDI x y n b) p).gpr[x] =
    wrap b (rotl 64 p.gpr[y] (b + n)) /\
  (Interp.RLDICL false (ppu_instructions.RLDICL x y (b + n) (64 - n) false) p).gpr[x] =
    extract_bits p.gpr[y] n b.
Proof.
  intros Hp Hx Hy Hn Hb Hs. unfold ppu_instructions.EXTRDI.
  rewrite !(wrap_small 32) by (unfold in_u; lia). rewrite !exec_rldicl by (done || lia).
  replace (64 - (64 - b)) with b by lia. replace (64 - (64 - n)) with n by lia.
  split; [done|]. apply rotl_extract; try done. by apply gpr_in_u.
Qed.

Lemma extrdi_keeps_b_bits_witness :
  let p := set_gpr 3 0x123456789abcdef0 ppu_init in
  (Interp.RLDICL false (ppu_instructions.EXTRDI 4 3 8 16) p).gpr[4] = 0x3456 /\
  extract_bits 0x123456789abcdef0 8 16 = 0x56.
Proof.
  intros p. assert (wf p) as Hp.
  { apply wf_set_gpr; [apply wf_ppu_init|unfold in_u; lia]. }
  destruct (extrdi_keeps_b_bits 4 3 8 16 p Hp ltac:(lia) ltac:(lia) ltac:(lia) ltac:(lia)
    ltac:(lia)) as [H _].
  split; [refine (eq_trans H _)|]; vm_compute; reflexivity.
Defined.

(** ** Logical shifts and leading zeros *)

Lemma wrap_shiftl_big w x n : 0 <= w <= n -> wrap w (x * 2 ^ n) = 0.
Proof.
  intros. unfold wrap. replace n with (n - w + w) by lia. rewrite Z.pow_add_r, Z.mul_assoc by lia.
  apply Z.mod_mul. pose proof (pow2_pos w). lia.
Qed.

(** Bit 6 of a 7-bit count decides whether the count is at least 64. *)
Lemma count_high n : 0 <= n < 128 -> negb (n .& 0x40 =? 0) = (64 <=? n).
Proof.
  intros Hn. change 0x40 with (2 ^ 6). rewrite land_pow2, negb_involutive by lia.
  rewrite Z.testbit_eqb by lia. change (2 ^ 6) with 64. case_cmp; try done; exfalso; word_lia.
Qed.

(** [SLW], [SLD], [SRW], [SRD] multiply or divide by [2^n] for every value of their 6-bit
    (7-bit) count, in particular they give 0 for counts not below the operand width. *)
Theorem shift_logical_exact rc op p : wf p ->
  let rs := p.gpr[op.[f_rs]] in
  let n6 := p.gpr[op.[f_rb]] mod 64 in
  let n7 := p.gpr[op.[f_rb]] mod 128 in
  (Interp.SLW rc op p).gpr[op.[f_ra]] = u32 (rs * 2 ^ n6) /\
  (Interp.SLD rc op p).gpr[op.[f_ra]] = u64 (rs * 2 ^ n7) /\
  (Interp.SRW rc op p).gpr[op.[f_ra]] = u32 rs / 2 ^ n6 /\
  (Interp.SRD rc op p).gpr[op.[f_ra]] = rs / 2 ^ n7.
Proof.
  intros Hp rs n6 n7. pose proof (five_bits_range f_ra op eq_refl) as Hra.
  pose proof (gpr_in_u p op.[f_rs] Hp) as Hrs.
  pose proof (Z.mod_pos_bound p.gpr[op.[f_rb]] 64 ltac:(lia)) as Hn6.
  pose proof (Z.mod_pos_bound p.gpr[op.[f_rb]] 128 ltac:(lia)) as Hn7.
  assert (p.gpr[op.[f_rb]] .& 0x7f = n7) as E7
    by (change 0x7f with (Z.ones 7); by rewrite Z.land_ones by lia).
  assert (rs .& 0xffffffff = u32 rs) as E32
    by (change 0xffffffff with (Z.ones 32); by rewrite Z.land_ones by lia).
  fold n6 n7 in Hn6, Hn7. fold rs in Hrs.
  unfold Interp.SLW, Interp.SLD, Interp.SRW, Interp.SRD. fold rs.
  rewrite land63_mod, E7, E32, !gpr_after_rc, count_high by done. fold n6.
  split; [|split; [|split]].
  - by rewrite wrap_wrap_le, Z.shiftl_mul_pow2 by lia.
  - destruct (Z.leb_spec 64 n7); [by rewrite wrap_shiftl_big by lia|].
    by rewrite Z.shiftl_mul_pow2 by lia.
  - by rewrite Z.shiftr_div_pow2 by lia.
  - rewrite Z.shiftr_div_pow2 by lia. destruct (Z.leb_spec 64 n7); [|done].
    rewrite Z.div_small; [done|]. assert (2 ^ 64 <= 2 ^ n7) by (apply Z.pow_le_mono_r; lia).
    unfold in_u in Hrs. lia.
Qed.

Lemma shift_logical_exact_witness :
  let p := set_gpr 3 0xff (set_gpr 4 40 ppu_init) in
  (Interp.SLW false 0x7c652030 p).gpr[0x7c652030.[f_ra]] = 0.
Proof.
  intros p. assert (wf p) as Hp.
  { repeat apply wf_set_gpr; [apply wf_ppu_init|unfold in_u; lia..]. }
  destruct (shift_logical_exact false 0x7c652030 p Hp) as [H _].
  refine (eq_trans H _). vm_compute. reflexivity.
Defined.

Lemma countl_zero_spec w x : 0 < w -> in_u w x -> x <> 0 ->
  2 ^ (w - 1 - countl_zero w x) <= x < 2 ^ (w - countl_zero w x) /\ 0 <= countl_zero w x < w.
Proof.
  intros Hw Hx H0. unfold countl_zero, in_u in *. destruct (Z.eqb_spec x 0); [lia|].
  replace (w - 1 - (w - 1 - Z.log2 x)) with (Z.log2 x) by lia.
  replace (w - (w - 1 - Z.log2 x)) with (Z.succ (Z.log2 x)) by lia.
  pose proof (Z.log2_spec x ltac:(lia)). pose proof (Z.log2_nonneg x).
  assert (Z.log2 x < w) by (apply Z.log2_lt_pow2; lia). lia.
Qed.

(** [CNTLZW] and [CNTLZD] return the number of leading zeros of the word and of the
    doubleword (32 and 64 for zero), so that bit 5 of the word count tests a word for zero. *)
Theorem count_leading_zeros rc op p : wf p ->
  let x := u32 p.gpr[op.[f_rs]] in
  let y := p.gpr[op.[f_rs]] in
  let cw := (Interp.CNTLZW rc op p).gpr[op.[f_ra]] in
  let cd := (Interp.CNTLZD rc op p).gpr[op.[f_ra]] in
  (if x =? 0 then cw = 32 else 0 <= cw < 32 /\ 2 ^ (31 - cw) <= x < 2 ^ (32 - cw)) /\
  (if y =? 0 then cd = 64 else 0 <= cd < 64 /\ 2 ^ (63 - cd) <= y < 2 ^ (64 - cd)) /\
  Z.shiftr cw 5 = b2z (x =? 0).
Proof.
  intros Hp x y cw cd. pose proof (five_bits_range f_ra op eq_refl) as Hra.
  assert (cw = countl_zero 32 x) as Ew by by apply gpr_after_rc.
  assert (cd = countl_zero 64 y) as Ed by by apply gpr_after_rc.
  assert (in_u 32 x) as Hx by (apply wrap_in_u; lia).
  assert (in_u 64 y) as Hy by by apply gpr_in_u.
  assert (if x =? 0 then cw = 32 else 0 <= cw < 32 /\ 2 ^ (31 - cw) <= x < 2 ^ (32 - cw)) as H.
  { rewrite Ew. destruct (Z.eqb_spec x 0) as [->|Hne]; [done|].
    pose proof (countl_zero_spec 32 x ltac:(lia) Hx Hne). tauto. }
  split; [done|split].
  - rewrite Ed. destruct (Z.eqb_spec y 0) as [->|Hne]; [done|].
    pose proof (countl_zero_spec 64 y ltac:(lia) Hy Hne). tauto.
  - destruct (x =? 0); [by rewrite H|]. rewrite Z.shiftr_div_pow2 by lia.
    by rewrite Z.div_small by lia.
Qed.

Lemma count_leading_zeros_witness :
  let p := set_gpr 3 0x00ff0000 ppu_init in
  let c := (Interp.CNTLZW false 0x7c640034 p).gpr[0x7c640034.[f_ra]] in
  0 <= c < 32 /\ 2 ^ (31 - c) <= 0x00ff0000 < 2 ^ (32 - c).
Proof.
  intros p. assert (wf p) as Hp.
  { apply wf_set_gpr; [apply wf_ppu_init|unfold in_u; lia]. }
  destruct (count_leading_zeros false 0x7c640034 p Hp) as (H & _ & _). exact H.
Defined.

(** ** Comparisons *)

(** The compared values and the target field. *)
Definition cmp_operands (i : itype) (op : Z) (p : ppu_thread) : option (Z * Z) :=
  let a := p.gpr[op.[f_ra]] in
  let b := p.gpr[op.[f_rb]] in
  let d := negb (op.[f_l10] =? 0) in
  match i with
  | Itype.CMP => Some (if d then (s64 a, s64 b) else (s32 a, s32 b))
  | Itype.CMPL => Some (if d then (a, b) else (u32 a, u32 b))
  | Itype.CMPI => Some (if d then s64 a else s32 a, op.[f_simm16])
  | Itype.CMPLI => Some (if d then a else u32 a, op.[f_uimm16])
  | _ => None
  end.

(** [CMP], [CMPL], [CMPI], [CMPLI] set in the target CR field exactly the one of LT,
    GT, EQ that holds between the signed (logical) operands of the selected width and copy
    SO; all other CR fields and all registers are unchanged. *)
Theorem compare_exact i h op p a b : Interp.fixed i = Some h -> wf p ->
  cmp_operands i op p = Some (a, b) ->
  cr_field (h op p) op.[f_crfd] =
    match a ?= b with
    | Lt => [1; 0; 0; b2z (so (xer p))]
    | Gt => [0; 1; 0; b2z (so (xer p))]
    | Eq => [0; 0; 1; b2z (so (xer p))]
    end /\
  (forall m, 0 <= m -> m <> op.[f_crfd] -> cr_field (h op p) m = cr_field p m) /\
  gpr (h op p) = gpr p /\ xer (h op p) = xer p.
Proof.
  intros E Hp Ho. assert (h op p = Interp.ppu_cr_cmp op.[f_crfd] a b p) as ->.
  { destruct i; try discriminate Ho; injection E as <-; cbn [cmp_operands] in Ho;
      cbv beta zeta delta [Interp.CMP Interp.CMPL Interp.CMPI Interp.CMPLI];
      rewrite ?(sgn_wrap 32) by lia; destruct (negb _); injection Ho as <- <-; reflexivity. }
  pose proof (field3_range f_crfd op (or_introl eq_refl)) as Hf.
  split; [|split; [|done]].
  - unfold Interp.ppu_cr_cmp. rewrite cr_field_cr_set by (done || apply Hp).
    destruct (Z.compare_spec a b); case_cmp; done || lia.
  - intros m Hm Hne. unfold Interp.ppu_cr_cmp. rewrite cr_set_as_field.
    apply cr_field_set_field_ne; done || lia.
Qed.

Lemma compare_exact_witness :
  let p := set_gpr 3 (2 ^ 64 - 1) ppu_init in
  cr_field (Interp.CMP 0x7c232000 p) 0x7c232000.[f_crfd] = [1; 0; 0; 0].
Proof.
  intros p. assert (wf p) as Hp.
  { apply wf_set_gpr; [apply wf_ppu_init|unfold in_u; lia]. }
  destruct (compare_exact Itype.CMP Interp.CMP 0x7c232000 p (-1) 0 eq_refl Hp eq_refl) as [H _].
  exact H.
Defined.

(** ** Moves to and from the condition register *)

Lemma testbit_lor_bit x b j : 0 <= x -> is_bit b -> 0 <= j ->
  Z.testbit (Z.lor (Z.shiftl x 1) b) j = if j =? 0 then (b =? 1) else Z.testbit x (j - 1).
Proof.
  intros Hx Hb Hj. rewrite Z.lor_spec, testbit_shiftl by lia.
  assert (b = 0 \/ b = 1) as [-> | ->] by (unfold is_bit in Hb; lia).
  - rewrite Z.bits_0, orb_false_r. case_cmp; done || lia.
  - destruct (Z.eqb_spec j 0) as [->|]; [done|]. rewrite (testbit_high 1 1) by (unfold in_u; lia).
    rewrite orb_false_r. case_cmp; done || lia.
Qed.

(** Bit [j] of a packed list of at most 32 bits. *)
Lemma testbit_pack l j : Forall is_bit l -> (length l <= 32)%nat -> 0 <= j ->
  0 <= pack l /\ Z.testbit (pack l) j =
  (j <? Z.of_nat (length l)) && (get l (Z.of_nat (length l) - 1 - j) =? 1).
Proof.
  intros Hl. revert j. induction l as [|b l IH] using rev_ind; intros j Hn Hj.
  { split; [done|]. change (pack []) with 0. rewrite Z.bits_0. cbn [length]. case_cmp; done. }
  apply Forall_app in Hl as [Hl Hb]. apply List.Forall_inv in Hb. rewrite length_app in Hn.
  cbn [length] in Hn. assert (in_u 32 (Z.shiftl (pack l) 1)) as Hu.
  { destruct (IH Hl 0) as [H0 _]; [lia..|].
    apply in_u_bits; [lia|by apply Z.shiftl_nonneg|]. intros i Hi.
    rewrite testbit_shiftl by lia. destruct (Z.leb_spec 1 i); [|done]. simpl.
    destruct (IH Hl (i - 1)) as [_ ->]; [lia..|]. case_cmp; done || lia. }
  assert (pack (l ++ [b]) = Z.lor (Z.shiftl (pack l) 1) b) as E.
  { unfold pack at 1. rewrite foldl_app. cbn [foldl]. fold (pack l). by rewrite wrap_small. }
  destruct (IH Hl 0) as [H0 _]; [lia..|]. rewrite E. split.
  { apply Z.lor_nonneg. split; [by apply Z.shiftl_nonneg|]. unfold is_bit in Hb. lia. }
  rewrite testbit_lor_bit, length_app by done. cbn [length].
  destruct (Z.eqb_spec j 0) as [->|Hj0].
  - unfold get. rewrite nth_lookup, lookup_app_r by lia.
    replace (Z.to_nat _ - length l)%nat with 0%nat by lia. case_cmp; done || lia.
  - destruct (IH Hl (j - 1)) as [_ ->]; [lia..|]. unfold get. rewrite !nth_lookup.
    destruct (Z.ltb_spec (j - 1) (Z.of_nat (length l))),
      (Z.ltb_spec j (Z.of_nat (length l + 1))); simpl; try lia.
    rewrite lookup_app_l by lia. do 3 f_equal. lia.
Qed.

(** The condition register as a 32-bit word. *)
Lemma testbit_cr_word p i : wf p -> 0 <= i < 32 ->
  Z.testbit (pack (cr p)) (31 - i) = (p.cr[i] =? 1).
Proof.
  intros Hp Hi. destruct (testbit_pack (cr p) (31 - i)) as [_ ->].
  - apply Hp.
  - rewrite (wf_cr_len p Hp). lia.
  - lia.
  - rewrite (wf_cr_len p Hp). change (Z.of_nat 32) with 32.
    replace (32 - 1 - (31 - i)) with i by lia.
    destruct (Z.ltb_spec (31 - i) 32); [done|lia].
Qed.

Lemma pack_in_u p : wf p -> in_u 32 (pack (cr p)).
Proof.
  intros Hp. pose proof (wf_cr_len p Hp) as Hl.
  destruct (testbit_pack (cr p) 0) as [H0 _]; [apply Hp|lia|lia|].
  apply in_u_bits; [lia|done|]. intros i Hi.
  destruct (testbit_pack (cr p) i) as [_ ->]; [apply Hp|lia|lia|].
  rewrite Hl. case_cmp; done || lia.
Qed.

(** Reading one CR bit after assigning a field. *)
Lemma get_set_cr_field n v p i : wf p -> 0 <= n < 8 -> 0 <= i < 32 ->
  (set_cr_field n v p).cr[i] = if i / 4 =? n then get v (i mod 4) else p.cr[i].
Proof.
  intros Hp Hn Hi. pose proof (wf_cr_len p Hp) as Hl. unfold set_cr_field.
  pose proof (Z.div_mod i 4 ltac:(lia)). pose proof (Z.mod_pos_bound i 4 ltac:(lia)).
  destruct (Z.eqb_spec (i / 4) n) as [E|Hne].
  - assert (i mod 4 = 0 \/ i mod 4 = 1 \/ i mod 4 = 2 \/ i mod 4 = 3) as Hm by lia.
    destruct Hm as [Hm|[Hm|[Hm|Hm]]]; rewrite Hm; replace i with (n * 4 + i mod 4) by lia;
      rewrite Hm;
      repeat first [ rewrite cr_set_eq by (rewrite ?cr_set_len; lia)
                   | rewrite cr_set_cr_ne by lia ]; reflexivity.
  - rewrite !cr_set_cr_ne by lia. done.
Qed.

Lemma lxor28 n : 0 <= n < 8 -> (n * 4) .^ 0x1c = 28 - n * 4.
Proof.
  intros Hn. assert (n = 0 \/ n = 1 \/ n = 2 \/ n = 3 \/ n = 4 \/ n = 5 \/ n = 6 \/ n = 7) as H by lia.
  repeat destruct H as [->|H]; [reflexivity..|]. subst. reflexivity.
Qed.

Lemma is_bit_get_s_table v k : 0 <= k < 4 -> get (Interp.s_table v) k = b2z (Z.testbit v (3 - k)).
Proof.
  intros Hk. assert (k = 0 \/ k = 1 \/ k = 2 \/ k = 3) as [->|[->|[->| ->]]] by lia; reflexivity.
Qed.

(** The nibble of [s] that belongs to field [n]. *)
Lemma nibble_bit s n i : 0 <= n < 8 -> 0 <= i < 32 -> i / 4 = n ->
  get (Interp.s_table (Z.shiftr s ((n * 4) .^ 0x1c) .& 0xf)) (i mod 4) = b2z (Z.testbit s (31 - i)).
Proof.
  intros Hn Hi E. pose proof (Z.div_mod i 4 ltac:(lia)). pose proof (Z.mod_pos_bound i 4 ltac:(lia)).
  rewrite is_bit_get_s_table, lxor28 by lia. f_equal. change 0xf with (Z.ones 4).
  rewrite Z.land_spec, testbit_ones, testbit_shiftr by lia.
  destruct (Z.ltb_spec (3 - i mod 4) 4); [|lia]. rewrite andb_true_r. f_equal. lia.
Qed.

Lemma crm_bit crm n : 0 <= n < 8 -> negb (crm .& Z.shiftr 128 n =? 0) = Z.testbit crm (7 - n).
Proof.
  intros Hn. replace (Z.shiftr 128 n) with (2 ^ (7 - n)).
  - rewrite land_pow2, negb_involutive by lia. done.
  - change 128 with (2 ^ 7). rewrite Z.shiftr_div_pow2 by lia. rewrite <- Z.pow_sub_r by lia. done.
Qed.

(** CR bit [i] after moving the selected nibbles of [s] to the condition register. *)
Definition crf_bit (crm s old i : Z) : Z :=
  if Z.testbit crm (7 - i / 4) then b2z (Z.testbit s (31 - i)) else old.

Lemma mtcrf_loop crm s l p i : wf p -> Forall (fun n => 0 <= n < 8) l -> 0 <= i < 32 ->
  (foldl (fun ppu n => if negb (crm .& Z.shiftr 128 n =? 0)
     then set_cr_field n (Interp.s_table (Z.shiftr s ((n * 4) .^ 0x1c) .& 0xf)) ppu else ppu)
     p l).cr[i] =
  if existsb (Z.eqb (i / 4)) l then crf_bit crm s p.cr[i] i else p.cr[i].
Proof.
  intros Hp Hl Hi. revert p Hp. induction Hl as [|n l Hn Hl IH]; intros p Hp; [done|].
  cbn [foldl existsb]. rewrite crm_bit by done. destruct (Z.testbit crm (7 - n)) eqn:Hc.
  - rewrite IH by (apply wf_set_cr_field; [done|apply s_table_is_bit]).
    rewrite get_set_cr_field by done. unfold crf_bit. destruct (Z.eqb_spec (i / 4) n) as [E|].
    + rewrite nibble_bit, E, Hc by done. cbn [orb]. case (existsb (Z.eqb n) l); reflexivity.
    + done.
  - rewrite IH by done. destruct (Z.eqb_spec (i / 4) n) as [E|]; [|done].
    cbn [orb]. unfold crf_bit. rewrite E, Hc. case (existsb (Z.eqb n) l); reflexivity.
Qed.

Lemma crm_onehot crm n : 0 <= n < 8 -> crm = 2 ^ (7 - n) -> countl_zero 32 crm .& 7 = n.
Proof.
  intros Hn ->. assert (n = 0 \/ n = 1 \/ n = 2 \/ n = 3 \/ n = 4 \/ n = 5 \/ n = 6 \/ n = 7) as H by lia.
  repeat destruct H as [->|H]; [reflexivity..|]. subst. reflexivity.
Qed.

Lemma MTOCRF_bit op p i : wf p -> 0 <= i < 32 ->
  (op.[f_l11] = 0 \/ exists n, 0 <= n < 8 /\ op.[f_crm] = 2 ^ (7 - n)) ->
  (Interp.MTOCRF op p).cr[i] = crf_bit op.[f_crm] p.gpr[op.[f_rs]] p.cr[i] i.
Proof.
  intros Hp Hi Hop. assert (0 <= i / 4 < 8) as Hq
    by (split; [apply Z.div_pos; lia|apply Z.div_lt_upper_bound; lia]).
  unfold Interp.MTOCRF. destruct (Z.eqb_spec op.[f_l11] 0) as [E|E]; cbn [negb].
  - rewrite mtcrf_loop; [|done|repeat constructor; lia|done].
    assert (existsb (Z.eqb (i / 4)) [0; 1; 2; 3; 4; 5; 6; 7] = true) as ->; [|done].
    apply existsb_exists. exists (i / 4). split; [|apply Z.eqb_refl]. simpl. lia.
  - destruct Hop as [|(n & Hn & Hc)]; [done|]. rewrite (crm_onehot op.[f_crm] n Hn Hc).
    rewrite get_set_cr_field by done. unfold crf_bit. rewrite Hc, Z.pow2_bits_eqb by lia.
    destruct (Z.eqb_spec (i / 4) n), (Z.eqb_spec (7 - n) (7 - i / 4)); try lia.
    by apply nibble_bit.
Qed.

(** [MTCRF]/[MTOCRF] followed by [MFCR] reads back, in every field selected by the
    field mask, the bits of the source register, and in every other field the old CR. *)
Theorem mtcrf_mfcr op op2 p i : wf p -> 0 <= i < 32 ->
  (op.[f_l11] = 0 \/ exists n, 0 <= n < 8 /\ op.[f_crm] = 2 ^ (7 - n)) ->
  let d := (Interp.MFCR op2 (Interp.MTOCRF op p)).gpr[op2.[f_rd]] in
  in_u 32 d /\
  Z.testbit d (31 - i) =
    if Z.testbit op.[f_crm] (7 - i / 4) then Z.testbit p.gpr[op.[f_rs]] (31 - i)
    else Z.testbit (pack (cr p)) (31 - i).
Proof.
  intros Hp Hi Hop d. assert (wf (Interp.MTOCRF op p)) as Hq by by apply wf_MTOCRF.
  assert (d = pack (cr (Interp.MTOCRF op p))) as ->
    by exact (gpr_set_gpr_eq _ _ _ Hq (five_bits_range f_rd op2 eq_refl)).
  split; [by apply pack_in_u|]. rewrite !testbit_cr_word, MTOCRF_bit by done. unfold crf_bit.
  destruct (Z.testbit op.[f_crm] _); [|done]. by destruct (Z.testbit _ (31 - i)).
Qed.

Lemma mtcrf_mfcr_witness :
  let p := set_gpr 3 0xa5a5a5a5 ppu_init in
  in_u 32 (Interp.MFCR 0x7c800026 (Interp.MTOCRF 0x7c6ff120 p)).gpr[0x7c800026.[f_rd]].
Proof.
  intros p. assert (wf p) as Hp.
  { apply wf_set_gpr; [apply wf_ppu_init|unfold in_u; lia]. }
  exact (proj1 (mtcrf_mfcr 0x7c6ff120 0x7c800026 p 0 Hp ltac:(lia) (or_introl eq_refl))).
Defined.

(** *** Equivalence of the two branches of [MFCR] *)

Lemma odd_is_bit b : is_bit b -> b2z (Z.odd b) = b.
Proof. intros Hb. assert (b = 0 \/ b = 1) as [-> | ->] by (unfold is_bit in Hb; lia); done. Qed.

Lemma movemask_range l : 0 <= Interp.movemask l.
Proof.
  induction l as [|b l IH]; [done|]. cbn [Interp.movemask foldr]. apply Z.lor_nonneg.
  split; [destruct (Z.odd b); simpl; lia|by apply Z.shiftl_nonneg].
Qed.

Lemma testbit_movemask l j : 0 <= j ->
  Z.testbit (Interp.movemask l) j = (j <? Z.of_nat (length l)) && Z.odd (get l j).
Proof.
  revert j. induction l as [|b l IH]; intros j Hj.
  { cbn [Interp.movemask foldr length]. rewrite Z.bits_0. case_cmp; done || lia. }
  change (Interp.movemask (b :: l)) with
    (Z.lor (b2z (Z.odd b)) (Z.shiftl (Interp.movemask l) 1)).
  rewrite Z.lor_comm, testbit_lor_bit by (apply movemask_range || apply is_bit_b2z || done).
  cbn [length]. destruct (Z.eqb_spec j 0) as [->|Hj0].
  - change (get (b :: l) 0) with b.
    destruct (Z.ltb_spec 0 (Z.of_nat (S (length l)))); [|lia]. by destruct (Z.odd b).
  - rewrite IH by lia. unfold get. replace (Z.to_nat j) with (S (Z.to_nat (j - 1))) by lia.
    cbn [nth]. f_equal. case_cmp; done || lia.
Qed.

Lemma get_reverse l j : 0 <= j < Z.of_nat (length l) ->
  get (reverse l) j = get l (Z.of_nat (length l) - 1 - j).
Proof.
  intros Hj. unfold get. rewrite !nth_lookup, reverse_lookup by lia. do 2 f_equal. lia.
Qed.

Lemma mfcr_lanes p : wf p ->
  u32 (Z.shiftl (Interp.movemask (reverse (take 16 (cr p)))) 16) .|
  Interp.movemask (reverse (drop 16 (cr p))) = pack (cr p).
Proof.
  intros Hp. pose proof (wf_cr_len p Hp) as Hl.
  set (hi := reverse (take 16 (cr p))). set (lo := reverse (drop 16 (cr p))).
  assert (length hi = 16%nat) as Lh by (subst hi; rewrite length_reverse, length_take; lia).
  assert (length lo = 16%nat) as Ll by (subst lo; rewrite length_reverse, length_drop; lia).
  assert (forall j, 0 <= j < 32 -> Z.testbit (pack (cr p)) j = Z.odd p.cr[31 - j]) as Hb.
  { intros j Hj. replace j with (31 - (31 - j)) at 1 by lia. rewrite testbit_cr_word by lia || done.
    pose proof (cr_is_bit p (31 - j) Hp) as H. unfold is_bit in H.
    assert (p.cr[31 - j] = 0 \/ p.cr[31 - j] = 1) as [-> | ->] by lia; done. }
  apply (bits_inj_u 32); [lia| |by apply pack_in_u|].
  { apply lor_in_u; [lia|apply wrap_in_u; lia|]. apply in_u_bits; [lia|apply movemask_range|].
    intros i Hi. rewrite testbit_movemask, Ll by lia. case_cmp; done || lia. }
  intros j Hj. rewrite Hb, Z.lor_spec, testbit_wrap, testbit_shiftl, (testbit_movemask lo), Ll by lia.
  destruct (Z.ltb_spec j 32); [|lia]. cbn [andb].
  destruct (Z.leb_spec 16 j), (Z.ltb_spec j (Z.of_nat 16)); try lia; cbn [andb orb].
  - rewrite testbit_movemask, Lh, orb_false_r by lia.
    destruct (Z.ltb_spec (j - 16) (Z.of_nat 16)); [|lia]. cbn [andb]. f_equal. subst hi.
    rewrite get_reverse by (rewrite length_take; lia). unfold get.
    rewrite !nth_lookup, lookup_take_lt by (rewrite length_take; lia). do 2 f_equal.
    rewrite length_take. lia.
  - f_equal. subst lo. rewrite get_reverse by (rewrite length_drop; lia). unfold get.
    rewrite !nth_lookup, lookup_drop. do 2 f_equal. rewrite length_drop. lia.
Qed.

(** The four bits of a field as a nibble. *)
Lemma testbit_nibble a b c d t : 0 <= t ->
  Z.testbit (Z.shiftl (b2z a) 3 .| Z.shiftl (b2z b) 2 .| Z.shiftl (b2z c) 1 .| Z.shiftl (b2z d) 0) t =
  (t =? 3) && a || (t =? 2) && b || (t =? 1) && c || (t =? 0) && d.
Proof.
  intros Ht. destruct (Z.leb_spec 4 t) as [H4|H4].
  - rewrite (testbit_high 4) by (done || (destruct a, b, c, d; vm_compute; split; congruence)).
    destruct (Z.eqb_spec t 3), (Z.eqb_spec t 2), (Z.eqb_spec t 1), (Z.eqb_spec t 0); done || lia.
  - assert (t = 0 \/ t = 1 \/ t = 2 \/ t = 3) as [->|[->|[->| ->]]] by lia;
      destruct a, b, c, d; reflexivity.
Qed.

(** Both build variants of [MFCR] (the byte lanes with [movemask] and the portable
    loop) store the same word, and [MFOCRF<N>] stores its field of that word. *)
Theorem mfcr_variants op p N : wf p -> 0 <= N < 8 ->
  Interp.MFCR_x64 op p = Interp.MFCR op p /\
  (Interp.MFOCRF N op p).gpr[op.[f_rd]] = pack (cr p) .& Z.shiftl 0xf (28 - 4 * N).
Proof.
  intros Hp HN. split.
  { unfold Interp.MFCR_x64, Interp.MFCR. by rewrite mfcr_lanes. }
  assert (forall k, 0 <= k < 32 -> p.cr[k] = b2z (Z.testbit (pack (cr p)) (31 - k))) as Hbit.
  { intros k Hk. rewrite testbit_cr_word by done. pose proof (cr_is_bit p k Hp) as H.
    unfold is_bit in H. assert (p.cr[k] = 0 \/ p.cr[k] = 1) as [-> | ->] by lia; done. }
  unfold Interp.MFOCRF. rewrite (gpr_set_gpr_eq _ _ _ Hp (five_bits_range f_rd op eq_refl)).
  rewrite lxor28, !Hbit by lia. pose proof (pack_in_u p Hp) as Hu. set (c := pack (cr p)) in *.
  apply (bits_inj_u 32); [lia|auto with word|by apply land_in_u_l|].
  intros j Hj. rewrite testbit_wrap, testbit_shiftl, Z.land_spec, testbit_shiftl by lia.
  change 0xf with (Z.ones 4). destruct (Z.ltb_spec j 32); [|lia]. cbn [andb].
  destruct (Z.leb_spec (28 - N * 4) j), (Z.leb_spec (28 - 4 * N) j); try lia; cbn [andb].
  rewrite testbit_nibble, testbit_ones by lia.
  set (t := j - (28 - N * 4)). replace (j - (28 - 4 * N)) with t by lia.
  destruct (Z.ltb_spec t 4); rewrite ?andb_true_r, ?andb_false_r.
  - assert (t = 0 \/ t = 1 \/ t = 2 \/ t = 3) as Ht by lia.
    destruct Ht as [Ht|[Ht|[Ht|Ht]]]; rewrite Ht; cbn [Z.eqb Pos.eqb andb orb];
      rewrite ?orb_false_r; f_equal; lia.
  - destruct (Z.eqb_spec t 3), (Z.eqb_spec t 2), (Z.eqb_spec t 1), (Z.eqb_spec t 0); done || lia.
Qed.

Lemma mfcr_variants_witness :
  let p := set_cr 5 1 ppu_init in
  (Interp.MFOCRF 1 0x7c700026 p).gpr[0x7c700026.[f_rd]] = 2 ^ 26.
Proof.
  intros p. assert (wf p) as Hp by (apply wf_set_cr; [apply wf_ppu_init|unfold is_bit; lia]).
  destruct (mfcr_variants 0x7c700026 p 1 Hp ltac:(lia)) as [_ H].
  refine (eq_trans H _). vm_compute. reflexivity.
Defined.

(** ** Special purpose registers *)

Lemma testbit_flag b k j : 0 <= k -> 0 <= j ->
  Z.testbit (Z.shiftl (b2z b) k) j = (j =? k) && b.
Proof.
  intros Hk Hj. destruct b; cbn [b2z].
  - rewrite Z.shiftl_1_l, Z.pow2_bits_eqb, andb_true_r by lia. apply Z.eqb_sym.
  - by rewrite Z.shiftl_0_l, Z.bits_0, andb_false_r.
Qed.

(** The implemented bits of the XER: SO, OV, CA and the byte count. *)
Definition xer_mask : Z := 0xe000007f.

Lemma testbit_xer_mask j : 0 <= j ->
  Z.testbit xer_mask j = (j =? 31) || (j =? 30) || (j =? 29) || (j <? 7).
Proof.
  intros Hj. change xer_mask with
    (Z.shiftl (b2z true) 31 .| Z.shiftl (b2z true) 30 .| Z.shiftl (b2z true) 29 .| Z.ones 7).
  by rewrite !Z.lor_spec, !testbit_flag, testbit_ones, !andb_true_r by lia.
Qed.

Lemma xer_image_of v : in_u 64 v ->
  Interp.xer_image (Xer (negb (v .& 0x80000000 =? 0)) (negb (v .& 0x40000000 =? 0))
    (negb (v .& 0x20000000 =? 0)) (u8 (v .& 0x7f))) = v .& xer_mask.
Proof.
  intros Hv. unfold Interp.xer_image. cbn [so ov ca cnt].
  change 0x80000000 with (2 ^ 31). change 0x40000000 with (2 ^ 30). change 0x20000000 with (2 ^ 29).
  rewrite !land_pow2, !negb_involutive, (wrap_small 32) by
    (try lia; destruct (Z.testbit v 31); vm_compute; split; congruence).
  apply Z.bits_inj'. intros j Hj.
  rewrite !Z.lor_spec, !Z.land_spec, !testbit_flag, testbit_xer_mask, testbit_wrap by lia.
  change 0x7f with (Z.ones 7). rewrite Z.land_spec, testbit_ones by lia.
  destruct (Z.eqb_spec j 31) as [->|]; [by destruct (Z.testbit v 31)|].
  destruct (Z.eqb_spec j 30) as [->|]; [by destruct (Z.testbit v 30)|].
  destruct (Z.eqb_spec j 29) as [->|]; [by destruct (Z.testbit v 29)|]. cbn [andb orb].
  destruct (Z.ltb_spec j 8), (Z.ltb_spec j 7); try lia; cbn [andb];
    by rewrite ?andb_true_r, ?andb_false_r.
Qed.

(** What a special purpose register keeps of the value moved to it. *)
Definition spr_keeps (n v : Z) : option Z :=
  if n =? 0x001 then Some (v .& xer_mask)
  else if (n =? 0x008) || (n =? 0x009) then Some v
  else if n =? 0x100 then Some (u32 v) else None.

Lemma wf_MTSPR op p q : wf p -> Interp.MTSPR op p = inr q -> wf q.
Proof.
  intros Hp. pose proof (gpr_in_u p op.[f_rs] Hp) as Hv. unfold Interp.MTSPR.
  pose proof (land_const_nonneg p.gpr[op.[f_rs]] 0x7f ltac:(lia)).
  assert (in_u 7 (u8 (p.gpr[op.[f_rs]] .& 0x7f))) as H7.
  { change 0x7f with (Z.ones 7). rewrite Z.land_ones by lia.
    pose proof (wrap_in_u 7 p.gpr[op.[f_rs]] ltac:(lia)) as H7. unfold wrap in H7.
    rewrite wrap_small; [exact H7|by apply (in_u_mono 7); [lia|]]. }
  repeat case_match; intros [= <-]; destruct Hp; split; done || (simpl; auto with word).
Qed.

(** [MTSPR] then [MFSPR] of the same register returns what the register keeps (XER:
    its implemented bits; LR, CTR: all; VRSAVE: the low word), and both throw without
    changing the state for a register they do not know ([MFSPR] knows the time base too). *)
Theorem mtspr_mfspr tb op op2 p : wf p -> op2.[f_spr] = op.[f_spr] ->
  match spr_keeps (Interp.spr_index op) p.gpr[op.[f_rs]] with
  | Some v => exists q r, Interp.MTSPR op p = inr q /\ Interp.MFSPR tb op2 q = inr r /\
                          r.gpr[op2.[f_rd]] = v /\ gpr q = gpr p
  | None => Interp.MTSPR op p = inl (BadSpr op (Interp.spr_index op)) /\
            (Interp.spr_index op <> 0x10C -> Interp.spr_index op <> 0x10D ->
             Interp.MFSPR tb op2 p = inl (BadSpr op2 (Interp.spr_index op)))
  end.
Proof.
  intros Hp Hs. assert (Interp.spr_index op2 = Interp.spr_index op) as Hi
    by (unfold Interp.spr_index; by rewrite Hs).
  pose proof (five_bits_range f_rd op2 eq_refl) as Hrd.
  pose proof (fun q => wf_MTSPR op p q Hp) as Hwf.
  unfold spr_keeps, Interp.MTSPR, Interp.MFSPR in *. rewrite Hi.
  destruct (Z.eqb_spec (Interp.spr_index op) 0x001).
  { eexists _, _. split; [done|]. split; [done|]. split; [|done].
    rewrite gpr_set_gpr_eq by (done || by apply Hwf). cbn [xer with_xer].
    apply xer_image_of. by apply gpr_in_u. }
  destruct (Z.eqb_spec (Interp.spr_index op) 0x008); cbn [orb].
  { eexists _, _. do 2 (split; [done|]). split; [|done]. by rewrite gpr_set_gpr_eq by auto. }
  destruct (Z.eqb_spec (Interp.spr_index op) 0x009).
  { eexists _, _. do 2 (split; [done|]). split; [|done]. by rewrite gpr_set_gpr_eq by auto. }
  destruct (Z.eqb_spec (Interp.spr_index op) 0x100).
  { eexists _, _. do 2 (split; [done|]). split; [|done]. by rewrite gpr_set_gpr_eq by auto. }
  split; [done|]. intros H1 H2. by repeat (rewrite (proj2 (Z.eqb_neq _ _)) by done).
Qed.

Lemma mtspr_mfspr_witness :
  exists q r, Interp.MTSPR 0x7c6103a6 (set_gpr 3 0xffffffff ppu_init) = inr q /\
    Interp.MFSPR 0 0x7c8102a6 q = inr r /\ r.gpr[0x7c8102a6.[f_rd]] = 0xe000007f /\
    gpr q = gpr (set_gpr 3 0xffffffff ppu_init).
Proof.
  exact (mtspr_mfspr 0 0x7c6103a6 0x7c8102a6 (set_gpr 3 0xffffffff ppu_init)
    (wf_set_gpr 3 0xffffffff ppu_init wf_ppu_init ltac:(unfold in_u; lia)) eq_refl).
Defined.
