(* ===== verification/PpuMem.v ===== *)
(** Load and store instructions of the PPU interpreter (PPUInterpreter.cpp).

    Each handler is a computation of the monad [M] of PpuState: it can fail with the
    exception of [vm::cast] for an address above 4 GiB or with an access violation, in
    which case the effects made so far remain.  [uf] is the template flag
    [use_feed_data].  [STWCX], [STDCX], [LWARX], [LDARX] (reservations shared with
    other threads) and the floating-point and vector accesses are not modelled;
    [DCBZ] is the branch with [accurate_cache_line_stores] off (the default). *)

From Stdlib Require Import ZArith Lia Bool.
From stdpp Require Import base tactics option list numbers gmap.
From S2P Require Import Prelude BitField PpuOpcodes PpuState PpuInt.
Local Open Scope Z_scope.
Local Open Scope word_scope.

Module Mem.

(** ** Reading with reservation check *)

Definition lose_reservation : M () := modify (fun ppu => with_res ppu 0 0).

(** [ppu_feed_data<T>] with [sizeof(T) = n]; the result is the object representation. *)
Definition ppu_feed_data (uf : bool) (n : nat) (addr : Z) : M (list Z) :=
  a ← vm_cast addr;
  value ← vm_read a n;
  ppu ← get_ppu;
  if negb uf then mret value
  else if negb (use_full_rdata ppu) then mret value
  else
    let size := Z.of_nat n in
    let raddr := raddr ppu in
    if (raddr / 128 <? addr / 128) || ((addr + size - 1) / 128 <? raddr / 128)
    then mret value
    else if (size =? 1) || (addr / 128 =? (addr + size - 1) / 128) then
      if bool_decide (value = take n (drop (Z.to_nat (addr .& 127)) (rdata ppu)))
      then mret value
      else lose_reservation;; mret value
    else
      let '(src, sz, offs) :=
        if raddr / 128 =? addr / 128
        then (addr .& 127, Z.min (128 - addr mod 128) size, 0)
        else (0, (addr + size) mod 128, size - (addr + size) mod 128) in
      if bool_decide (take (Z.to_nat sz) (drop (Z.to_nat offs) value) =
                      take (Z.to_nat sz) (drop (Z.to_nat src) (rdata ppu)))
      then mret value
      else lose_reservation;; mret value.

(** ** Effective addresses *)

Definition ea_x (op : Z) (ppu : ppu_thread) : Z :=
  if negb (op.[f_ra] =? 0) then u64 (ppu.gpr[op.[f_ra]] + ppu.gpr[op.[f_rb]])
  else ppu.gpr[op.[f_rb]].
Definition ea_xu (op : Z) (ppu : ppu_thread) : Z :=
  u64 (ppu.gpr[op.[f_ra]] + ppu.gpr[op.[f_rb]]).
(** [op.ra || 1 ? gpr[op.ra] + op.simm16 : op.simm16], and the update forms. *)
Definition ea_d (op : Z) (ppu : ppu_thread) : Z :=
  u64 (ppu.gpr[op.[f_ra]] + op.[f_simm16]).
Definition ea_m (op : Z) (ppu : ppu_thread) : Z :=
  if negb (op.[f_ra] =? 0) then u64 (ppu.gpr[op.[f_ra]] + op.[f_simm16])
  else u64 op.[f_simm16].
Definition ea_ds (op : Z) (ppu : ppu_thread) : Z :=
  u64 ((op.[f_simm16] .& -4) + (if negb (op.[f_ra] =? 0) then ppu.gpr[op.[f_ra]] else 0)).
Definition ea_dsu (op : Z) (ppu : ppu_thread) : Z :=
  u64 (ppu.gpr[op.[f_ra]] + (op.[f_simm16] .& -4)).

Definition set_reg (r v : Z) : M () := modify (set_gpr r v).

(** A load of [n] bytes at [ea], converted by [conv]. *)
Definition load (uf : bool) (n : nat) (conv : list Z -> Z) (ea : Z -> ppu_thread -> Z)
    (op : Z) : M () :=
  addr ← gets (ea op);
  v ← ppu_feed_data uf n addr;
  set_reg op.[f_rd] (conv v).

Definition load_update (uf : bool) (n : nat) (conv : list Z -> Z) (ea : Z -> ppu_thread -> Z)
    (op : Z) : M () :=
  addr ← gets (ea op);
  v ← ppu_feed_data uf n addr;
  set_reg op.[f_rd] (conv v);;
  set_reg op.[f_ra] addr.

(** A store of the low [n] bytes of [gpr[op.rs]]. *)
Definition store (conv : Z -> list Z) (ea : Z -> ppu_thread -> Z) (op : Z) : M () :=
  addr ← gets (ea op);
  v ← gets (fun ppu => ppu.gpr[op.[f_rs]]);
  a ← vm_cast addr;
  vm_write a (conv v).

Definition store_update (conv : Z -> list Z) (ea : Z -> ppu_thread -> Z) (op : Z) : M () :=
  addr ← gets (ea op);
  v ← gets (fun ppu => ppu.gpr[op.[f_rs]]);
  a ← vm_cast addr;
  vm_write a (conv v);;
  set_reg op.[f_ra] addr.

(** Conversions of the loaded object: [be_t<uN>], [be_t<sN>], [le_t<uN>]. *)
Definition from_be (bs : list Z) : Z := be_value bs.
Definition from_be_s16 (bs : list Z) : Z := u64 (s16 (be_value bs)).
Definition from_be_s32 (bs : list Z) : Z := u64 (s32 (be_value bs)).
Definition from_le (bs : list Z) : Z := be_value (reverse bs).
(** Object representation of the stored value. *)
Definition to_be (n : nat) (v : Z) : list Z := be_bytes n v.
Definition to_le (n : nat) (v : Z) : list Z := reverse (be_bytes n v).

(** ** Indexed loads *)

Definition LDX (uf : bool) : Z -> M () := load uf 8 from_be ea_x.
Definition LWZX (uf : bool) : Z -> M () := load uf 4 from_be ea_x.
Definition LBZX (uf : bool) : Z -> M () := load uf 1 from_be ea_x.
Definition LHZX (uf : bool) : Z -> M () := load uf 2 from_be ea_x.
Definition LWAX (uf : bool) : Z -> M () := load uf 4 from_be_s32 ea_x.
Definition LHAX (uf : bool) : Z -> M () := load uf 2 from_be_s16 ea_x.
Definition LDUX (uf : bool) : Z -> M () := load_update uf 8 from_be ea_xu.
Definition LWZUX (uf : bool) : Z -> M () := load_update uf 4 from_be ea_xu.
Definition LBZUX (uf : bool) : Z -> M () := load_update uf 1 from_be ea_xu.
Definition LHZUX (uf : bool) : Z -> M () := load_update uf 2 from_be ea_x.
Definition LWAUX (uf : bool) : Z -> M () := load_update uf 4 from_be_s32 ea_x.
Definition LHAUX (uf : bool) : Z -> M () := load_update uf 2 from_be_s16 ea_x.
Definition LDBRX (uf : bool) : Z -> M () := load uf 8 from_le ea_x.
Definition LWBRX (uf : bool) : Z -> M () := load uf 4 from_le ea_x.
Definition LHBRX (uf : bool) : Z -> M () := load uf 2 from_le ea_x.

(** ** Indexed stores *)

Definition STDX : Z -> M () := store (to_be 8) ea_x.
Definition STWX : Z -> M () := store (to_be 4) ea_x.
Definition STHX : Z -> M () := store (to_be 2) ea_x.
Definition STBX : Z -> M () := store (to_be 1) ea_x.
Definition STDUX : Z -> M () := store_update (to_be 8) ea_xu.
Definition STWUX : Z -> M () := store_update (to_be 4) ea_xu.
Definition STHUX : Z -> M () := store_update (to_be 2) ea_xu.
Definition STBUX : Z -> M () := store_update (to_be 1) ea_xu.
Definition STDBRX : Z -> M () := store (to_le 8) ea_x.
Definition STWBRX : Z -> M () := store (to_le 4) ea_x.
Definition STHBRX : Z -> M () := store (to_le 2) ea_x.

(** ** Displacement forms *)

Definition LWZ (uf : bool) : Z -> M () := load uf 4 from_be ea_d.
Definition LBZ (uf : bool) : Z -> M () := load uf 1 from_be ea_d.
Definition LHZ (uf : bool) : Z -> M () := load uf 2 from_be ea_d.
Definition LHA (uf : bool) : Z -> M () := load uf 2 from_be_s16 ea_d.
Definition LWZU (uf : bool) : Z -> M () := load_update uf 4 from_be ea_d.
Definition LBZU (uf : bool) : Z -> M () := load_update uf 1 from_be ea_d.
Definition LHZU (uf : bool) : Z -> M () := load_update uf 2 from_be ea_d.
Definition LHAU (uf : bool) : Z -> M () := load_update uf 2 from_be_s16 ea_d.
Definition LD (uf : bool) : Z -> M () := load uf 8 from_be ea_ds.
Definition LWA (uf : bool) : Z -> M () := load uf 4 from_be_s32 ea_ds.
Definition LDU (uf : bool) : Z -> M () := load_update uf 8 from_be ea_dsu.

(** [STW] also updates the reservation of the line for one value. *)
Definition STW (op : Z) : M () :=
  addr ← gets (ea_d op);
  v ← gets (fun ppu => u32 ppu.gpr[op.[f_rs]]);
  a ← vm_cast addr;
  vm_write a (to_be 4 v);;
  (if v =? 0xAAAAAAAA then a ← vm_cast addr; reservation_update a else mret ()).
Definition STB : Z -> M () := store (to_be 1) ea_d.
Definition STH : Z -> M () := store (to_be 2) ea_d.
Definition STD : Z -> M () := store (to_be 8) ea_ds.
Definition STWU : Z -> M () := store_update (to_be 4) ea_d.
Definition STBU : Z -> M () := store_update (to_be 1) ea_d.
Definition STHU : Z -> M () := store_update (to_be 2) ea_d.
Definition STDU : Z -> M () := store_update (to_be 8) ea_dsu.

(** ** Multiple and string forms *)

(** [for (u32 i = first; i < 32; ++i, addr += 4)]; [k] iterations are left. *)
Fixpoint lmw_loop (uf : bool) (k : nat) (i addr : Z) : M () :=
  match k with
  | O => mret ()
  | S k =>
      v ← ppu_feed_data uf 4 addr;
      set_reg i (from_be v);;
      lmw_loop uf k (i + 1) (u64 (addr + 4))
  end.

Definition LMW (uf : bool) (op : Z) : M () :=
  addr ← gets (ea_m op);
  lmw_loop uf (Z.to_nat (32 - op.[f_rd])) op.[f_rd] addr.

Fixpoint stmw_loop (k : nat) (i addr : Z) : M () :=
  match k with
  | O => mret ()
  | S k =>
      a ← vm_cast addr;
      v ← gets (fun ppu => ppu.gpr[i]);
      vm_write a (to_be 4 v);;
      stmw_loop k (i + 1) (u64 (addr + 4))
  end.

Definition STMW (op : Z) : M () :=
  addr ← gets (ea_m op);
  stmw_loop (Z.to_nat (32 - op.[f_rs])) op.[f_rs] addr.

(** [for (u32 byte = 0; byte < count; byte++)] of [LSWX]; returns [value]. *)
Fixpoint lswx_bytes (uf : bool) (k : nat) (byte addr value : Z) : M Z :=
  match k with
  | O => mret value
  | S k =>
      b ← ppu_feed_data uf 1 (u64 (addr + byte));
      lswx_bytes uf k (byte + 1) addr
        (value .| u32 (Z.shiftl (from_be b) ((3 .^ byte) * 8)))
  end.

(** [for (; count >= 4; count -= 4, addr += 4, op.rd = (op.rd + 1) & 31)]. *)
Fixpoint lswx_words (uf : bool) (k : nat) (rd addr : Z) : M (Z * Z) :=
  match k with
  | O => mret (rd, addr)
  | S k =>
      v ← ppu_feed_data uf 4 addr;
      set_reg rd (from_be v);;
      lswx_words uf k ((rd + 1) .& 31) (u64 (addr + 4))
  end.

Definition LSWX (uf : bool) (op : Z) : M () :=
  addr ← gets (ea_x op);
  count ← gets (fun ppu => cnt (xer ppu) .& 0x7f);
  '(rd, addr) ← lswx_words uf (Z.to_nat (count / 4)) op.[f_rd] addr;
  let count := count mod 4 in
  if negb (count =? 0) then
    value ← lswx_bytes uf (Z.to_nat count) 0 addr 0;
    set_reg rd value
  else mret ().

(** The inner loop of [LSWI]; returns [buf] and [addr]. *)
Fixpoint lswi_bytes (uf : bool) (n : nat) (i addr buf : Z) : M (Z * Z) :=
  match n with
  | O => mret (buf, addr)
  | S n =>
      b ← ppu_feed_data uf 1 addr;
      lswi_bytes uf n (i - 1) (u64 (addr + 1)) (buf .| u32 (Z.shiftl (from_be b) (i * 8)))
  end.

(** [while (N > 0)] of [LSWI]; every iteration lowers [N], so [fuel = N] is enough. *)
Fixpoint lswi_loop (uf : bool) (fuel : nat) (addr N reg : Z) : M () :=
  match fuel with
  | O => mret ()
  | S fuel =>
      if 0 <? N then
        if 3 <? N then
          v ← ppu_feed_data uf 4 addr;
          set_reg reg (from_be v);;
          lswi_loop uf fuel (u64 (addr + 4)) (N - 4) ((reg + 1) mod 32)
        else
          '(buf, addr) ← lswi_bytes uf (Z.to_nat N) 3 addr 0;
          set_reg reg buf;;
          lswi_loop uf fuel addr 0 ((reg + 1) mod 32)
      else mret ()
  end.

Definition ea_i (op : Z) (ppu : ppu_thread) : Z :=
  if negb (op.[f_ra] =? 0) then ppu.gpr[op.[f_ra]] else 0.

Definition string_count (op : Z) : Z := if negb (op.[f_rb] =? 0) then op.[f_rb] else 32.

Definition LSWI (uf : bool) (op : Z) : M () :=
  addr ← gets (ea_i op);
  let N := string_count op in
  lswi_loop uf (Z.to_nat N) addr N op.[f_rd].

Fixpoint stswx_bytes (k : nat) (byte addr value : Z) : M () :=
  match k with
  | O => mret ()
  | S k =>
      a ← vm_cast (u64 (addr + byte));
      vm_write a [u8 (Z.shiftr value ((3 .^ byte) * 8))];;
      stswx_bytes k (byte + 1) addr value
  end.

Fixpoint stswx_words (k : nat) (rs addr : Z) : M (Z * Z) :=
  match k with
  | O => mret (rs, addr)
  | S k =>
      a ← vm_cast addr;
      v ← gets (fun ppu => ppu.gpr[rs]);
      vm_write a (to_be 4 v);;
      stswx_words k ((rs + 1) .& 31) (u64 (addr + 4))
  end.

Definition STSWX (op : Z) : M () :=
  addr ← gets (ea_x op);
  count ← gets (fun ppu => cnt (xer ppu) .& 0x7f);
  '(rs, addr) ← stswx_words (Z.to_nat (count / 4)) op.[f_rs] addr;
  let count := count mod 4 in
  if negb (count =? 0) then
    value ← gets (fun ppu => u32 ppu.gpr[rs]);
    stswx_bytes (Z.to_nat count) 0 addr value
  else mret ().

Fixpoint stswi_bytes (n : nat) (addr buf : Z) : M Z :=
  match n with
  | O => mret addr
  | S n =>
      a ← vm_cast addr;
      vm_write a [Z.shiftr (0xFF000000 .& buf) 24];;
      stswi_bytes n (u64 (addr + 1)) (u32 (Z.shiftl buf 8))
  end.

Fixpoint stswi_loop (fuel : nat) (addr N reg : Z) : M () :=
  match fuel with
  | O => mret ()
  | S fuel =>
      if 0 <? N then
        if 3 <? N then
          a ← vm_cast addr;
          v ← gets (fun ppu => ppu.gpr[reg]);
          vm_write a (to_be 4 v);;
          stswi_loop fuel (u64 (addr + 4)) (N - 4) ((reg + 1) mod 32)
        else
          buf ← gets (fun ppu => u32 ppu.gpr[reg]);
          addr ← stswi_bytes (Z.to_nat N) addr buf;
          stswi_loop fuel addr 0 ((reg + 1) mod 32)
      else mret ()
  end.

Definition STSWI (op : Z) : M () :=
  addr ← gets (ea_i op);
  let N := string_count op in
  stswi_loop (Z.to_nat N) addr N op.[f_rd].

Definition DCBZ (op : Z) : M () :=
  addr ← gets (ea_x op);
  a ← vm_cast addr;
  vm_write (a .& bnot 32 127) (replicate 128 0).

(** ** Table of [ppu_interpreter_rt_base]: loads and stores *)

Definition memory (uf : bool) (i : itype) : option (Z -> M ()) :=
  match i with
  | Itype.LDX => Some (LDX uf) | Itype.LWZX => Some (LWZX uf) | Itype.LBZX => Some (LBZX uf)
  | Itype.LHZX => Some (LHZX uf) | Itype.LWAX => Some (LWAX uf) | Itype.LHAX => Some (LHAX uf)
  | Itype.LDUX => Some (LDUX uf) | Itype.LWZUX => Some (LWZUX uf)
  | Itype.LBZUX => Some (LBZUX uf) | Itype.LHZUX => Some (LHZUX uf)
  | Itype.LWAUX => Some (LWAUX uf) | Itype.LHAUX => Some (LHAUX uf)
  | Itype.LDBRX => Some (LDBRX uf) | Itype.LWBRX => Some (LWBRX uf)
  | Itype.LHBRX => Some (LHBRX uf)
  | Itype.STDX => Some STDX | Itype.STWX => Some STWX | Itype.STHX => Some STHX
  | Itype.STBX => Some STBX | Itype.STDUX => Some STDUX | Itype.STWUX => Some STWUX
  | Itype.STHUX => Some STHUX | Itype.STBUX => Some STBUX | Itype.STDBRX => Some STDBRX
  | Itype.STWBRX => Some STWBRX | Itype.STHBRX => Some STHBRX
  | Itype.LWZ => Some (LWZ uf) | Itype.LBZ => Some (LBZ uf) | Itype.LHZ => Some (LHZ uf)
  | Itype.LHA => Some (LHA uf) | Itype.LWZU => Some (LWZU uf) | Itype.LBZU => Some (LBZU uf)
  | Itype.LHZU => Some (LHZU uf) | Itype.LHAU => Some (LHAU uf) | Itype.LD => Some (LD uf)
  | Itype.LWA => Some (LWA uf) | Itype.LDU => Some (LDU uf)
  | Itype.STW => Some STW | Itype.STB => Some STB | Itype.STH => Some STH
  | Itype.STD => Some STD | Itype.STWU => Some STWU | Itype.STBU => Some STBU
  | Itype.STHU => Some STHU | Itype.STDU => Some STDU
  | Itype.LMW => Some (LMW uf) | Itype.STMW => Some STMW
  | Itype.LSWX => Some (LSWX uf) | Itype.LSWI => Some (LSWI uf)
  | Itype.STSWX => Some STSWX | Itype.STSWI => Some STSWI
  | Itype.DCBZ => Some DCBZ
  | _ => None
  end.

End Mem.
