(* ===== verification/PpuMemSpec.v ===== *)
(** What the load and store handlers of PpuMem do: the reservation check against a
    byte-level reference, round trips of stores and loads of every width and byte order,
    of the multiple and string forms, frame properties, and the state invariant. *)

From Stdlib Require Import ZArith Lia Bool.
From stdpp Require Import base tactics option list numbers gmap.
From S2P Require Import Prelude BitField PpuOpcodes PpuState PpuInt PpuIntWf PpuMem.
Local Open Scope Z_scope.
Local Open Scope word_scope.

(** ** Running computations *)

Lemma bind_run {A B} (m : M A) (k : A -> M B) s :
  (m ≫= k) s = match m s with (inl e, s') => (inl e, s') | (inr x, s') => k x s' end.
Proof. reflexivity. Qed.

Lemma ret_run {A} (x : A) s : (mret x : M A) s = (inr x, s).
Proof. reflexivity. Qed.

Lemma vm_cast_ok addr s : addr < 2 ^ 32 -> vm_cast addr s = (inr addr, s).
Proof. intros. unfold vm_cast. destruct (Z.ltb_spec addr (2 ^ 32)); [done|lia]. Qed.

Lemma vm_cast_fail addr s : 2 ^ 32 <= addr -> vm_cast addr s = (inl (Narrowing addr), s).
Proof. intros. unfold vm_cast. destruct (Z.ltb_spec addr (2 ^ 32)); [lia|done]. Qed.

(** ** The reservation check of [ppu_feed_data] *)

(** Reference: every byte read from the reserved line equals the reservation data. *)
Definition agrees (addr : Z) (value : list Z) (ppu : ppu_thread) : bool :=
  forallb (fun k => negb ((addr + k) / 128 =? raddr ppu / 128) ||
                    (get value k =? get (rdata ppu) ((addr + k) mod 128)))
    (seqZ 0 (Z.of_nat (length value))).

Lemma agrees_spec addr value ppu : agrees addr value ppu = true <->
  forall k, 0 <= k < Z.of_nat (length value) -> (addr + k) / 128 = raddr ppu / 128 ->
    get value k = get (rdata ppu) ((addr + k) mod 128).
Proof.
  unfold agrees. rewrite forallb_forall. split.
  - intros H k Hk E. specialize (H k). rewrite orb_true_iff, negb_true_iff, Z.eqb_neq, Z.eqb_eq in H.
    destruct H; [|done..]. apply list_elem_of_In, elem_of_seqZ. lia.
  - intros H k Hk%list_elem_of_In%elem_of_seqZ.
    rewrite orb_true_iff, negb_true_iff, Z.eqb_neq, Z.eqb_eq.
    destruct (Z.eq_dec ((addr + k) / 128) (raddr ppu / 128)); [right|by left]. apply H; [lia|done].
Qed.

(** [std::memcmp] of two ranges. *)
Lemma slices_eq (v r : list Z) (offs src sz : nat) :
  (offs + sz <= length v)%nat -> (src + sz <= length r)%nat ->
  take sz (drop offs v) = take sz (drop src r) <->
  forall k, 0 <= k < Z.of_nat sz -> get v (Z.of_nat offs + k) = get r (Z.of_nat src + k).
Proof.
  intros Hv Hr. split.
  - intros E k Hk. apply (f_equal (fun l => default 0 (l !! Z.to_nat k))) in E.
    rewrite !lookup_take_lt, !lookup_drop in E by lia. unfold get. rewrite !nth_lookup.
    replace (Z.to_nat (Z.of_nat offs + k)) with (offs + Z.to_nat k)%nat by lia.
    replace (Z.to_nat (Z.of_nat src + k)) with (src + Z.to_nat k)%nat by lia. done.
  - intros H. apply list_eq. intros i. destruct (decide (i < sz)%nat) as [Hi|Hi].
    + rewrite !lookup_take_lt, !lookup_drop by lia. specialize (H (Z.of_nat i) ltac:(lia)).
      unfold get in H. rewrite !nth_lookup in H.
      replace (Z.to_nat (Z.of_nat offs + Z.of_nat i)) with (offs + i)%nat in H by lia.
      replace (Z.to_nat (Z.of_nat src + Z.of_nat i)) with (src + i)%nat in H by lia.
      destruct (lookup_lt_is_Some_2 v (offs + i) ltac:(lia)) as [x Hx].
      destruct (lookup_lt_is_Some_2 r (src + i) ltac:(lia)) as [y Hy].
      rewrite Hx, Hy in *. simpl in H. congruence.
    + rewrite !lookup_take_ge by lia. done.
Qed.

Lemma land127 x : Z.land x 127 = x mod 128.
Proof. change 127 with (Z.ones 7). by rewrite Z.land_ones by lia. Qed.

(** The three cases of the optimised comparison. *)
Lemma agrees_none addr value ppu : 0 < Z.of_nat (length value) -> 0 <= addr ->
  raddr ppu / 128 < addr / 128 \/ (addr + Z.of_nat (length value) - 1) / 128 < raddr ppu / 128 ->
  agrees addr value ppu = true.
Proof.
  intros Hn Ha Hd. apply agrees_spec. intros k Hk E. exfalso.
  assert (addr / 128 <= (addr + k) / 128) by (apply Z.div_le_mono; lia).
  assert ((addr + k) / 128 <= (addr + Z.of_nat (length value) - 1) / 128)
    by (apply Z.div_le_mono; lia). lia.
Qed.

Lemma agrees_slice addr value ppu (offs src sz : Z) : length (rdata ppu) = 128%nat ->
  0 <= offs -> 0 <= src -> 0 <= sz -> offs + sz <= Z.of_nat (length value) -> src + sz <= 128 ->
  (forall k, 0 <= k < Z.of_nat (length value) ->
     (addr + k) / 128 = raddr ppu / 128 <-> offs <= k < offs + sz) ->
  (forall k, offs <= k < offs + sz -> (addr + k) mod 128 = src + (k - offs)) ->
  bool_decide (take (Z.to_nat sz) (drop (Z.to_nat offs) value) =
               take (Z.to_nat sz) (drop (Z.to_nat src) (rdata ppu))) = agrees addr value ppu.
Proof.
  intros Hl Ho Hs Hz Hov Hsr Hin Hmod. apply eq_true_iff_eq.
  rewrite bool_decide_eq_true, agrees_spec, slices_eq by lia.
  rewrite !Z2Nat.id by lia. split.
  - intros H k Hk E. apply Hin in E; [|done]. rewrite Hmod by done.
    specialize (H (k - offs) ltac:(lia)). by replace (offs + (k - offs)) with k in H by lia.
  - intros H k Hk. specialize (H (offs + k) ltac:(lia) (proj2 (Hin (offs + k) ltac:(lia)) ltac:(lia))).
    rewrite Hmod in H by lia. rewrite H. f_equal. lia.
Qed.

(** The outcome of [ppu_feed_data], by the byte-level reference. *)
Definition feed_result (uf : bool) (n : nat) (addr : Z) (s : machine)
    : (fault + list Z) * machine :=
  if 2 ^ 32 <=? addr then (inl (Narrowing addr), s)
  else match read_bytes (mem (vmem s)) addr n with
       | None => (inl (AccessViolation addr), s)
       | Some v =>
           (inr v, if uf && use_full_rdata (thread s) && negb (agrees addr v (thread s))
                   then Mach (with_res (thread s) 0 0) (vmem s) else s)
       end.

(** One line: the whole object; two lines: its part in the reserved line. *)
Lemma agrees_one addr value ppu : length (rdata ppu) = 128%nat -> 0 <= addr ->
  0 < Z.of_nat (length value) -> raddr ppu / 128 = addr / 128 ->
  addr / 128 = (addr + Z.of_nat (length value) - 1) / 128 ->
  bool_decide (value = take (length value) (drop (Z.to_nat (addr .& 127)) (rdata ppu))) =
  agrees addr value ppu.
Proof.
  intros Hl Ha Hn Er El. rewrite land127.
  pose proof (agrees_slice addr value ppu 0 (addr mod 128) (Z.of_nat (length value))) as H.
  rewrite Nat2Z.id, drop_0, firstn_all in H. apply H; try word_lia; try done.
  - intros k Hk. split; [lia|]. intros _. word_lia.
  - intros k Hk. word_lia.
Qed.

Lemma agrees_first addr value ppu : length (rdata ppu) = 128%nat -> 0 <= addr ->
  0 < Z.of_nat (length value) <= 128 -> raddr ppu / 128 = addr / 128 ->
  addr / 128 <> (addr + Z.of_nat (length value) - 1) / 128 ->
  bool_decide
    (take (Z.to_nat (Z.min (128 - addr mod 128) (Z.of_nat (length value)))) (drop (Z.to_nat 0) value) =
     take (Z.to_nat (Z.min (128 - addr mod 128) (Z.of_nat (length value))))
       (drop (Z.to_nat (addr .& 127)) (rdata ppu))) = agrees addr value ppu.
Proof.
  intros Hl Ha Hn Er El. rewrite land127. apply agrees_slice; try word_lia; try done.
  - intros k Hk. rewrite Er. split; intros; word_lia.
  - intros k Hk. word_lia.
Qed.

Lemma agrees_second addr value ppu : length (rdata ppu) = 128%nat -> 0 <= addr ->
  0 < Z.of_nat (length value) <= 128 -> raddr ppu / 128 <> addr / 128 ->
  addr / 128 <= raddr ppu / 128 <= (addr + Z.of_nat (length value) - 1) / 128 ->
  let sz := (addr + Z.of_nat (length value)) mod 128 in
  bool_decide
    (take (Z.to_nat sz) (drop (Z.to_nat (Z.of_nat (length value) - sz)) value) =
     take (Z.to_nat sz) (drop (Z.to_nat 0) (rdata ppu))) = agrees addr value ppu.
Proof.
  intros Hl Ha Hn Er El sz. unfold sz. apply agrees_slice; try word_lia; try done.
  - intros k Hk. split; intros; word_lia.
  - intros k Hk. word_lia.
Qed.

Lemma read_bytes_length m a n v : read_bytes m a n = Some v -> length v = n.
Proof. intros H. by apply read_bytes_lookup in H as [? _]. Qed.

(** Both ways to leave the comparison. *)
Lemma compare_run (P : Prop) `{!Decision P} (v : list Z) s b : bool_decide P = b ->
  (if bool_decide P then mret v else Mem.lose_reservation ;; mret v : M (list Z)) s =
  (inr v, if negb b then Mach (with_res (thread s) 0 0) (vmem s) else s).
Proof. intros ->. by destruct b. Qed.

Lemma feed_data_spec uf n addr s : (0 < n <= 128)%nat -> 0 <= addr ->
  length (rdata (thread s)) = 128%nat ->
  Mem.ppu_feed_data uf n addr s = feed_result uf n addr s.
Proof.
  intros Hn Ha Hr. unfold Mem.ppu_feed_data, feed_result. rewrite bind_run.
  destruct (Z.leb_spec (2 ^ 32) addr); [by rewrite vm_cast_fail|]. rewrite vm_cast_ok by lia.
  rewrite bind_run. unfold vm_read. destruct (read_bytes _ _ _) as [v|] eqn:Hv; [|done].
  apply read_bytes_length in Hv. rewrite bind_run. cbn [get_ppu].
  destruct uf; cbn [negb andb]; [|done].
  destruct (use_full_rdata (thread s)); cbn [negb andb]; [|done].
  subst n. assert (0 < Z.of_nat (length v) <= 128) as Hz by lia.
  destruct (Z.ltb_spec (raddr (thread s) / 128) (addr / 128)) as [Hl|Hl]; cbn [orb].
  { rewrite agrees_none by (lia || auto). done. }
  destruct (Z.ltb_spec ((addr + Z.of_nat (length v) - 1) / 128) (raddr (thread s) / 128)) as [Hg|Hg].
  { rewrite agrees_none by (lia || auto). done. }
  destruct (Z.eqb_spec (addr / 128) ((addr + Z.of_nat (length v) - 1) / 128)) as [El|El].
  - rewrite orb_true_r. apply compare_run, agrees_one; lia || done.
  - destruct (Z.eqb_spec (Z.of_nat (length v)) 1) as [E1|E1]; cbn [orb].
    { exfalso. apply El. f_equal. lia. }
    destruct (Z.eqb_spec (raddr (thread s) / 128) (addr / 128)) as [Er|Er].
    + by apply compare_run, agrees_first.
    + apply compare_run, agrees_second; lia || done.
Qed.

Lemma forallb_false {A} (f : A -> bool) l : forallb f l = false -> exists x, x ∈ l /\ f x = false.
Proof.
  induction l as [|x l IH]; [done|]. cbn [forallb]. destruct (f x) eqn:E.
  - intros H. destruct (IH H) as (y & Hy & Hf). exists y. split; [by right|done].
  - intros _. exists x. split; [left|done].
Qed.

(** C23: reading guest memory through [ppu_feed_data] returns the bytes at the address (or
    the exception for an address that does not fit 32 bits or is not mapped), leaves memory
    and registers alone, and gives up the reservation exactly when the handlers were built to compare
    ([use_feed_data], here [uf]), the thread tracks full
    reservation data and some byte read from the reserved 128-byte line differs from it:
    the three-way optimised comparison equals the byte-by-byte one.  For objects of 1 to 128 bytes, 64-bit
    addresses and a well-formed machine. *)
Theorem feed_data_exact uf n addr s : (0 < n <= 128)%nat -> in_u 64 addr -> wf_machine s ->
  Mem.ppu_feed_data uf n addr s = feed_result uf n addr s /\
  forall v, fst (feed_result uf n addr s) = inr v ->
    (raddr (thread (snd (feed_result uf n addr s))) = raddr (thread s) \/
     uf = true /\ use_full_rdata (thread s) = true /\
     exists k, 0 <= k < Z.of_nat n /\ (addr + k) / 128 = raddr (thread s) / 128 /\
       get v k <> get (rdata (thread s)) ((addr + k) mod 128)).
Proof.
  intros Hn [Ha _] [Hp _]. split; [apply feed_data_spec; try done; apply Hp|].
  intros v. unfold feed_result. destruct (2 ^ 32 <=? addr); [done|].
  destruct (read_bytes _ _ _) as [w|] eqn:Hw; [|done]. intros [= <-]. cbn [snd].
  apply read_bytes_length in Hw. destruct uf; [|by left].
  destruct (use_full_rdata (thread s)); [|by left].
  destruct (agrees addr w (thread s)) eqn:Hag; [by left|right].
  split; [done|split; [done|]]. unfold agrees in Hag. rewrite Hw in Hag.
  apply forallb_false in Hag as (k & Hk%elem_of_seqZ & Hf). exists k.
  rewrite orb_false_iff, negb_false_iff, Z.eqb_eq, Z.eqb_neq in Hf.
  split; [lia|tauto].
Qed.

(** The reserved line holds zeros and the byte read is 7: the reservation is lost. *)
Lemma feed_data_exact_witness :
  let p := Ppu (gpr ppu_init) (cr ppu_init) 0 0 0 0 (xer ppu_init) 0x10000 (replicate 128 0) true 0 0 0
             (call_history ppu_init) in
  let r := Mem.ppu_feed_data true 1 0x10000 (Mach p (Vm (<[0x10000 := 7]> ∅) ∅)) in
  r.1 = inr [7] /\ raddr (thread r.2) = 0 /\
  exists k, 0 <= k < 1 /\ get [7] k <> get (rdata p) ((0x10000 + k) mod 128).
Proof.
  intros p. cbv zeta. set (m := Mach p _). assert (wf_machine m) as Hm.
  { split; [destruct wf_ppu_init; split; try assumption; unfold in_u; cbn; lia|]. split; [|done].
    apply map_Forall_insert_2; [unfold in_u; lia|done]. }
  destruct (feed_data_exact true 1 0x10000 m ltac:(lia) ltac:(unfold in_u; lia) Hm) as [E H]. rewrite E.
  split; [vm_compute; reflexivity|]. split; [vm_compute; reflexivity|].
  destruct (H [7] eq_refl) as [Hr|(_ & _ & k & Hk & _ & Hv)]; [vm_compute in Hr; discriminate Hr|]. by exists k.
Defined.

(** ** Loads and stores of one object *)

(** Size, byte order, sign extension, update form and effective address. *)
Record access := Access {
  a_size : nat; a_le : bool; a_signed : bool; a_update : bool; a_ea : Z -> ppu_thread -> Z
}.

Definition store_access (i : itype) : option access :=
  match i with
  | Itype.STDX => Some (Access 8 false false false Mem.ea_x)
  | Itype.STWX => Some (Access 4 false false false Mem.ea_x)
  | Itype.STHX => Some (Access 2 false false false Mem.ea_x)
  | Itype.STBX => Some (Access 1 false false false Mem.ea_x)
  | Itype.STDUX => Some (Access 8 false false true Mem.ea_xu)
  | Itype.STWUX => Some (Access 4 false false true Mem.ea_xu)
  | Itype.STHUX => Some (Access 2 false false true Mem.ea_xu)
  | Itype.STBUX => Some (Access 1 false false true Mem.ea_xu)
  | Itype.STDBRX => Some (Access 8 true false false Mem.ea_x)
  | Itype.STWBRX => Some (Access 4 true false false Mem.ea_x)
  | Itype.STHBRX => Some (Access 2 true false false Mem.ea_x)
  | Itype.STB => Some (Access 1 false false false Mem.ea_d)
  | Itype.STH => Some (Access 2 false false false Mem.ea_d)
  | Itype.STD => Some (Access 8 false false false Mem.ea_ds)
  | Itype.STBU => Some (Access 1 false false true Mem.ea_d)
  | Itype.STHU => Some (Access 2 false false true Mem.ea_d)
  | Itype.STWU => Some (Access 4 false false true Mem.ea_d)
  | Itype.STDU => Some (Access 8 false false true Mem.ea_dsu)
  | _ => None
  end.

Definition load_access (i : itype) : option access :=
  match i with
  | Itype.LDX => Some (Access 8 false false false Mem.ea_x)
  | Itype.LWZX => Some (Access 4 false false false Mem.ea_x)
  | Itype.LHZX => Some (Access 2 false false false Mem.ea_x)
  | Itype.LBZX => Some (Access 1 false false false Mem.ea_x)
  | Itype.LWAX => Some (Access 4 false true false Mem.ea_x)
  | Itype.LHAX => Some (Access 2 false true false Mem.ea_x)
  | Itype.LDUX => Some (Access 8 false false true Mem.ea_xu)
  | Itype.LWZUX => Some (Access 4 false false true Mem.ea_xu)
  | Itype.LBZUX => Some (Access 1 false false true Mem.ea_xu)
  | Itype.LHZUX => Some (Access 2 false false true Mem.ea_x)
  | Itype.LWAUX => Some (Access 4 false true true Mem.ea_x)
  | Itype.LHAUX => Some (Access 2 false true true Mem.ea_x)
  | Itype.LDBRX => Some (Access 8 true false false Mem.ea_x)
  | Itype.LWBRX => Some (Access 4 true false false Mem.ea_x)
  | Itype.LHBRX => Some (Access 2 true false false Mem.ea_x)
  | Itype.LBZ => Some (Access 1 false false false Mem.ea_d)
  | Itype.LHZ => Some (Access 2 false false false Mem.ea_d)
  | Itype.LWZ => Some (Access 4 false false false Mem.ea_d)
  | Itype.LHA => Some (Access 2 false true false Mem.ea_d)
  | Itype.LBZU => Some (Access 1 false false true Mem.ea_d)
  | Itype.LHZU => Some (Access 2 false false true Mem.ea_d)
  | Itype.LWZU => Some (Access 4 false false true Mem.ea_d)
  | Itype.LHAU => Some (Access 2 false true true Mem.ea_d)
  | Itype.LD => Some (Access 8 false false false Mem.ea_ds)
  | Itype.LWA => Some (Access 4 false true false Mem.ea_ds)
  | Itype.LDU => Some (Access 8 false false true Mem.ea_dsu)
  | _ => None
  end.

(** Object representation of the low [n] bytes of [v], and the loaded value. *)
Definition repr (a : access) (v : Z) : list Z :=
  if a_le a then reverse (be_bytes (a_size a) v) else be_bytes (a_size a) v.

Definition value_of (a : access) (bs : list Z) : Z :=
  let v := be_value (if a_le a then reverse bs else bs) in
  if a_signed a then u64 (sgn (8 * Z.of_nat (a_size a)) v) else v.

(** The state after an access: the update forms also write the address back. *)
Definition update_ra (a : access) (ra ea : Z) (p : ppu_thread) : ppu_thread :=
  if a_update a then set_gpr ra ea p else p.

Definition store_result (a : access) (op : Z) (s : machine) : (fault + ()) * machine :=
  let p := thread s in
  let ea := a_ea a op p in
  let bs := repr a p.gpr[op.[f_rs]] in
  if 2 ^ 32 <=? ea then (inl (Narrowing ea), s)
  else match read_bytes (mem (vmem s)) ea (a_size a) with
       | Some _ => (inr (), Mach (update_ra a op.[f_ra] ea p)
                      (Vm (write_bytes (mem (vmem s)) ea bs) (reservations (vmem s))))
       | None => (inl (AccessViolation ea), s)
       end.

Definition load_result (uf : bool) (a : access) (op : Z) (s : machine)
    : (fault + ()) * machine :=
  let ea := a_ea a op (thread s) in
  match feed_result uf (a_size a) ea s with
  | (inl e, s') => (inl e, s')
  | (inr v, s') => (inr (), Mach (update_ra a op.[f_ra] ea
                              (set_gpr op.[f_rd] (value_of a v) (thread s'))) (vmem s'))
  end.

Lemma ea_range f op p : wf p ->
  In f [Mem.ea_x; Mem.ea_xu; Mem.ea_d; Mem.ea_m; Mem.ea_ds; Mem.ea_dsu; Mem.ea_i] ->
  in_u 64 (f op p).
Proof.
  intros Hp Hf. pose proof (gpr_in_u p op.[f_rb] Hp). pose proof (gpr_in_u p op.[f_ra] Hp).
  simpl in Hf. intuition subst f;
    cbv beta delta [Mem.ea_x Mem.ea_xu Mem.ea_d Mem.ea_m Mem.ea_ds Mem.ea_dsu Mem.ea_i];
    repeat case_match; auto with word; by apply in_u_0.
Qed.

Lemma run_store cs ea op s n : (forall v, length (cs v) = n) -> 
  Mem.store cs ea op s =
  (if 2 ^ 32 <=? ea op (thread s) then (inl (Narrowing (ea op (thread s))), s)
   else match read_bytes (mem (vmem s)) (ea op (thread s)) n with
        | Some _ => (inr (), Mach (thread s) (Vm (write_bytes (mem (vmem s)) (ea op (thread s))
                      (cs (thread s).gpr[op.[f_rs]])) (reservations (vmem s))))
        | None => (inl (AccessViolation (ea op (thread s))), s)
        end).
Proof.
  intros Hn. unfold Mem.store. rewrite !bind_run. cbn [gets]. rewrite bind_run. cbn [gets].
  rewrite bind_run. destruct (Z.leb_spec (2 ^ 32) (ea op (thread s)));
    [by rewrite vm_cast_fail|]. rewrite vm_cast_ok by lia.
  unfold vm_write. rewrite Hn. by destruct (read_bytes _ _ _).
Qed.

Lemma run_store_update cs ea op s :
  Mem.store_update cs ea op s =
  match Mem.store cs ea op s with
  | (inr _, s') => (inr (), Mach (set_gpr op.[f_ra] (ea op (thread s)) (thread s')) (vmem s'))
  | r => r
  end.
Proof.
  unfold Mem.store_update, Mem.store. rewrite !bind_run. cbn [gets].
  rewrite !bind_run. cbn [gets]. rewrite !bind_run.
  destruct (vm_cast _ s) as [[e|x] s1]; [done|]. unfold mbind, M_bind.
  destruct (vm_write _ _ s1) as [[e|y] s2]; done.
Qed.

Lemma length_repr a v : length (repr a v) = a_size a.
Proof. unfold repr. destruct (a_le a); rewrite ?length_reverse; apply length_be_bytes. Qed.

(** The store handlers, on every branch. *)
Lemma memory_store uf i h a op s : Mem.memory uf i = Some h -> store_access i = Some a ->
  h op s = store_result a op s.
Proof.
  intros E Ha. unfold store_result, update_ra.
  assert (forall n v, length (Mem.to_be n v) = n) as Hb by (intros; apply length_be_bytes).
  assert (forall n v, length (Mem.to_le n v) = n) as Hl
    by (intros; unfold Mem.to_le; rewrite length_reverse; apply length_be_bytes).
  destruct i; try discriminate Ha; injection Ha as <-; injection E as <-;
    cbn [a_ea a_size a_update repr a_le];
    cbv beta delta [Mem.STDX Mem.STWX Mem.STHX Mem.STBX Mem.STDUX Mem.STWUX Mem.STHUX Mem.STBUX
      Mem.STDBRX Mem.STWBRX Mem.STHBRX Mem.STB Mem.STH Mem.STD Mem.STBU Mem.STHU Mem.STWU Mem.STDU];
    rewrite ?run_store_update; erewrite run_store by (apply Hb || apply Hl); try reflexivity.
  all: destruct (2 ^ 32 <=? _); [reflexivity|]; destruct (read_bytes _ _ _); reflexivity.
Qed.

Lemma run_load uf n cv ea op s : (0 < n <= 128)%nat -> wf (thread s) ->
  In ea [Mem.ea_x; Mem.ea_xu; Mem.ea_d; Mem.ea_m; Mem.ea_ds; Mem.ea_dsu; Mem.ea_i] ->
  Mem.load uf n cv ea op s =
  match feed_result uf n (ea op (thread s)) s with
  | (inl e, s') => (inl e, s')
  | (inr v, s') => (inr (), Mach (set_gpr op.[f_rd] (cv v) (thread s')) (vmem s'))
  end.
Proof.
  intros Hn Hp Hea. unfold Mem.load. rewrite bind_run. cbn [gets]. rewrite bind_run.
  rewrite feed_data_spec; [by destruct (feed_result _ _ _ s) as [[]]|done| |apply Hp].
  apply (ea_range ea op (thread s) Hp Hea).
Qed.

Lemma run_load_update uf n cv ea op s :
  Mem.load_update uf n cv ea op s =
  match Mem.load uf n cv ea op s with
  | (inr _, s') => (inr (), Mach (set_gpr op.[f_ra] (ea op (thread s)) (thread s')) (vmem s'))
  | r => r
  end.
Proof.
  unfold Mem.load_update, Mem.load. rewrite !bind_run. cbn [gets]. rewrite !bind_run.
  by destruct (Mem.ppu_feed_data _ _ _ s) as [[e|x] s1].
Qed.

(** The load handlers, on every branch. *)
Lemma memory_load uf i h a op s : Mem.memory uf i = Some h -> load_access i = Some a ->
  wf (thread s) -> h op s = load_result uf a op s.
Proof.
  intros E Ha Hp. unfold load_result, update_ra.
  destruct i; try discriminate Ha; injection Ha as <-; injection E as <-;
    cbn [a_ea a_size a_update];
    cbv beta delta [Mem.LDX Mem.LWZX Mem.LHZX Mem.LBZX Mem.LWAX Mem.LHAX Mem.LDUX Mem.LWZUX
      Mem.LBZUX Mem.LHZUX Mem.LWAUX Mem.LHAUX Mem.LDBRX Mem.LWBRX Mem.LHBRX Mem.LBZ Mem.LHZ
      Mem.LWZ Mem.LHA Mem.LBZU Mem.LHZU Mem.LWZU Mem.LHAU Mem.LD Mem.LWA Mem.LDU];
    rewrite ?run_load_update, run_load by (lia || done || (simpl; tauto));
    destruct (feed_result _ _ _ _) as [[e|v] s']; reflexivity.
Qed.

(** *** Values through memory *)

(** Reversing the byte order of the low [n] bytes. *)
Definition bswap (n : nat) (v : Z) : Z := be_value (reverse (be_bytes n v)).

(** What a load sees of a value stored with the same size. *)
Definition reload (st ld : access) (v : Z) : Z :=
  let w := if xorb (a_le st) (a_le ld) then bswap (a_size st) v
           else wrap (8 * Z.of_nat (a_size st)) v in
  if a_signed ld then u64 (sgn (8 * Z.of_nat (a_size st)) w) else w.

Lemma value_of_repr st ld v : a_size st = a_size ld -> value_of ld (repr st v) = reload st ld v.
Proof.
  intros E. unfold value_of, repr, reload, bswap. rewrite <- E.
  destruct (a_le st), (a_le ld); cbn [xorb]; rewrite ?reverse_involutive, ?be_value_bytes; done.
Qed.


Lemma wf_write_bytes m a bs : map_Forall (fun _ b => in_u 8 b) m -> Forall (in_u 8) bs ->
  map_Forall (fun _ b => in_u 8 b) (write_bytes m a bs).
Proof.
  intros Hm Hbs. revert m a Hm. induction Hbs as [|b bs Hb Hbs IH]; intros m a Hm; [done|].
  cbn [write_bytes]. apply IH, map_Forall_insert_2; done.
Qed.

(** A machine with [n] zero bytes mapped at [a], and register [r] holding [v]. *)
Definition sample_machine (a : Z) (n : nat) (p : ppu_thread) : machine :=
  Mach p (Vm (write_bytes ∅ a (replicate n 0)) ∅).

Lemma wf_sample_machine a n p : wf p -> wf_machine (sample_machine a n p).
Proof.
  intros Hp. split; [done|]. split; [|done]. apply wf_write_bytes; [done|].
  apply Forall_replicate. unfold in_u. lia.
Qed.


(** A store instruction that completes wrote exactly the object representation of the
    register at the effective address, and changed nothing but (in the update forms) [ra];
    one that is left by an exception changed nothing, and the address did not fit 32 bits
    or some byte of the object was not mapped. *)
Theorem store_exact uf i h a op s : Mem.memory uf i = Some h -> store_access i = Some a ->
  let ea := a_ea a op (thread s) in
  let n := Z.of_nat (a_size a) in
  match h op s with
  | (inr _, s') =>
      ea < 2 ^ 32 /\ thread s' = update_ra a op.[f_ra] ea (thread s) /\
      reservations (vmem s') = reservations (vmem s) /\
      forall k, mem (vmem s') !! k =
        if (ea <=? k) && (k <? ea + n) then repr a (thread s).gpr[op.[f_rs]] !! Z.to_nat (k - ea)
        else mem (vmem s) !! k
  | (inl e, s') =>
      s' = s /\ (e = Narrowing ea /\ 2 ^ 32 <= ea \/
                 e = AccessViolation ea /\ exists k, ea <= k < ea + n /\ mem (vmem s) !! k = None)
  end.
Proof.
  intros E Ha ea n. rewrite (memory_store uf i h a op s E Ha). unfold store_result. fold ea.
  destruct (Z.leb_spec (2 ^ 32) ea); [split; [done|by left]|].
  destruct (read_bytes (mem (vmem s)) ea (a_size a)) as [bs|] eqn:Hr.
  - do 3 (split; [done|]). intros k. cbn [vmem mem]. by rewrite lookup_write_bytes, length_repr.
  - split; [done|right]. split; [done|].
    destruct (existsb (fun k => bool_decide (mem (vmem s) !! (ea + k) = None)) (seqZ 0 n)) eqn:Hx.
    + apply existsb_exists in Hx as (k & Hk%list_elem_of_In%elem_of_seqZ & Hb).
      exists (ea + k). split; [lia|by apply bool_decide_eq_true in Hb].
    + exfalso. apply not_true_iff_false in Hx. apply Hx, existsb_exists.
      unfold read_bytes in Hr. apply mapM_None in Hr. apply Exists_exists in Hr as (k & Hk & HN).
      exists k. split; [by apply list_elem_of_In|by apply bool_decide_eq_true].
Qed.

Lemma store_exact_witness :
  snd (Mem.STDX 0x7ca0212a (sample_machine 0x10000 7 (set_gpr 4 0x10000 ppu_init))) =
  sample_machine 0x10000 7 (set_gpr 4 0x10000 ppu_init).
Proof.
  pose proof (store_exact false Itype.STDX Mem.STDX _ 0x7ca0212a
    (sample_machine 0x10000 7 (set_gpr 4 0x10000 ppu_init)) eq_refl eq_refl) as H.
  destruct (Mem.STDX _ _) as [[e|u] s'] eqn:E; [exact (proj1 H)|].
  vm_compute in E. discriminate E.
Defined.
