(* ===== verification/PpuString.v ===== *)
(** String and multiple load/store instructions.

    [LSWX], [LSWI], [LMW] are instances of one loop over a cyclic range of registers
    ([load_core]), [STSWX], [STSWI], [STMW] of [store_core]; the round trip is proved
    once for the cores. *)

From Stdlib Require Import ZArith Lia Bool.
From stdpp Require Import base tactics option list numbers gmap.
From S2P Require Import Prelude BitField PpuOpcodes PpuState PpuInt PpuIntWf PpuMem PpuMemSpec.
Local Open Scope Z_scope.
Local Open Scope word_scope.

(** ** The common core *)

Definition load_core (uf : bool) (N rd addr : Z) : M () :=
  '(rd, addr) ← Mem.lswx_words uf (Z.to_nat (N / 4)) rd addr;
  if negb (N mod 4 =? 0) then
    value ← Mem.lswx_bytes uf (Z.to_nat (N mod 4)) 0 addr 0;
    Mem.set_reg rd value
  else mret ().

Definition store_core (N rs addr : Z) : M () :=
  '(rs, addr) ← Mem.stswx_words (Z.to_nat (N / 4)) rs addr;
  if negb (N mod 4 =? 0) then
    value ← gets (fun ppu => u32 ppu.gpr[rs]);
    Mem.stswx_bytes (Z.to_nat (N mod 4)) 0 addr value
  else mret ().

Lemma bind_ext {A B} (m : M A) (k k' : A -> M B) s :
  (forall x s', k x s' = k' x s') -> (m ≫= k) s = (m ≫= k') s.
Proof. intros H. rewrite !bind_run. destruct (m s) as [[e|x] s']; [done|apply H]. Qed.

Lemma bind_assoc {A B C} (m : M A) (k : A -> M B) (l : B -> M C) s :
  ((m ≫= k) ≫= l) s = (m ≫= (fun x => k x ≫= l)) s.
Proof. rewrite !bind_run. by destruct (m s) as [[e|x] s']. Qed.

Lemma next_reg r : (r + 1) .& 31 = (r + 1) mod 32.
Proof. change 31 with (Z.ones 5). by rewrite Z.land_ones by lia. Qed.

(** ** The byte images *)

(** Bytes of the words in [k] registers from [r], cyclically. *)
Fixpoint reg_bytes (k : nat) (r : Z) (p : ppu_thread) : list Z :=
  match k with
  | O => []
  | S k => be_bytes 4 p.gpr[r] ++ reg_bytes k ((r + 1) .& 31) p
  end.

Definition has (m : gmap Z Z) (a : Z) (bs : list Z) : Prop :=
  read_bytes m a (length bs) = Some bs.

Lemma has_lookup m a bs : has m a bs <->
  forall i, (i < length bs)%nat -> m !! (a + Z.of_nat i) = bs !! i.
Proof. unfold has. rewrite read_bytes_lookup. naive_solver. Qed.

Lemma has_app m a l1 l2 : has m a (l1 ++ l2) <-> has m a l1 /\ has m (a + Z.of_nat (length l1)) l2.
Proof.
  rewrite !has_lookup, length_app. split.
  - intros H. split; intros i Hi.
    + rewrite H by lia. by apply lookup_app_l.
    + replace (a + Z.of_nat (length l1) + Z.of_nat i) with (a + Z.of_nat (length l1 + i)) by lia.
      rewrite H, lookup_app_r by lia. f_equal. lia.
  - intros [H1 H2] i Hi. destruct (decide (i < length l1)%nat).
    + rewrite H1, lookup_app_l by lia. done.
    + rewrite lookup_app_r by lia. rewrite <- H2 by lia. f_equal. lia.
Qed.

Lemma has_write m a bs : has (write_bytes m a bs) a bs.
Proof. apply read_write_bytes_eq. Qed.

Lemma write_bytes_app m a l1 l2 :
  write_bytes m a (l1 ++ l2) = write_bytes (write_bytes m a l1) (a + Z.of_nat (length l1)) l2.
Proof.
  revert m a. induction l1 as [|b l1 IH]; intros m a; cbn [app write_bytes length].
  - f_equal. lia.
  - rewrite IH. f_equal. lia.
Qed.

(** ** Stores *)

Lemma length_reg_bytes k r p : length (reg_bytes k r p) = (4 * k)%nat.
Proof.
  revert r. induction k; intros r; [done|]. cbn [reg_bytes]. rewrite length_app, length_be_bytes, IHk. lia.
Qed.

Fixpoint nth_reg (k : nat) (r : Z) : Z :=
  match k with O => r | S k => nth_reg k ((r + 1) .& 31) end.

Lemma nth_reg_mod k r : 0 <= r < 32 -> nth_reg k r = (r + Z.of_nat k) mod 32.
Proof.
  revert r. induction k; intros r Hr; cbn [nth_reg].
  - rewrite Z.add_0_r, Z.mod_small by lia. done.
  - rewrite IHk by (rewrite next_reg; apply Z.mod_pos_bound; lia).
    rewrite next_reg, Z.add_mod_idemp_l by lia. f_equal. lia.
Qed.

(** A completed word write. *)
Lemma vm_write_inv a bs s s' : vm_write a bs s = (inr (), s') ->
  s' = Mach (thread s) (Vm (write_bytes (mem (vmem s)) a bs) (reservations (vmem s))).
Proof. unfold vm_write. destruct (read_bytes _ _ _); [by intros [= <-]|done]. Qed.

Lemma bind_inv {A B} (m : M A) (k : A -> M B) s y s' : (m ≫= k) s = (inr y, s') ->
  exists x s1, m s = (inr x, s1) /\ k x s1 = (inr y, s').
Proof. rewrite bind_run. destruct (m s) as [[e|x] s1]; [done|eauto]. Qed.

Lemma vm_cast_inv a x s s' : vm_cast a s = (inr x, s') -> x = a /\ s' = s /\ a < 2 ^ 32.
Proof. unfold vm_cast. destruct (Z.ltb_spec a (2 ^ 32)); [by intros [= <- <-]|done]. Qed.

Lemma stswx_words_run k r addr s x s' : 0 <= addr ->
  Mem.stswx_words k r addr s = (inr x, s') ->
  x = (nth_reg k r, if decide (k = O) then addr else addr + 4 * Z.of_nat k) /\
  s' = Mach (thread s) (Vm (write_bytes (mem (vmem s)) addr (reg_bytes k r (thread s)))
         (reservations (vmem s))) /\
  (k <> O -> addr + 4 * Z.of_nat k - 4 < 2 ^ 32).
Proof.
  revert r addr s. induction k as [|k IH]; intros r addr s Ha H.
  { injection H as <- <-. split; [done|]. split; [by destruct s as [? []]|done]. }
  cbn [Mem.stswx_words] in H. apply bind_inv in H as (a & s1 & Hc & H).
  apply vm_cast_inv in Hc as (-> & -> & Hlt).
  apply bind_inv in H as (v & s1 & [= <- <-] & H).
  apply bind_inv in H as ([] & s1 & Hw%vm_write_inv & H). subst s1.
  rewrite wrap_small in H by (unfold in_u; lia).
  apply IH in H as (-> & -> & Hb); [|lia]. cbn [thread vmem mem reservations].
  split; [|split].
  - cbn [nth_reg]. destruct (decide (S k = O)); [done|]. destruct (decide (k = O)); f_equal; lia.
  - cbn [reg_bytes]. rewrite write_bytes_app, length_be_bytes. done.
  - intros _. destruct k; [lia|]. specialize (Hb ltac:(done)). lia.
Qed.

(** The bytes of an incomplete last word. *)
Fixpoint tail_bytes (t : nat) (byte value : Z) : list Z :=
  match t with
  | O => []
  | S t => u8 (Z.shiftr value ((3 .^ byte) * 8)) :: tail_bytes t (byte + 1) value
  end.

Lemma tail_bytes_take t v : (t < 4)%nat -> tail_bytes t 0 v = take t (be_bytes 4 v).
Proof.
  intros Ht. destruct t as [|[|[|[|t]]]]; try lia; cbn [tail_bytes be_bytes app take];
    change (3 .^ 0) with 3; change (3 .^ (0 + 1)) with 2; change (3 .^ (0 + 1 + 1)) with 1;
    by rewrite ?Z.shiftr_shiftr by lia.
Qed.

Lemma length_tail_bytes t byte v : length (tail_bytes t byte v) = t.
Proof. revert byte. induction t; intros; simpl; auto. Qed.

Lemma stswx_bytes_run t byte addr v s s' : in_u 64 addr -> 0 <= byte -> byte + Z.of_nat t <= 4 ->
  (byte = 0 \/ addr < 2 ^ 32) -> Mem.stswx_bytes t byte addr v s = (inr (), s') ->
  s' = Mach (thread s) (Vm (write_bytes (mem (vmem s)) (addr + byte) (tail_bytes t byte v))
         (reservations (vmem s))) /\ (t <> O -> addr + byte + Z.of_nat t <= 2 ^ 32).
Proof.
  intros Ha. revert byte s. induction t as [|t IH]; intros byte s Hb Ht Hlow H.
  { injection H as <-. split; [by destruct s as [? []]|done]. }
  cbn [Mem.stswx_bytes] in H. apply bind_inv in H as (a & s1 & Hc & H).
  apply vm_cast_inv in Hc as (-> & -> & Hlt).
  apply bind_inv in H as ([] & s1 & Hw%vm_write_inv & H). subst s1.
  assert (u64 (addr + byte) = addr + byte) as E.
  { apply wrap_small. unfold in_u in *. destruct Hlow as [->|]; lia. }
  rewrite E in *. apply IH in H as (-> & Hb'); [|lia|lia|lia].
  cbn [thread vmem mem reservations tail_bytes write_bytes]. split.
  - do 2 f_equal. f_equal. lia.
  - intros _. destruct t; [lia|]. specialize (Hb' ltac:(done)). lia.
Qed.

(** The image of [N] bytes of registers from [r]. *)
Definition string_image (N r : Z) (p : ppu_thread) : list Z :=
  reg_bytes (Z.to_nat (N / 4)) r p ++
  take (Z.to_nat (N mod 4)) (be_bytes 4 p.gpr[nth_reg (Z.to_nat (N / 4)) r]).

Lemma u8_shiftr_u32 v k : 0 <= k <= 24 -> u8 (Z.shiftr (u32 v) k) = u8 (Z.shiftr v k).
Proof.
  intros Hk. apply Z.bits_inj'. intros i Hi.
  rewrite !testbit_wrap, !testbit_shiftr, testbit_wrap by lia. case_cmp; done || lia.
Qed.

Lemma be_bytes_u32 v : be_bytes 4 (u32 v) = be_bytes 4 v.
Proof.
  cbn [be_bytes app]. rewrite !Z.shiftr_shiftr, !u8_shiftr_u32, wrap_wrap_le by lia. done.
Qed.

Lemma store_core_run N r addr s s' : 0 <= N -> in_u 64 addr ->
  store_core N r addr s = (inr (), s') ->
  s' = Mach (thread s) (Vm (write_bytes (mem (vmem s)) addr (string_image N r (thread s)))
         (reservations (vmem s))) /\ (N <> 0 -> addr < 2 ^ 32) /\
  (4 <= N -> addr + 4 * (N / 4) - 4 < 2 ^ 32) /\ (N mod 4 <> 0 -> addr + N <= 2 ^ 32).
Proof.
  intros HN Ha H. unfold store_core in H. apply bind_inv in H as ([r' a'] & s1 & Hw & H).
  pose proof (Z.div_mod N 4 ltac:(lia)). pose proof (Z.mod_pos_bound N 4 ltac:(lia)).
  assert (0 <= N / 4) by (apply Z.div_pos; lia). set (k := Z.to_nat (N / 4)) in *.
  apply stswx_words_run in Hw as ([= -> ->] & -> & Hb); [|apply Ha]. unfold string_image. fold k.
  assert ((if decide (k = O) then addr else addr + 4 * Z.of_nat k) = addr + 4 * (N / 4)) as Ea
    by (destruct (decide (k = O)); lia). rewrite Ea in H.
  destruct (Z.eqb_spec (N mod 4) 0) as [Ez|Ez]; cbn [negb] in H.
  - injection H as <-. rewrite Ez. cbn [take Z.to_nat]. rewrite app_nil_r.
    split; [done|]. split; [|split; lia]. intros. assert (k <> O) by lia. specialize (Hb ltac:(done)). lia.
  - apply bind_inv in H as (v & s1 & [= <- <-] & H).
    assert (in_u 64 (addr + 4 * (N / 4))) as Ha'.
    { unfold in_u in *. destruct (decide (k = O)); [lia|]. specialize (Hb ltac:(done)). lia. }
    apply stswx_bytes_run in H as (-> & Ht); [|done|lia|lia|by left].
    cbn [thread vmem mem reservations]. rewrite tail_bytes_take, be_bytes_u32 by lia.
    rewrite write_bytes_app, length_reg_bytes. specialize (Ht ltac:(lia)).
    split; [|split; [|split]]; [|intros; lia..].
    do 3 f_equal; lia.
Qed.

(** ** Loads *)

Lemma feed_ok uf n addr s v : (0 < n <= 128)%nat -> 0 <= addr < 2 ^ 32 ->
  length (rdata (thread s)) = 128%nat -> read_bytes (mem (vmem s)) addr n = Some v ->
  exists p', Mem.ppu_feed_data uf n addr s = (inr v, Mach p' (vmem s)) /\
    gpr p' = gpr (thread s) /\ rdata p' = rdata (thread s).
Proof.
  intros Hn Ha Hr Hv. rewrite feed_data_spec by (done || lia). unfold feed_result.
  destruct (Z.leb_spec (2 ^ 32) addr); [lia|]. rewrite Hv.
  destruct s as [p m]. destruct (_ && _); eexists; (split; [reflexivity|split; reflexivity]).
Qed.

(** The registers after loading the words of [k] registers of [q]. *)
Fixpoint set_words (k : nat) (r : Z) (q : ppu_thread) (l : list Z) : list Z :=
  match k with
  | O => l
  | S k => set_words k ((r + 1) .& 31) q (set l r (u32 q.gpr[r]))
  end.

Lemma lswx_words_run uf k r addr s q : 0 <= addr -> (k <> O -> addr + 4 * Z.of_nat k - 4 < 2 ^ 32) ->
  length (rdata (thread s)) = 128%nat -> has (mem (vmem s)) addr (reg_bytes k r q) ->
  exists p', Mem.lswx_words uf k r addr s =
      (inr (nth_reg k r, if decide (k = O) then addr else addr + 4 * Z.of_nat k), Mach p' (vmem s)) /\
    gpr p' = set_words k r q (gpr (thread s)) /\ rdata p' = rdata (thread s).
Proof.
  revert r addr s. induction k as [|k IH]; intros r addr s Ha Hb Hr Hm.
  { exists (thread s). by destruct s. }
  cbn [reg_bytes] in Hm. apply has_app in Hm as [Hw Hm]. unfold has in Hw.
  rewrite length_be_bytes in *. specialize (Hb ltac:(done)).
  destruct (feed_ok uf 4 addr s _ ltac:(lia) ltac:(lia) Hr Hw) as (p1 & Hf & Hg & Hd).
  cbn [Mem.lswx_words]. rewrite bind_run, Hf, bind_run. cbn [Mem.set_reg modify thread vmem].
  rewrite (wrap_small 64) by (unfold in_u; lia).
  destruct (IH ((r + 1) .& 31) (addr + 4)
    (Mach (set_gpr r (Mem.from_be (be_bytes 4 q.gpr[r])) p1) (vmem s))) as (p' & H & Hg' & Hd').
  - lia.
  - lia.
  - cbn [thread]. change (rdata (set_gpr _ _ p1)) with (rdata p1). by rewrite Hd.
  - done.
  - exists p'. rewrite H. split; [|split].
    + cbn [nth_reg vmem]. destruct (decide (S k = O)); [done|].
      destruct (decide (k = O)); do 3 f_equal; lia.
    + rewrite Hg'. cbn [set_words thread]. unfold Mem.from_be. rewrite be_value_bytes.
      cbn [gpr set_gpr with_gpr]. by rewrite Hg.
    + rewrite Hd'. cbn [thread]. change (rdata (set_gpr _ _ p1)) with (rdata p1). done.
Qed.

(** The accumulated value of an incomplete word. *)
Fixpoint acc_bytes (byte : Z) (bs : list Z) (value : Z) : Z :=
  match bs with
  | [] => value
  | b :: bs => acc_bytes (byte + 1) bs (value .| u32 (Z.shiftl b ((3 .^ byte) * 8)))
  end.

(** The first [t] bytes of a word, the others zero. *)
Definition top_bytes (t : Z) (v : Z) : Z := Z.shiftl (Z.shiftr (u32 v) (32 - 8 * t)) (32 - 8 * t).

Lemma testbit_byte_at v k j : 0 <= k <= 24 -> 0 <= j ->
  Z.testbit (u32 (Z.shiftl (u8 (Z.shiftr v k)) k)) j =
  (k <=? j) && (j <? k + 8) && Z.testbit v j.
Proof.
  intros Hk Hj. rewrite testbit_wrap, testbit_shiftl by lia.
  destruct (Z.leb_spec k j); cbn [andb]; [|by rewrite andb_false_r].
  rewrite testbit_wrap, testbit_shiftr by lia. replace (j - k + k) with j by lia.
  case_cmp; done || lia.
Qed.

Lemma acc_tail t v : (t < 4)%nat -> acc_bytes 0 (take t (be_bytes 4 v)) 0 = top_bytes (Z.of_nat t) v.
Proof.
  intros Ht. unfold top_bytes. apply Z.bits_inj'. intros j Hj.
  rewrite testbit_shiftl by lia.
  assert (forall w, 0 <= w <= 32 -> w <= j -> Z.testbit (Z.shiftr (u32 v) w) (j - w) =
    (j <? 32) && Z.testbit v j) as Hs.
  { intros w Hw Hle. rewrite testbit_shiftr, testbit_wrap by lia.
    by replace (j - w + w) with j by lia. }
  destruct t as [|[|[|[|t]]]]; try lia; cbn [be_bytes app take acc_bytes];
    change (3 .^ 0) with 3; change (3 .^ (0 + 1)) with 2; change (3 .^ (0 + 1 + 1)) with 1;
    rewrite ?Z.shiftr_shiftr, ?Z.lor_spec by lia;
    rewrite ?(testbit_byte_at v 24), ?(testbit_byte_at v 16), ?(testbit_byte_at v 8), Z.bits_0 by lia;
    match goal with |- _ = (?w <=? j) && _ => destruct (Z.leb_spec w j) as [Hle|Hgt] end; cbn [andb];
    rewrite ?Hs by lia; destruct (Z.testbit v j); case_cmp; done || lia.
Qed.

Lemma lswx_bytes_run uf bs byte addr value s : in_u 64 addr -> 0 <= byte ->
  (bs <> [] -> addr + byte + Z.of_nat (length bs) <= 2 ^ 32) -> Forall (in_u 8) bs ->
  length (rdata (thread s)) = 128%nat -> has (mem (vmem s)) (addr + byte) bs ->
  exists p', Mem.lswx_bytes uf (length bs) byte addr value s =
      (inr (acc_bytes byte bs value), Mach p' (vmem s)) /\
    gpr p' = gpr (thread s) /\ rdata p' = rdata (thread s).
Proof.
  intros Ha. revert byte value s. induction bs as [|b bs IH]; intros byte value s Hb Hu Hf Hr Hm.
  { exists (thread s). by destruct s. }
  specialize (Hu ltac:(done)). inversion Hf as [|? ? Hb8 Hf']; subst.
  change (b :: bs) with ([b] ++ bs) in Hm. apply has_app in Hm as [H1 Hm]. unfold has in H1.
  cbn [length] in *. unfold in_u in Ha.
  assert (u64 (addr + byte) = addr + byte) as E by (apply wrap_small; unfold in_u; lia).
  destruct (feed_ok uf 1 (addr + byte) s _ ltac:(lia) ltac:(lia) Hr H1) as (p1 & Hfd & Hg & Hd).
  cbn [Mem.lswx_bytes]. rewrite bind_run, E, Hfd.
  destruct (IH (byte + 1) (value .| u32 (Z.shiftl (Mem.from_be [b]) ((3 .^ byte) * 8)))
    (Mach p1 (vmem s))) as (p' & H & Hg' & Hd'); cbn [thread vmem] in *.
  - lia.
  - lia.
  - done.
  - by rewrite Hd.
  - eapply (eq_ind _ (fun a => has _ a _)); [exact Hm|lia].
  - exists p'. rewrite H. cbn [acc_bytes]. split; [|by rewrite Hg', Hd'].
    by replace (Mem.from_be [b]) with b by (unfold Mem.from_be, be_value; cbn; lia).
Qed.

(** The registers after loading the image of [N] bytes of [q]'s registers. *)
Definition loaded (N r : Z) (q : ppu_thread) (l : list Z) : list Z :=
  let k := Z.to_nat (N / 4) in
  if N mod 4 =? 0 then set_words k r q l
  else set (set_words k r q l) (nth_reg k r) (top_bytes (N mod 4) q.gpr[nth_reg k r]).

Lemma be_bytes_u8 n v : Forall (in_u 8) (be_bytes n v).
Proof.
  revert v. induction n; intros v; cbn [be_bytes]; [constructor|].
  apply List.Forall_app. split; [apply IHn|]. repeat constructor; apply wrap_in_u; lia.
Qed.

Lemma load_core_run uf N r addr s q : 0 <= N -> in_u 64 addr ->
  (4 <= N -> addr + 4 * (N / 4) - 4 < 2 ^ 32) -> (N mod 4 <> 0 -> addr + N <= 2 ^ 32) ->
  length (rdata (thread s)) = 128%nat -> has (mem (vmem s)) addr (string_image N r q) ->
  exists p', load_core uf N r addr s = (inr (), Mach p' (vmem s)) /\
    gpr p' = loaded N r q (gpr (thread s)).
Proof.
  intros HN Ha Hb1 Hb2 Hr Hm. unfold string_image in Hm. apply has_app in Hm as [Hw Ht].
  pose proof (Z.div_mod N 4 ltac:(lia)). pose proof (Z.mod_pos_bound N 4 ltac:(lia)).
  assert (0 <= N / 4) by (apply Z.div_pos; lia). rewrite length_reg_bytes in Ht.
  unfold load_core, loaded. set (k := Z.to_nat (N / 4)) in *. unfold in_u in Ha.
  destruct (lswx_words_run uf k r addr s q ltac:(lia) ltac:(lia) Hr Hw) as (p1 & Hrun & Hg & Hd).
  rewrite bind_run, Hrun.
  assert ((if decide (k = O) then addr else addr + 4 * Z.of_nat k) = addr + Z.of_nat (4 * k)) as ->
    by (destruct (decide (k = O)); lia).
  destruct (Z.eqb_spec (N mod 4) 0) as [Ez|Ez]; cbn [negb]; [by exists p1|].
  specialize (Hb2 Ez). set (t := Z.to_nat (N mod 4)) in *.
  set (bs := take t (be_bytes 4 q.gpr[nth_reg k r])) in *.
  assert (length bs = t) as El by (unfold bs; rewrite length_take, length_be_bytes; lia).
  destruct (lswx_bytes_run uf bs 0 (addr + Z.of_nat (4 * k)) 0 (Mach p1 (vmem s)))
    as (p2 & Hrun2 & Hg2 & _).
  - unfold in_u. lia.
  - lia.
  - rewrite El. lia.
  - apply Forall_take, be_bytes_u8.
  - cbn [thread]. by rewrite Hd.
  - by rewrite Z.add_0_r.
  - rewrite El in Hrun2. rewrite bind_run, Hrun2. eexists. split; [reflexivity|].
    cbn [thread gpr set_gpr with_gpr]. rewrite Hg2. cbn [thread]. rewrite Hg. unfold bs.
    rewrite acc_tail by lia. do 2 f_equal. lia.
Qed.

Lemma length_set_words k r q l : length (set_words k r q l) = length l.
Proof. revert r l. induction k; intros r l; [done|]. cbn [set_words]. by rewrite IHk, length_set. Qed.

Lemma get_set_words k r q l x : (k <= 32)%nat -> length l = 32%nat -> 0 <= r < 32 -> 0 <= x < 32 ->
  get (set_words k r q l) x =
  if (x - r) mod 32 <? Z.of_nat k then u32 q.gpr[x] else get l x.
Proof.
  revert r l. induction k as [|k IH]; intros r l Hk Hl Hr Hx; cbn [set_words].
  { destruct (Z.ltb_spec ((x - r) mod 32) (Z.of_nat 0)); [|done].
    pose proof (Z.mod_pos_bound (x - r) 32). lia. }
  rewrite next_reg, IH by (try rewrite length_set; try apply Z.mod_pos_bound; lia).
  assert ((x - (r + 1) mod 32) mod 32 = if x =? r then 31 else (x - r) mod 32 - 1) as ->.
  { rewrite Zminus_mod_idemp_r. pose proof (Z.mod_pos_bound (x - r) 32).
    pose proof (Z.div_mod (x - r) 32 ltac:(lia)). symmetry.
    destruct (Z.eqb_spec x r) as [->|].
    - replace (r - (r + 1)) with (-1) by lia. done.
    - apply Z.mod_unique_pos with ((x - r) / 32); lia. }
  destruct (Z.eqb_spec x r) as [->|Hne].
  - rewrite Z.sub_diag. change (0 mod 32) with 0. rewrite get_set_eq by lia.
    case_cmp; done || lia.
  - rewrite get_set_ne by lia. case_cmp; done || lia.
Qed.

Lemma top_bytes_4 v : top_bytes 4 v = u32 v.
Proof. unfold top_bytes. change (32 - 8 * 4) with 0. by rewrite Z.shiftr_0_r, Z.shiftl_0_r. Qed.

Lemma get_loaded N r q l x : 0 <= N <= 128 -> length l = 32%nat -> 0 <= r < 32 -> 0 <= x < 32 ->
  get (loaded N r q l) x =
  let j := (x - r) mod 32 in
  if 4 * j <? N then top_bytes (Z.min 4 (N - 4 * j)) q.gpr[x] else get l x.
Proof.
  intros HN Hl Hr Hx. unfold loaded. cbv zeta.
  pose proof (Z.div_mod N 4 ltac:(lia)) as Hd. pose proof (Z.mod_pos_bound N 4 ltac:(lia)).
  assert (0 <= N / 4 <= 32) by lia. set (k := Z.to_nat (N / 4)).
  assert (Z.of_nat k = N / 4) as Hk by lia. pose proof (Z.mod_pos_bound (x - r) 32 ltac:(lia)).
  pose proof (get_set_words k r q l x ltac:(lia) Hl Hr Hx) as E. rewrite Hk in E.
  set (j := (x - r) mod 32) in *.
  destruct (Z.eqb_spec (N mod 4) 0) as [Ez|Ez].
  - rewrite E. case_cmp; try lia. rewrite Z.min_l, top_bytes_4 by lia. done.
  - rewrite nth_reg_mod, Hk by done.
    destruct (Z.eq_dec j (N / 4)) as [Ej|Ej].
    + assert ((r + N / 4) mod 32 = x) as ->.
      { rewrite <- Ej. unfold j. rewrite Z.add_mod_idemp_r by lia.
        replace (r + (x - r)) with x by lia. apply Z.mod_small. lia. }
      rewrite get_set_eq by (rewrite length_set_words; lia).
      destruct (Z.ltb_spec (4 * j) N); [|lia]. rewrite Z.min_r by lia. f_equal. lia.
    + rewrite get_set_ne, E.
      * case_cmp; try lia. rewrite Z.min_l, top_bytes_4 by lia. done.
      * apply Z.mod_pos_bound. lia.
      * lia.
      * intros Hc. apply Ej. unfold j. rewrite <- Hc, Zminus_mod_idemp_l.
        replace (r + N / 4 - r) with (N / 4) by lia. apply Z.mod_small.
        destruct (Z.eq_dec (N / 4) 32); lia.
Qed.

(** What a string load leaves in the registers when the memory holds what the string
    store of the registers of [q] wrote. *)
Definition string_reload (N r : Z) (q p : ppu_thread) : Prop :=
  forall x, 0 <= x < 32 -> p.gpr[x] =
    let j := (x - r) mod 32 in
    if 4 * j <? N then top_bytes (Z.min 4 (N - 4 * j)) q.gpr[x] else q.gpr[x].

(** Storing [N] bytes of registers and loading them back with the same registers. *)
Lemma core_roundtrip uf N r addr s s' : 0 <= N <= 128 -> 0 <= r < 32 -> in_u 64 addr ->
  wf (thread s) -> store_core N r addr s = (inr (), s') ->
  thread s' = thread s /\
  exists p', load_core uf N r addr s' = (inr (), Mach p' (vmem s')) /\
    string_reload N r (thread s) p'.
Proof.
  intros HN Hr Ha Hwf Hst. apply store_core_run in Hst as (-> & _ & Hb1 & Hb2); [|lia|done].
  split; [done|]. destruct (load_core_run uf N r addr
    (Mach (thread s) (Vm (write_bytes (mem (vmem s)) addr (string_image N r (thread s)))
         (reservations (vmem s)))) (thread s)) as (p' & H & Hg).
  - lia.
  - done.
  - done.
  - done.
  - cbn [thread]. apply Hwf.
  - apply has_write.
  - exists p'. split; [done|]. intros x Hx. rewrite Hg. cbn [thread]. apply get_loaded; try done.
    apply Hwf.
Qed.

(** ** The instructions as instances of the cores *)

Lemma u64_u64_add a b : u64 (u64 a + b) = u64 (a + b).
Proof. unfold wrap. by rewrite Z.add_mod_idemp_l by lia. Qed.

Lemma xor3 byte : 0 <= byte < 4 -> 3 .^ byte = 3 - byte.
Proof.
  intros H. assert (byte = 0 \/ byte = 1 \/ byte = 2 \/ byte = 3) as [->|[->|[->| ->]]] by lia; done.
Qed.

Lemma lswi_bytes_core uf n byte addr buf s : 0 <= byte -> byte + Z.of_nat n <= 4 ->
  Mem.lswi_bytes uf n (3 - byte) (u64 (addr + byte)) buf s =
  (v ← Mem.lswx_bytes uf n byte addr buf; mret (v, u64 (addr + byte + Z.of_nat n))) s.
Proof.
  revert byte buf s. induction n as [|n IH]; intros byte buf s Hb Hn.
  { cbn [Mem.lswi_bytes Mem.lswx_bytes]. rewrite bind_run. cbn. by rewrite Z.add_0_r. }
  cbn [Mem.lswi_bytes Mem.lswx_bytes]. rewrite bind_assoc. apply bind_ext. intros b s'.
  rewrite xor3, u64_u64_add by lia. replace (3 - byte - 1) with (3 - (byte + 1)) by lia.
  replace (addr + byte + 1) with (addr + (byte + 1)) by lia. rewrite IH by lia.
  apply bind_ext. intros v s1. do 3 f_equal. lia.
Qed.

Lemma load_core_step uf N r addr s : 4 <= N ->
  load_core uf N r addr s =
  (v ← Mem.ppu_feed_data uf 4 addr; Mem.set_reg r (Mem.from_be v);;
   load_core uf (N - 4) ((r + 1) mod 32) (u64 (addr + 4))) s.
Proof.
  intros HN. unfold load_core at 1.
  assert (N / 4 = (N - 4) / 4 + 1 /\ N mod 4 = (N - 4) mod 4) as [E1 E2]
    by (replace N with (N - 4 + 1 * 4) at 1 3 by lia; rewrite Z.div_add, Z.mod_add by lia; done).
  assert (0 <= (N - 4) / 4) by (apply Z.div_pos; lia).
  replace (Z.to_nat (N / 4)) with (S (Z.to_nat ((N - 4) / 4))) by lia.
  rewrite E2. cbn [Mem.lswx_words]. rewrite bind_assoc. apply bind_ext. intros v s'.
  rewrite bind_assoc. apply bind_ext. intros [] s1. unfold load_core. by rewrite next_reg.
Qed.

Lemma load_core_small uf N r addr s : 0 < N < 4 ->
  load_core uf N r addr s =
  (v ← Mem.lswx_bytes uf (Z.to_nat N) 0 addr 0; Mem.set_reg r v) s.
Proof.
  intros HN. unfold load_core. rewrite (Z.div_small N 4), (Z.mod_small N 4) by lia.
  change (Z.to_nat 0) with O. cbn [Mem.lswx_words]. rewrite bind_run. cbn [mret M_ret].
  by destruct (Z.eqb_spec N 0); [lia|].
Qed.

Lemma lswi_loop_core uf fuel addr N r s : 0 <= N <= Z.of_nat fuel -> in_u 64 addr ->
  Mem.lswi_loop uf fuel addr N r s = load_core uf N r addr s.
Proof.
  revert addr N r s. induction fuel as [|fuel IH]; intros addr N r s HN Ha.
  { by replace N with 0 by lia. }
  cbn [Mem.lswi_loop]. destruct (Z.ltb_spec 0 N); [|by replace N with 0 by lia].
  destruct (Z.ltb_spec 3 N).
  - rewrite load_core_step by lia. apply bind_ext. intros v s'. apply bind_ext. intros [] s1.
    apply IH; [lia|apply wrap_in_u; lia].
  - rewrite load_core_small by lia.
    replace (Mem.lswi_bytes uf (Z.to_nat N) 3 addr 0) with
      (Mem.lswi_bytes uf (Z.to_nat N) (3 - 0) (u64 (addr + 0)) 0)
      by (rewrite Z.add_0_r, wrap_small by done; done).
    rewrite bind_run, lswi_bytes_core, !bind_run by lia.
    destruct (Mem.lswx_bytes _ _ _ _ _ _) as [[e|v] s']; [done|]. cbn.
    by destruct fuel.
Qed.

(** The byte [STSWI] writes from its shifted buffer. *)
Lemma stswi_byte v byte : 0 <= byte < 4 ->
  Z.shiftr (0xFF000000 .& u32 (Z.shiftl v (8 * byte))) 24 = u8 (Z.shiftr v ((3 .^ byte) * 8)).
Proof.
  intros Hb. rewrite xor3 by lia. apply Z.bits_inj'. intros i Hi.
  change 0xFF000000 with (Z.shiftl (Z.ones 8) 24).
  rewrite testbit_shiftr, Z.land_spec, testbit_shiftl, testbit_ones, !testbit_wrap,
    testbit_shiftl, testbit_shiftr by lia.
  replace (i + 24 - 8 * byte) with (i + (3 - byte) * 8) by lia.
  destruct (Z.testbit v (i + (3 - byte) * 8)); case_cmp; done || lia.
Qed.

Lemma stswi_bytes_core n byte addr v s : in_u 32 v -> 0 <= byte -> byte + Z.of_nat n <= 4 ->
  Mem.stswi_bytes n (u64 (addr + byte)) (u32 (Z.shiftl v (8 * byte))) s =
  (Mem.stswx_bytes n byte addr v;; mret (u64 (addr + byte + Z.of_nat n))) s.
Proof.
  intros Hv. revert byte s. induction n as [|n IH]; intros byte s Hb Hn.
  { cbn [Mem.stswi_bytes Mem.stswx_bytes]. rewrite bind_run. cbn. by rewrite Z.add_0_r. }
  cbn [Mem.stswi_bytes Mem.stswx_bytes]. rewrite bind_assoc. apply bind_ext. intros a s'.
  rewrite bind_assoc, stswi_byte by lia. apply bind_ext. intros [] s1.
  rewrite u64_u64_add. replace (addr + byte + 1) with (addr + (byte + 1)) by lia.
  replace (u32 (Z.shiftl (u32 (Z.shiftl v (8 * byte))) 8)) with (u32 (Z.shiftl v (8 * (byte + 1)))).
  - rewrite IH by lia. apply bind_ext. intros [] s2. do 2 f_equal. lia.
  - apply Z.bits_inj'. intros i Hi.
    rewrite !testbit_wrap, !testbit_shiftl by lia.
    destruct (Z.leb_spec 8 i); [|case_cmp; done || lia].
    rewrite testbit_wrap, testbit_shiftl by lia.
    replace (i - 8 - 8 * byte) with (i - 8 * (byte + 1)) by lia. case_cmp; done || lia.
Qed.

Lemma store_core_step N r addr s : 4 <= N ->
  store_core N r addr s =
  (a ← vm_cast addr; v ← gets (fun ppu => ppu.gpr[r]); vm_write a (Mem.to_be 4 v);;
   store_core (N - 4) ((r + 1) mod 32) (u64 (addr + 4))) s.
Proof.
  intros HN. unfold store_core at 1.
  assert (N / 4 = (N - 4) / 4 + 1 /\ N mod 4 = (N - 4) mod 4) as [E1 E2]
    by (replace N with (N - 4 + 1 * 4) at 1 3 by lia; rewrite Z.div_add, Z.mod_add by lia; done).
  assert (0 <= (N - 4) / 4) by (apply Z.div_pos; lia).
  replace (Z.to_nat (N / 4)) with (S (Z.to_nat ((N - 4) / 4))) by lia.
  rewrite E2. cbn [Mem.stswx_words]. rewrite bind_assoc. apply bind_ext. intros a s'.
  rewrite bind_assoc. apply bind_ext. intros v s1. rewrite bind_assoc. apply bind_ext.
  intros [] s2. unfold store_core. by rewrite next_reg.
Qed.

Lemma store_core_small N r addr s : 0 < N < 4 ->
  store_core N r addr s = Mem.stswx_bytes (Z.to_nat N) 0 addr (u32 (thread s).gpr[r]) s.
Proof.
  intros HN. unfold store_core. rewrite (Z.div_small N 4), (Z.mod_small N 4) by lia.
  change (Z.to_nat 0) with O. cbn [Mem.stswx_words]. rewrite bind_run. cbn [mret M_ret].
  by destruct (Z.eqb_spec N 0); [lia|].
Qed.

Lemma stswi_loop_core fuel addr N r s : 0 <= N <= Z.of_nat fuel -> in_u 64 addr ->
  Mem.stswi_loop fuel addr N r s = store_core N r addr s.
Proof.
  revert addr N r s. induction fuel as [|fuel IH]; intros addr N r s HN Ha.
  { by replace N with 0 by lia. }
  cbn [Mem.stswi_loop]. destruct (Z.ltb_spec 0 N); [|by replace N with 0 by lia].
  destruct (Z.ltb_spec 3 N).
  - rewrite store_core_step by lia. apply bind_ext. intros a s'. apply bind_ext. intros v s1.
    apply bind_ext. intros [] s2. apply IH; [lia|apply wrap_in_u; lia].
  - rewrite store_core_small, bind_run by lia. cbn [gets].
    set (v := u32 (thread s).gpr[r]). assert (in_u 32 v) by (apply wrap_in_u; lia).
    replace (Mem.stswi_bytes (Z.to_nat N) addr v) with
      (Mem.stswi_bytes (Z.to_nat N) (u64 (addr + 0)) (u32 (Z.shiftl v (8 * 0))))
      by (rewrite Z.add_0_r, Z.shiftl_0_r, !wrap_small by done; done).
    rewrite bind_run, stswi_bytes_core, bind_run by (done || lia).
    destruct (Mem.stswx_bytes _ _ _ _ _) as [[e|[]] s']; [done|]. by destruct fuel.
Qed.

Lemma lmw_loop_core uf k i addr s : 0 <= i -> i + Z.of_nat k = 32 ->
  Mem.lmw_loop uf k i addr s = load_core uf (4 * Z.of_nat k) i addr s.
Proof.
  revert i addr s. induction k as [|k IH]; intros i addr s Hi Hk; [done|].
  rewrite load_core_step by lia. cbn [Mem.lmw_loop]. apply bind_ext. intros v s'.
  apply bind_ext. intros [] s1. replace (4 * Z.of_nat (S k) - 4) with (4 * Z.of_nat k) by lia.
  destruct k as [|k]; [done|]. rewrite (Z.mod_small (i + 1)) by lia. apply IH; lia.
Qed.

Lemma stmw_loop_core k i addr s : 0 <= i -> i + Z.of_nat k = 32 ->
  Mem.stmw_loop k i addr s = store_core (4 * Z.of_nat k) i addr s.
Proof.
  revert i addr s. induction k as [|k IH]; intros i addr s Hi Hk; [done|].
  rewrite store_core_step by lia. cbn [Mem.stmw_loop]. apply bind_ext. intros a s'.
  apply bind_ext. intros v s1. apply bind_ext. intros [] s2.
  replace (4 * Z.of_nat (S k) - 4) with (4 * Z.of_nat k) by lia.
  destruct k as [|k]; [done|]. rewrite (Z.mod_small (i + 1)) by lia. apply IH; lia.
Qed.

(** The three pairs of instructions: immediate count, count in XER, multiple words. *)
Inductive string_form := SWI | SWX | MW.

Definition string_store (f : string_form) : Z -> M () :=
  match f with SWI => Mem.STSWI | SWX => Mem.STSWX | MW => Mem.STMW end.
Definition string_load (uf : bool) (f : string_form) : Z -> M () :=
  match f with SWI => Mem.LSWI uf | SWX => Mem.LSWX uf | MW => Mem.LMW uf end.
Definition string_ea (f : string_form) : Z -> ppu_thread -> Z :=
  match f with SWI => Mem.ea_i | SWX => Mem.ea_x | MW => Mem.ea_m end.

(** The number of bytes: 32 for an immediate count of 0. *)
Definition string_len (f : string_form) (op : Z) (p : ppu_thread) : Z :=
  match f with
  | SWI => if op.[f_rb] =? 0 then 32 else op.[f_rb]
  | SWX => cnt (xer p) mod 128
  | MW => 4 * (32 - op.[f_rd])
  end.

Lemma string_len_range f op p : 0 <= string_len f op p <= 128.
Proof.
  pose proof (five_bits_range f_rb op eq_refl). pose proof (five_bits_range f_rd op eq_refl).
  pose proof (Z.mod_pos_bound (cnt (xer p)) 128 ltac:(lia)).
  destruct f; cbn [string_len]; [|lia|lia]. destruct (_ =? _); lia.
Qed.

Lemma string_ea_range f op p : wf p -> in_u 64 (string_ea f op p).
Proof.
  intros Hp. destruct f; cbn [string_ea]; unfold Mem.ea_i, Mem.ea_x, Mem.ea_m;
    destruct (negb _); try (apply gpr_in_u; done); try (apply wrap_in_u; lia).
  unfold in_u. lia.
Qed.

Lemma string_count_len op p : Mem.string_count op = string_len SWI op p.
Proof. unfold Mem.string_count. cbn [string_len]. by destruct (_ =? 0). Qed.

Lemma land_7f x : x .& 0x7f = x mod 128.
Proof. change 0x7f with (Z.ones 7). by rewrite Z.land_ones by lia. Qed.

Lemma string_load_core uf f op s : wf (thread s) ->
  string_load uf f op s =
  load_core uf (string_len f op (thread s)) op.[f_rd] (string_ea f op (thread s)) s.
Proof.
  intros Hp. pose proof (string_len_range f op (thread s)).
  pose proof (string_ea_range f op (thread s) Hp) as Ha.
  pose proof (five_bits_range f_rd op eq_refl). destruct f; cbn [string_load string_ea] in *.
  - unfold Mem.LSWI. rewrite bind_run. cbn [gets]. cbv zeta.
    rewrite (string_count_len op (thread s)). apply lswi_loop_core; [lia|done].
  - unfold Mem.LSWX. rewrite !bind_run. cbn [gets]. rewrite bind_run. cbn [gets].
    rewrite land_7f. reflexivity.
  - unfold Mem.LMW. rewrite bind_run. cbn [gets]. rewrite lmw_loop_core by lia.
    cbn [string_len]. do 2 f_equal. lia.
Qed.

Lemma string_store_core f op s : wf (thread s) ->
  string_store f op s =
  store_core (string_len f op (thread s)) op.[f_rd] (string_ea f op (thread s)) s.
Proof.
  intros Hp. pose proof (string_len_range f op (thread s)).
  pose proof (string_ea_range f op (thread s) Hp) as Ha.
  pose proof (five_bits_range f_rd op eq_refl).
  assert (op.[f_rs] = op.[f_rd]) as Ers by reflexivity.
  destruct f; cbn [string_store string_ea] in *.
  - unfold Mem.STSWI. rewrite bind_run. cbn [gets]. cbv zeta.
    rewrite (string_count_len op (thread s)). apply stswi_loop_core; [lia|done].
  - unfold Mem.STSWX. rewrite !bind_run. cbn [gets]. rewrite bind_run. cbn [gets].
    rewrite land_7f, Ers. reflexivity.
  - unfold Mem.STMW. rewrite bind_run. cbn [gets]. rewrite Ers, stmw_loop_core by lia.
    cbn [string_len]. do 2 f_equal. lia.
Qed.

(** ** Completion *)

Definition mapped (m : gmap Z Z) (a n : Z) : Prop := forall k, a <= k < a + n -> is_Some (m !! k).

Lemma mapped_write m b bs a n : mapped m a n -> mapped (write_bytes m b bs) a n.
Proof.
  intros H k Hk. rewrite lookup_write_bytes. destruct (_ && _) eqn:E; [|by apply H].
  apply lookup_lt_is_Some. lia.
Qed.

Lemma mapped_read m a n : mapped m a (Z.of_nat n) -> exists bs, read_bytes m a n = Some bs.
Proof.
  intros H. unfold read_bytes. apply (mapM_is_Some_2 _ _). apply Forall_forall.
  intros i Hi%elem_of_seqZ. apply H. lia.
Qed.

Lemma vm_write_ok a bs s : mapped (mem (vmem s)) a (Z.of_nat (length bs)) ->
  exists s', vm_write a bs s = (inr (), s') /\
    forall b n, mapped (mem (vmem s)) b n -> mapped (mem (vmem s')) b n.
Proof.
  intros [l Hl]%mapped_read. unfold vm_write. rewrite Hl. eexists. split; [reflexivity|].
  intros b n. apply mapped_write.
Qed.

Lemma stswx_bytes_ok t byte addr v s : 0 <= addr -> 0 <= byte -> addr + byte + Z.of_nat t <= 2 ^ 32 ->
  mapped (mem (vmem s)) addr (byte + Z.of_nat t) ->
  exists s', Mem.stswx_bytes t byte addr v s = (inr (), s').
Proof.
  intros Ha. revert byte s. induction t as [|t IH]; intros byte s Hb Hu Hm; [by exists s|].
  cbn [Mem.stswx_bytes]. rewrite (wrap_small 64) by (unfold in_u; lia).
  rewrite bind_run, vm_cast_ok, bind_run by lia.
  destruct (vm_write_ok (addr + byte) [u8 (Z.shiftr v ((3 .^ byte) * 8))] s) as (s1 & -> & H1).
  { intros k Hk. cbn [length] in Hk. apply Hm. lia. }
  apply IH; [lia|lia|]. apply H1. intros k Hk. apply Hm. lia.
Qed.

Lemma store_core_ok fuel N r addr s : 0 <= N <= Z.of_nat fuel -> 0 <= addr -> addr + N <= 2 ^ 32 ->
  mapped (mem (vmem s)) addr N -> exists s', store_core N r addr s = (inr (), s').
Proof.
  revert N r addr s. induction fuel as [|fuel IH]; intros N r addr s HN Ha Hu Hm.
  { replace N with 0 by lia. by exists s. }
  destruct (Z.eq_dec N 0) as [->|]; [by exists s|]. destruct (Z.ltb_spec N 4).
  - rewrite store_core_small by lia. apply stswx_bytes_ok; try lia.
    intros k Hk. apply Hm. lia.
  - rewrite store_core_step, bind_run, vm_cast_ok, bind_run by lia. cbn [gets]. rewrite bind_run.
    destruct (vm_write_ok addr (Mem.to_be 4 (thread s).gpr[r]) s) as (s1 & -> & H1).
    { intros k Hk. apply Hm. unfold Mem.to_be in Hk. rewrite length_be_bytes in Hk. lia. }
    rewrite (wrap_small 64) by (unfold in_u; lia).
    apply IH; [lia|lia|lia|]. apply H1. intros k Hk. apply Hm. lia.
Qed.

(** C35: a string or multiple store whose [N] bytes are mapped completes, writes exactly the
    [N] bytes of the words of consecutive registers (register 0 after 31, the last word cut
    at its high bytes), and the load of the same form with the same registers and address
    then completes without changing memory: every register of the range holds its low word
    again, the last one the bytes that were stored, and all other registers their values. *)
Theorem string_roundtrip uf f op s : wf (thread s) ->
  let N := string_len f op (thread s) in
  let ea := string_ea f op (thread s) in
  ea + N <= 2 ^ 32 -> mapped (mem (vmem s)) ea N ->
  exists m, string_store f op s = (inr (), Mach (thread s) (Vm m (reservations (vmem s)))) /\
    m = write_bytes (mem (vmem s)) ea (string_image N op.[f_rd] (thread s)) /\
  exists p', string_load uf f op (Mach (thread s) (Vm m (reservations (vmem s)))) =
      (inr (), Mach p' (Vm m (reservations (vmem s)))) /\
    forall x, 0 <= x < 32 -> p'.gpr[x] =
      let j := (x - op.[f_rd]) mod 32 in
      if 4 * j <? N then top_bytes (Z.min 4 (N - 4 * j)) (thread s).gpr[x] else (thread s).gpr[x].
Proof.
  intros Hp N ea Hu Hm. pose proof (string_len_range f op (thread s)) as HN. fold N in HN.
  pose proof (string_ea_range f op (thread s) Hp) as Ha. fold ea in Ha.
  pose proof (five_bits_range f_rd op eq_refl) as Hr.
  destruct (store_core_ok (Z.to_nat N) N op.[f_rd] ea s ltac:(lia) (proj1 Ha) Hu Hm) as (s' & Hst).
  destruct (core_roundtrip uf N op.[f_rd] ea s s' HN Hr Ha Hp Hst) as (Ht & p' & Hl & Hx).
  pose proof (store_core_run N _ ea s s' (proj1 HN) Ha Hst) as (-> & _).
  eexists. split; [|split; [reflexivity|]].
  - rewrite string_store_core by done. exact Hst.
  - exists p'. split; [|exact Hx]. rewrite string_load_core by done. exact Hl.
Qed.

(** [stswi r30, r3, 10]: registers 30, 31 and the two high bytes of register 0. *)
Lemma string_roundtrip_witness :
  let s := sample_machine 0x10000 16 (set_gpr 3 0x10000 (set_gpr 30 0x11111111ABCD0123
             (set_gpr 31 0x89ABCDEF (set_gpr 0 0xCAFEBABE ppu_init)))) in
  exists m, string_store SWI 0x7fc354aa s = (inr (), Mach (thread s) (Vm m (reservations (vmem s)))) /\
  exists p', string_load true SWI 0x7fc354aa (Mach (thread s) (Vm m (reservations (vmem s)))) =
      (inr (), Mach p' (Vm m (reservations (vmem s)))) /\
    p'.gpr[30] = 0xABCD0123 /\ p'.gpr[31] = 0x89ABCDEF /\ p'.gpr[0] = 0xCAFE0000.
Proof.
  intros s. destruct (string_roundtrip true SWI 0x7fc354aa s) as (m & Hs & _ & p' & Hl & Hx).
  - repeat apply wf_set_gpr; [apply wf_ppu_init|unfold in_u; lia..].
  - vm_compute. discriminate.
  - intros k Hk. change (string_ea SWI 0x7fc354aa (thread s)) with 0x10000 in Hk.
    change (string_len SWI 0x7fc354aa (thread s)) with 10 in Hk. unfold s, sample_machine.
    cbn [vmem mem]. rewrite lookup_write_bytes, length_replicate.
    change (Z.of_nat 16) with 16. replace (0x10000 <=? k) with true by lia. replace (k <? _) with true by lia.
    apply lookup_lt_is_Some. rewrite length_replicate. clear -Hk. lia.
  - exists m. split; [exact Hs|]. exists p'. split; [exact Hl|].
    split; [|split]; (rewrite Hx by lia; vm_compute; reflexivity).
Defined.
