(* ===== verification/PpuBranch.v ===== *)
(** Control flow of the PPU interpreter (PPUInterpreter.cpp, PPUThread.cpp).

    Branches, traps, the system call instruction, the call history, the run-time
    decoder [ppu_interpreter_rt::decode], the handlers cached at [vm::g_exec_addr], and the
    two ways instructions are run: one at a time, decoded each time, with [ppu_ret] as the
    continuation ([step], the loop body of [ppu_recompiler_fallback]), and through the cached
    handlers, one instruction or a chain of tail calls ([exec_task_iteration], the loop of
    [ppu_thread::exec_task]).

    A handler that tail-calls [next_fn->fn] has the outcome [Next]; one that returns to its
    caller has [Return]; system calls and HLE functions leave the modelled code. *)

From Stdlib Require Import ZArith Lia Bool.
From stdpp Require Import base tactics option list numbers gmap.
From S2P Require Import Prelude BitField PpuOpcodes PpuAsm PpuState PpuInt PpuMem.
Local Open Scope Z_scope.
Local Open Scope word_scope.

(** Settings read when handlers are selected or run, and [vm::g_pages]. *)
Record cfg := Cfg {
  set_call_history : bool;   (* g_cfg.core.ppu_call_history *)
  use_feed_data : bool;      (* g_cfg.core.ppu_128_reservations_loop_max_length != 0 *)
  stub_ppu_traps : Z;        (* cfg::_int<-64, 64> *)
  pages : Z -> Z;            (* flags of each 4 KiB page *)
  hle_addr : Z;              (* ppu_function_manager::addr *)
  hle_funcs_size : Z
}.

(** The other functions whose pointers [ppu_register_function_at], breakpoints and patches put in the place of
    a handler: they are not modelled. *)
Inductive native := PpuBreak | PpuFarJump | PpuCheckToc | HleFunc (index : Z).

#[export] Instance native_eq_dec : EqDecision native.
Proof. solve_decision. Defined.

(** How the handler ends; the last two leave the modelled code. *)
Inductive outcome :=
  | Next | Return | Syscall (code : Z) | Hle (index : Z) | Unmodelled (op : Z) | Calls (f : native).

(** ** The state of the interpreter loop *)

(** The function pointer for an instruction at [vm::g_exec_addr]: [ppu_fallback], or what
    [ppu_interpreter_rt::decode] returned for the word [opv], or a function outside the interpreter. *)
Inductive intrp_func := Fallback | Decoded (opv : Z) | Native (f : native).

(** By guest address; the memory of the other cells is not committed. *)
Notation exec_cache := (gmap Z intrp_func).

(** [M] with the cache. *)
Definition X (A : Type) : Type := machine * exec_cache -> (fault + A) * (machine * exec_cache).

#[export] Instance X_ret : MRet X := fun A x s => (inr x, s).
#[export] Instance X_bind : MBind X := fun A B k m s =>
  match m s with
  | (inl e, s') => (inl e, s')
  | (inr x, s') => k x s'
  end.

Definition lift {A} (m : M A) : X A := fun s => let r := m s.1 in (r.1, (r.2, s.2)).

(** The decoder is a table of 131072 entries: reason through [decode_ref] instead. *)
#[global] Opaque decode.

Module Branch.

(** ** Branches *)

(** The entry is written at [index++ % call_history_max_size] whatever the size of [data], which is 1 in a
    thread created while the history was disabled: a write past the end changes memory outside the
    model and is recorded in [h_overrun]. *)
Definition record_call (flag : bool) (new_cia op : Z) (indirect : bool) (ppu : ppu_thread)
    : ppu_thread :=
  if negb flag then ppu else
  let h := call_history ppu in
  let at_index := h_index h mod call_history_max_size in
  let push := set (h_data h) at_index new_cia in
  let over := h_overrun h || (Z.of_nat (length (h_data h)) <=? at_index) in
  let index := u64 (h_index h + 1) in
  if (length (h_data h) =? 0)%nat then ppu
  else if op.[f_lk] =? 0 then
    if indirect && (ppu.gpr[1] =? h_last_r1 h) && negb (ppu.gpr[2] =? h_last_r2 h)
    then with_history ppu (Hist push index (2 ^ 64 - 1) ppu.gpr[2] over)
    else ppu
  else with_history ppu (Hist push index ppu.gpr[1] ppu.gpr[2] over).

Definition bo_bit (op mask : Z) : bool := negb (op.[f_bo] .& mask =? 0).

(** [ppu.exec_bytes += link - old_cia]. *)
Definition count_bytes (link old_cia : Z) (ppu : ppu_thread) : ppu_thread :=
  with_exec_bytes ppu (u64 (exec_bytes ppu + u32 (link - old_cia))).

Definition BC (c : cfg) (op this_op : Z) (ppu : ppu_thread) : outcome * ppu_thread :=
  let bo0 := bo_bit op 0x10 in
  let bo1 := bo_bit op 0x08 in
  let bo2 := bo_bit op 0x04 in
  let bo3 := bo_bit op 0x02 in
  let ppu := with_ctr ppu (u64 (ctr ppu - b2z (xorb bo2 true))) in
  let link := u32 (this_op + 4) in
  let ppu := if negb (op.[f_lk] =? 0) then with_lr ppu link else ppu in
  let ctr_ok := bo2 || xorb (negb (ctr ppu =? 0)) bo3 in
  let cond_ok := bo0 || xorb (negb (ppu.cr[op.[f_bi]] =? 0)) (xorb bo1 true) in
  let old_cia := cia ppu in
  if ctr_ok && cond_ok then
    let ppu := with_cia ppu this_op in
    let ppu := record_call (set_call_history c) (cia ppu) op false ppu in
    let ppu := with_cia ppu (u32 ((if negb (op.[f_aa] =? 0) then 0 else cia ppu) + op.[f_bt14])) in
    (Return, count_bytes link old_cia ppu)
  else if cpu_state ppu =? 0 then (Next, ppu)
  else (Return, count_bytes link old_cia (with_cia ppu link)).

Definition B (c : cfg) (op this_op : Z) (ppu : ppu_thread) : outcome * ppu_thread :=
  let old_cia := cia ppu in
  let ppu := with_cia ppu this_op in
  let link := u32 (cia ppu + 4) in
  let ppu := record_call (set_call_history c) (cia ppu) op false ppu in
  let ppu := with_cia ppu (u32 ((if negb (op.[f_aa] =? 0) then 0 else cia ppu) + op.[f_bt24])) in
  let ppu := if negb (op.[f_lk] =? 0) then with_lr ppu link else ppu in
  (Return, count_bytes link old_cia ppu).

Definition BCLR (c : cfg) (op this_op : Z) (ppu : ppu_thread) : outcome * ppu_thread :=
  let bo0 := bo_bit op 0x10 in
  let bo1 := bo_bit op 0x08 in
  let bo2 := bo_bit op 0x04 in
  let bo3 := bo_bit op 0x02 in
  let ppu := with_ctr ppu (u64 (ctr ppu - b2z (xorb bo2 true))) in
  let ctr_ok := bo2 || xorb (negb (ctr ppu =? 0)) bo3 in
  let cond_ok := bo0 || xorb (negb (ppu.cr[op.[f_bi]] =? 0)) (xorb bo1 true) in
  let target := u32 (lr ppu) .& -4 in
  let link := u32 (this_op + 4) in
  let ppu := if negb (op.[f_lk] =? 0) then with_lr ppu link else ppu in
  let old_cia := cia ppu in
  if ctr_ok && cond_ok then
    let ppu := record_call (set_call_history c) target op true ppu in
    (Return, count_bytes link old_cia (with_cia ppu target))
  else if cpu_state ppu =? 0 then (Next, ppu)
  else (Return, count_bytes link old_cia (with_cia ppu link)).

Definition BCCTR (c : cfg) (op this_op : Z) (ppu : ppu_thread) : outcome * ppu_thread :=
  let link := u32 (this_op + 4) in
  let ppu := if negb (op.[f_lk] =? 0) then with_lr ppu link else ppu in
  let old_cia := cia ppu in
  if bo_bit op 0x10 || (ppu.cr[op.[f_bi]] =? b2z (bo_bit op 0x8)) then
    let target := u32 (ctr ppu) .& -4 in
    let ppu := record_call (set_call_history c) target op true ppu in
    (Return, count_bytes link old_cia (with_cia ppu target))
  else if cpu_state ppu =? 0 then (Next, ppu)
  else (Return, count_bytes link old_cia (with_cia ppu link)).

(** ** Traps *)

(** [vm::check_addr<1>(addr, flags)]. *)
Definition page_executable : Z := Z.shiftl 1 2.
Definition page_allocated : Z := Z.shiftl 1 7.
Definition check_addr (c : cfg) (addr flags : Z) : bool :=
  Z.lnot (pages c (addr / 4096)) .& (flags .| page_allocated) =? 0.

Definition ppu_trap (c : cfg) (addr : Z) : M () :=
  if negb (addr .& (Z.lnot 0xffffffff .| 3) =? 0) then throw (EnsureFailed addr) else
  modify (fun ppu => with_cia ppu (u32 addr));;
  let add := u32 (u32 (stub_ppu_traps c) * 4) in
  pc ← gets cia;
  if (add =? 0) || negb (check_addr c pc page_executable) ||
     negb (check_addr c (u32 (pc + add)) page_executable)
  then throw (PpuTrap pc)
  else modify (fun ppu => with_cia ppu (u32 (cia ppu + add))).

(** The common condition, on the signed and the unsigned operands. *)
Definition trap_if (op a b a_ b_ : Z) : bool :=
  (bo_bit op 0x10 && (a <? b)) || (bo_bit op 0x8 && (b <? a)) || (bo_bit op 0x4 && (a =? b)) ||
  (bo_bit op 0x2 && (a_ <? b_)) || (bo_bit op 0x1 && (b_ <? a_)).

Definition trap (c : cfg) (this_op : Z) (cond : bool) : M outcome :=
  if cond then ppu_trap c this_op;; mret Return else mret Next.

Definition TDI (c : cfg) (op this_op : Z) : M outcome :=
  ppu ← get_ppu;
  let a := s64 ppu.gpr[op.[f_ra]] in let b := op.[f_simm16] in
  trap c this_op (trap_if op a b (u64 a) (u64 b)).
Definition TWI (c : cfg) (op this_op : Z) : M outcome :=
  ppu ← get_ppu;
  let a := s32 (u32 ppu.gpr[op.[f_ra]]) in let b := op.[f_simm16] in
  trap c this_op (trap_if op a b (u32 a) (u32 b)).
Definition TW (c : cfg) (op this_op : Z) : M outcome :=
  ppu ← get_ppu;
  let a := s32 ppu.gpr[op.[f_ra]] in let b := s32 ppu.gpr[op.[f_rb]] in
  trap c this_op (trap_if op a b (u32 a) (u32 b)).
Definition TD (c : cfg) (op this_op : Z) : M outcome :=
  ppu ← get_ppu;
  let a := s64 ppu.gpr[op.[f_ra]] in let b := s64 ppu.gpr[op.[f_rb]] in
  trap c this_op (trap_if op a b (u64 a) (u64 b)).

(** ** System calls and unknown opcodes *)

(** [ppu.cia = vm::get_addr(this_op); ppu.exec_bytes += ppu.cia - old_cia]. *)
Definition arrive (this_op : Z) (ppu : ppu_thread) : ppu_thread :=
  count_bytes this_op (cia ppu) (with_cia ppu this_op).

(** [ppu_execute_syscall(ppu, ppu.gpr[11])] is the outcome [Syscall]. *)
Definition SC (op this_op : Z) : M outcome :=
  modify (arrive this_op);;
  if negb (op =? ppu_instructions.SC 0) then throw (IllegalSC op)
  else code ← gets (fun ppu => ppu.gpr[11]); mret (Syscall code).

Definition UNK (c : cfg) (op this_op : Z) : M outcome :=
  modify (arrive this_op);;
  pc ← gets cia;
  let index := u32 (pc - hle_addr c) / 8 in
  if (pc mod 8 =? 4) && (index <? hle_funcs_size c) then mret (Hle index)
  else throw (UnknownOpcode op pc).

(** ** Selection of the handler *)

Definition handler : Type := Z -> Z -> M outcome.

(** [RETURN_]: run [exec], then tail-call [next_fn->fn]; [Next] is that tail call, made by [chain] when [next_fn]
    points into the cache and by [ppu_ret] when it is [&ppu_ret].  The variant that a debugger selects, which
    also writes [cia], is not modelled. *)
Definition then_next (h : Z -> M ()) : handler := fun op _ => h op;; mret Next.

Definition run_branch (f : Z -> Z -> ppu_thread -> outcome * ppu_thread) : handler :=
  fun op this_op s => let '(o, p) := f op this_op (thread s) in (inr o, Mach p (vmem s)).

Definition run_spr (f : Z -> ppu_thread -> fault + ppu_thread) : handler :=
  then_next (fun op s =>
    match f op (thread s) with
    | inl e => (inl e, s)
    | inr p => (inr (), Mach p (vmem s))
    end).

(** The handlers that are neither in [Interp.fixed] nor in [Mem.memory]; [tb] is the time
    base at the time of the instruction. *)
Definition control (c : cfg) (tb : Z) (i : itype) : option handler :=
  match i with
  | Itype.BC => Some (run_branch (BC c))
  | Itype.B => Some (run_branch (B c))
  | Itype.BCLR => Some (run_branch (BCLR c))
  | Itype.BCCTR => Some (run_branch (BCCTR c))
  | Itype.TDI => Some (TDI c)
  | Itype.TWI => Some (TWI c)
  | Itype.TW => Some (TW c)
  | Itype.TD => Some (TD c)
  | Itype.SC => Some SC
  | Itype.UNK => Some (UNK c)
  | Itype.MFSPR => Some (run_spr (Interp.MFSPR tb))
  | Itype.MFTB => Some (run_spr (Interp.MFTB tb))
  | Itype.MTSPR => Some (run_spr Interp.MTSPR)
  | Itype.ECIWX | Itype.ECOWX => Some (then_next (fun op => throw (ExternalControl op)))
  | _ => None
  end.

Definition table (c : cfg) (tb : Z) (i : itype) : option handler :=
  match Interp.fixed i with
  | Some f => Some (then_next (fun op => modify (f op)))
  | None =>
      match Mem.memory (use_feed_data c) i with
      | Some h => Some (then_next h)
      | None => control c tb i
      end
  end.

(** The D-form accesses that [ppu_interpreter_rt::decode] refuses with [ra = 0]. *)
Definition refuses_ra0 (i : itype) : bool :=
  match i with
  | Itype.LWZ | Itype.LBZ | Itype.STW | Itype.STB | Itype.LHZ | Itype.LHA | Itype.STH
  | Itype.LFS | Itype.LFD | Itype.STFS | Itype.STFD => true
  | _ => false
  end.

(** The switch of [ppu_interpreter_rt::decode]; [None] for the floating point and vector instructions
    and the reservation accesses. *)
Definition rt_select (c : cfg) (tb : Z) (i : itype) (opv : Z) : option handler :=
  if refuses_ra0 i && (opv.[f_ra] =? 0) then Some (fun op _ => throw (InvalidInstruction op))
  else match i with
       | Itype.MFOCRF =>
           if negb (opv.[f_l11] =? 0) then
             let n := countl_zero 32 opv.[f_crm] .& 7 in
             if negb (Z.shiftr 0x80 n =? opv.[f_crm])
             then Some (fun op _ => throw (InvalidMFOCRF op.[f_crm]))
             else Some (then_next (fun op => modify (Interp.MFOCRF n op)))
           else Some (then_next (fun op => modify (Interp.MFCR op)))
       | _ => table c tb i
       end.

Definition rt_decode (c : cfg) (tb opv : Z) : option handler := rt_select c tb (decode opv) opv.

(** ** Running instructions *)

(** [*vm::_ptr<u32>(addr)], a [be_t<u32>]. *)
Definition fetch (addr : Z) : M Z := bs ← vm_read addr 4; mret (be_value bs).

(** The handler that [decode] selected for the word [opv], called for [op] at [pc], up to its tail call. *)
Definition exec_as (c : cfg) (tb opv pc op : Z) : M outcome :=
  match rt_decode c tb opv return M outcome with
  | Some h => h op pc
  | None => mret (Unmodelled opv)
  end.

Definition exec_one (c : cfg) (tb pc op : Z) : M outcome := exec_as c tb op pc op.

(** The tail call with [next_fn = &ppu_ret], which reads [*next_op] and leaves [ppu.cia = vm::get_addr(next_op)]. *)
Definition ppu_ret (pc : Z) (o : outcome) : M outcome :=
  match o with
  | Next => fetch (pc + 4);; modify (fun ppu => with_cia ppu (u32 (pc + 4)));; mret Next
  | _ => mret o
  end.

(** [table.decode(op)(ppu, {op}, vm::_ptr<u32>(ppu.cia), &ppu_ret)]. *)
Definition step (c : cfg) (tb : Z) : M outcome :=
  pc ← gets cia;
  op ← fetch pc;
  o ← exec_one c tb pc op;
  ppu_ret pc o.

(** Single steps for as long as the instructions fall through, at most [n]; [tb i] is the time base when the
    [i]-th of them runs. *)
Fixpoint steps (c : cfg) (tb : nat -> Z) (n : nat) : M outcome :=
  match n with
  | O => mret Next
  | S n =>
      o ← step c (tb O);
      match o with Next => steps c (fun i => tb (S i)) n | _ => mret o end
  end.

(** The loop of [ppu_recompiler_fallback] for [n] instructions, while no recompiled function is found at [cia], the
    thread is not stopped, and they neither throw nor leave the interpreter. *)
Fixpoint run (c : cfg) (tb : Z) (n : nat) : M outcome :=
  match n with
  | O => mret Return
  | S n =>
      o ← step c tb;
      match o with Next | Return => run c tb n | _ => mret o end
  end.

(** ** The cached handlers *)

(** [ppu_read(addr)] and [next_fn->fn]. *)
Definition ppu_read (addr : Z) : X intrp_func := fun s =>
  match s.2 !! addr with Some fn => (inr fn, s) | None => (inl (NoCode addr), s) end.

(** [write_to_ptr_unsafe<ppu_intrp_func_t>(ppu_ptr(addr), fn)]. *)
Definition ppu_write (addr : Z) (fn : intrp_func) : X () := fun s =>
  match s.2 !! addr with
  | Some _ => (inr (), (s.1, <[addr := fn]> s.2))
  | None => (inl (NoCode addr), s)
  end.

(** [ppu_cache(addr)], the decoder set to the static interpreter. *)
Definition ppu_cache (addr : Z) : X Z := lift (fetch addr).

Definition ppu_fallback (c : cfg) (tb pc op : Z) : X outcome :=
  opv ← ppu_cache pc;
  ppu_write pc (Decoded opv);;
  lift (exec_as c tb opv pc op).

(** [fn(ppu, op, this_op, next_fn)]. *)
Definition call (c : cfg) (tb : Z) (fn : intrp_func) (pc op : Z) : X outcome :=
  match fn with
  | Fallback => ppu_fallback c tb pc op
  | Decoded opv => lift (exec_as c tb opv pc op)
  | Native f => mret (Calls f)
  end.

(** The tail calls [fn(ppu, {*next_op}, next_op, next_fn + 1)] from the call of [fn] for [op] at
    [pc], at most [n] instructions ([Next] when the chain is longer).  Nothing is mapped at
    or above [2^32], so [this_op] is represented by its low 32 bits. *)
Fixpoint chain (c : cfg) (tb : nat -> Z) (n : nat) (fn : intrp_func) (pc op : Z) : X outcome :=
  match n with
  | O => mret Next
  | S n =>
      o ← call c (tb O) fn pc op;
      match o with
      | Next =>
          next_fn ← ppu_read (pc + 4);
          next_op ← lift (fetch (pc + 4));
          chain c (fun i => tb (S i)) n next_fn (u32 (pc + 4)) next_op
      | _ => mret o
      end
  end.

(** One iteration of the loop of [ppu_thread::exec_task] after [test_stopped]:
    [fn->fn( *this, {*op}, op, state ? &ppu_ret : fn + 1)]. *)
Definition exec_task_iteration (c : cfg) (tb : nat -> Z) (n : nat) : X outcome :=
  pc ← lift (gets cia);
  fn ← ppu_read pc;
  op ← lift (fetch pc);
  state ← lift (gets cpu_state);
  if state =? 0 then chain c tb n fn pc op
  else o ← call c (tb O) fn pc op; lift (ppu_ret pc o).

(** The loop of [ppu_register_range] over [n] instructions, with the static interpreter. *)
Fixpoint register_cells (addr : Z) (n : nat) (k : exec_cache) : exec_cache :=
  match n with
  | O => k
  | S n => register_cells (u32 (addr + 4)) n (<[addr := Fallback]> k)
  end.

(** [utils::align(size + addr % 0x10000, 0x10000)] and [addr &= -0x10000].  That [vm::page_protect]
    succeeds is the caller's. *)
Definition ppu_register_range (addr size : Z) (k : exec_cache) : exec_cache :=
  if size =? 0 then k else
  let size := u32 (size + addr mod 0x10000 + 0xffff) .& u32 (-0x10000) in
  register_cells (addr .& u32 (-0x10000)) (Z.to_nat (size / 4)) k.

(** The loop of [ppu_register_function_at] over [n] instructions, which decodes them ahead of time. *)
Fixpoint decode_cells (addr : Z) (n : nat) : X () :=
  match n with
  | O => mret ()
  | S n =>
      old ← ppu_read addr;
      (match old with
       | Native PpuBreak | Native PpuFarJump => mret ()
       | _ => opv ← ppu_cache addr; ppu_write addr (Decoded opv)
       end : X ());;
      decode_cells (u32 (addr + 4)) n
  end.

(** With the static interpreter. *)
Definition ppu_register_function_at (addr size : Z) (ptr : option native) : X () :=
  match ptr with
  | Some f => ppu_write addr (Native f)
  | None =>
      if size =? 0 then mret () else
      let size := u32 (size + addr mod 4 + 3) .& u32 (-4) in
      decode_cells (addr .& u32 (-4)) (Z.to_nat (size / 4))
  end.

End Branch.
