(* ===== verification/PpuStep.v ===== *)
(** Invariants of instruction execution.

    The frame of every fixed-point handler, the invariant of the machine under one
    instruction of any modelled kind, and the equivalence of the two ways of running
    instructions: one at a time and in chains of tail calls. *)

From Stdlib Require Import ZArith Lia Bool.
From stdpp Require Import base tactics option list numbers gmap.
From S2P Require Import Prelude BitField PpuOpcodes PpuAsm PpuState PpuInt PpuIntWf PpuMem.
From S2P Require Import PpuBits PpuMemSpec PpuString PpuBranch.
Import BitField.
Local Open Scope Z_scope.
Local Open Scope word_scope.

(** ** Frame of the fixed-point handlers *)

(** The general, condition and exception registers of [p], everything else of [q]. *)
Definition transplant (p q : ppu_thread) : ppu_thread :=
  Ppu (gpr p) (cr p) (lr q) (ctr q) (vrsave q) (cia q) (xer p) (raddr q) (rdata q)
    (use_full_rdata q) (res_cached q) (cpu_state q) (exec_bytes q) (call_history q).

Lemma transplant_same p : transplant p p = p.
Proof. by destruct p. Qed.

Section frame.
  Context (p q : ppu_thread).

Lemma tr_gpr : gpr (transplant p q) = gpr p. Proof. done. Qed.
Lemma tr_cr : cr (transplant p q) = cr p. Proof. done. Qed.
Lemma tr_xer : xer (transplant p q) = xer p. Proof. done. Qed.
Lemma tr_cr_field n : cr_field (transplant p q) n = cr_field p n. Proof. done. Qed.
Lemma tr_set_gpr r v : set_gpr r v (transplant p q) = transplant (set_gpr r v p) q.
Proof. done. Qed.
Lemma tr_set_cr i b : set_cr i b (transplant p q) = transplant (set_cr i b p) q.
Proof. done. Qed.
Lemma tr_set_ca c : set_ca c (transplant p q) = transplant (set_ca c p) q.
Proof. done. Qed.
Lemma tr_set_cr_field n v : set_cr_field n v (transplant p q) = transplant (set_cr_field n v p) q.
Proof. done. Qed.
Lemma tr_cr_cmp n a b : Interp.ppu_cr_cmp n a b (transplant p q) =
  transplant (Interp.ppu_cr_cmp n a b p) q.
Proof. done. Qed.
Lemma tr_ov_set b : Interp.ppu_ov_set b (transplant p q) = transplant (Interp.ppu_ov_set b p) q.
Proof. done. Qed.
Lemma tr_record_cr0 rc v : Interp.record_cr0 rc v (transplant p q) =
  transplant (Interp.record_cr0 rc v p) q.
Proof. by destruct rc. Qed.
Lemma tr_if_oe oe b : Interp.if_oe oe b (transplant p q) = transplant (Interp.if_oe oe b p) q.
Proof. by destruct oe. Qed.

End frame.

Lemma tr_if (b : bool) p p' q : (if b then transplant p q else transplant p' q) =
  transplant (if b then p else p') q.
Proof. by destruct b. Qed.

Lemma tr_MTOCRF op p q : Interp.MTOCRF op (transplant p q) = transplant (Interp.MTOCRF op p) q.
Proof.
  unfold Interp.MTOCRF. rewrite tr_gpr. destruct (negb _); [done|].
  generalize [0; 1; 2; 3; 4; 5; 6; 7], (p.gpr[op.[f_rs]]). intros l s. revert p.
  induction l as [|i l IH]; intros p; [done|]. cbn [foldl].
  destruct (negb _); [rewrite tr_set_cr_field|]; apply IH.
Qed.

#[export] Hint Rewrite tr_gpr tr_cr tr_xer tr_cr_field tr_set_gpr tr_set_cr tr_set_ca
  tr_set_cr_field tr_cr_cmp tr_ov_set tr_record_cr0 tr_if_oe tr_if tr_MTOCRF : frame.

Ltac frame_handler :=
  cbv beta;
  lazymatch goal with
  | |- Interp.MTOCRF _ _ = _ => idtac
  | |- transplant _ _ = _ => idtac
  | |- ?t = _ => let f := head t in unfold f
  end; cbv zeta beta; autorewrite with frame;
  lazymatch goal with |- ?x = ?x => reflexivity end.

(** A fixed-point instruction reads and writes only GPR, CR and XER. *)
Lemma fixed_frame i h op p q : Interp.fixed i = Some h ->
  h op (transplant p q) = transplant (h op p) q.
Proof. intros E. destruct i; try discriminate E; injection E as <-; frame_handler. Qed.

Lemma fixed_rest i h op p : Interp.fixed i = Some h ->
  h op p = transplant (h op p) p.
Proof. intros E. rewrite <- (fixed_frame i h op p p E), transplant_same. done. Qed.

(** ** Computations that keep the invariant *)

(** [keeps Q m]: from a well-formed machine, [m] leaves a well-formed machine with the same
    mapped addresses and run flags, an aligned program counter and a sound call history, also when it
    throws; it does not fail an [ensure], and results satisfy [Q]. *)
Definition aligned (p : ppu_thread) : Prop := cia p mod 4 = 0.

(** A call history of full size, never written past its end. *)
Definition history_sound (p : ppu_thread) : bool :=
  (length (h_data (call_history p)) =? Z.to_nat call_history_max_size)%nat && negb (h_overrun (call_history p)).

(** The run flags and the soundness of the call history. *)
Definition status (p : ppu_thread) : Z * bool := (cpu_state p, history_sound p).

Definition stable (s s' : machine) : Prop :=
  wf_machine s' /\ dom (mem (vmem s')) = dom (mem (vmem s)) /\
  status (thread s') = status (thread s) /\ (aligned (thread s) -> aligned (thread s')).

Definition benign (e : fault) : bool := match e with EnsureFailed _ => false | _ => true end.

Definition keeps {A} (Q : A -> Prop) (m : M A) : Prop := forall s, wf_machine s ->
  stable s (m s).2 /\ match (m s).1 with inl e => benign e = true | inr x => Q x end.

Lemma stable_refl s : wf_machine s -> stable s s.
Proof. by intros. Qed.

Lemma stable_trans s1 s2 s3 : stable s1 s2 -> stable s2 s3 -> stable s1 s3.
Proof. intros (?&?&?&?) (?&?&?&?). split; [done|]. split; [congruence|]. split; [congruence|auto]. Qed.

Lemma keeps_ret {A} (Q : A -> Prop) x : Q x -> keeps Q (mret x).
Proof. intros Hx s Hs. by split; [apply stable_refl|]. Qed.

Lemma keeps_throw {A} (Q : A -> Prop) e : benign e = true -> keeps Q (throw e).
Proof. intros He s Hs. by split; [apply stable_refl|]. Qed.

Lemma keeps_bind {A B} (P : A -> Prop) (Q : B -> Prop) (m : M A) (k : A -> M B) :
  keeps P m -> (forall x, P x -> keeps Q (k x)) -> keeps Q (m ≫= k).
Proof.
  intros Hm Hk s Hs. rewrite bind_run. destruct (Hm s Hs) as [H1 H2].
  destruct (m s) as [[e|x] s']; cbn [fst snd] in *; [done|].
  destruct (Hk x H2 s' (proj1 H1)) as [H3 H4]. split; [by eapply stable_trans|done].
Qed.

Lemma keeps_weaken {A} (P Q : A -> Prop) m : (forall x, P x -> Q x) -> keeps P m -> keeps Q m.
Proof. intros H Hm s Hs. destruct (Hm s Hs) as [? Hx]. destruct (m s).1; auto. Qed.

Lemma keeps_gets {A} (Q : A -> Prop) f : (forall p, wf p -> Q (f p)) -> keeps Q (gets f).
Proof. intros H s Hs. split; [by apply stable_refl|]. apply H, Hs. Qed.

Lemma keeps_get_ppu : keeps wf get_ppu.
Proof. intros s Hs. split; [by apply stable_refl|]. apply Hs. Qed.

Lemma keeps_modify f :
  (forall p, wf p -> wf (f p) /\ status (f p) = status p /\ (aligned p -> aligned (f p))) ->
  keeps (fun _ => True) (modify f).
Proof.
  intros H s [Hp Hv]. destruct (H _ Hp) as (?&?&?). by split; [split; [|split]|].
Qed.

Lemma keeps_set_reg r v : in_u 64 v -> keeps (fun _ => True) (Mem.set_reg r v).
Proof. intros Hv. apply keeps_modify. intros p Hp. split; [by apply wf_set_gpr|done]. Qed.

Lemma keeps_cast a : 0 <= a -> keeps (in_u 32) (vm_cast a).
Proof.
  intros Ha. unfold vm_cast. destruct (Z.ltb_spec a (2 ^ 32)).
  - apply keeps_ret. unfold in_u. lia.
  - by apply keeps_throw.
Qed.

Definition bytes (n : nat) (bs : list Z) : Prop := length bs = n /\ Forall (in_u 8) bs.

Lemma read_bytes_wf v a n bs : wf_vm v -> read_bytes (mem v) a n = Some bs -> bytes n bs.
Proof.
  intros [Hv _] Hr. apply read_bytes_lookup in Hr as [Hl Hr]. split; [done|].
  apply Forall_lookup. intros i b Hb. pose proof (lookup_lt_Some _ _ _ Hb).
  rewrite <- Hr in Hb by lia. by apply (Hv _ _ Hb).
Qed.

Lemma keeps_vm_read a n : keeps (bytes n) (vm_read a n).
Proof.
  intros s Hs. unfold vm_read. destruct (read_bytes _ _ _) eqn:E.
  - split; [by apply stable_refl|]. cbn [fst]. eapply read_bytes_wf; [apply Hs|done].
  - by split; [apply stable_refl|].
Qed.

(** A write to mapped bytes maps nothing. *)
Lemma dom_write_bytes m a bs bs' : read_bytes m a (length bs) = Some bs' ->
  dom (write_bytes m a bs) = dom m.
Proof.
  intros [Hl Hr]%read_bytes_lookup. apply set_eq. intros k.
  rewrite !elem_of_dom, lookup_write_bytes. destruct (_ && _) eqn:E; [|done].
  assert (Z.to_nat (k - a) < length bs)%nat as Hlt by lia.
  specialize (Hr _ Hlt). replace (a + Z.of_nat (Z.to_nat (k - a))) with k in Hr by lia.
  rewrite Hr, !lookup_lt_is_Some. lia.
Qed.

Lemma keeps_vm_write a bs : Forall (in_u 8) bs -> keeps (fun _ => True) (vm_write a bs).
Proof.
  intros Hb s Hs. unfold vm_write. destruct (read_bytes _ _ _) eqn:E.
  - split; [|done]. cbn [snd]. destruct Hs as [Hp [Hm Hr]]. split; [|split].
    + split; [done|]. split; [|done]. by apply wf_write_bytes.
    + cbn [vmem mem]. by eapply dom_write_bytes.
    + done.
  - by split; [apply stable_refl|].
Qed.

Lemma keeps_feed uf n addr : (0 < n <= 128)%nat -> in_u 64 addr ->
  keeps (bytes n) (Mem.ppu_feed_data uf n addr).
Proof.
  intros Hn Ha s Hs. rewrite feed_data_spec by (try apply Hs; unfold in_u in Ha; lia).
  unfold feed_result. destruct (_ <=? _); [by split; [apply stable_refl|]|].
  destruct (read_bytes _ _ _) as [v|] eqn:E; [|by split; [apply stable_refl|]].
  cbn [fst snd]. split; [|by eapply read_bytes_wf; [apply Hs|]].
  destruct (_ && _); [|by apply stable_refl]. split; [|done].
  destruct Hs as [[] Hv]. split; [|done]. split; try done; unfold in_u; cbn; lia.
Qed.

Lemma keeps_reservation_update a : keeps (fun _ => True) (reservation_update a).
Proof.
  intros s Hs. unfold reservation_update. destruct (_ =? _); [|by split; [apply stable_refl|]].
  split; [|done]. cbn [snd]. destruct Hs as [Hp [Hm Hr]]. split; [|done]. split; [done|].
  split; [done|]. cbn [vmem reservations]. apply map_Forall_insert_2; [|done].
  apply wrap_in_u. lia.
Qed.

Create HintDb keeps discriminated.
#[export] Hint Resolve keeps_ret keeps_throw keeps_set_reg keeps_vm_read keeps_vm_write
  keeps_reservation_update keeps_feed keeps_cast : keeps.

(** *** Values *)

Lemma bytes_value n bs : bytes n bs -> (n <= 8)%nat -> in_u 64 (be_value bs).
Proof.
  intros [Hl Hb] Hn. apply (in_u_mono (8 * Z.of_nat n)); [lia|]. rewrite <- Hl.
  by apply be_value_in_u.
Qed.

Lemma bytes_le_value n bs : bytes n bs -> (n <= 8)%nat -> in_u 64 (Mem.from_le bs).
Proof.
  intros [Hl Hb] Hn. apply (bytes_value n); [|done]. split; [by rewrite length_reverse|].
  by apply Forall_reverse.
Qed.

Lemma to_be_bytes n v : Forall (in_u 8) (Mem.to_be n v).
Proof. apply be_bytes_u8. Qed.

Lemma to_le_bytes n v : Forall (in_u 8) (Mem.to_le n v).
Proof. apply Forall_reverse, be_bytes_u8. Qed.

(** *** Loads and stores *)

Lemma keeps_load uf n conv ea op : (0 < n <= 8)%nat -> (forall p, wf p -> in_u 64 (ea op p)) ->
  (forall bs, bytes n bs -> in_u 64 (conv bs)) ->
  keeps (fun _ => True) (Mem.load uf n conv ea op).
Proof.
  intros Hn He Hc. eapply keeps_bind; [by apply keeps_gets|]. intros addr Ha.
  eapply keeps_bind; [apply keeps_feed; [lia|exact Ha]|]. intros v Hv. auto with keeps.
Qed.

Lemma keeps_load_update uf n conv ea op : (0 < n <= 8)%nat ->
  (forall p, wf p -> in_u 64 (ea op p)) -> (forall bs, bytes n bs -> in_u 64 (conv bs)) ->
  keeps (fun _ => True) (Mem.load_update uf n conv ea op).
Proof.
  intros Hn He Hc. eapply keeps_bind; [by apply keeps_gets|]. intros addr Ha.
  eapply keeps_bind; [apply keeps_feed; [lia|exact Ha]|]. intros v Hv.
  eapply keeps_bind; [auto with keeps|]. intros _ _. auto with keeps.
Qed.

Lemma keeps_store conv ea op : (forall p, wf p -> in_u 64 (ea op p)) ->
  (forall v, Forall (in_u 8) (conv v)) -> keeps (fun _ => True) (Mem.store conv ea op).
Proof.
  intros He Hc. eapply keeps_bind; [by apply keeps_gets|]. intros addr Ha.
  eapply keeps_bind; [by apply (keeps_gets (fun _ => True))|]. intros v _.
  eapply keeps_bind; [apply keeps_cast, Ha|]. intros a _. auto with keeps.
Qed.

Lemma keeps_store_update conv ea op : (forall p, wf p -> in_u 64 (ea op p)) ->
  (forall v, Forall (in_u 8) (conv v)) -> keeps (fun _ => True) (Mem.store_update conv ea op).
Proof.
  intros He Hc. eapply keeps_bind; [by apply keeps_gets|]. intros addr Ha.
  eapply keeps_bind; [by apply (keeps_gets (fun _ => True))|]. intros v _.
  eapply keeps_bind; [apply keeps_cast, Ha|]. intros a _.
  eapply keeps_bind; [auto with keeps|]. intros _ _. auto with keeps.
Qed.

(** *** String and multiple forms *)

Lemma keeps_lswx_bytes uf k byte addr value : in_u 64 value ->
  keeps (in_u 64) (Mem.lswx_bytes uf k byte addr value).
Proof.
  revert byte value. induction k as [|k IH]; intros byte value Hv; [by apply keeps_ret|].
  cbn [Mem.lswx_bytes]. eapply keeps_bind; [apply keeps_feed; [lia|apply wrap_in_u; lia]|].
  intros b _. apply IH. apply lor_in_u; [lia|done|].
  apply (in_u_mono 32); [lia|apply wrap_in_u; lia].
Qed.

Lemma keeps_lswx_words uf k rd addr : in_u 64 addr ->
  keeps (fun x => in_u 64 x.2) (Mem.lswx_words uf k rd addr).
Proof.
  revert rd addr. induction k as [|k IH]; intros rd addr Ha; [by apply keeps_ret|].
  cbn [Mem.lswx_words]. eapply keeps_bind; [apply keeps_feed; [lia|exact Ha]|].
  intros v Hv. eapply keeps_bind; [apply keeps_set_reg, (bytes_value 4); [done|lia]|].
  intros _ _. apply IH, wrap_in_u. lia.
Qed.

Lemma keeps_load_core uf N rd addr : in_u 64 addr -> keeps (fun _ => True) (load_core uf N rd addr).
Proof.
  intros Ha. unfold load_core. eapply keeps_bind; [by apply keeps_lswx_words|].
  intros [r a] _. destruct (negb _); [|by apply keeps_ret].
  eapply keeps_bind; [apply keeps_lswx_bytes, in_u_0; lia|]. auto with keeps.
Qed.

Lemma keeps_stswx_bytes k byte addr value : keeps (fun _ => True) (Mem.stswx_bytes k byte addr value).
Proof.
  revert byte. induction k as [|k IH]; intros byte; [by apply keeps_ret|].
  cbn [Mem.stswx_bytes]. eapply keeps_bind; [apply keeps_cast, (wrap_in_u 64); lia|].
  intros a _. eapply keeps_bind; [|intros _ _; apply IH].
  apply keeps_vm_write. repeat constructor; apply (wrap_in_u 8); lia.
Qed.

Lemma keeps_stswx_words k rs addr : in_u 64 addr ->
  keeps (fun x => in_u 64 x.2) (Mem.stswx_words k rs addr).
Proof.
  revert rs addr. induction k as [|k IH]; intros rs addr Ha; [by apply keeps_ret|].
  cbn [Mem.stswx_words]. eapply keeps_bind; [apply keeps_cast, Ha|]. intros a _.
  eapply keeps_bind; [by apply (keeps_gets (fun _ => True))|]. intros v _.
  eapply keeps_bind; [apply keeps_vm_write, to_be_bytes|]. intros _ _. apply IH, wrap_in_u. lia.
Qed.

Lemma keeps_store_core N rs addr : in_u 64 addr -> keeps (fun _ => True) (store_core N rs addr).
Proof.
  intros Ha. unfold store_core. eapply keeps_bind; [by apply keeps_stswx_words|].
  intros [r a] _. destruct (negb _); [|by apply keeps_ret].
  eapply keeps_bind; [by apply (keeps_gets (fun _ => True))|]. intros v _. apply keeps_stswx_bytes.
Qed.

Lemma keeps_string_load uf f op : keeps (fun _ => True) (string_load uf f op).
Proof.
  intros s Hs. rewrite string_load_core by apply Hs. apply keeps_load_core; [|done].
  apply string_ea_range, Hs.
Qed.

Lemma keeps_string_store f op : keeps (fun _ => True) (string_store f op).
Proof.
  intros s Hs. rewrite string_store_core by apply Hs. apply keeps_store_core; [|done].
  apply string_ea_range, Hs.
Qed.

Lemma keeps_STW op : keeps (fun _ => True) (Mem.STW op).
Proof.
  unfold Mem.STW. eapply keeps_bind;
    [apply (keeps_gets (in_u 64)); intros; apply ea_range; [done|simpl; tauto]|]. intros addr Ha.
  eapply keeps_bind; [by apply (keeps_gets (fun _ => True))|]. intros v _.
  eapply keeps_bind; [apply keeps_cast, Ha|]. intros a _.
  eapply keeps_bind; [apply keeps_vm_write, to_be_bytes|]. intros _ _.
  destruct (_ =? _); [|by apply keeps_ret].
  eapply keeps_bind; [apply keeps_cast, Ha|]. auto with keeps.
Qed.

Lemma keeps_DCBZ op : keeps (fun _ => True) (Mem.DCBZ op).
Proof.
  unfold Mem.DCBZ. eapply keeps_bind;
    [apply (keeps_gets (in_u 64)); intros; apply ea_range; [done|simpl; tauto]|]. intros addr Ha.
  eapply keeps_bind; [apply keeps_cast, Ha|]. intros a _.
  apply keeps_vm_write, Forall_replicate. unfold in_u. lia.
Qed.

Ltac ea_in_u := intros ? ?; apply ea_range; [assumption|simpl; tauto].

Ltac value_in_u := let Hb := fresh in intros ? Hb;
  lazymatch goal with
  | |- in_u 64 (Mem.from_be _) => exact (bytes_value _ _ Hb ltac:(lia))
  | |- in_u 64 (Mem.from_le _) => exact (bytes_le_value _ _ Hb ltac:(lia))
  | |- in_u 64 (Mem.from_be_s16 _) => apply wrap_in_u; lia
  | |- in_u 64 (Mem.from_be_s32 _) => apply wrap_in_u; lia
  end.

Ltac stored_bytes := intros ?; first [apply to_be_bytes | apply to_le_bytes].

Ltac keeps_access :=
  lazymatch goal with
  | |- keeps _ (Mem.load _ _ _ _ _) => apply keeps_load; [lia|ea_in_u|value_in_u]
  | |- keeps _ (Mem.load_update _ _ _ _ _) => apply keeps_load_update; [lia|ea_in_u|value_in_u]
  | |- keeps _ (Mem.store _ _ _) => apply keeps_store; [ea_in_u|stored_bytes]
  | |- keeps _ (Mem.store_update _ _ _) => apply keeps_store_update; [ea_in_u|stored_bytes]
  | |- keeps _ (Mem.STW _) => apply keeps_STW
  | |- keeps _ (Mem.DCBZ _) => apply keeps_DCBZ
  | |- keeps _ (Mem.LSWI ?u ?o) => exact (keeps_string_load u SWI o)
  | |- keeps _ (Mem.LSWX ?u ?o) => exact (keeps_string_load u SWX o)
  | |- keeps _ (Mem.LMW ?u ?o) => exact (keeps_string_load u MW o)
  | |- keeps _ (Mem.STSWI ?o) => exact (keeps_string_store SWI o)
  | |- keeps _ (Mem.STSWX ?o) => exact (keeps_string_store SWX o)
  | |- keeps _ (Mem.STMW ?o) => exact (keeps_string_store MW o)
  | |- keeps _ ?t => let f := head t in unfold f; keeps_access
  end.

Lemma memory_keeps uf i h op : Mem.memory uf i = Some h -> keeps (fun _ => True) (h op).
Proof. intros E. destruct i; try discriminate E; injection E as <-; keeps_access. Qed.

(** ** Instructions that do not look at the program counter *)

(** [s] with another program counter and another count of executed bytes. *)
Definition at_pc (c e : Z) (p : ppu_thread) : ppu_thread := with_exec_bytes (with_cia p c) e.
Definition mach_at (c e : Z) (s : machine) : machine := Mach (at_pc c e (thread s)) (vmem s).

Definition pc_free {A} (m : M A) : Prop := forall s c e,
  m (mach_at c e s) = let '(r, s') := m s in (r, mach_at c e s').

Lemma pc_free_ret {A} (x : A) : pc_free (mret x).
Proof. done. Qed.

Lemma pc_free_throw {A} e : pc_free (throw e : M A).
Proof. done. Qed.

Lemma pc_free_bind {A B} (m : M A) (k : A -> M B) :
  pc_free m -> (forall x, pc_free (k x)) -> pc_free (m ≫= k).
Proof.
  intros Hm Hk s c e. rewrite !bind_run, Hm. destruct (m s) as [[x|x] s']; [done|]. apply Hk.
Qed.

Lemma pc_free_gets {A} (f : ppu_thread -> A) : (forall c e p, f (at_pc c e p) = f p) ->
  pc_free (gets f).
Proof. intros H s c e. unfold gets. cbn [mach_at thread]. by rewrite H. Qed.

Lemma pc_free_modify f : (forall c e p, f (at_pc c e p) = at_pc c e (f p)) -> pc_free (modify f).
Proof. intros H s c e. unfold modify. cbn [mach_at thread vmem]. by rewrite H. Qed.

Lemma pc_free_cast a : pc_free (vm_cast a).
Proof. unfold vm_cast. by destruct (_ <? _). Qed.

Lemma pc_free_read a n : pc_free (vm_read a n).
Proof. intros s c e. unfold vm_read. cbn [mach_at vmem]. by destruct (read_bytes _ _ _). Qed.

Lemma pc_free_write a bs : pc_free (vm_write a bs).
Proof. intros s c e. unfold vm_write. cbn [mach_at vmem]. by destruct (read_bytes _ _ _). Qed.

Lemma pc_free_update a : pc_free (reservation_update a).
Proof. intros s c e. unfold reservation_update. cbn [mach_at vmem thread]. by destruct (_ =? _). Qed.

Lemma pc_free_set_reg r v : pc_free (Mem.set_reg r v).
Proof. by apply pc_free_modify. Qed.

Lemma pc_free_get {A} (k : ppu_thread -> M A) : (forall p, pc_free (k p)) ->
  (forall c e p, k (at_pc c e p) = k p) -> pc_free (get_ppu ≫= k).
Proof.
  intros Hk Hp s c e. rewrite !bind_run. cbn [get_ppu]. cbn [mach_at thread]. rewrite Hp. apply Hk.
Qed.

#[export] Hint Resolve pc_free_ret pc_free_throw pc_free_bind pc_free_gets pc_free_cast pc_free_read
  pc_free_write pc_free_update pc_free_set_reg : keeps.

Lemma pc_free_feed uf n addr : pc_free (Mem.ppu_feed_data uf n addr).
Proof.
  unfold Mem.ppu_feed_data. apply pc_free_bind; [auto with keeps|]. intros a.
  apply pc_free_bind; [auto with keeps|]. intros v. apply pc_free_get; [|done]. intros p.
  assert (pc_free (Mem.lose_reservation;; mret v)) as Hl.
  { apply pc_free_bind; [by apply pc_free_modify|auto with keeps]. }
  destruct (negb uf); [auto with keeps|]. destruct (negb (use_full_rdata p)); [auto with keeps|].
  cbv zeta. destruct (_ || _); [auto with keeps|]. destruct (_ || _).
  - case_bool_decide; auto with keeps.
  - destruct (raddr p / 128 =? addr / 128); case_bool_decide; auto with keeps.
Qed.

#[export] Hint Resolve pc_free_feed : keeps.

Lemma pc_free_lswx_bytes uf k byte addr v : pc_free (Mem.lswx_bytes uf k byte addr v).
Proof. revert byte v. induction k; intros; cbn [Mem.lswx_bytes]; auto with keeps. Qed.

Lemma pc_free_lswx_words uf k rd addr : pc_free (Mem.lswx_words uf k rd addr).
Proof. revert rd addr. induction k; intros; cbn [Mem.lswx_words]; auto with keeps. Qed.

Lemma pc_free_lswi_bytes uf k i addr v : pc_free (Mem.lswi_bytes uf k i addr v).
Proof. revert i addr v. induction k; intros; cbn [Mem.lswi_bytes]; auto with keeps. Qed.

Lemma pc_free_lswi_loop uf k addr N reg : pc_free (Mem.lswi_loop uf k addr N reg).
Proof.
  revert addr N reg. induction k; intros; cbn [Mem.lswi_loop]; [auto with keeps|].
  destruct (0 <? N); [|auto with keeps]. destruct (3 <? N); [auto with keeps|].
  apply pc_free_bind; [apply pc_free_lswi_bytes|]. intros [b a]. auto with keeps.
Qed.

Lemma pc_free_lmw uf k i addr : pc_free (Mem.lmw_loop uf k i addr).
Proof. revert i addr. induction k; intros; cbn [Mem.lmw_loop]; auto with keeps. Qed.

Lemma pc_free_stmw k i addr : pc_free (Mem.stmw_loop k i addr).
Proof. revert i addr. induction k; intros; cbn [Mem.stmw_loop]; auto 8 with keeps. Qed.

Lemma pc_free_stswx_bytes k byte addr v : pc_free (Mem.stswx_bytes k byte addr v).
Proof. revert byte. induction k; intros; cbn [Mem.stswx_bytes]; auto with keeps. Qed.

Lemma pc_free_stswx_words k rs addr : pc_free (Mem.stswx_words k rs addr).
Proof. revert rs addr. induction k; intros; cbn [Mem.stswx_words]; auto 8 with keeps. Qed.

Lemma pc_free_stswi_bytes k addr v : pc_free (Mem.stswi_bytes k addr v).
Proof. revert addr v. induction k; intros; cbn [Mem.stswi_bytes]; auto with keeps. Qed.

Lemma pc_free_stswi_loop k addr N reg : pc_free (Mem.stswi_loop k addr N reg).
Proof.
  revert addr N reg. induction k; intros; cbn [Mem.stswi_loop]; [auto with keeps|].
  destruct (0 <? N); [|auto with keeps]. destruct (3 <? N); [auto 8 with keeps|].
  apply pc_free_bind; [by apply pc_free_gets|]. intros v.
  apply pc_free_bind; [apply pc_free_stswi_bytes|]. intros a. auto with keeps.
Qed.

#[export] Hint Resolve pc_free_lswx_bytes pc_free_lswx_words pc_free_lswi_loop pc_free_lmw pc_free_stmw
  pc_free_stswx_bytes pc_free_stswx_words pc_free_stswi_loop : keeps.

Ltac pc_free_solve :=
  cbv zeta;
  lazymatch goal with
  | |- pc_free (_ ≫= _) => apply pc_free_bind; [pc_free_solve|intros; pc_free_solve]
  | |- pc_free (gets _) => apply pc_free_gets; reflexivity
  | |- pc_free (if _ then _ else _) => case_match; pc_free_solve
  | |- pc_free (let '(_, _) := ?x in _) => destruct x; pc_free_solve
  | |- pc_free (modify _) => apply pc_free_modify; reflexivity
  | |- _ => auto with keeps
  end.

Lemma memory_pc_free uf i h op : Mem.memory uf i = Some h -> pc_free (h op).
Proof.
  intros E. destruct i; try discriminate E; injection E as <-;
    lazymatch goal with |- pc_free ?t => let f := head t in unfold f end;
    unfold Mem.load, Mem.load_update, Mem.store, Mem.store_update; pc_free_solve.
Qed.

Lemma fixed_pc_free i h op : Interp.fixed i = Some h -> pc_free (modify (h op)).
Proof.
  intros E. apply pc_free_modify. intros c e p.
  pose proof (fixed_frame i h op p (at_pc c e p) E) as H.
  rewrite <- (transplant_same (at_pc c e p)).
  change (transplant (at_pc c e p) (at_pc c e p)) with (transplant p (at_pc c e p)).
  rewrite H. by rewrite (fixed_rest i h op p E) at 2.
Qed.

Lemma pc_free_cia {A} (m : M A) s : pc_free m ->
  cia (thread (m s).2) = cia (thread s) /\ exec_bytes (thread (m s).2) = exec_bytes (thread s).
Proof.
  intros Hm. pose proof (Hm s (cia (thread s)) (exec_bytes (thread s))) as H.
  replace (mach_at (cia (thread s)) (exec_bytes (thread s)) s) with s in H by by destruct s as [[] ?].
  destruct (m s) as [r s']. injection H as H. rewrite H at 1 2. done.
Qed.

(** ** The common shape of the branches *)

Definition finish (link old_cia : Z) (taken : bool) (jumped : ppu_thread) (target : Z)
    (fallen : ppu_thread) : outcome * ppu_thread :=
  if taken then (Return, Branch.count_bytes link old_cia (with_cia jumped target))
  else if cpu_state fallen =? 0 then (Next, fallen)
  else (Return, Branch.count_bytes link old_cia (with_cia fallen link)).

(** The state after the count and link registers are updated. *)
Definition linked (op pc : Z) (p : ppu_thread) : ppu_thread :=
  if negb (op.[f_lk] =? 0) then with_lr p (u32 (pc + 4)) else p.
Definition counted (op : Z) (p : ppu_thread) : ppu_thread :=
  with_ctr p (u64 (ctr p - b2z (xorb (Branch.bo_bit op 0x04) true))).

(** The condition on the decremented count and the CR bit. *)
Definition bo_taken (op : Z) (p : ppu_thread) : bool :=
  (Branch.bo_bit op 0x04 || xorb (negb (ctr (counted op p) =? 0)) (Branch.bo_bit op 0x02)) &&
  (Branch.bo_bit op 0x10 || xorb (negb (p.cr[op.[f_bi]] =? 0)) (xorb (Branch.bo_bit op 0x08) true)).

Lemma cia_record_call flag a op ind p : cia (Branch.record_call flag a op ind p) = cia p.
Proof. unfold Branch.record_call. repeat case_match; done. Qed.

Lemma BC_finish c op pc p :
  Branch.BC c op pc p =
  let q := linked op pc (counted op p) in
  finish (u32 (pc + 4)) (cia p) (bo_taken op p)
    (Branch.record_call (set_call_history c) pc op false (with_cia q pc))
    (u32 ((if negb (op.[f_aa] =? 0) then 0 else pc) + op.[f_bt14])) q.
Proof.
  unfold Branch.BC, finish, linked, bo_taken. cbv zeta. rewrite cia_record_call.
  by destruct (negb (op.[f_lk] =? 0)).
Qed.

Lemma BCLR_finish c op pc p :
  Branch.BCLR c op pc p =
  let q := linked op pc (counted op p) in
  finish (u32 (pc + 4)) (cia p) (bo_taken op p)
    (Branch.record_call (set_call_history c) (u32 (lr p) .& -4) op true q) (u32 (lr p) .& -4) q.
Proof.
  unfold Branch.BCLR, finish, linked, bo_taken. cbv zeta. by destruct (negb (op.[f_lk] =? 0)).
Qed.

Lemma BCCTR_finish c op pc p :
  Branch.BCCTR c op pc p =
  let q := linked op pc p in
  finish (u32 (pc + 4)) (cia p)
    (Branch.bo_bit op 0x10 || (p.cr[op.[f_bi]] =? b2z (Branch.bo_bit op 0x8)))
    (Branch.record_call (set_call_history c) (u32 (ctr p) .& -4) op true q) (u32 (ctr p) .& -4) q.
Proof.
  unfold Branch.BCCTR, finish, linked. cbv zeta. by destruct (negb (op.[f_lk] =? 0)).
Qed.

Lemma B_finish c op pc p :
  Branch.B c op pc p =
  finish (u32 (pc + 4)) (cia p) true
    (linked op pc (Branch.record_call (set_call_history c) pc op false (with_cia p pc)))
    (u32 ((if negb (op.[f_aa] =? 0) then 0 else pc) + op.[f_bt24])) p.
Proof.
  unfold Branch.B, finish, linked. cbv zeta. rewrite cia_record_call.
  by destruct (negb (op.[f_lk] =? 0)).
Qed.

(** ** Control flow keeps the invariant *)

Lemma wf_with_cia p v : wf p -> in_u 32 v -> wf (with_cia p v).
Proof. by intros [] Hv. Qed.
Lemma wf_with_ctr p v : wf p -> in_u 64 v -> wf (with_ctr p v).
Proof. by intros [] Hv. Qed.
Lemma wf_with_lr p v : wf p -> in_u 64 v -> wf (with_lr p v).
Proof. by intros [] Hv. Qed.
Lemma wf_count_bytes l o p : wf p -> wf (Branch.count_bytes l o p).
Proof. intros []. split; try done. apply wrap_in_u. lia. Qed.

Lemma wf_record_call flag a op ind p : wf p -> in_u 32 a -> wf (Branch.record_call flag a op ind p).
Proof.
  intros Hp Ha. pose proof (gpr_in_u p 1 Hp). pose proof (gpr_in_u p 2 Hp).
  destruct (wf_hist p Hp) as (Hi & H1 & H2 & Hl & Hd).
  unfold Branch.record_call. cbv zeta. destruct (negb flag); [done|].
  destruct (_ =? _)%nat; [done|]. destruct (op.[f_lk] =? 0); [destruct (_ && _); [|done]|].
  all: destruct Hp; split; try done; cbn [call_history with_history h_index h_last_r1 h_last_r2 h_data];
    rewrite length_set; (split; [apply wrap_in_u; lia|]);
    repeat (split; [done || (unfold in_u; lia)|]); by apply set_Forall.
Qed.

Lemma overrun_sound h i x : let i := i mod call_history_max_size in
  (length (set (h_data h) i x) =? Z.to_nat call_history_max_size)%nat &&
    negb (h_overrun h || (Z.of_nat (length (h_data h)) <=? i)) =
  (length (h_data h) =? Z.to_nat call_history_max_size)%nat && negb (h_overrun h).
Proof.
  cbv zeta. rewrite length_set.
  destruct (Nat.eqb_spec (length (h_data h)) (Z.to_nat call_history_max_size)) as [->|]; [|done].
  pose proof (Z.mod_pos_bound i call_history_max_size ltac:(done)). unfold call_history_max_size in *.
  destruct (Z.leb_spec (Z.of_nat (Z.to_nat 4096)) (i mod 4096)); [lia|]. by rewrite orb_false_r.
Qed.

Lemma status_record_call flag a op ind p :
  status (Branch.record_call flag a op ind p) = status p.
Proof.
  unfold Branch.record_call, status, history_sound. cbv zeta. destruct (negb flag); [done|].
  destruct (_ =? 0)%nat; [done|]. destruct (op.[f_lk] =? 0); [destruct (_ && _); [|done]|];
    cbn [cpu_state call_history with_history h_data h_overrun]; f_equal; apply overrun_sound.
Qed.

Lemma wf_linked op pc p : wf p -> wf (linked op pc p).
Proof.
  intros Hp. unfold linked. destruct (negb _); [|done]. apply wf_with_lr; [done|].
  apply (in_u_mono 32); [lia|apply wrap_in_u; lia].
Qed.
Lemma wf_counted op p : wf p -> wf (counted op p).
Proof. intros. apply wf_with_ctr; [done|apply wrap_in_u; lia]. Qed.
Lemma cia_linked op pc p : cia (linked op pc p) = cia p.
Proof. unfold linked. by destruct (negb _). Qed.
Lemma status_linked op pc p : status (linked op pc p) = status p.
Proof. unfold linked. by destruct (negb _). Qed.

Lemma target_in_u x : in_u 32 (u32 x .& -4).
Proof. apply land_in_u_l; [lia|apply wrap_in_u; lia]. Qed.

(** The displacements: the sign-extended field with two zero bits appended. *)
Lemma bt14_val op : op.[f_bt14] = sgn 14 (Z.shiftr op 2) * 4.
Proof.
  refine (eq_trans (cf_extract_scaled (ppu_bf true 16 14) 2 op _ eq_refl _ _) _);
    [unfold valid; simpl; lia|lia|simpl; lia|].
  rewrite extract_mod by (unfold valid; simpl; lia). reflexivity.
Qed.

Lemma bt24_val op : op.[f_bt24] = sgn 24 (Z.shiftr op 2) * 4.
Proof.
  refine (eq_trans (cf_extract_scaled (ppu_bf true 6 24) 2 op _ eq_refl _ _) _);
    [unfold valid; simpl; lia|lia|simpl; lia|].
  rewrite extract_mod by (unfold valid; simpl; lia). reflexivity.
Qed.

Lemma u32_mod4 x : u32 x mod 4 = x mod 4.
Proof. unfold wrap. apply Z.mod_mod_divide. by exists (2 ^ 30). Qed.

Lemma land_m4 x : (x .& -4) mod 4 = 0.
Proof.
  change ((x .& -4) mod 4) with ((x .& -4) mod 2 ^ 2). rewrite <- Z.land_ones by lia.
  rewrite <- Z.land_assoc. change (-4 .& Z.ones 2) with 0. apply Z.land_0_r.
Qed.

Lemma keeps_finish f op pc link taken jumped target fallen :
  (forall p, f op pc p = finish link (cia p) (taken p) (jumped p) (target p) (fallen p)) ->
  in_u 32 link -> link mod 4 = 0 ->
  (forall p, wf p -> wf (jumped p) /\ wf (fallen p) /\ (in_u 32 (target p) /\ target p mod 4 = 0) /\
    status (jumped p) = status p /\ status (fallen p) = status p /\
    cia (fallen p) = cia p) ->
  keeps (fun _ => True) (Branch.run_branch f op pc).
Proof.
  intros Hf Hl Hl4 Hw s [Hp Hv]. destruct (Hw _ Hp) as (Hj & Hfl & [Ht Ht4] & Ej & Ef & Ec).
  unfold Branch.run_branch. rewrite Hf. unfold finish.
  destruct (taken _); [|destruct (_ =? 0)]; (split; [|done]);
    (split; [split; [|done]|split; [done|split; [done|]]]); cbn [snd thread]; try done;
    unfold aligned; try congruence; by apply wf_count_bytes, wf_with_cia.
Qed.

Lemma keeps_branch c i h op pc : In (i, h)
    [(Itype.BC, Branch.BC c); (Itype.B, Branch.B c);
     (Itype.BCLR, Branch.BCLR c); (Itype.BCCTR, Branch.BCCTR c)] -> in_u 32 pc -> pc mod 4 = 0 ->
  keeps (fun _ => True) (Branch.run_branch h op pc).
Proof.
  intros Hi Hpc H4. assert (in_u 32 (u32 (pc + 4))) as Hl by (apply wrap_in_u; lia).
  assert (u32 (pc + 4) mod 4 = 0) as Hl4 by (rewrite u32_mod4; Z.div_mod_to_equations; lia).
  destruct Hi as [[= <- <-]|[[= <- <-]|[[= <- <-]|[[= <- <-]|[]]]]];
    (eapply keeps_finish; [intros p; first [apply BC_finish|apply B_finish|apply BCLR_finish|
       apply BCCTR_finish]|done|done|]); intros p Hp; cbv beta;
    rewrite ?status_linked, ?status_record_call, ?cia_linked;
    repeat match goal with |- _ /\ _ => split end; try done;
    try (apply wrap_in_u; lia); try apply target_in_u; try apply land_m4;
    try (rewrite u32_mod4, ?bt14_val, ?bt24_val; destruct (negb _); Z.div_mod_to_equations; lia);
    try exact (status_linked op pc _);
    auto 6 using wf_linked, wf_counted, wf_record_call, wf_with_cia, target_in_u.
Qed.

Lemma ppu_trap_run c a s :
  Branch.ppu_trap c a s =
  let pc := u32 a in
  let add := u32 (u32 (stub_ppu_traps c) * 4) in
  if negb (a .& (Z.lnot 0xffffffff .| 3) =? 0) then (inl (EnsureFailed a), s)
  else if (add =? 0) || negb (Branch.check_addr c pc Branch.page_executable) ||
          negb (Branch.check_addr c (u32 (pc + add)) Branch.page_executable)
       then (inl (PpuTrap pc), Mach (with_cia (thread s) pc) (vmem s))
       else (inr (), Mach (with_cia (thread s) (u32 (pc + add))) (vmem s)).
Proof.
  unfold Branch.ppu_trap. cbv zeta. destruct (negb _); [done|]. rewrite !bind_run. cbn [modify].
  rewrite bind_run. cbn [gets thread cia with_cia]. by destruct (_ || _).
Qed.

Lemma aligned_ensure pc : in_u 32 pc -> pc mod 4 = 0 -> pc .& (Z.lnot 0xffffffff .| 3) = 0.
Proof.
  intros Hpc H4. apply Z.bits_inj'. intros i Hi.
  rewrite Z.land_spec, Z.lor_spec, Z.lnot_spec, Z.bits_0 by lia.
  change 0xffffffff with (Z.ones 32). change 3 with (Z.ones 2). rewrite !testbit_ones by lia.
  destruct (Z.ltb_spec i 2).
  - replace (Z.testbit pc i) with (Z.testbit (pc mod 2 ^ 2) i) by (apply Z.mod_pow2_bits_low; lia).
    change (2 ^ 2) with 4. by rewrite H4, Z.bits_0.
  - destruct (Z.ltb_spec i 32); [case_cmp; simpl; by rewrite andb_false_r|].
    by rewrite (testbit_high 32 pc) by (done || lia).
Qed.

Lemma keeps_trap c pc (cond : ppu_thread -> bool) : in_u 32 pc -> pc mod 4 = 0 ->
  keeps (fun _ => True) (ppu ← get_ppu; Branch.trap c pc (cond ppu)).
Proof.
  intros Hpc H4. eapply keeps_bind; [apply keeps_get_ppu|]. intros p _.
  unfold Branch.trap. destruct (cond p); [|by apply keeps_ret].
  eapply (keeps_bind (fun _ => True)); [|intros; by apply keeps_ret].
  intros s [Hp Hv]. rewrite ppu_trap_run. cbv zeta. rewrite aligned_ensure by done. cbn [negb Z.eqb].
  destruct (_ || _); (split; [|done]); cbn [snd]; (split; [split; [|done]|]).
  - apply wf_with_cia; [done|apply wrap_in_u; lia].
  - split; [done|]. split; [done|]. intros _. unfold aligned. cbn [thread cia with_cia].
    by rewrite u32_mod4.
  - apply wf_with_cia; [done|apply wrap_in_u; lia].
  - split; [done|]. split; [done|]. intros _. unfold aligned. cbn [thread cia with_cia].
    rewrite u32_mod4, Zplus_mod, !u32_mod4, H4, Z.mul_mod, Z.mod_same by lia.
    by rewrite Z.mul_0_r.
Qed.

Lemma keeps_arrive pc : in_u 32 pc -> pc mod 4 = 0 -> keeps (fun _ => True) (modify (Branch.arrive pc)).
Proof.
  intros Hpc H4. apply keeps_modify. intros p Hp.
  split; [by apply wf_count_bytes, wf_with_cia|done].
Qed.

Lemma keeps_spr f op : (forall p, wf p -> match f op p with
    | inl e => benign e = true
    | inr q => wf q /\ status q = status p /\ cia q = cia p end) -> forall pc,
  keeps (fun _ => True) (Branch.run_spr f op pc).
Proof.
  intros Hf pc. eapply (keeps_bind (fun _ => True)); [|intros; by apply keeps_ret].
  intros s [Hp Hv]. specialize (Hf _ Hp). destruct (f op (thread s)) as [e|q].
  - by split; [apply stable_refl|].
  - destruct Hf as (Hq & Es & Ec). split; [|done]. split; [done|].
    split; [done|]. split; [done|]. unfold aligned. cbn [snd thread]. by rewrite Ec.
Qed.

Lemma xer_image_in_u x : in_u 7 (cnt x) -> in_u 64 (Interp.xer_image x).
Proof.
  intros Hc. unfold Interp.xer_image.
  assert (forall b k, 0 <= k < 63 -> in_u 64 (Z.shiftl (b2z b) k)) as Hb.
  { intros b k Hk. apply (in_u_mono (1 + k)); [lia|]. apply shiftl_in_u; [lia|lia|].
    pose proof (b2z_range b). unfold in_u. lia. }
  apply lor_in_u; [lia| |by apply (in_u_mono 7)].
  apply lor_in_u; [lia| |by apply Hb]. apply lor_in_u; [lia| |by apply Hb].
  apply (in_u_mono 32); [lia|apply wrap_in_u; lia].
Qed.

Lemma MFSPR_wf tb op p : in_u 64 tb -> wf p -> match Interp.MFSPR tb op p with
    | inl e => benign e = true
    | inr q => wf q /\ status q = status p /\ cia q = cia p end.
Proof.
  intros Htb Hp. unfold Interp.MFSPR. cbv zeta.
  repeat (destruct (_ =? _); [split; [apply wf_set_gpr; [done|]|done]|]); try done.
  - apply xer_image_in_u, Hp.
  - apply Hp.
  - apply Hp.
  - apply (in_u_mono 32); [lia|apply Hp].
  - by apply shiftr_in_u.
Qed.

Lemma MFTB_wf tb op p : in_u 64 tb -> wf p -> match Interp.MFTB tb op p with
    | inl e => benign e = true
    | inr q => wf q /\ status q = status p /\ cia q = cia p end.
Proof.
  intros Htb Hp. unfold Interp.MFTB. cbv zeta.
  repeat (destruct (_ =? _); [split; [apply wf_set_gpr; [done|]|done]|]); try done.
  by apply shiftr_in_u.
Qed.

Lemma MTSPR_wf op p : wf p -> match Interp.MTSPR op p with
    | inl e => benign e = true
    | inr q => wf q /\ status q = status p /\ cia q = cia p end.
Proof.
  intros Hp. pose proof (fun q => wf_MTSPR op p q Hp) as Hwf. revert Hwf.
  unfold Interp.MTSPR. cbv zeta.
  repeat (destruct (_ =? _); [intros Hwf; split; [by apply Hwf|done]|]). done.
Qed.

(** *** Every modelled instruction *)

Lemma keeps_SC op pc : in_u 32 pc -> pc mod 4 = 0 -> keeps (fun _ => True) (Branch.SC op pc).
Proof.
  intros Hpc H4. eapply keeps_bind; [by apply keeps_arrive|]. intros _ _.
  destruct (negb _); [by apply keeps_throw|].
  eapply keeps_bind; [by apply (keeps_gets (fun _ => True))|]. intros. by apply keeps_ret.
Qed.

Lemma keeps_UNK c op pc : in_u 32 pc -> pc mod 4 = 0 -> keeps (fun _ => True) (Branch.UNK c op pc).
Proof.
  intros Hpc H4. eapply keeps_bind; [by apply keeps_arrive|]. intros _ _.
  eapply keeps_bind; [by apply (keeps_gets (fun _ => True))|]. intros a _. cbv zeta.
  destruct (_ && _); [by apply keeps_ret|by apply keeps_throw].
Qed.

Lemma keeps_next h op pc : keeps (fun _ => True) (h op) ->
  keeps (fun _ => True) (Branch.then_next h op pc).
Proof. intros Hh. eapply keeps_bind; [exact Hh|]. intros. by apply keeps_ret. Qed.

Lemma keeps_TDI c op pc : in_u 32 pc -> pc mod 4 = 0 -> keeps (fun _ => True) (Branch.TDI c op pc).
Proof. intros. by apply (keeps_trap c pc (fun ppu => _)). Qed.
Lemma keeps_TWI c op pc : in_u 32 pc -> pc mod 4 = 0 -> keeps (fun _ => True) (Branch.TWI c op pc).
Proof. intros. by apply (keeps_trap c pc (fun ppu => _)). Qed.
Lemma keeps_TW c op pc : in_u 32 pc -> pc mod 4 = 0 -> keeps (fun _ => True) (Branch.TW c op pc).
Proof. intros. by apply (keeps_trap c pc (fun ppu => _)). Qed.
Lemma keeps_TD c op pc : in_u 32 pc -> pc mod 4 = 0 -> keeps (fun _ => True) (Branch.TD c op pc).
Proof. intros. by apply (keeps_trap c pc (fun ppu => _)). Qed.

Ltac keeps_control :=
  lazymatch goal with
  | |- keeps _ (Branch.run_branch (Branch.BC _) _ _) => eapply keeps_branch; [by left|done|done]
  | |- keeps _ (Branch.run_branch (Branch.B _) _ _) =>
      eapply keeps_branch; [by right; left|done|done]
  | |- keeps _ (Branch.run_branch (Branch.BCLR _) _ _) =>
      eapply keeps_branch; [by right; right; left|done|done]
  | |- keeps _ (Branch.run_branch (Branch.BCCTR _) _ _) =>
      eapply keeps_branch; [by right; right; right; left|done|done]
  | |- keeps _ (Branch.TDI _ _ _) => by apply keeps_TDI
  | |- keeps _ (Branch.TWI _ _ _) => by apply keeps_TWI
  | |- keeps _ (Branch.TW _ _ _) => by apply keeps_TW
  | |- keeps _ (Branch.TD _ _ _) => by apply keeps_TD
  | |- keeps _ (Branch.SC _ _) => by apply keeps_SC
  | |- keeps _ (Branch.UNK _ _ _) => by apply keeps_UNK
  | |- keeps _ (Branch.run_spr (Interp.MFSPR _) _ _) => apply keeps_spr; intros; by apply MFSPR_wf
  | |- keeps _ (Branch.run_spr (Interp.MFTB _) _ _) => apply keeps_spr; intros; by apply MFTB_wf
  | |- keeps _ (Branch.run_spr Interp.MTSPR _ _) => apply keeps_spr; intros; by apply MTSPR_wf
  | |- keeps _ (Branch.then_next _ _ _) => apply keeps_next; by apply keeps_throw
  end.

Lemma control_keeps c tb i h op pc : Branch.control c tb i = Some h -> in_u 64 tb ->
  in_u 32 pc -> pc mod 4 = 0 -> keeps (fun _ => True) (h op pc).
Proof.
  intros E Htb Hpc H4. destruct i; try discriminate E; injection E as <-; keeps_control.
Qed.

Lemma fixed_keeps i h op : Interp.fixed i = Some h -> keeps (fun _ => True) (modify (h op)).
Proof.
  intros E. apply keeps_modify. intros p Hp. split; [by eapply fixed_preserves_wf|].
  rewrite (fixed_rest i h op p E). done.
Qed.

Lemma table_keeps c tb i h op pc : Branch.table c tb i = Some h -> in_u 64 tb ->
  in_u 32 pc -> pc mod 4 = 0 -> keeps (fun _ => True) (h op pc).
Proof.
  intros E Htb Hpc H4. unfold Branch.table in E.
  destruct (Interp.fixed i) as [f|] eqn:Ef.
  - injection E as <-. apply keeps_next. by eapply fixed_keeps.
  - destruct (Mem.memory _ i) as [f|] eqn:Em.
    + injection E as <-. apply keeps_next. by eapply memory_keeps.
    + by eapply control_keeps.
Qed.

(** What the switch of [ppu_interpreter_rt::decode] can select. *)
Lemma rt_select_cases c tb i opv h : Branch.rt_select c tb i opv = Some h ->
  (exists e, (forall op, benign (e op) = true) /\ h = fun op _ => throw (e op)) \/
  (exists f, ((exists n, f = Interp.MFOCRF n) \/ f = Interp.MFCR) /\
     h = Branch.then_next (fun op => modify (f op))) \/
  Branch.table c tb i = Some h.
Proof.
  unfold Branch.rt_select. destruct (_ && _).
  { intros [= <-]. left. by exists InvalidInstruction. }
  destruct i; try (intros E; right; right; exact E).
  destruct (negb _); [|intros [= <-]; right; left; eexists; split; [by right|done]].
  cbv zeta. destruct (negb _); intros [= <-].
  - left. by exists (fun op => InvalidMFOCRF op.[f_crm]).
  - right; left. eexists. split; [left; by eexists|done].
Qed.

Lemma keeps_mfcr f op : (exists n, f = Interp.MFOCRF n) \/ f = Interp.MFCR ->
  keeps (fun _ => True) (modify (f op)).
Proof.
  intros Hf. apply keeps_modify. intros p Hp. destruct Hf as [[n ->] | ->].
  - split; [|done]. apply wf_set_gpr; [done|]. apply (in_u_mono 32); [lia|apply wrap_in_u; lia].
  - split; [|done]. apply wf_set_gpr; [done|]. apply (in_u_mono 32); [lia|by apply pack_in_u].
Qed.

Lemma exec_as_keeps c tb opv pc op : in_u 64 tb -> in_u 32 pc -> pc mod 4 = 0 ->
  keeps (fun _ => True) (Branch.exec_as c tb opv pc op).
Proof.
  intros Htb Hpc H4. unfold Branch.exec_as, Branch.rt_decode.
  destruct (Branch.rt_select _ _ _ _) as [h|] eqn:E; [|by apply keeps_ret].
  apply rt_select_cases in E as [(e & He & ->)|[(f & Hf & ->)|E]].
  - apply keeps_throw, He.
  - by apply keeps_next, keeps_mfcr.
  - by eapply table_keeps.
Qed.

(** From here on through [exec_as_keeps] only. *)
#[local] Opaque Branch.exec_as.

Lemma keeps_fetch a : keeps (fun _ => True) (Branch.fetch a).
Proof.
  eapply keeps_bind; [apply keeps_vm_read|]. intros. by apply keeps_ret.
Qed.

Lemma keeps_advance pc : in_u 32 pc -> pc mod 4 = 0 ->
  keeps (fun _ => True) (modify (fun ppu => with_cia ppu (u32 (pc + 4)))).
Proof.
  intros Hpc H4. apply keeps_modify. intros p Hp.
  split; [apply wf_with_cia; [done|apply wrap_in_u; lia]|]. split; [done|]. intros _.
  unfold aligned. cbn [cia with_cia]. rewrite u32_mod4. Z.div_mod_to_equations. lia.
Qed.

Lemma keeps_ppu_ret pc o : in_u 32 pc -> pc mod 4 = 0 -> keeps (fun _ => True) (Branch.ppu_ret pc o).
Proof.
  intros Hpc H4. unfold Branch.ppu_ret. destruct o; try by apply keeps_ret.
  eapply keeps_bind; [apply keeps_fetch|]. intros _ _.
  eapply keeps_bind; [by apply keeps_advance|]. intros _ _. by apply keeps_ret.
Qed.

(** ** The cached handlers *)

(** No cell is committed or released, and only [ppu_fallback] cells change. *)
Definition cells_kept (k k' : exec_cache) : Prop :=
  dom k' = dom k /\ forall a fn, k !! a = Some fn -> fn <> Fallback -> k' !! a = Some fn.

Lemma xbind_run {A B} (m : X A) (f : A -> X B) s : (m ≫= f) s =
  match m s with (inl e, s') => (inl e, s') | (inr x, s') => f x s' end.
Proof. reflexivity. Qed.

Lemma lift_run {A} (m : M A) s k : lift m (s, k) = ((m s).1, ((m s).2, k)).
Proof. reflexivity. Qed.

Lemma cells_kept_refl k : cells_kept k k.
Proof. by split. Qed.

Lemma cells_kept_trans k1 k2 k3 : cells_kept k1 k2 -> cells_kept k2 k3 -> cells_kept k1 k3.
Proof. intros [D1 H1] [D2 H2]. split; [congruence|]. eauto. Qed.

Lemma cells_kept_fill k a fn : k !! a = Some Fallback -> cells_kept k (<[a := fn]> k).
Proof.
  intros Ha. split.
  - apply dom_insert_lookup_L. by eexists.
  - intros a' fn' Ha' Hn. rewrite lookup_insert_ne; [exact Ha'|]. intros <-. congruence.
Qed.

(** What [keeps] says of a computation without result, from one state. *)
Definition xkept {A} (s : machine) (k : exec_cache) (r : (fault + A) * (machine * exec_cache)) : Prop :=
  stable s r.2.1 /\ cells_kept k r.2.2 /\ match r.1 with inl e => benign e = true | inr _ => True end.

Lemma xkept_lift {A} (m : M A) s k k' : keeps (fun _ => True) m -> wf_machine s -> cells_kept k k' ->
  xkept s k (lift m (s, k')).
Proof. intros Hm Hs Hk. rewrite lift_run. destruct (Hm s Hs) as [H1 H2]. exact (conj H1 (conj Hk H2)). Qed.

Lemma xkept_refl {A} s k (r : fault + A) : wf_machine s ->
  match r with inl e => benign e = true | inr _ => True end -> xkept s k (r, (s, k)).
Proof. intros Hs Hr. exact (conj (stable_refl s Hs) (conj (cells_kept_refl k) Hr)). Qed.

Lemma xkept_trans {A} s k s1 k1 (r : (fault + A) * (machine * exec_cache)) :
  stable s s1 -> cells_kept k k1 -> xkept s1 k1 r -> xkept s k r.
Proof.
  intros H1 H2 (H3 & H4 & H5). split; [exact (stable_trans _ _ _ H1 H3)|].
  split; [exact (cells_kept_trans _ _ _ H2 H4)|exact H5].
Qed.

Lemma fetch_run a s : Branch.fetch a s =
  match read_bytes (mem (vmem s)) a 4 with
  | Some bs => (inr (be_value bs), s)
  | None => (inl (AccessViolation a), s)
  end.
Proof.
  unfold Branch.fetch. rewrite bind_run. unfold vm_read. by destruct (read_bytes _ _ _).
Qed.

(** [ppu_fallback] is called for a cell that holds it. *)
Lemma ppu_fallback_keeps c tb pc op s k : in_u 64 tb -> in_u 32 pc -> pc mod 4 = 0 -> wf_machine s ->
  k !! pc = Some Fallback -> xkept s k (Branch.ppu_fallback c tb pc op (s, k)).
Proof.
  intros Htb Hpc H4 Hs Hk. unfold Branch.ppu_fallback, Branch.ppu_cache. rewrite xbind_run, lift_run, fetch_run.
  destruct (read_bytes _ _ _) as [bs|]; cbn [fst snd]; [|by apply xkept_refl].
  rewrite xbind_run. unfold Branch.ppu_write. cbn [snd]. rewrite Hk. cbn [fst snd].
  apply xkept_lift; [by apply exec_as_keeps|exact Hs|by apply cells_kept_fill].
Qed.

Lemma call_keeps c tb pc op s k fn : in_u 64 tb -> in_u 32 pc -> pc mod 4 = 0 -> wf_machine s ->
  k !! pc = Some fn -> xkept s k (Branch.call c tb fn pc op (s, k)).
Proof.
  intros Htb Hpc H4 Hs Hk. destruct fn as [|opv|f]; cbn [Branch.call].
  - by apply ppu_fallback_keeps.
  - apply xkept_lift; [by apply exec_as_keeps|exact Hs|apply cells_kept_refl].
  - by apply xkept_refl.
Qed.

(** Guest memory ends at [2^32]. *)
Definition low_memory (s : machine) : Prop := forall a, is_Some (mem (vmem s) !! a) -> a < 2 ^ 32.

Lemma read_low pc s bs : low_memory s -> in_u 32 pc ->
  read_bytes (mem (vmem s)) (pc + 4) 4 = Some bs -> u32 (pc + 4) = pc + 4.
Proof.
  intros Hlow Hpc [Hl H]%read_bytes_lookup. unfold in_u in Hpc.
  apply wrap_small. unfold in_u. split; [lia|]. apply Hlow.
  specialize (H 0%nat ltac:(lia)). rewrite Z.add_0_r in H. rewrite H.
  apply lookup_lt_is_Some. lia.
Qed.

Lemma low_stable s s' : low_memory s -> stable s s' -> low_memory s'.
Proof. intros H (_ & D & _) a Ha. apply H, elem_of_dom. rewrite <- D. by apply elem_of_dom. Qed.

Lemma next_aligned pc : pc mod 4 = 0 -> u32 (pc + 4) mod 4 = 0.
Proof. intros H4. rewrite u32_mod4. Z.div_mod_to_equations. lia. Qed.

Lemma chain_keeps c tb n fn pc op s k : (forall i, in_u 64 (tb i)) -> in_u 32 pc -> pc mod 4 = 0 ->
  wf_machine s -> low_memory s -> k !! pc = Some fn -> xkept s k (Branch.chain c tb n fn pc op (s, k)).
Proof.
  revert tb fn pc op s k. induction n as [|n IH]; intros tb fn pc op s k Htb Hpc H4 Hs Hlow Hk.
  { by apply xkept_refl. }
  cbn [Branch.chain]. rewrite xbind_run.
  destruct (call_keeps c (tb O) pc op s k fn (Htb O) Hpc H4 Hs Hk) as (H1 & H2 & H3).
  destruct (Branch.call _ _ _ _ _ _) as [[e|o] [s1 k1]]; cbn [fst snd] in *; [done|].
  destruct o; try done. apply (xkept_trans s k s1 k1); [done|done|].
  rewrite xbind_run. unfold Branch.ppu_read at 1. cbn [snd].
  destruct (k1 !! (pc + 4)) as [fn'|] eqn:Hk1; [|by apply xkept_refl; [apply H1|]].
  rewrite xbind_run, lift_run, fetch_run.
  destruct (read_bytes _ _ _) as [bs|] eqn:Hb; cbn [fst snd]; [|by apply xkept_refl; [apply H1|]].
  pose proof (low_stable _ _ Hlow H1) as Hlow1. pose proof (read_low pc s1 bs Hlow1 Hpc Hb) as E.
  apply IH; [done|apply wrap_in_u; lia|by apply next_aligned|apply H1|done|by rewrite E].
Qed.

Lemma exec_task_keeps c tb n s k : (forall i, in_u 64 (tb i)) -> wf_machine s -> aligned (thread s) ->
  low_memory s -> xkept s k (Branch.exec_task_iteration c tb n (s, k)).
Proof.
  intros Htb Hs Ha Hlow. unfold Branch.exec_task_iteration. rewrite xbind_run, lift_run. cbn [fst snd gets].
  rewrite xbind_run. unfold Branch.ppu_read. cbn [snd].
  pose proof (wf_cia _ (proj1 Hs)) as Hpc. unfold aligned in Ha. set (pc := cia (thread s)) in *.
  destruct (k !! pc) as [fn|] eqn:Hk; [|by apply xkept_refl].
  rewrite xbind_run, lift_run, fetch_run.
  destruct (read_bytes _ _ _) as [bs|]; cbn [fst snd]; [|by apply xkept_refl].
  rewrite xbind_run, lift_run. cbn [fst snd gets]. destruct (_ =? 0); [by apply chain_keeps|].
  rewrite xbind_run.
  destruct (call_keeps c (tb O) pc (be_value bs) s k fn (Htb O) Hpc Ha Hs Hk) as (H1 & H2 & H3).
  destruct (Branch.call _ _ _ _ _ _) as [[e|o] [s1 k1]]; cbn [fst snd] in *; [done|].
  apply (xkept_trans s k s1 k1); [done|done|].
  apply xkept_lift; [by apply keeps_ppu_ret|apply H1|apply cells_kept_refl].
Qed.

(** With the history enabled, the thread was created with all of its entries, and none was written outside. *)
Definition history_ok (c : cfg) (p : ppu_thread) : Prop := set_call_history c = true -> history_sound p = true.

(** C15: whatever the code in guest memory, and whatever handlers are cached for it, stale ones included, one
    iteration of the interpreter loop (one instruction or a chain of any number of instructions of every
    modelled kind) keeps the thread and memory well-formed, also when it ends in an exception: registers
    within their widths, CR bytes 0 or 1, 128 bytes of reservation data, an
    aligned program counter, no byte mapped or unmapped, run flags unchanged; no handler is cached for
    another address than that of a cell holding [ppu_fallback], and none is replaced; the [ensure] in
    [ppu_trap] holds; a call history, if enabled, keeps its 4096 entries and is not written past its end.  The
    iteration starts with an aligned program counter in a well-formed machine with no memory mapped at or above 2^32,
    and, if the call history is enabled, with one of 4096 entries (a thread created while it was disabled has 1, and
    the branches would write past it); the time base is any 64-bit value at each instruction. *)
Theorem exec_task_invariant c tb n s k : (forall i, in_u 64 (tb i)) -> wf_machine s -> aligned (thread s) ->
  low_memory s -> history_ok c (thread s) ->
  let '(r, (s', k')) := Branch.exec_task_iteration c tb n (s, k) in
  wf_machine s' /\ aligned (thread s') /\ history_ok c (thread s') /\
  dom (mem (vmem s')) = dom (mem (vmem s)) /\ cpu_state (thread s') = cpu_state (thread s) /\
  cells_kept k k' /\ forall a, r <> inl (EnsureFailed a).
Proof.
  intros Htb Hs Ha Hlow Hh. destruct (exec_task_keeps c tb n s k Htb Hs Ha Hlow) as ((H1 & H2 & H3 & H4) & Hk & Hr).
  destruct (Branch.exec_task_iteration c tb n (s, k)) as [r [s' k']]. cbn [fst snd] in *.
  injection H3 as Hst Hhist. split; [done|]. split; [by apply H4|].
  split; [unfold history_ok; by rewrite Hhist|]. do 3 (split; [done|]). intros a ->. discriminate Hr.
Qed.

(** An empty page table and all options off. *)
Definition sample_cfg : cfg := Cfg false false 0 (fun _ => 0) 0 0.

(** The instruction words [ws] at [a]. *)
Definition code_machine (a : Z) (ws : list Z) (p : ppu_thread) : machine :=
  Mach p (Vm (write_bytes ∅ a (concat (be_bytes 4 <$> ws))) ∅).

Lemma wf_code_machine a ws p : wf p -> wf_machine (code_machine a ws p).
Proof.
  intros Hp. split; [done|]. split; [|done]. apply wf_write_bytes; [done|].
  apply Forall_concat, Forall_fmap, Forall_true. intros w. apply be_bytes_in_u.
Qed.

Lemma low_code_machine a ws p : a + 4 * Z.of_nat (length ws) <= 2 ^ 32 -> low_memory (code_machine a ws p).
Proof.
  intros Hn k Hk. cbn [code_machine vmem mem] in Hk. rewrite lookup_write_bytes in Hk.
  assert (length (concat (be_bytes 4 <$> ws)) = (4 * length ws)%nat) as E.
  { clear. induction ws as [|w ws IH]; [done|]. rewrite fmap_cons. cbn [concat length].
    rewrite length_app, length_be_bytes, IH. lia. }
  rewrite E in Hk. destruct (_ && _) eqn:Eb; [clear E Hk; apply andb_true_iff in Eb as [_ Eb%Z.ltb_lt]; lia|]. rewrite lookup_empty in Hk. by destruct Hk.
Qed.

Lemma wf_full_history p : wf p -> wf (with_history p (Hist (replicate 4096 0) 0 0 0 false)).
Proof.
  intros []. split; try assumption. cbn [call_history with_history h_index h_last_r1 h_last_r2 h_data].
  repeat split; try lia; [right; apply length_replicate|apply Forall_replicate; unfold in_u; lia].
Qed.

(** [addi r3, r3, 5; bl .+8], of which the first word replaced another whose handler is still cached. *)
Lemma exec_task_invariant_witness :
  let k : exec_cache := <[0x10000 := Decoded (ppu_instructions.ADDI 3 3 5)]> (<[0x10004 := Fallback]> ∅) in
  let c := Cfg true false 0 (fun _ => 0) 0 0 in
  let p := with_history (with_cia ppu_init 0x10000) (Hist (replicate 4096 0) 0 0 0 false) in
  let s := code_machine 0x10000 [ppu_instructions.ORI 3 3 1; ppu_instructions.B 8 false true] p in
  let '(r, (s', _)) := Branch.exec_task_iteration c (fun _ => 0) 5 (s, k) in
  r = inr Return /\ wf_machine s' /\ history_sound (thread s') = true.
Proof.
  intros k c p s. pose proof (exec_task_invariant c (fun _ => 0) 5 s k) as H.
  assert (let r := Branch.exec_task_iteration c (fun _ => 0) 5 (s, k) in
    (r.1, h_index (call_history (thread r.2.1))) = (inr Return, 1)) as E by (vm_compute; reflexivity).
  destruct (Branch.exec_task_iteration _ _ _ _) as [r [s' k']]. cbn [fst snd] in E. injection E as E _.
  destruct H as (H1 & _ & H2 & _).
  - intros _. unfold in_u. lia.
  - apply wf_code_machine, wf_full_history, wf_with_cia; [apply wf_ppu_init|unfold in_u; lia].
  - reflexivity.
  - apply low_code_machine. simpl. lia.
  - intros _. vm_compute. reflexivity.
  - split; [exact E|]. split; [exact H1|]. apply H2. reflexivity.
Defined.
