(* ===== verification/PpuChain.v ===== *)
(** Chains of tail calls and single steps.

    The interpreter runs a straight-line stretch of code as one chain of tail calls through the
    cached handlers that updates [cia] only when a branch leaves it ([Branch.chain]), and elsewhere
    decodes and runs one instruction at a time ([Branch.step]).  The two agree on everything but
    the statistics counter [exec_bytes], as long as no instruction of the stretch was
    rewritten after its handler was cached. *)

From Stdlib Require Import ZArith Lia Bool.
From stdpp Require Import base tactics option list numbers gmap.
From S2P Require Import Prelude BitField PpuOpcodes PpuAsm PpuState PpuInt PpuIntWf PpuMem.
From S2P Require Import PpuMemSpec PpuString PpuBranch PpuStep.
Local Open Scope Z_scope.
Local Open Scope word_scope.

(** ** Chains of tail calls and single steps *)

Definition same_state (s s' : machine) : Prop := mach_at 0 0 s = mach_at 0 0 s'.

Lemma same_state_at s c e : same_state (mach_at c e s) s.
Proof. done. Qed.

Lemma same_state_inv s s' : same_state s s' ->
  s' = mach_at (cia (thread s')) (exec_bytes (thread s')) s.
Proof.
  destruct s as [[] v], s' as [[] v']. unfold same_state, mach_at, at_pc. cbn.
  intros H. by injection H as -> -> -> -> -> -> -> -> -> -> -> -> ->.
Qed.

#[export] Instance same_state_equiv : Equivalence same_state.
Proof.
  split; [done|by intros s s' H|]. intros s1 s2 s3 H1 H2. unfold same_state in *. congruence.
Qed.

(** The handler computes the same from states that agree up to program counter and byte
    count, and agrees on the program counter when it leaves the chain. *)
Definition leaves (o : fault + outcome) : bool :=
  match o with inr (Return | Syscall _ | Hle _) => true | _ => false end.

Definition chainable (m : M outcome) : Prop := forall s s', same_state s s' ->
  (m s).1 = (m s').1 /\ same_state (m s).2 (m s').2 /\
  (leaves (m s).1 = true -> cia (thread (m s).2) = cia (thread (m s').2)).

Lemma pc_free_same {A} (m : M A) s s' : pc_free m -> same_state s s' ->
  (m s).1 = (m s').1 /\ same_state (m s).2 (m s').2.
Proof.
  intros Hm Hs. rewrite (same_state_inv s s' Hs), Hm. by destruct (m s).
Qed.

Lemma chainable_next h op pc : pc_free (h op) -> chainable (Branch.then_next h op pc).
Proof.
  intros Hh s s' Hs. unfold Branch.then_next. rewrite !bind_run.
  destruct (pc_free_same _ s s' Hh Hs) as [H1 H2].
  destruct (h op s) as [[e|[]] t], (h op s') as [[e'|[]] t']; cbn [fst snd] in *; by simplify_eq.
Qed.

Lemma record_call_at flag cia' op ind c e p :
  Branch.record_call flag cia' op ind (at_pc c e p) = at_pc c e (Branch.record_call flag cia' op ind p).
Proof.
  unfold Branch.record_call. cbv zeta.
  change (call_history (at_pc c e p)) with (call_history p). change (gpr (at_pc c e p)) with (gpr p).
  destruct (negb flag); [done|]. destruct (_ =? _)%nat; [done|].
  destruct (op.[f_lk] =? 0); [|done]. by destruct (_ && _).
Qed.

Lemma linked_at op pc c e p : linked op pc (at_pc c e p) = at_pc c e (linked op pc p).
Proof. unfold linked. by destruct (negb _). Qed.

Lemma chainable_finish f op pc link taken jumped target fallen :
  (forall p, f op pc p = finish link (cia p) (taken p) (jumped p) (target p) (fallen p)) ->
  (forall c e p, taken (at_pc c e p) = taken p /\ target (at_pc c e p) = target p /\
     fallen (at_pc c e p) = at_pc c e (fallen p) /\
     exists c' e', at_pc c' e' (jumped (at_pc c e p)) = at_pc c' e' (jumped p)) ->
  chainable (Branch.run_branch f op pc).
Proof.
  intros Hf Hat s s' Hs. rewrite (same_state_inv s s' Hs).
  generalize (cia (thread s')), (exec_bytes (thread s')). intros c e.
  destruct (Hat c e (thread s)) as (Ht & Hg & Hq & c' & e' & Hj).
  unfold Branch.run_branch. cbn [mach_at thread vmem]. rewrite !Hf, Ht, Hg, Hq.
  unfold finish. destruct (taken (thread s)).
  - split; [done|]. split; [|done]. unfold same_state, mach_at. cbn [snd thread vmem].
    f_equal. apply (f_equal (at_pc 0 0)) in Hj. symmetry. exact Hj.
  - change (cpu_state (at_pc c e (fallen (thread s)))) with (cpu_state (fallen (thread s))).
    by destruct (_ =? 0).
Qed.

Lemma chainable_BC c op pc : chainable (Branch.run_branch (Branch.BC c) op pc).
Proof.
  eapply chainable_finish; [intros p; apply BC_finish|]. intros c' e p. cbv beta.
  change (counted op (at_pc c' e p)) with (at_pc c' e (counted op p)). rewrite linked_at.
  do 3 (split; [done|]). exists 0, 0.
  change (with_cia (at_pc c' e ?q) pc) with (at_pc pc e (with_cia q pc)).
  by rewrite record_call_at.
Qed.

Lemma chainable_BCLR c op pc : chainable (Branch.run_branch (Branch.BCLR c) op pc).
Proof.
  eapply chainable_finish; [intros p; apply BCLR_finish|]. intros c' e p. cbv beta.
  change (counted op (at_pc c' e p)) with (at_pc c' e (counted op p)). rewrite linked_at.
  do 3 (split; [done|]). exists 0, 0. by rewrite record_call_at.
Qed.

Lemma chainable_BCCTR c op pc : chainable (Branch.run_branch (Branch.BCCTR c) op pc).
Proof.
  eapply chainable_finish; [intros p; apply BCCTR_finish|]. intros c' e p. cbv beta.
  rewrite linked_at. do 3 (split; [done|]). exists 0, 0. by rewrite record_call_at.
Qed.

Lemma chainable_B c op pc : chainable (Branch.run_branch (Branch.B c) op pc).
Proof.
  eapply chainable_finish; [intros p; apply B_finish|]. intros c' e p. cbv beta.
  do 3 (split; [done|]). exists 0, 0.
  change (with_cia (at_pc c' e p) pc) with (at_pc pc e (with_cia p pc)).
  by rewrite record_call_at, linked_at.
Qed.

(** *** Traps, system calls, unknown opcodes *)

Lemma chainable_trap c pc (cond : ppu_thread -> bool) :
  (forall c' e p, cond (at_pc c' e p) = cond p) ->
  chainable (ppu ← get_ppu; Branch.trap c pc (cond ppu)).
Proof.
  intros Hc s s' Hs. rewrite (same_state_inv s s' Hs). rewrite !bind_run. cbn [get_ppu].
  cbn [mach_at thread]. rewrite Hc. unfold Branch.trap. destruct (cond (thread s)); [|done].
  rewrite !bind_run, !ppu_trap_run. cbv zeta. destruct (negb _); [done|]. by destruct (_ || _).
Qed.

Lemma chainable_SC op pc : chainable (Branch.SC op pc).
Proof.
  intros s s' Hs. rewrite (same_state_inv s s' Hs). unfold Branch.SC. rewrite !bind_run.
  cbn [modify]. by destruct (negb _).
Qed.

Lemma chainable_UNK c op pc : chainable (Branch.UNK c op pc).
Proof.
  intros s s' Hs. rewrite (same_state_inv s s' Hs). unfold Branch.UNK. rewrite !bind_run.
  cbn [modify]. rewrite !bind_run. cbn [gets thread]. by destruct (_ && _).
Qed.

Lemma chainable_throw e : chainable (throw e).
Proof. by intros s s' Hs. Qed.

Lemma pc_free_spr (f : Z -> ppu_thread -> fault + ppu_thread) op :
  (forall c e p, f op (at_pc c e p) =
     match f op p with inl x => inl x | inr q => inr (at_pc c e q) end) ->
  pc_free (fun s => match f op (thread s) with
                    | inl e => (inl e, s)
                    | inr p => (inr (), Mach p (vmem s))
                    end).
Proof. intros H s c e. cbn [mach_at thread vmem]. rewrite H. by destruct (f op (thread s)). Qed.

Lemma MFSPR_at tb op c e p : Interp.MFSPR tb op (at_pc c e p) =
  match Interp.MFSPR tb op p with inl x => inl x | inr q => inr (at_pc c e q) end.
Proof. unfold Interp.MFSPR. cbv zeta. repeat case_match; done. Qed.
Lemma MFTB_at tb op c e p : Interp.MFTB tb op (at_pc c e p) =
  match Interp.MFTB tb op p with inl x => inl x | inr q => inr (at_pc c e q) end.
Proof. unfold Interp.MFTB. cbv zeta. repeat case_match; done. Qed.
Lemma MTSPR_at op c e p : Interp.MTSPR op (at_pc c e p) =
  match Interp.MTSPR op p with inl x => inl x | inr q => inr (at_pc c e q) end.
Proof. unfold Interp.MTSPR. cbv zeta. repeat case_match; done. Qed.

Lemma control_chainable c tb i h op pc : Branch.control c tb i = Some h -> chainable (h op pc).
Proof.
  intros E. destruct i; try discriminate E; injection E as <-;
    first [ apply chainable_BC | apply chainable_B | apply chainable_BCLR | apply chainable_BCCTR
          | apply chainable_SC | apply chainable_UNK
          | apply chainable_next; (apply pc_free_throw || apply pc_free_spr; intros;
              (apply MFSPR_at || apply MFTB_at || apply MTSPR_at))
          | apply chainable_trap; done ].
Qed.

Lemma table_chainable c tb i h op pc : Branch.table c tb i = Some h -> chainable (h op pc).
Proof.
  intros E. unfold Branch.table in E. destruct (Interp.fixed i) as [f|] eqn:Ef.
  - injection E as <-. apply chainable_next. by eapply fixed_pc_free.
  - destruct (Mem.memory _ i) as [f|] eqn:Em.
    + injection E as <-. apply chainable_next. by eapply memory_pc_free.
    + by eapply control_chainable.
Qed.

Lemma chainable_unmodelled op : chainable (mret (Unmodelled op)).
Proof. intros s s' Hs. split; [done|]. split; [exact Hs|discriminate]. Qed.

Lemma exec_one_chainable c tb pc op : chainable (Branch.exec_one c tb pc op).
Proof.
  unfold Branch.exec_one, Branch.exec_as, Branch.rt_decode.
  destruct (Branch.rt_select _ _ _ _) as [h|] eqn:E; [|apply chainable_unmodelled].
  apply rt_select_cases in E as [(e & He & ->)|[(f & Hf & ->)|E]].
  - apply chainable_throw.
  - apply chainable_next, pc_free_modify. by destruct Hf as [[n ->] | ->].
  - by eapply table_chainable.
Qed.

(** *** The equivalence *)

Lemma same_vmem s s' : same_state s s' -> vmem s' = vmem s.
Proof. intros H. by rewrite (same_state_inv _ _ H). Qed.

(** The cell at [a] holds a handler of the interpreter or [ppu_fallback]. *)
Definition interpreted (k : exec_cache) (a : Z) : Prop :=
  exists fn, k !! a = Some fn /\ forall f, fn <> Native f.

(** What is cached for the instructions [pc], [pc + 4], ... that are run from [s] was decoded from the words that
    are in memory when they run. *)
Definition coherent (c : cfg) (tb : nat -> Z) (n : nat) (s : machine) (k : exec_cache) : Prop :=
  forall i w s', (i < n)%nat -> k !! (cia (thread s) + 4 * Z.of_nat i) = Some (Decoded w) ->
    Branch.steps c tb i s = (inr Next, s') ->
    forall op, Branch.fetch (cia (thread s) + 4 * Z.of_nat i) s' = (inr op, s') -> op = w.

(** A current handler does what decoding the word again would do. *)
Lemma call_current c tb fn pc op s k : Branch.fetch pc s = (inr op, s) -> k !! pc = Some fn ->
  (forall f, fn <> Native f) -> (forall w, fn = Decoded w -> op = w) ->
  exists k1, Branch.call c tb fn pc op (s, k) =
    ((Branch.exec_one c tb pc op s).1, ((Branch.exec_one c tb pc op s).2, k1)) /\
    forall a, a <> pc -> k1 !! a = k !! a.
Proof.
  intros Hf Hk Hn Hw. destruct fn as [|w|f]; cbn [Branch.call].
  - exists (<[pc := Decoded op]> k). split; [|intros; by apply lookup_insert_ne].
    unfold Branch.ppu_fallback, Branch.ppu_cache. rewrite xbind_run, lift_run, Hf. cbn [fst snd].
    rewrite xbind_run. unfold Branch.ppu_write. cbn [snd]. rewrite Hk. cbn [fst snd]. apply lift_run.
  - exists k. rewrite <- (Hw w eq_refl). by split; [apply lift_run|].
  - by destruct (Hn f).
Qed.

Lemma fetch_same a s s' op : same_state s s' -> Branch.fetch a s' = (inr op, s') ->
  Branch.fetch a s = (inr op, s).
Proof.
  intros Hs. rewrite !fetch_run, (same_vmem s s' Hs). destruct (read_bytes _ _ _); [|done]. by intros [= ->].
Qed.

Definition after (pc : Z) (r : (fault + outcome) * machine) : (fault + outcome) * machine :=
  match r.1 with
  | inr Next => match read_bytes (mem (vmem r.2)) (pc + 4) 4 with
                | Some _ => (inr Next, Mach (with_cia (thread r.2) (u32 (pc + 4))) (vmem r.2))
                | None => (inl (AccessViolation (pc + 4)), r.2)
                end
  | _ => r
  end.

Lemma step_fetched c tb s op : Branch.fetch (cia (thread s)) s = (inr op, s) ->
  Branch.step c tb s = after (cia (thread s)) (Branch.exec_one c tb (cia (thread s)) op s).
Proof.
  intros Hf. unfold Branch.step. rewrite bind_run. cbn [gets]. rewrite bind_run, Hf, bind_run.
  destruct (Branch.exec_one c tb (cia (thread s)) op s) as [[e|o] t]; [done|]. destruct o; try done.
  cbn [Branch.ppu_ret]. rewrite bind_run, fetch_run. unfold after. cbn [fst snd]. by destruct (read_bytes _ _ _).
Qed.

Lemma coherent_next c tb n s k s' k' : Branch.step c (tb O) s = (inr Next, s') ->
  cia (thread s') = cia (thread s) + 4 -> (forall a, a <> cia (thread s) -> k' !! a = k !! a) ->
  coherent c tb (S n) s k -> coherent c (fun i => tb (S i)) n s' k'.
Proof.
  intros Es Ec Hk Hco i w t Hi Hw Ht op Hop. rewrite Ec in *. rewrite Hk in Hw by lia.
  replace (cia (thread s) + 4 + 4 * Z.of_nat i) with (cia (thread s) + 4 * Z.of_nat (S i)) in * by lia.
  apply (Hco (S i) w t); [lia|done| |done]. cbn [Branch.steps]. by rewrite bind_run, Es.
Qed.

Lemma chain_steps c tb n s1 s2 k fn op : (forall i, in_u 64 (tb i)) -> wf_machine s2 -> aligned (thread s2) ->
  low_memory s2 -> same_state s1 s2 ->
  let pc := cia (thread s2) in
  (forall i, (i <= n)%nat -> interpreted k (pc + 4 * Z.of_nat i)) -> coherent c tb n s2 k ->
  k !! pc = Some fn -> Branch.fetch pc s2 = (inr op, s2) ->
  let '(r1, (t1, _)) := Branch.chain c tb n fn pc op (s1, k) in
  let '(r2, t2) := Branch.steps c tb n s2 in
  r1 = r2 /\ same_state t1 t2 /\ (leaves r1 = true -> cia (thread t1) = cia (thread t2)).
Proof.
  revert tb s1 s2 k fn op. induction n as [|n IH]; intros tb s1 s2 k fn op Htb Hw Ha Hlow Hs pc Hreg Hco Hk Hf;
    [done|].
  cbn [Branch.chain Branch.steps]. rewrite xbind_run, bind_run.
  destruct (call_current c (tb O) fn pc op s1 k) as (k1 & Ec & Hk1); [by eapply fetch_same|done| | |].
  { destruct (Hreg O) as (fn' & E & Hn); [lia|]. rewrite Z.add_0_r in E. congruence. }
  { intros w ->. apply (Hco O w s2); [lia|by rewrite Z.add_0_r|done|]. by rewrite Z.add_0_r. }
  rewrite Ec. clear Ec. pose proof (step_fetched c (tb O) s2 op Hf) as Es. fold pc in Es.
  destruct (exec_one_chainable c (tb O) pc op s1 s2 Hs) as (H1 & H2 & H3).
  destruct (exec_as_keeps c (tb O) op pc op (Htb O) (wf_cia _ (proj1 Hw)) Ha s2 Hw) as [K _].
  change (Branch.exec_as c (tb O) op pc op) with (Branch.exec_one c (tb O) pc op) in K.
  destruct (Branch.exec_one c (tb O) pc op s1) as [r1 t1], (Branch.exec_one c (tb O) pc op s2) as [r2 t2].
  cbn [fst snd] in *. subst r2. destruct r1 as [e|o]; [by rewrite Es|].
  destruct o; try (rewrite Es; by split; [done|split; [done|intros; apply H3]]); try by rewrite Es.
  rewrite xbind_run. unfold Branch.ppu_read at 1. cbn [snd].
  assert (k1 !! (pc + 4) = k !! (pc + 4)) as -> by (apply Hk1; lia).
  destruct (Hreg 1%nat) as (fn' & Ek' & Hn'); [lia|]. change (4 * Z.of_nat 1) with 4 in Ek'. rewrite Ek', xbind_run, lift_run, fetch_run. cbn [fst snd].
  rewrite <- (same_vmem t1 t2 H2). unfold after in Es. cbn [fst snd] in Es.
  destruct (read_bytes (mem (vmem t2)) (pc + 4) 4) as [bs|] eqn:Hb; rewrite Es; [|done]. cbn [fst snd].
  pose proof (read_low pc t2 bs (low_stable _ _ Hlow K) (wf_cia _ (proj1 Hw)) Hb) as E4. rewrite E4 in *.
  apply (IH _ t1 (Mach (with_cia (thread t2) (pc + 4)) (vmem t2)) k1 fn' (be_value bs)).
  - intros i. apply Htb.
  - split; [apply wf_with_cia; [apply K|]|apply K]. rewrite <- E4. apply wrap_in_u. lia.
  - unfold aligned. cbn [thread cia with_cia]. rewrite <- E4. by apply next_aligned.
  - exact (low_stable _ _ Hlow K).
  - by rewrite H2.
  - intros i Hi. cbn [thread cia with_cia]. destruct (Hreg (S i)) as (g & Eg & Hg); [lia|].
    exists g. split; [|done]. rewrite Hk1 by lia. rewrite <- Eg. f_equal. lia.
  - eapply coherent_next; [exact Es|done|exact Hk1|exact Hco].
  - cbn [thread cia with_cia]. rewrite Hk1 by lia. exact Ek'.
  - rewrite fetch_run. cbn [vmem thread cia with_cia]. by rewrite Hb.
Qed.

(** C21: the fast path equals the slow path.  Let [pc] be the aligned program counter of a thread without
    pending state flags, in a well-formed machine with no memory mapped at or above 2^32.  If the
    instructions [pc], [pc + 4], ... that one iteration of [exec_task] runs, and the one after them, are
    registered in the handler cache and not replaced by native functions (breakpoints, far jumps), and if no handler
    is stale, that is each one already cached was decoded from the word in memory when its
    instruction runs, then the chain of tail calls through the cached handlers ends with the same result
    (fall-through, return to the loop, system call, HLE call or exception) as fetching, decoding and
    running the instructions one at a time, at the same time bases, in the same state up to [exec_bytes]
    and the value of [cia], which the chain only maintains when it returns
    to the loop, where it is the same too.  For every number of instructions. *)
Theorem chain_eq_steps c tb n s k : (forall i, in_u 64 (tb i)) -> wf_machine s -> aligned (thread s) ->
  low_memory s -> cpu_state (thread s) = 0 ->
  (forall i, (i <= S n)%nat -> interpreted k (cia (thread s) + 4 * Z.of_nat i)) -> coherent c tb (S n) s k ->
  let '(r1, (t1, _)) := Branch.exec_task_iteration c tb (S n) (s, k) in
  let '(r2, t2) := Branch.steps c tb (S n) s in
  r1 = r2 /\ same_state t1 t2 /\ (leaves r1 = true -> cia (thread t1) = cia (thread t2)).
Proof.
  intros Htb Hw Ha Hlow Hst Hreg Hco. unfold Branch.exec_task_iteration. rewrite xbind_run, lift_run.
  cbn [fst snd gets]. rewrite xbind_run. unfold Branch.ppu_read at 1. cbn [snd].
  destruct (Hreg O) as (fn & Ek & _); [lia|]. rewrite Z.add_0_r in Ek. rewrite Ek.
  rewrite xbind_run, lift_run, fetch_run. destruct (read_bytes _ _ _) as [bs|] eqn:Hb; cbn [fst snd].
  - rewrite xbind_run, lift_run. cbn [fst snd gets]. rewrite Hst. cbn [Z.eqb].
    apply chain_steps; try done. by rewrite fetch_run, Hb.
  - cbn [Branch.steps]. rewrite bind_run. unfold Branch.step. rewrite bind_run. cbn [gets].
    by rewrite bind_run, fetch_run, Hb.
Qed.

(** [addi r3, r3, 5; stw r3, 16(r4); bl .+8] at 0x10000, with [r4] = 0x10000; the handler of the first is cached. *)
Definition demo_code : list Z :=
  [ppu_instructions.ADDI 3 3 5; ppu_instructions.STW 3 4 16; ppu_instructions.B 8 false true; 0; 0].

Definition demo_cells (w : Z) : exec_cache :=
  <[0x10000 := Decoded w]> (Branch.register_cells 0x10004 8 ∅).

Definition demo_machine : machine := code_machine 0x10000 demo_code (set_gpr 4 0x10000 (with_cia ppu_init 0x10000)).

Lemma chain_eq_steps_witness :
  let r := Branch.exec_task_iteration sample_cfg (fun _ => 0) 5 (demo_machine, demo_cells (ppu_instructions.ADDI 3 3 5)) in
  let r' := Branch.steps sample_cfg (fun _ => 0) 5 demo_machine in
  r.1 = inr Return /\ r.1 = r'.1 /\ same_state r.2.1 r'.2 /\ cia (thread r.2.1) = 0x10010.
Proof.
  pose proof (chain_eq_steps sample_cfg (fun _ => 0) 4 demo_machine (demo_cells (ppu_instructions.ADDI 3 3 5))) as H.
  assert (let r := Branch.exec_task_iteration sample_cfg (fun _ => 0) 5
      (demo_machine, demo_cells (ppu_instructions.ADDI 3 3 5)) in
    (r.1, cia (thread r.2.1)) = (inr Return, 0x10010)) as E by (vm_compute; reflexivity).
  cbv zeta in *. destruct (Branch.exec_task_iteration _ _ _ _) as [r [t k']], (Branch.steps _ _ _ _) as [r' t'].
  cbn [fst snd] in *. injection E as E1 E2. destruct H as (H1 & H2 & _).
  - intros _. unfold in_u. lia.
  - apply wf_code_machine, wf_set_gpr; [|unfold in_u; lia].
    apply wf_with_cia; [apply wf_ppu_init|unfold in_u; lia].
  - reflexivity.
  - apply low_code_machine. simpl. lia.
  - reflexivity.
  - intros i Hi. assert (i = 0 \/ i = 1 \/ i = 2 \/ i = 3 \/ i = 4 \/ i = 5)%nat as Hc by lia.
    destruct Hc as [->|[->|[->|[->|[->| ->]]]]]; eexists; (split; [vm_compute; reflexivity|done]).
  - intros i w s' Hi Hc Hs op Hop. assert (i = 0 \/ i = 1 \/ i = 2 \/ i = 3 \/ i = 4)%nat as Hj by lia.
    destruct Hj as [->|[->|[->|[->| ->]]]]; vm_compute in Hc; try discriminate Hc.
    injection Hc as <-. injection Hs as <-. vm_compute in Hop. injection Hop as <-. reflexivity.
  - by subst.
Defined.

(** Without coherence they differ: the cached handler of [addi] runs for the word [ori r3, r3, 1] that replaced it. *)
Example stale_handler :
  let s := code_machine 0x10000 [ppu_instructions.ORI 3 3 1; ppu_instructions.B 8 false true]
             (set_gpr 3 1 (with_cia ppu_init 0x10000)) in
  let k := demo_cells (ppu_instructions.ADDI 3 3 5) in
  (thread (Branch.exec_task_iteration sample_cfg (fun _ => 0) 5 (s, k)).2.1).gpr[3] = 2 /\
  (thread (Branch.steps sample_cfg (fun _ => 0) 5 s).2).gpr[3] = 1.
Proof. vm_compute. split; reflexivity. Qed.

(** ** The registered range *)

Lemma register_cells_lookup n a k x : 0 <= a -> a + 4 * Z.of_nat n <= 2 ^ 32 ->
  Branch.register_cells a n k !! x =
  if (a <=? x) && (x <? a + 4 * Z.of_nat n) && ((x - a) mod 4 =? 0) then Some Fallback else k !! x.
Proof.
  revert a k. induction n as [|n IH]; intros a k Ha Hn; cbn [Branch.register_cells].
  { destruct (_ && _) eqn:E; [|done]. rewrite !andb_true_iff, Z.leb_le, Z.ltb_lt, Z.eqb_eq in E. lia. }
  destruct (decide (x = a)) as [->|Hx].
  - replace ((a <=? a) && _ && _) with true
      by (rewrite Z.sub_diag; change (0 mod 4) with 0; symmetry; rewrite !andb_true_iff, Z.leb_le, Z.ltb_lt, Z.eqb_eq; lia).
    destruct n as [|n]; [by apply lookup_insert_eq|]. rewrite wrap_small by (unfold in_u; lia).
    rewrite IH by lia. replace (a + 4 <=? a) with false by lia. by apply lookup_insert_eq.
  - destruct n as [|n].
    + cbn [Branch.register_cells]. rewrite lookup_insert_ne by done.
      destruct (_ && _) eqn:E; [|done]. rewrite !andb_true_iff, Z.leb_le, Z.ltb_lt, Z.eqb_eq in E. Z.div_mod_to_equations. lia.
    + rewrite wrap_small by (unfold in_u; lia). rewrite IH, lookup_insert_ne by (lia || done).
      replace ((x - a) mod 4) with ((x - (a + 4)) mod 4) by (Z.div_mod_to_equations; lia).
      destruct (Z.eqb_spec ((x - (a + 4)) mod 4) 0) as [E|]; [|by rewrite !andb_false_r].
      assert (a < x -> a + 4 <= x) by (Z.div_mod_to_equations; lia).
      replace ((a <=? x) && _) with ((a + 4 <=? x) && (x <? a + 4 + 4 * Z.of_nat (S n))); [done|].
      apply eq_true_iff_eq. rewrite !andb_true_iff, !Z.leb_le, !Z.ltb_lt. lia.
Qed.

Lemma land_segment a : in_u 32 a -> a .& u32 (-0x10000) = a / 0x10000 * 0x10000.
Proof.
  intros Ha. change (u32 (-0x10000)) with (Z.shiftl (Z.ones 16) 16).
  change 0x10000 with (2 ^ 16) at 1 2. rewrite <- Z.shiftr_div_pow2, <- Z.shiftl_mul_pow2 by lia.
  apply Z.bits_inj'. intros i Hi. rewrite Z.land_spec, !Z.shiftl_spec by lia.
  destruct (Z.ltb_spec i 16); [rewrite !(Z.testbit_neg_r _ (i - 16)) by lia; apply andb_false_r|].
  rewrite Z.shiftr_spec, testbit_ones by lia. replace (i - 16 + 16) with i by lia.
  destruct (Z.ltb_spec i 32); [case_cmp; apply andb_true_r|].
  by rewrite (testbit_high 32 a) by (done || lia).
Qed.

(** [ppu_register_range] registers the instructions of the range it is given, with [ppu_fallback]. *)
Theorem register_range_cells addr size k x : in_u 32 addr -> 0 < size ->
  addr mod 0x10000 + size <= 2 ^ 32 - 0x10000 -> addr + size <= 2 ^ 32 ->
  addr <= x < addr + size -> x mod 4 = 0 -> Branch.ppu_register_range addr size k !! x = Some Fallback.
Proof.
  intros Ha Hs Hw He Hx H4. unfold Branch.ppu_register_range. replace (size =? 0) with false by lia. cbv zeta.
  unfold in_u in Ha. rewrite (wrap_small 32 (size + _ + _)) by (unfold in_u; Z.div_mod_to_equations; lia).
  rewrite !land_segment by (unfold in_u; Z.div_mod_to_equations; lia).
  rewrite register_cells_lookup; [|Z.div_mod_to_equations; lia..].
  destruct (_ && _) eqn:E; [done|]. rewrite !andb_false_iff, Z.leb_gt, Z.ltb_ge, Z.eqb_neq in E.
  Z.div_mod_to_equations. lia.
Qed.

(** ** Counted loops *)

(** The words of [bdnz .-4]: [BC(0x10, 0, -4)]. *)
Definition bdnz_back : Z := ppu_instructions.BC 0x10 0 (-4) false false.

Lemma rt_select_fixed c tb i h w : Interp.fixed i = Some h ->
  Branch.rt_select c tb i w = Some (Branch.then_next (fun op => modify (h op))).
Proof. intros E. destruct i; try discriminate E; injection E as <-; reflexivity. Qed.

Lemma fixed_with_ctr i h w p x : Interp.fixed i = Some h ->
  h w (with_ctr p x) = with_ctr (h w p) x.
Proof.
  intros E. change (with_ctr p x) with (transplant p (with_ctr p x)).
  rewrite (fixed_frame i h w p _ E). rewrite (fixed_rest i h w p E) at 2. done.
Qed.

Lemma fixed_at_pc i h w p c e : Interp.fixed i = Some h -> h w (at_pc c e p) = at_pc c e (h w p).
Proof.
  intros E. change (at_pc c e p) with (transplant p (at_pc c e p)).
  rewrite (fixed_frame i h w p _ E). rewrite (fixed_rest i h w p E) at 2. done.
Qed.

Lemma exec_one_fixed c tb pc w i h : decode w = i -> Interp.fixed i = Some h -> forall p v,
  Branch.exec_one c tb pc w (Mach p v) = (inr Next, Mach (h w p) v).
Proof.
  intros Hdec Hfix p v. unfold Branch.exec_one, Branch.exec_as, Branch.rt_decode.
  rewrite Hdec, (rt_select_fixed c tb i h w Hfix). reflexivity.
Qed.

Lemma decode_bdnz : decode bdnz_back = Itype.BC.
Proof. apply (assemble_itype (I_BC 0x10 0 (-4) false false)). Qed.

Lemma exec_one_bdnz c tb pc p v :
  Branch.exec_one c tb pc bdnz_back (Mach p v) =
  (let '(o, q) := Branch.BC c bdnz_back pc p in (inr o, Mach q v)).
Proof.
  unfold Branch.exec_one, Branch.exec_as, Branch.rt_decode. rewrite decode_bdnz. reflexivity.
Qed.

(** One instruction whose execution is known. *)
Lemma step_at c tb pc w p v o q : in_u 32 w -> cia p = pc ->
  read_bytes (mem v) pc 4 = Some (be_bytes 4 w) ->
  Branch.exec_one c tb pc w (Mach p v) = (inr o, Mach q v) ->
  (o = Next -> exists bs, read_bytes (mem v) (pc + 4) 4 = Some bs) -> o = Next \/ o = Return ->
  Branch.step c tb (Mach p v) =
  (inr o, Mach (match o with Next => with_cia q (u32 (pc + 4)) | _ => q end) v).
Proof.
  intros Hw Hpc Hf He Hn Ho. unfold Branch.step. rewrite bind_run. cbn [gets thread].
  rewrite Hpc, bind_run, fetch_run. cbn [vmem]. rewrite Hf, be_value_bytes.
  change (8 * Z.of_nat 4) with 32. rewrite (wrap_small 32 w Hw), bind_run, He.
  destruct Ho as [-> | ->]; [|reflexivity]. destruct (Hn eq_refl) as [bs Hbs]. cbn [Branch.ppu_ret].
  rewrite bind_run, fetch_run. cbn [vmem]. rewrite Hbs, bind_run. reflexivity.
Qed.

Lemma record_call_plain flag a op p : op.[f_lk] = 0 -> Branch.record_call flag a op false p = p.
Proof.
  intros E. unfold Branch.record_call. rewrite E. destruct flag; [|done]. cbn [negb andb Z.eqb].
  by destruct (_ =? _)%nat.
Qed.

Section loop.
  Context (c : cfg) (tb a w : Z) (h : Z -> ppu_thread -> ppu_thread) (v : vm_t).
  Context (Ha : 0 <= a) (Hend : a + 8 < 2 ^ 32) (Hw : in_u 32 w).
  Context (Hexec : forall p v, Branch.exec_one c tb a w (Mach p v) = (inr Next, Mach (h w p) v)).
  Context (Hctr : forall p x, h w (with_ctr p x) = with_ctr (h w p) x).
  Context (Hpc : forall p c e, h w (at_pc c e p) = at_pc c e (h w p)).
  Context (Hcode : has (mem v) a (be_bytes 4 w ++ be_bytes 4 bdnz_back)).
  Context (Hnext : exists bs, read_bytes (mem v) (a + 8) 4 = Some bs).

Lemma loop_body p : cia p = a ->
  Branch.step c tb (Mach p v) = (inr Next, Mach (with_cia (h w p) (a + 4)) v).
Proof.
  intros E. apply has_app in Hcode as [Hc1 Hc2]. unfold has in Hc1, Hc2.
  rewrite length_be_bytes in Hc1, Hc2. change (Z.of_nat 4) with 4 in Hc2.
  rewrite (step_at c tb a w p v Next (h w p)); [| | | |by apply Hexec| |by left]; [|done..|].
  - by rewrite (wrap_small 32) by (unfold in_u; lia).
  - intros _. by eexists.
Qed.

Lemma loop_branch p : cia p = a + 4 -> in_u 64 (ctr p) -> exists o e,
  (o = Next \/ o = Return) /\
  Branch.step c tb (Mach p v) =
  (inr o, Mach (at_pc (if ctr p =? 1 then a + 8 else a) e (with_ctr p (u64 (ctr p - 1)))) v).
Proof.
  intros E Hc. apply has_app in Hcode as [Hc1 Hc2]. unfold has in Hc2.
  rewrite !length_be_bytes in Hc2. change (Z.of_nat 4) with 4 in Hc2.
  assert (u32 (a + 4 + 4) = a + 8) as E8 by (rewrite wrap_small; unfold in_u; lia).
  pose proof (exec_one_bdnz c tb (a + 4) p v) as Hx. rewrite BC_finish in Hx. cbv zeta in Hx.
  change (linked bdnz_back (a + 4) (counted bdnz_back p)) with (with_ctr p (u64 (ctr p - 1))) in Hx.
  change (bo_taken bdnz_back p) with (xorb (negb (u64 (ctr p - 1) =? 0)) false && true) in Hx.
  rewrite xorb_false_r, andb_true_r in Hx.
  assert ((u64 (ctr p - 1) =? 0) = (ctr p =? 1)) as Ez.
  { unfold in_u in Hc. destruct (Z.eq_dec (ctr p) 0) as [->|]; [done|].
    rewrite wrap_small by (unfold in_u; lia). case_cmp; lia. }
  rewrite record_call_plain in Hx by reflexivity.
  change (bdnz_back.[f_aa]) with 0 in Hx. change (bdnz_back.[f_bt14]) with (-4) in Hx.
  cbn [negb Z.eqb] in Hx. rewrite E8, Ez in Hx.
  replace (u32 (a + 4 + -4)) with a in Hx by (rewrite wrap_small; unfold in_u; lia).
  assert (in_u 32 bdnz_back) as Hb by (vm_compute; split; congruence).
  unfold finish in Hx. destruct (ctr p =? 1); cbn [negb] in Hx.
  - change (cpu_state (with_ctr p (u64 (ctr p - 1)))) with (cpu_state p) in Hx.
    destruct (cpu_state p =? 0).
    + exists Next, (exec_bytes p). split; [by left|].
      rewrite (step_at c tb (a + 4) bdnz_back p v _ _ Hb E Hc2 Hx); [by rewrite E8| |by left].
      intros _. by replace (a + 4 + 4) with (a + 8) by lia.
    + eexists Return, _. split; [by right|].
      rewrite (step_at c tb (a + 4) bdnz_back p v _ _ Hb E Hc2 Hx); [reflexivity|done|by right].
  - eexists Return, _. split; [by right|].
    rewrite (step_at c tb (a + 4) bdnz_back p v _ _ Hb E Hc2 Hx); [reflexivity|done|by right].
Qed.

Lemma run_two n p : cia p = a -> in_u 64 (ctr (h w p)) -> exists e,
  Branch.run c tb (2 + n) (Mach p v) =
  Branch.run c tb n (Mach (at_pc (if ctr (h w p) =? 1 then a + 8 else a) e
                            (with_ctr (h w p) (u64 (ctr (h w p) - 1)))) v).
Proof.
  intros E Hc. destruct (loop_branch (with_cia (h w p) (a + 4)) eq_refl Hc) as (o & e & Ho & Hs).
  exists e. change (2 + n)%nat with (S (S n)). cbn [Branch.run].
  rewrite bind_run, (loop_body p E), bind_run, Hs. by destruct Ho as [-> | ->].
Qed.

Lemma iter_at k q b e x : Nat.iter k (h w) (at_pc b e (with_ctr q x)) =
  at_pc b e (with_ctr (Nat.iter k (h w) q) x).
Proof.
  induction k as [|k IH]; [done|]. cbn [Nat.iter nat_rect] in *. unfold Nat.iter in IH.
  rewrite IH, Hpc, Hctr. done.
Qed.

Lemma loop_run n p : cia p = a -> (forall q, ctr (h w q) = ctr q) ->
  u64 (ctr p - 1) = Z.of_nat n -> in_u 64 (ctr p) -> exists e,
  Branch.run c tb (2 * S n) (Mach p v) =
  (inr Return, Mach (at_pc (a + 8) e (with_ctr (Nat.iter (S n) (h w) p) 0)) v).
Proof.
  intros E Hh. revert p E. induction n as [|n IH]; intros p E Hn Hc.
  - destruct (run_two 0 p E) as [e H]; [by rewrite Hh|]. exists e. rewrite Hh in H.
    rewrite Hn in H. replace (ctr p =? 1) with true in H by word_lia. exact H.
  - destruct (run_two (2 * S n) p E) as [e H]; [by rewrite Hh|]. rewrite Hh in H.
    replace (ctr p =? 1) with false in H by word_lia.
    replace (2 * S (S n))%nat with (2 + 2 * S n)%nat by lia. rewrite H.
    edestruct (IH (at_pc a e (with_ctr (h w p) (u64 (ctr p - 1)))) eq_refl) as [e' H'].
    + cbn [ctr at_pc with_exec_bytes with_cia with_ctr]. word_lia.
    + cbn [ctr at_pc with_exec_bytes with_cia with_ctr]. apply wrap_in_u. lia.
    + exists e'. rewrite H'. do 2 f_equal.
      rewrite iter_at, (Nat.iter_succ_r (S n)). done.
Qed.

End loop.

(** A counted loop terminates.  For every fixed-point instruction word [w], the two
    words [w; bdnz .-4] execute [w] exactly CTR times ([2^64] times when CTR is 0, since the
    count wraps) and then continue after the loop with CTR = 0; the interpreter gets there
    after exactly two instructions per iteration. *)
Theorem bdnz_loop c tb a w i h p v : 0 <= a -> a + 8 < 2 ^ 32 -> in_u 32 w ->
  decode w = i -> Interp.fixed i = Some h ->
  has (mem v) a (be_bytes 4 w ++ be_bytes 4 bdnz_back) ->
  mapped (mem v) (a + 8) 4 -> cia p = a -> in_u 64 (ctr p) ->
  let n := Z.to_nat (if ctr p =? 0 then 2 ^ 64 else ctr p) in
  exists e, Branch.run c tb (2 * n) (Mach p v) =
    (inr Return, Mach (with_exec_bytes (with_cia (with_ctr (Nat.iter n (h w) p) 0) (a + 8)) e) v).
Proof.
  intros Ha Hend Hw Hdec Hfix Hcode Hm Hpc Hc n.
  pose proof (exec_one_fixed c tb a w i h Hdec Hfix) as Hexec. clear Hdec.
  assert (n = S (Z.to_nat (u64 (ctr p - 1)))) as En.
  { unfold n. destruct (Z.eqb_spec (ctr p) 0) as [->|].
    - change (u64 (0 - 1)) with (2 ^ 64 - 1). lia.
    - unfold in_u in Hc. rewrite wrap_small by (unfold in_u; lia). lia. }
  rewrite En. apply (loop_run c tb a w h v Ha Hend Hw Hexec).
  - intros. by eapply fixed_with_ctr.
  - intros. by eapply fixed_at_pc.
  - exact Hcode.
  - apply mapped_read. exact Hm.
  - exact Hpc.
  - intros q. rewrite (fixed_rest i h w q Hfix). done.
  - pose proof (wrap_in_u 64 (ctr p - 1) ltac:(lia)) as Hu. unfold in_u in Hu. lia.
  - exact Hc.
Qed.

(** [li r3, 0; mtctr 3] done: [loop: addi r3, r3, 5; bdnz loop] leaves 15 in [r3]. *)
Lemma bdnz_loop_witness :
  let w := ppu_instructions.ADDI 3 3 5 in
  let v := Vm (write_bytes ∅ 0x10000 (be_bytes 4 w ++ be_bytes 4 bdnz_back ++ be_bytes 4 0)) ∅ in
  let p := with_ctr (with_cia ppu_init 0x10000) 3 in
  exists s', Branch.run sample_cfg 0 6 (Mach p v) = (inr Return, s') /\
    (thread s').gpr[3] = 15 /\ cia (thread s') = 0x10008 /\ ctr (thread s') = 0.
Proof.
  intros w v p. destruct (bdnz_loop sample_cfg 0 0x10000 w Itype.ADDI Interp.ADDI p v) as [e H].
  - lia.
  - lia.
  - vm_compute. split; congruence.
  - exact (assemble_itype (I_ADDI 3 3 5)).
  - reflexivity.
  - vm_compute. reflexivity.
  - intros k Hk. assert (k = 0x10008 \/ k = 0x10009 \/ k = 0x1000a \/ k = 0x1000b)
      as [->|[->|[->| ->]]] by lia; vm_compute; by eexists.
  - reflexivity.
  - vm_compute. split; congruence.
  - eexists. split; [exact H|]. split; [vm_compute; reflexivity|]. split; reflexivity.
Defined.
