(* ===== verification/PpuBranchSpec.v ===== *)
(** Branch instructions against the Power ISA, and the call history.

    [isa_effect] states for each branch instruction, directly on the bits of the instruction
    word, whether it is taken, where to, and what it leaves in LR and CTR; the handlers of
    PpuBranch are shown to have exactly this effect. *)

From Stdlib Require Import ZArith Lia Bool.
From stdpp Require Import base tactics option list numbers gmap.
From S2P Require Import Prelude BitField PpuOpcodes PpuAsm PpuState PpuInt PpuIntWf PpuMem.
From S2P Require Import PpuBits PpuMemSpec PpuString PpuBranch PpuStep.
Import BitField.
Local Open Scope Z_scope.
Local Open Scope word_scope.

(** ** Reference *)

(** Bit [k] of the BO field, counted from the left; LK and AA. *)
Definition isa_bo (op k : Z) : bool := Z.testbit op (25 - k).
Definition isa_lk (op : Z) : bool := Z.testbit op 0.
Definition isa_aa (op : Z) : bool := Z.testbit op 1.
Definition isa_bi (op : Z) : Z := op / 2 ^ 16 mod 32.

Record branch_effect := Effect { b_taken : bool; b_target : Z; b_lr : Z; b_ctr : Z }.

Definition isa_ctr (op : Z) (p : ppu_thread) : Z :=
  if isa_bo op 2 then ctr p else (ctr p - 1) mod 2 ^ 64.
Definition isa_ctr_ok (op : Z) (p : ppu_thread) : bool :=
  isa_bo op 2 || if isa_bo op 3 then isa_ctr op p =? 0 else negb (isa_ctr op p =? 0).
Definition isa_cond_ok (op : Z) (p : ppu_thread) : bool :=
  isa_bo op 0 || Bool.eqb (p.cr[isa_bi op] =? 1) (isa_bo op 1).
Definition isa_lr (op pc : Z) (p : ppu_thread) : Z :=
  if isa_lk op then (pc + 4) mod 2 ^ 32 else lr p.
(** Relative to the branch or, with AA, absolute; [bits] of displacement in words. *)
Definition isa_displaced (op pc bits : Z) : Z :=
  ((if isa_aa op then 0 else pc) + 4 * sgn bits (op / 4)) mod 2 ^ 32.
Definition isa_register (x : Z) : Z := x mod 2 ^ 32 / 4 * 4.

Definition isa_effect (i : itype) (op pc : Z) (p : ppu_thread) : branch_effect :=
  match i with
  | Itype.B => Effect true (isa_displaced op pc 24) (isa_lr op pc p) (ctr p)
  | Itype.BC => Effect (isa_ctr_ok op p && isa_cond_ok op p) (isa_displaced op pc 14)
                  (isa_lr op pc p) (isa_ctr op p)
  | Itype.BCLR => Effect (isa_ctr_ok op p && isa_cond_ok op p) (isa_register (lr p))
                    (isa_lr op pc p) (isa_ctr op p)
  | _ => Effect (isa_cond_ok op p) (isa_register (ctr p)) (isa_lr op pc p) (ctr p)
  end.

Definition branch_handler (c : cfg) (i : itype)
    : option (Z -> Z -> ppu_thread -> outcome * ppu_thread) :=
  match i with
  | Itype.B => Some (Branch.B c)
  | Itype.BC => Some (Branch.BC c)
  | Itype.BCLR => Some (Branch.BCLR c)
  | Itype.BCCTR => Some (Branch.BCCTR c)
  | _ => None
  end.

(** ** Fields as bits of the word *)

Lemma field_bits f b op : field_desc f = FBf b -> is_signed b = false -> valid b ->
  op_get f op = wrap (bitsize b) (Z.shiftr op (bitpos b)).
Proof. intros E Hs Hv. unfold op_get. rewrite E, extract_mod by done. unfold truncate. by rewrite Hs. Qed.

Lemma one_bit x : negb (x mod 2 =? 0) = Z.odd x.
Proof. rewrite Zmod_odd. by destruct (Z.odd x). Qed.

Lemma lk_bit op : negb (op.[f_lk] =? 0) = isa_lk op.
Proof.
  rewrite (field_bits f_lk _ op eq_refl eq_refl) by (unfold valid; simpl; lia).
  cbn [bitsize bitpos ppu_bf]. rewrite Z.shiftr_0_r. unfold wrap, isa_lk. rewrite Z.bit0_odd.
  apply one_bit.
Qed.

Lemma aa_bit op : negb (op.[f_aa] =? 0) = isa_aa op.
Proof.
  rewrite (field_bits f_aa _ op eq_refl eq_refl) by (unfold valid; simpl; lia).
  cbn [bitsize bitpos ppu_bf]. unfold wrap, isa_aa. rewrite one_bit, <- Z.bit0_odd.
  by rewrite Z.shiftr_spec by lia.
Qed.

Lemma bi_bits op : op.[f_bi] = isa_bi op.
Proof.
  rewrite (field_bits f_bi _ op eq_refl eq_refl) by (unfold valid; simpl; lia).
  cbn [bitsize bitpos ppu_bf]. unfold wrap, isa_bi. by rewrite Z.shiftr_div_pow2 by lia.
Qed.

Lemma bo_bits op k : 0 <= k <= 4 -> Branch.bo_bit op (2 ^ (4 - k)) = isa_bo op k.
Proof.
  intros Hk. unfold Branch.bo_bit, isa_bo.
  rewrite (field_bits f_bo _ op eq_refl eq_refl) by (unfold valid; simpl; lia).
  cbn [bitsize bitpos ppu_bf]. rewrite land_pow2 by lia.
  rewrite negb_involutive, testbit_wrap by lia.
  destruct (Z.ltb_spec (4 - k) 5); [|lia]. cbn [andb]. rewrite Z.shiftr_spec by lia. f_equal. lia.
Qed.

Lemma bo_all op : Branch.bo_bit op 0x10 = isa_bo op 0 /\ Branch.bo_bit op 0x08 = isa_bo op 1 /\
  Branch.bo_bit op 0x04 = isa_bo op 2 /\ Branch.bo_bit op 0x02 = isa_bo op 3.
Proof.
  split; [exact (bo_bits op 0 ltac:(lia))|]. split; [exact (bo_bits op 1 ltac:(lia))|].
  split; [exact (bo_bits op 2 ltac:(lia))|exact (bo_bits op 3 ltac:(lia))].
Qed.

(** ** The parts of a branch *)

Lemma ctr_counted op p : wf p -> ctr (counted op p) = isa_ctr op p.
Proof.
  intros Hp. unfold counted, isa_ctr. cbn [ctr with_ctr].
  destruct (bo_all op) as (_ & _ & -> & _). destruct (isa_bo op 2); cbn [xorb b2z].
  - rewrite Z.sub_0_r. apply wrap_small, Hp.
  - reflexivity.
Qed.

Lemma bo_taken_isa op p : wf p -> bo_taken op p = isa_ctr_ok op p && isa_cond_ok op p.
Proof.
  intros Hp. unfold bo_taken, isa_ctr_ok, isa_cond_ok. rewrite ctr_counted by done.
  destruct (bo_all op) as (-> & -> & -> & ->). rewrite bi_bits.
  assert (p.cr[isa_bi op] = 0 \/ p.cr[isa_bi op] = 1) as Hc.
  { pose proof (cr_is_bit p (isa_bi op) Hp) as Hb. unfold is_bit in Hb. lia. }
  f_equal.
  - destruct (isa_bo op 3), (_ =? 0); reflexivity.
  - by destruct Hc as [-> | ->]; destruct (isa_bo op 1).
Qed.

Lemma register_target x : u32 x .& -4 = isa_register x.
Proof.
  unfold isa_register, wrap. change (-4) with (Z.lnot (Z.ones 2)).
  rewrite <- Z.ldiff_land, Z.ldiff_ones_r, Z.shiftl_mul_pow2, Z.shiftr_div_pow2 by lia. done.
Qed.

Lemma displaced op pc bits d : d = sgn bits (Z.shiftr op 2) * 4 ->
  u32 ((if negb (op.[f_aa] =? 0) then 0 else pc) + d) = isa_displaced op pc bits.
Proof.
  intros ->. unfold isa_displaced. rewrite aa_bit, Z.shiftr_div_pow2 by lia.
  unfold wrap. f_equal. change (2 ^ 2) with 4. lia.
Qed.

(** Registers a branch cannot change. *)
Definition data_same (p q : ppu_thread) : Prop :=
  gpr q = gpr p /\ cr q = cr p /\ xer q = xer p /\ vrsave q = vrsave p /\
  raddr q = raddr p /\ rdata q = rdata p /\ cpu_state q = cpu_state p.

Lemma record_call_data flag a op ind p :
  let q := Branch.record_call flag a op ind p in
  data_same p q /\ lr q = lr p /\ ctr q = ctr p.
Proof. cbv zeta. unfold Branch.record_call. repeat case_match; repeat split. Qed.

Lemma linked_data op pc p :
  data_same p (linked op pc p) /\ lr (linked op pc p) = isa_lr op pc p /\
  ctr (linked op pc p) = ctr p.
Proof. unfold linked, isa_lr. rewrite lk_bit. destruct (isa_lk op); repeat split. Qed.

(** The effect of the common last part. *)
Lemma finish_effect link old taken jumped target fallen e p :
  taken = b_taken e -> (taken = true -> target = b_target e) ->
  (taken = true -> data_same p jumped /\ lr jumped = b_lr e /\ ctr jumped = b_ctr e) ->
  (taken = false -> data_same p fallen /\ lr fallen = b_lr e /\ ctr fallen = b_ctr e) ->
  cia fallen = cia p ->
  let '(o, q) := finish link old taken jumped target fallen in
  data_same p q /\ lr q = b_lr e /\ ctr q = b_ctr e /\
  if b_taken e then o = Return /\ cia q = b_target e
  else if cpu_state p =? 0 then o = Next /\ cia q = cia p
  else o = Return /\ cia q = link.
Proof.
  intros Et Eg Hj Hf Hc. unfold finish. rewrite <- Et. destruct taken.
  - destruct (Hj eq_refl) as (Hd & Hl & Hk). by rewrite (Eg eq_refl).
  - destruct (Hf eq_refl) as (Hd & Hl & Hk).
    replace (cpu_state fallen) with (cpu_state p) by (symmetry; apply Hd).
    by destruct (_ =? 0).
Qed.

Lemma data_trans p q r : data_same p q -> data_same q r -> data_same p r.
Proof. intros (?&?&?&?&?&?&?) (?&?&?&?&?&?&?). repeat split; congruence. Qed.

Lemma jumped_data flag a op ind pc p q : data_same p q -> lr q = isa_lr op pc p ->
  let q' := Branch.record_call flag a op ind q in
  data_same p q' /\ lr q' = isa_lr op pc p /\ ctr q' = ctr q.
Proof.
  intros Hd Hl q'. destruct (record_call_data flag a op ind q) as (H1 & H2 & H3).
  split; [by eapply data_trans|]. unfold q'. split; congruence.
Qed.

Lemma counted_data op pc p :
  let q := linked op pc (counted op p) in
  data_same p q /\ lr q = isa_lr op pc p /\ ctr q = ctr (counted op p).
Proof.
  cbv zeta. destruct (linked_data op pc (counted op p)) as (H1 & H2 & H3). split; [|split].
  - by eapply data_trans; [|exact H1].
  - exact H2.
  - exact H3.
Qed.

(** C22: every branch instruction does what the ISA says.  It is taken exactly when the BO
    field accepts the (decremented) count and the CR bit, goes to the displaced, absolute or
    register target modulo [2^32], leaves the link address in LR iff LK is set and the
    decremented count in CTR, and changes no other architectural register; when not taken it
    falls through, or stops at the next instruction if the thread has a pending state. *)
Theorem branch_exact c i f op pc p : branch_handler c i = Some f -> wf p ->
  let e := isa_effect i op pc p in
  let '(o, q) := f op pc p in
  data_same p q /\ lr q = b_lr e /\ ctr q = b_ctr e /\
  if b_taken e then o = Return /\ cia q = b_target e
  else if cpu_state p =? 0 then o = Next /\ cia q = cia p
  else o = Return /\ cia q = (pc + 4) mod 2 ^ 32.
Proof.
  intros Hf Hp e. destruct (counted_data op pc p) as (Cd & Cl & Cc).
  rewrite ctr_counted in Cc by done. destruct (linked_data op pc p) as (Ld & Ll & Lc).
  destruct (bo_all op) as (B0 & B1 & _ & _).
  destruct i; try discriminate Hf; injection Hf as <-.
  - rewrite BC_finish. apply finish_effect.
    + by apply bo_taken_isa.
    + intros _. by apply displaced, bt14_val.
    + intros _. destruct (jumped_data (set_call_history c) pc op false pc p
        (with_cia (linked op pc (counted op p)) pc)) as (H1 & H2 & H3); [done|done|].
      split; [done|]. split; [done|]. by rewrite H3.
    + done.
    + exact (cia_linked op pc _).
  - rewrite B_finish. destruct (record_call_data (set_call_history c) pc op false (with_cia p pc))
      as (Rd & Rl & Rc).
    destruct (linked_data op pc (Branch.record_call (set_call_history c) pc op false
      (with_cia p pc))) as (Ld' & Ll' & Lc').
    apply finish_effect; try done.
    + intros _. by apply displaced, bt24_val.
    + intros _. split; [eapply data_trans; [exact Rd|exact Ld']|]. rewrite Ll', Lc', Rc.
      split; [|done]. unfold isa_lr. by rewrite Rl.
  - rewrite BCLR_finish. apply finish_effect.
    + by apply bo_taken_isa.
    + intros _. apply register_target.
    + intros _. destruct (jumped_data (set_call_history c) (u32 (lr p) .& -4) op true pc p
        (linked op pc (counted op p)) Cd Cl) as (H1 & H2 & H3).
      split; [done|]. split; [done|]. by rewrite H3.
    + done.
    + exact (cia_linked op pc _).
  - rewrite BCCTR_finish. apply finish_effect.
    + rewrite B0, B1, bi_bits. cbn [b_taken isa_effect e]. unfold isa_cond_ok. f_equal.
      pose proof (cr_is_bit p (isa_bi op) Hp) as Hb. unfold is_bit in Hb.
      assert (p.cr[isa_bi op] = 0 \/ p.cr[isa_bi op] = 1) as [-> | ->] by lia;
        by destruct (isa_bo op 1).
    + intros _. apply register_target.
    + intros _. destruct (jumped_data (set_call_history c) (u32 (ctr p) .& -4) op true pc p
        (linked op pc p) Ld Ll) as (H1 & H2 & H3).
      split; [done|]. split; [done|]. by rewrite H3.
    + done.
    + exact (cia_linked op pc _).
Qed.

(** [bdnzf eq, +8] with LK at 0x1000: CTR 2 becomes 1 and EQ is clear, so it is taken. *)
Lemma branch_exact_witness :
  let p := with_ctr (with_cia ppu_init 0x1000) 2 in
  let op := ppu_instructions.BC 0 2 8 false true in
  exists q, Branch.BC sample_cfg op 0x1000 p = (Return, q) /\ cia q = 0x1008 /\ lr q = 0x1004.
Proof.
  intros p op. pose proof (branch_exact sample_cfg Itype.BC (Branch.BC sample_cfg) op 0x1000 p) as H.
  destruct (Branch.BC sample_cfg op 0x1000 p) as [o q]. exists q.
  destruct H as (_ & Hl & _ & Ht).
  - reflexivity.
  - apply wf_with_ctr; [apply wf_with_cia; [apply wf_ppu_init|]|]; unfold in_u; lia.
  - change (b_taken _) with true in Ht. destruct Ht as [-> ->]. rewrite Hl.
    split; [done|]. split; vm_compute; reflexivity.
Defined.

(** ** The call history *)

(** The entry written [k] calls ago. *)
Definition recent (h : call_history_t) (k : Z) : Z :=
  get (h_data h) ((h_index h - 1 - k) mod call_history_max_size).

(** Calls of [targets], in order, by branches that set LR. *)
Definition record_calls (op : Z) (ind : bool) (targets : list Z) (p : ppu_thread) : ppu_thread :=
  foldl (fun p a => Branch.record_call true a op ind p) p targets.

Lemma record_one op ind a p : wf p -> op.[f_lk] <> 0 ->
  length (h_data (call_history p)) = Z.to_nat call_history_max_size ->
  let h := call_history p in
  let h' := call_history (Branch.record_call true a op ind p) in
  length (h_data h') = length (h_data h) /\ recent h' 0 = a /\
  h_index h' = u64 (h_index h + 1) /\
  (forall k, 0 <= k < call_history_max_size - 1 -> recent h' (k + 1) = recent h k) /\
  h_last_r1 h' = p.gpr[1] /\ h_last_r2 h' = p.gpr[2].
Proof.
  intros Hp Hlk Hl. cbv zeta. unfold Branch.record_call. cbn [negb].
  destruct (Nat.eqb_spec (length (h_data (call_history p))) 0) as [E|_].
  { rewrite Hl in E. discriminate E. }
  destruct (Z.eqb_spec op.[f_lk] 0) as [E|_]; [done|].
  cbn [call_history with_history h_data h_index h_last_r1 h_last_r2].
  pose proof (wf_hist p Hp) as (Hi & _). set (x := h_index (call_history p)) in *.
  assert (forall k, (u64 (x + 1) - 1 - k) mod call_history_max_size =
                    (x - k) mod call_history_max_size) as Hidx.
  { intros k. unfold call_history_max_size. word_lia. }
  pose proof (Z.mod_pos_bound x call_history_max_size ltac:(done)) as Hx.
  split; [apply length_set|]. unfold recent. cbn [h_data h_index].
  split; [|split; [done|split; [|done]]].
  - rewrite Hidx, Z.sub_0_r. apply get_set_eq. rewrite Hl. unfold call_history_max_size in *. lia.
  - intros k Hk. rewrite Hidx. fold x. replace (x - (k + 1)) with (x - 1 - k) by lia.
    apply get_set_ne; [lia|apply Z.mod_pos_bound; done|].
    unfold call_history_max_size in *. intros E. Z.div_mod_to_equations. lia.
Qed.

Lemma record_calls_wf op ind targets p : wf p -> op.[f_lk] <> 0 -> Forall (in_u 32) targets ->
  length (h_data (call_history p)) = Z.to_nat call_history_max_size ->
  wf (record_calls op ind targets p) /\
  length (h_data (call_history (record_calls op ind targets p))) = Z.to_nat call_history_max_size.
Proof.
  intros Hp Hlk Ht Hl. unfold record_calls. revert p Hp Hl.
  induction Ht as [|a l Ha Ht IH]; intros p Hp Hl; [done|]. cbn [foldl]. apply IH.
  - by apply wf_record_call.
  - destruct (record_one op ind a p Hp Hlk Hl) as (E & _). by rewrite E.
Qed.

Lemma get_app_last l a : get (l ++ [a]) (Z.of_nat (length l)) = a.
Proof. unfold get. rewrite Nat2Z.id, nth_middle. done. Qed.

Lemma get_app_low l l' k : 0 <= k < Z.of_nat (length l) -> get (l ++ l') k = get l k.
Proof. intros Hk. unfold get. apply app_nth1. lia. Qed.

(** With the call history enabled, the ring buffer of 4096 entries always holds the most
    recent calls: after any sequence of linking branches, the entry [k] places behind the
    index is the [k]-th last call, for all of the last 4096 of them, and the 64-bit index
    may wrap. *)
Theorem call_history_window op ind targets p k : wf p -> op.[f_lk] <> 0 ->
  Forall (in_u 32) targets ->
  length (h_data (call_history p)) = Z.to_nat call_history_max_size ->
  (k < length targets)%nat -> Z.of_nat k < call_history_max_size ->
  recent (call_history (record_calls op ind targets p)) (Z.of_nat k) =
  get targets (Z.of_nat (length targets) - 1 - Z.of_nat k).
Proof.
  intros Hp Hlk Ht Hl. revert k. induction targets as [|a l IH] using rev_ind;
    intros k Hk Hmax; [simpl in Hk; lia|].
  apply Forall_app in Ht as [Ht _]. specialize (IH Ht).
  destruct (record_calls_wf op ind l p Hp Hlk Ht Hl) as [Hw Hl'].
  destruct (record_one op ind a _ Hw Hlk Hl') as (_ & H0 & _ & Hs & _).
  unfold record_calls in *. rewrite foldl_app. cbn [foldl].
  rewrite length_app in *. cbn [length] in *. destruct k as [|k].
  - change (Z.of_nat 0) with 0. rewrite H0. rewrite <- (get_app_last l a) at 1. f_equal. lia.
  - replace (Z.of_nat (S k)) with (Z.of_nat k + 1) by lia.
    rewrite Hs, IH by lia. rewrite get_app_low by lia. f_equal. lia.
Qed.

Lemma call_history_window_witness :
  let p := with_history ppu_init (Hist (replicate 4096 0) (2 ^ 64 - 1) 0 0 false) in
  let op := ppu_instructions.B 0 false true in
  recent (call_history (record_calls op false [0x100; 0x200; 0x300] p)) 2 = 0x100.
Proof.
  intros p op. refine (call_history_window op false [0x100; 0x200; 0x300] p 2 _ _ _ _ _ _).
  - destruct wf_ppu_init. split; try assumption. cbn [call_history p with_history h_index
      h_last_r1 h_last_r2 h_data]. repeat split; try lia.
    + right. apply length_replicate.
    + apply Forall_replicate. unfold in_u. lia.
  - vm_compute. discriminate.
  - repeat constructor; unfold in_u; lia.
  - apply length_replicate.
  - simpl. lia.
  - vm_compute. reflexivity.
Defined.
