(* ===== verification/Lv2Queue.v ===== *)
(** Wait queues of the lv2 kernel objects (Emu/Cell/lv2/sys_sync.h).

    [lv2_obj::emplace], [lv2_obj::unqueue] and [lv2_obj::schedule] work on a singly linked
    list threaded through [ppu_thread::next_cpu].  The module [Lv2Queue] transcribes them on
    an explicit store of [next_cpu] pointers; [is_queue] says that the pointers reachable from
    the head form a given list of threads, and the three operations are shown to implement the
    list operations [cons], [list_remove_id] and [pick].  The class [WaitQueue] is what the
    kernel objects rely on; the linked list is its instance. *)

From Stdlib Require Import ZArith Lia Bool Sorted.
From stdpp Require Import base tactics option list numbers gmap.
From S2P Require Import Prelude.
Local Open Scope Z_scope.

(** [lv2_protocol]. *)
Definition SYS_SYNC_FIFO : Z := 1.
Definition SYS_SYNC_PRIORITY : Z := 2.
Definition SYS_SYNC_PRIORITY_INHERIT : Z := 3.
Definition SYS_SYNC_RETRY : Z := 4.

(** What the queues use of a thread: the bit fields of [ppu_prio_t] (signed 13-bit [prio], signed
    50-bit [order], [preserve_bit]) and [cpu_flag::again] of its state. *)
Record thread_info := Info { prio : Z; order : Z; preserve_bit : bool; again : bool }.

Module Lv2Queue.

(** [next_cpu] of every thread; absent entries are [nullptr]. *)
Definition store : Type := gmap tid tid.

Definition set_next (t : tid) (v : option tid) (s : store) : store := partial_alter (fun _ => v) t s.

(** [first] and the store. *)
Record queue := Q { first : option tid; nodes : store }.

(** A [T*] location that can be assigned: the head or a [next_cpu] field. *)
Inductive slot := First | NextOf (t : tid).

Definition assign (l : slot) (v : option tid) (q : queue) : queue :=
  match l with
  | First => Q v (nodes q)
  | NextOf t => Q (first q) (set_next t v (nodes q))
  end.

(** [lv2_obj::emplace], the list part. *)
Definition emplace (object : tid) (q : queue) : queue :=
  let q := assign (NextOf object) (first q) q in
  assign First (Some object) q.

(** The [prio.atomic_op] of [emplace]; [order] is stored in 50 bits. *)
Definition enqueue_order (tag : Z) (t : thread_info) : thread_info :=
  if preserve_bit t then Info (prio t) (order t) false (again t)
  else Info (prio t) (sgn 50 tag) (preserve_bit t) (again t).

(** The lambda [set_prio] of [lv2_obj::awake_unlocked] (lv2.cpp): the new record and
    [g_priority_order_tag]. *)
Definition set_prio (value : Z) (increment_order_last increment_order_first : bool) (gtag : Z)
    (t : thread_info) : thread_info * Z :=
  let gtag := if increment_order_first || increment_order_last then wrap 64 (gtag + 1) else gtag in
  let o := if increment_order_first then sgn 50 (Z.lnot (sgn 64 gtag))
           else if increment_order_last then sgn 50 gtag else order t in
  (Info (sgn 13 value) o (preserve_bit t) (again t), gtag).

(** [awake_unlocked] with a priority, as far as the thread's record goes: [sleeping] threads are
    not in the run queue [g_ppu]. *)
Definition change_prio (sleeping : bool) (value : Z) (gtag : Z) (t : thread_info)
    : thread_info * Z :=
  let old_prio := prio t in
  if sleeping then set_prio value (value <? old_prio) (old_prio <? value) gtag t
  else set_prio value false false gtag t.

(** The [for] loop of [unqueue]. *)
Fixpoint unqueue_loop (modify_node : bool) (fuel : nat) (it : option tid) (object : tid)
    (q : queue) : option tid * queue :=
  match fuel, it with
  | S fuel, Some it =>
      let next := nodes q !! it in
      if bool_decide (next = Some object) then
        let q := assign (NextOf it) (nodes q !! object) q in
        (Some object, if modify_node then assign (NextOf object) None q else q)
      else unqueue_loop modify_node fuel next object q
  | _, _ => (None, q)
  end.

Definition unqueue (modify_node : bool) (fuel : nat) (object : tid) (q : queue)
    : option tid * queue :=
  if bool_decide (first q = Some object) then
    let q := assign First (nodes q !! object) q in
    (Some object, if modify_node then assign (NextOf object) None q else q)
  else unqueue_loop modify_node fuel (first q) object q.

(** [for (auto cpu = +sq; cpu; cpu = cpu->next_cpu)]: the threads visited. *)
Fixpoint walk (fuel : nat) (it : option tid) (q : queue) : list tid :=
  match fuel, it with
  | S fuel, Some cpu => cpu :: walk fuel (nodes q !! cpu) q
  | _, _ => []
  end.

(** [protocol == SYS_SYNC_FIFO]: walk to the last node. *)
Fixpoint fifo_loop (fuel : nat) (info : tid -> thread_info) (it : tid) (parent_found : slot)
    (q : queue) : option tid * queue :=
  match fuel with
  | O => (None, q)
  | S fuel =>
      match nodes q !! it with
      | Some next => fifo_loop fuel info next (NextOf it) q
      | None => (Some it, if again (info it) then q else assign parent_found None q)
      end
  end.

(** The search for the best [prio]; returns [found] and [parent_found]. *)
Fixpoint prio_loop (fuel : nat) (info : tid -> thread_info) (it found : tid) (parent_found : slot)
    (q : queue) : option (tid * slot) :=
  match fuel with
  | O => None
  | S fuel =>
      match nodes q !! it with
      | None => Some (found, parent_found)
      | Some next =>
          if (prio (info next) <? prio (info found)) ||
             ((prio (info next) =? prio (info found)) && (order (info next) <? order (info found)))
          then prio_loop fuel info next next (NextOf it) q
          else prio_loop fuel info next found parent_found q
      end
  end.

Definition schedule (fuel : nat) (info : tid -> thread_info) (protocol : Z) (modify_node : bool)
    (q : queue) : option tid * queue :=
  match first q with
  | None => (None, q)
  | Some it =>
      if protocol =? SYS_SYNC_FIFO then fifo_loop fuel info it First q
      else
        match prio_loop fuel info it it First q with
        | None => (None, q)
        | Some (found, parent_found) =>
            (Some found,
             if again (info found) then q
             else
               let q := assign parent_found (nodes q !! found) q in
               if modify_node then assign (NextOf found) None q else q)
        end
  end.

End Lv2Queue.
Import Lv2Queue.

(** ** List-level specification *)

Definition list_remove_id (x : tid) (l : list tid) : list tid := filter (fun y => y <> x) l.

(** Strictly better claim: higher priority (smaller number), earlier order. *)
Definition better (a b : thread_info) : bool :=
  (prio a <? prio b) || ((prio a =? prio b) && (order a <? order b)).

(** The element that is never beaten by a later one of the list. *)
Fixpoint best (info : tid -> thread_info) (found : tid) (l : list tid) : tid :=
  match l with
  | [] => found
  | x :: l => best info (if better (info x) (info found) then x else found) l
  end.

(** The thread [schedule] selects; queues are newest first. *)
Definition pick (info : tid -> thread_info) (protocol : Z) (l : list tid) : option tid :=
  match l with
  | [] => None
  | x :: l => Some (if protocol =? SYS_SYNC_FIFO then default x (last l) else best info x l)
  end.

(** ** Representation *)

(** The pointers from [f] to [e] run through [l]. *)
Fixpoint seg (s : store) (f : option tid) (l : list tid) (e : option tid) : Prop :=
  match l with
  | [] => f = e
  | x :: l => f = Some x /\ seg s (s !! x) l e
  end.

Definition is_queue (q : queue) (l : list tid) : Prop := seg (nodes q) (first q) l None.

Lemma seg_app s f l1 l2 e : seg s f (l1 ++ l2) e <-> exists m, seg s f l1 m /\ seg s m l2 e.
Proof.
  revert f. induction l1 as [|x l1 IH]; intros f; cbn [app seg].
  - split; [by exists f|]. by intros (m & -> & H).
  - rewrite IH. naive_solver.
Qed.

Lemma seg_det s f l l' : seg s f l None -> seg s f l' None -> l = l'.
Proof.
  revert f l'. induction l as [|x l IH]; intros f l'; cbn [seg].
  - intros ->. by destruct l'; [|intros [? _]].
  - intros [-> H]. destruct l' as [|y l']; cbn [seg]; [done|].
    intros [[= <-] H']. f_equal. by eapply IH.
Qed.

(** A list that ends in [nullptr] cannot visit a thread twice. *)
Lemma seg_nodup s f l : seg s f l None -> NoDup l.
Proof.
  revert f. induction l as [|x l IH]; intros f; cbn [seg]; [constructor|]. intros [-> H].
  constructor; [|by eapply IH]. intros (l1 & l2 & ->)%list_elem_of_split.
  apply seg_app in H as Hs. destruct Hs as (m & _ & [-> H2]).
  pose proof (f_equal length (seg_det _ _ _ _ H H2)) as E. rewrite length_app in E. simpl in E. lia.
Qed.

Lemma seg_frame s s' f l e : (forall y, y ∈ l -> s' !! y = s !! y) -> seg s f l e -> seg s' f l e.
Proof.
  revert f. induction l as [|x l IH]; intros f Hf; cbn [seg]; [done|]. intros [-> H].
  split; [done|]. rewrite Hf by set_solver. apply IH; [|done]. set_solver.
Qed.

Lemma lookup_set_next t v s y :
  set_next t v s !! y = if decide (y = t) then v else s !! y.
Proof.
  unfold set_next. destruct (decide (y = t)) as [->|].
  - apply lookup_partial_alter_eq.
  - by apply lookup_partial_alter_ne.
Qed.

(** Redirecting the last pointer of a segment. *)
Lemma seg_redirect s f l p e v : p ∉ l -> seg s f (l ++ [p]) e -> seg (set_next p v s) f (l ++ [p]) v.
Proof.
  intros Hp (m & H1 & [-> _])%seg_app. apply seg_app. exists (Some p). split.
  - eapply seg_frame; [|exact H1]. intros y Hy. rewrite lookup_set_next.
    destruct (decide (y = p)); [set_solver|done].
  - split; [done|]. cbn [seg]. rewrite lookup_set_next. by destruct (decide (p = p)).
Qed.

(** The location that points to what follows [l]. *)
Definition slot_of (l : list tid) : slot :=
  match last l with None => First | Some p => NextOf p end.

(** Unlinking one node. *)
Definition unlink (modify_node : bool) (l1 : list tid) (x : tid) (q : queue) : queue :=
  let q' := assign (slot_of l1) (nodes q !! x) q in
  if modify_node then assign (NextOf x) None q' else q'.

Lemma assign_slot l1 v q e : NoDup l1 -> seg (nodes q) (first q) l1 e ->
  let q' := assign (slot_of l1) v q in
  seg (nodes q') (first q') l1 v /\ (forall y, y ∉ l1 -> nodes q' !! y = nodes q !! y).
Proof.
  intros Hn Hs. unfold slot_of. destruct l1 as [|p l _] using rev_ind; [done|].
  rewrite last_snoc. apply NoDup_app in Hn as (Hl & Hp & _). cbn [assign first nodes]. split.
  - eapply seg_redirect; [|exact Hs]. intros Hin. by apply (Hp p Hin), list_elem_of_singleton.
  - intros y Hy. rewrite lookup_set_next. destruct (decide (y = p)); [set_solver|done].
Qed.

Lemma unlink_spec modify l1 x l2 q : is_queue q (l1 ++ x :: l2) ->
  let q' := unlink modify l1 x q in
  is_queue q' (l1 ++ l2) /\
  (forall y, y ∉ l1 ++ x :: l2 -> nodes q' !! y = nodes q !! y) /\
  (modify = true -> nodes q' !! x = None).
Proof.
  intros H. pose proof (seg_nodup _ _ _ H) as Hn. apply seg_app in H as (m & H1 & [-> H2]).
  apply NoDup_app in Hn as (Hn1 & Hd & [Hx Hn2]%NoDup_cons).
  assert (x ∉ l1) as Hx1 by set_solver.
  destruct (assign_slot l1 (nodes q !! x) q _ Hn1 H1) as [Ha Hf]. cbv zeta.
  set (q1 := assign (slot_of l1) (nodes q !! x) q) in *.
  assert (is_queue q1 (l1 ++ l2)) as Hq.
  { apply seg_app. eexists. split; [exact Ha|]. eapply seg_frame; [|exact H2].
    intros y Hy. apply Hf. set_solver. }
  unfold unlink. fold q1. destruct modify; [|split; [done|split; [set_solver|done]]].
  cbn [assign nodes first]. split; [|split].
  - eapply seg_frame; [|exact Hq]. intros y Hy. cbn [nodes]. rewrite lookup_set_next.
    destruct (decide (y = x)); [set_solver|done].
  - intros y Hy. rewrite lookup_set_next. destruct (decide (y = x)); [set_solver|]. set_solver.
  - intros _. rewrite lookup_set_next. by destruct (decide (x = x)).
Qed.

Lemma remove_id_notin x l : x ∉ l -> list_remove_id x l = l.
Proof.
  unfold list_remove_id. induction l as [|y l IH]; intros Hx; [done|]. rewrite filter_cons.
  rewrite decide_True by set_solver. f_equal. apply IH. set_solver.
Qed.

Lemma remove_id_split x l1 l2 : NoDup (l1 ++ x :: l2) -> list_remove_id x (l1 ++ x :: l2) = l1 ++ l2.
Proof.
  intros (Hn1 & Hd & [Hx Hn2]%NoDup_cons)%NoDup_app. unfold list_remove_id.
  rewrite filter_app, filter_cons. rewrite decide_False by tauto.
  f_equal; apply remove_id_notin; set_solver.
Qed.

Lemma remove_id_length x l : NoDup l -> x ∈ l -> S (length (list_remove_id x l)) = length l.
Proof.
  intros Hn (l1 & l2 & ->)%list_elem_of_split. rewrite remove_id_split by done.
  rewrite !length_app. simpl. lia.
Qed.

Lemma elem_of_remove_id x y l : y ∈ list_remove_id x l <-> y ∈ l /\ y <> x.
Proof. unfold list_remove_id. rewrite list_elem_of_filter. tauto. Qed.

Lemma seg_head s f x l e : seg s f (x :: l) e -> f = Some x.
Proof. by intros [-> _]. Qed.

Lemma seg_next s f l1 x l2 : seg s f (l1 ++ x :: l2) None ->
  s !! x = match l2 with [] => None | y :: _ => Some y end.
Proof. intros (m & _ & [_ H])%seg_app. destruct l2; [done|]. by apply seg_head in H. Qed.

(** ** The operations *)

Lemma emplace_spec x q l : is_queue q l -> x ∉ l ->
  is_queue (emplace x q) (x :: l) /\
  forall y, y <> x -> nodes (emplace x q) !! y = nodes q !! y.
Proof.
  intros H Hx. unfold emplace, is_queue. cbn [assign first nodes seg].
  rewrite lookup_set_next. destruct (decide (x = x)); [|done]. split.
  - split; [done|]. eapply seg_frame; [|exact H]. intros y Hy. rewrite lookup_set_next.
    destruct (decide (y = x)); [set_solver|done].
  - intros y Hy. rewrite lookup_set_next. by destruct (decide (y = x)).
Qed.

Lemma slot_of_snoc l p : slot_of (l ++ [p]) = NextOf p.
Proof. unfold slot_of. by rewrite last_snoc. Qed.

Lemma unqueue_loop_spec modify fuel l1 it l2 x q :
  is_queue q (l1 ++ it :: l2) -> x <> it -> (length l2 < fuel)%nat ->
  unqueue_loop modify fuel (Some it) x q =
  match list_find (fun y => y = x) l2 with
  | Some (n, _) => (Some x, unlink modify (l1 ++ it :: take n l2) x q)
  | None => (None, q)
  end.
Proof.
  revert l1 it fuel. induction l2 as [|y l2 IH]; intros l1 it fuel H Hx Hf.
  - destruct fuel; [lia|]. cbn [unqueue_loop]. rewrite (seg_next _ _ _ _ _ H).
    by destruct fuel.
  - destruct fuel as [|fuel]; [simpl in Hf; lia|]. cbn [unqueue_loop].
    rewrite (seg_next _ _ _ _ _ H). cbn [list_find]. destruct (decide (y = x)) as [->|Hne].
    + rewrite bool_decide_true by done. cbn [take]. unfold unlink. by rewrite slot_of_snoc.
    + rewrite bool_decide_false by congruence.
      rewrite (IH (l1 ++ [it]) y fuel); [| |done|simpl in Hf; lia].
      * destruct (list_find _ l2) as [[n z]|]; cbn [fmap option_fmap option_map prod_map]; [|done].
        cbn [take]. by rewrite <- app_assoc.
      * by rewrite <- app_assoc.
Qed.

(** [unqueue] of any thread, queued or not. *)
Lemma unqueue_spec modify fuel x q l : is_queue q l -> (length l <= fuel)%nat ->
  if decide (x ∈ l) then
    exists q', unqueue modify fuel x q = (Some x, q') /\ is_queue q' (list_remove_id x l) /\
      (forall y, y ∉ l -> nodes q' !! y = nodes q !! y) /\
      (modify = true -> nodes q' !! x = None)
  else unqueue modify fuel x q = (None, q).
Proof.
  intros H Hf. pose proof (seg_nodup _ _ _ H) as Hn. unfold unqueue.
  destruct l as [|it l]; cbn [is_queue seg] in H.
  { unfold is_queue in H. cbn [seg] in H. rewrite H. rewrite decide_False by set_solver.
    rewrite bool_decide_false by done. by destruct fuel. }
  pose proof (seg_head _ _ _ _ _ H) as E. rewrite E. destruct (decide (it = x)) as [->|Hne].
  - rewrite bool_decide_true by done. rewrite decide_True by set_solver.
    destruct (unlink_spec modify [] x l q H) as (H1 & H2 & H3). eexists. split; [reflexivity|].
    change (x :: l) with ([] ++ x :: l) at 1. rewrite (remove_id_split x [] l Hn). done.
  - rewrite bool_decide_false by congruence.
    rewrite (unqueue_loop_spec modify fuel [] it l x q H) by (congruence || (simpl in Hf; lia)).
    destruct (list_find (fun y => y = x) l) as [[n y]|] eqn:Hl.
    + apply list_find_Some in Hl as (Hl & -> & _).
      pose proof (take_drop_middle l n x Hl) as Hsplit.
      rewrite decide_True by (apply list_elem_of_lookup_2 in Hl; set_solver).
      destruct (unlink_spec modify (it :: take n l) x (drop (S n) l) q) as (H1 & H2 & H3).
      { cbn [app]. by rewrite Hsplit. }
      cbn [app] in *. rewrite Hsplit in H2. eexists. split; [reflexivity|].
      pose proof (remove_id_split x (it :: take n l) (drop (S n) l)) as Er.
      cbn [app] in Er. rewrite Hsplit in Er. rewrite (Er Hn). done.
    + apply list_find_None in Hl. rewrite decide_False; [done|].
      intros [->|Hin]%elem_of_cons; [done|]. rewrite Forall_forall in Hl. by apply (Hl x).
Qed.

Lemma fifo_loop_spec fuel info l1 it l2 q : is_queue q (l1 ++ it :: l2) -> (length l2 < fuel)%nat ->
  exists pre, l1 ++ it :: l2 = pre ++ [default it (last l2)] /\
    fifo_loop fuel info it (slot_of l1) q =
    (Some (default it (last l2)),
     if again (info (default it (last l2))) then q else assign (slot_of pre) None q).
Proof.
  revert l1 it fuel. induction l2 as [|y l2 IH]; intros l1 it fuel H Hf;
    (destruct fuel as [|fuel]; [simpl in Hf; lia|]); cbn [fifo_loop];
    rewrite (seg_next _ _ _ _ _ H).
  - by exists l1.
  - destruct (IH (l1 ++ [it]) y fuel) as (pre & E & Hl).
    { by rewrite <- app_assoc. } { simpl in Hf. lia. }
    exists pre. rewrite slot_of_snoc in Hl. rewrite Hl, last_cons. rewrite <- app_assoc in E.
    split; [|by destruct (last l2)]. rewrite <- (app_nil_l (y :: l2)) in *. cbn [app] in *.
    rewrite E. by destruct (last l2).
Qed.

Lemma prio_loop_spec fuel info l1 it l2 a found b q :
  is_queue q (l1 ++ it :: l2) -> l1 ++ [it] = a ++ found :: b -> (length l2 < fuel)%nat ->
  exists a' b', l1 ++ it :: l2 = a' ++ best info found l2 :: b' /\
    prio_loop fuel info it found (slot_of a) q = Some (best info found l2, slot_of a').
Proof.
  revert l1 it fuel a found b. induction l2 as [|y l2 IH]; intros l1 it fuel a found b H E Hf;
    (destruct fuel as [|fuel]; [simpl in Hf; lia|]); cbn [prio_loop best];
    rewrite (seg_next _ _ _ _ _ H).
  - by exists a, b.
  - assert (is_queue q ((l1 ++ [it]) ++ y :: l2)) as H' by by rewrite <- app_assoc.
    replace (l1 ++ it :: y :: l2) with ((l1 ++ [it]) ++ y :: l2) by by rewrite <- app_assoc.
    unfold better. destruct (_ || _).
    + rewrite <- (slot_of_snoc l1 it).
      apply (IH (l1 ++ [it]) y fuel (l1 ++ [it]) y []); [done|done|simpl in Hf; lia].
    + apply (IH (l1 ++ [it]) y fuel a found (b ++ [y])); [done| |simpl in Hf; lia].
      rewrite E, <- app_assoc. done.
Qed.

(** [schedule]: the thread chosen by the protocol leaves the queue, unless the emulator is
    being stopped inside its system call. *)
Lemma schedule_spec fuel info protocol modify q l : is_queue q l -> (length l <= fuel)%nat ->
  match pick info protocol l with
  | None => schedule fuel info protocol modify q = (None, q) /\ l = []
  | Some x => x ∈ l /\ exists q', schedule fuel info protocol modify q = (Some x, q') /\
      if again (info x) then q' = q
      else is_queue q' (list_remove_id x l) /\
           (forall y, y ∉ l -> nodes q' !! y = nodes q !! y) /\
           (modify = true -> nodes q' !! x = None)
  end.
Proof.
  intros H Hf. pose proof (seg_nodup _ _ _ H) as Hn. unfold schedule, pick.
  destruct l as [|it l]. { unfold is_queue in H. cbn [seg] in H. by rewrite H. }
  rewrite (seg_head _ _ _ _ _ H). simpl in Hf. destruct (protocol =? SYS_SYNC_FIFO).
  - destruct (fifo_loop_spec fuel info [] it l q H) as (pre & E & Hl); [lia|].
    cbn [app] in E. set (z := default it (last l)) in *. rewrite E in *.
    split; [set_solver|]. eexists. split; [exact Hl|]. destruct (again (info z)); [done|].
    destruct (unlink_spec false pre z [] q H) as (H1 & H2 & _).
    rewrite (remove_id_split z pre [] Hn). unfold unlink in H1, H2.
    rewrite (seg_next _ _ _ _ _ H) in H1, H2. split; [done|]. split; [done|]. intros _.
    pose proof (seg_nodup _ _ _ H) as Hn'. apply NoDup_app in Hn' as (Hp & Hd & _).
    destruct (assign_slot pre None q (Some z) Hp) as [_ Hfr].
    { apply seg_app in H as (m & Hm & [-> _]). exact Hm. }
    rewrite Hfr by set_solver. apply (seg_next _ _ pre z [] H).
  - destruct (prio_loop_spec fuel info [] it l [] it [] q H eq_refl) as (a & b & E & Hl); [lia|].
    cbn [app] in E. change (slot_of []) with First in Hl. rewrite Hl.
    set (z := best info it l) in *. rewrite E in *. split; [set_solver|].
    eexists. split; [reflexivity|]. destruct (again (info z)); [done|].
    rewrite (remove_id_split z a b Hn). exact (unlink_spec modify a z b q H).
Qed.

(** Fuel that always suffices: every node but the last has a [next_cpu] entry. *)
Definition enough (q : queue) : nat := S (size (nodes q)).

Lemma queue_fuel q l : is_queue q l -> (length l <= enough q)%nat.
Proof.
  intros H. pose proof (seg_nodup _ _ _ H) as Hn. unfold enough.
  destruct l as [|z l _] using rev_ind; [simpl; lia|]. rewrite length_app, Nat.add_1_r. apply le_n_S.
  apply NoDup_app in Hn as (Hn & _ & _).
  pose proof (size_dom (D := gset tid) (nodes q : gmap tid tid)) as Hd. unfold store in *.
  rewrite <- (size_list_to_set (C := gset tid) l Hn). etrans; [|apply Nat.eq_le_incl, Hd].
  apply subseteq_size. intros y Hy%elem_of_list_to_set. apply elem_of_dom.
  apply list_elem_of_split in Hy as (l1 & l2 & ->). rewrite <- app_assoc in H. cbn [app] in H.
  pose proof (seg_next _ _ _ _ _ H) as E. destruct l2; eexists; exact E.
Qed.

Lemma walk_seg fuel f q l : seg (nodes q) f l None -> (length l <= fuel)%nat -> walk fuel f q = l.
Proof.
  revert f fuel. induction l as [|x l IH]; intros f fuel H Hf.
  - cbn in H. subst f. by destruct fuel.
  - rewrite (seg_head _ _ _ _ _ H). destruct fuel as [|fuel]; [simpl in Hf; lia|]. cbn [walk].
    destruct H as [_ H]. f_equal. apply IH; [done|simpl in Hf; lia].
Qed.

Lemma walk_spec q l : is_queue q l -> (length l <= enough q)%nat -> walk (enough q) (first q) q = l.
Proof. apply walk_seg. Qed.

(** ** What the kernel objects rely on *)

(** The queue after the chosen thread left it. *)
Definition after_pick (info : tid -> thread_info) (protocol : Z) (l : list tid) : list tid :=
  match pick info protocol l with
  | Some x => if again (info x) then l else list_remove_id x l
  | None => l
  end.

Class WaitQueue (T : Type) := {
  wq_ok : T -> list tid -> Prop;
  wq_empty : T;
  wq_null : T -> bool;
  wq_list : T -> list tid;
  wq_emplace : tid -> T -> T;
  wq_unqueue : tid -> T -> option tid * T;
  wq_schedule : (tid -> thread_info) -> Z -> T -> option tid * T;
  wq_ok_empty : wq_ok wq_empty [];
  wq_ok_nodup q l : wq_ok q l -> NoDup l;
  wq_null_ok q l : wq_ok q l -> wq_null q = bool_decide (l = []);
  wq_list_ok q l : wq_ok q l -> wq_list q = l;
  wq_emplace_ok x q l : wq_ok q l -> x ∉ l -> wq_ok (wq_emplace x q) (x :: l);
  wq_unqueue_ok x q l : wq_ok q l ->
    (wq_unqueue x q).1 = (if decide (x ∈ l) then Some x else None) /\
    wq_ok (wq_unqueue x q).2 (list_remove_id x l);
  wq_schedule_ok info protocol q l : wq_ok q l ->
    (wq_schedule info protocol q).1 = pick info protocol l /\
    wq_ok (wq_schedule info protocol q).2 (after_pick info protocol l)
}.

#[export] Program Instance linked_queue : WaitQueue queue := {|
  wq_ok := is_queue;
  wq_empty := Q None ∅;
  wq_null q := bool_decide (first q = None);
  wq_list q := walk (enough q) (first q) q;
  wq_emplace := emplace;
  wq_unqueue x q := unqueue true (enough q) x q;
  wq_schedule info protocol q := schedule (enough q) info protocol true q
|}.
Next Obligation. done. Qed.
Next Obligation. intros q l. apply seg_nodup. Qed.
Next Obligation.
  intros q [|x l] H; unfold is_queue in H.
  - cbn in H. by rewrite H.
  - by rewrite (seg_head _ _ _ _ _ H).
Qed.
Next Obligation. intros q l H. by apply walk_spec, queue_fuel. Qed.
Next Obligation. intros x q l H Hx. apply (emplace_spec x q l H Hx). Qed.
Next Obligation.
  intros x q l H. pose proof (unqueue_spec true _ x q l H (queue_fuel q l H)) as Hu.
  destruct (decide _) as [|Hx].
  - destruct Hu as (q' & -> & Hq & _). done.
  - rewrite Hu. by rewrite (remove_id_notin x l Hx).
Qed.
Next Obligation.
  intros info protocol q l H.
  pose proof (schedule_spec _ info protocol true q l H (queue_fuel q l H)) as Hs.
  unfold after_pick.
  destruct (pick info protocol l) as [x|].
  - destruct Hs as (_ & q' & -> & Hq). destruct (again (info x)); [by subst|].
    split; [done|apply Hq].
  - destruct Hs as [-> ->]. done.
Qed.

(** The list itself is the reference instance. *)
Lemma best_in info found l : best info found l ∈ found :: l.
Proof.
  revert found. induction l as [|x l IH]; intros found; cbn [best]; [set_solver|].
  specialize (IH (if better (info x) (info found) then x else found)).
  destruct (better _ _); set_solver.
Qed.

Lemma pick_in info protocol l x : pick info protocol l = Some x -> x ∈ l.
Proof.
  destruct l as [|y l]; cbn [pick]; [done|]. intros [= <-]. destruct (_ =? _); [|apply best_in].
  destruct (last l) as [z|] eqn:E; [|set_solver]. apply last_Some in E as [l' ->]. set_solver.
Qed.

Lemma remove_id_nodup x l : NoDup l -> NoDup (list_remove_id x l).
Proof. apply NoDup_filter. Qed.

#[export] Program Instance list_queue : WaitQueue (list tid) := {|
  wq_ok q l := q = l /\ NoDup l;
  wq_empty := [];
  wq_null q := bool_decide (q = []);
  wq_list q := q;
  wq_emplace := cons;
  wq_unqueue x q := (if decide (x ∈ q) then Some x else None, list_remove_id x q);
  wq_schedule info protocol q :=
    (pick info protocol q, after_pick info protocol q)
|}.
Next Obligation. split; [done|constructor]. Qed.
Next Obligation. by intros q l []. Qed.
Next Obligation. by intros q l [-> _]. Qed.
Next Obligation. by intros q l [-> _]. Qed.
Next Obligation. intros x q l [-> H] Hx. split; [done|by constructor]. Qed.
Next Obligation. intros x q l [-> H]. split; [done|]. split; [done|by apply remove_id_nodup]. Qed.
Next Obligation.
  intros info protocol q l [-> H]. split; [done|]. split; [done|]. unfold after_pick.
  destruct (pick _ _ _) as [x|]; [destruct (again _)|]; try apply remove_id_nodup; exact H.
Qed.

(** ** Sequences of queue operations *)

(** A queue with the thread records and [g_priority_order_tag]. *)
Record wait_state (T : Type) := WS { ws_q : T; ws_info : tid -> thread_info; ws_tag : Z }.
Arguments WS {T} _ _ _.
Arguments ws_q {T} _.
Arguments ws_info {T} _.
Arguments ws_tag {T} _.

(** Calls of the kernel objects, and what other threads do to a thread meanwhile. *)
Inductive wq_op := Emplace (t : tid) | Unqueue (t : tid) | Schedule
  | SetPrio (sleeping : bool) (t : tid) (p : Z) | SetAgain (t : tid) (b : bool).

Definition wait_step {T} `{WaitQueue T} (protocol : Z) (op : wq_op) (s : wait_state T)
    : option tid * wait_state T :=
  match op with
  | Emplace t =>
      let tag := wrap 64 (ws_tag s + 1) in
      (None, WS (wq_emplace t (ws_q s)) (upd t (enqueue_order tag (ws_info s t)) (ws_info s)) tag)
  | Unqueue t =>
      let r := wq_unqueue t (ws_q s) in (r.1, WS r.2 (ws_info s) (ws_tag s))
  | Schedule =>
      let r := wq_schedule (ws_info s) protocol (ws_q s) in (r.1, WS r.2 (ws_info s) (ws_tag s))
  | SetPrio sleeping t p =>
      let r := change_prio sleeping p (ws_tag s) (ws_info s t) in
      (None, WS (ws_q s) (upd t r.1 (ws_info s)) r.2)
  | SetAgain t b =>
      let i := ws_info s t in
      (None, WS (ws_q s) (upd t (Info (prio i) (order i) (preserve_bit i) b) (ws_info s)) (ws_tag s))
  end.

Fixpoint wait_run {T} `{WaitQueue T} (protocol : Z) (ops : list wq_op) (s : wait_state T)
    : list (option tid) * wait_state T :=
  match ops with
  | [] => ([], s)
  | op :: ops =>
      let r := wait_step protocol op s in
      let r' := wait_run protocol ops r.2 in (r.1 :: r'.1, r'.2)
  end.

(** A thread waits at most once: [emplace] is only called on threads outside the queue. *)
Fixpoint waits_once (protocol : Z) (ops : list wq_op) (s : wait_state (list tid)) : bool :=
  match ops with
  | [] => true
  | op :: ops =>
      match op with Emplace t => bool_decide (t ∉ ws_q s) | _ => true end &&
      waits_once protocol ops (wait_step protocol op s).2
  end.

(** The same threads and tag, the implementation's queue holding the list. *)
Definition refines {T} `{WaitQueue T} (s : wait_state T) (r : wait_state (list tid)) : Prop :=
  wq_ok (ws_q s) (ws_q r) /\ ws_info s = ws_info r /\ ws_tag s = ws_tag r.

Lemma wait_step_refines {T} `{WaitQueue T} protocol op (s : wait_state T) r :
  refines s r -> match op with Emplace t => t ∉ ws_q r | _ => True end ->
  (wait_step protocol op s).1 = (wait_step protocol op r).1 /\
  refines (wait_step protocol op s).2 (wait_step protocol op r).2.
Proof.
  intros (Hq & Hi & Ht) Hop. unfold refines.
  destruct op as [t|t| |z t p|t b]; cbn [wait_step fst snd ws_q ws_info ws_tag]; rewrite ?Hi, ?Ht.
  - split_and!; auto. by apply wq_emplace_ok.
  - destruct (wq_unqueue_ok t _ _ Hq) as [-> ?]. done.
  - destruct (wq_schedule_ok (ws_info r) protocol _ _ Hq) as [-> ?]. done.
  - done.
  - done.
Qed.

Lemma wait_run_refines {T} `{WaitQueue T} protocol ops (s : wait_state T) r :
  refines s r -> waits_once protocol ops r = true ->
  (wait_run protocol ops s).1 = (wait_run protocol ops r).1 /\
  refines (wait_run protocol ops s).2 (wait_run protocol ops r).2.
Proof.
  revert s r. induction ops as [|op ops IH]; intros s r Hr Hw; cbn [wait_run fst snd]; [done|].
  cbn [waits_once] in Hw. apply andb_true_iff in Hw as [Hop Hw].
  destruct (wait_step_refines protocol op s r Hr) as [-> Hr'].
  { destruct op; [|done..]. by apply bool_decide_eq_true in Hop. }
  destruct (IH _ _ Hr' Hw) as [-> ?]. done.
Qed.

(** ** Selection order *)

(** Newest first: the enqueue orders decrease along the list. *)
Definition newest_first (info : tid -> thread_info) (l : list tid) : Prop :=
  StronglySorted (fun x y => order (info y) < order (info x)) l.

(** [x] is the highest priority of the list, the earliest pushed among equals. *)
Definition first_served (info : tid -> thread_info) (l : list tid) (x : tid) : Prop :=
  exists newer older, l = newer ++ x :: older /\
    (forall y, y ∈ newer -> prio (info x) <= prio (info y)) /\
    (forall y, y ∈ older -> prio (info x) < prio (info y)).

Lemma best_first_served info l : forall newer found mid,
  newest_first info (found :: l) ->
  (forall y, y ∈ newer -> prio (info found) <= prio (info y)) ->
  (forall y, y ∈ mid -> prio (info found) < prio (info y)) ->
  first_served info (newer ++ found :: mid ++ l) (best info found l).
Proof.
  induction l as [|x l IH]; intros newer found mid Hs Hn Hm; cbn [best].
  { exists newer, mid. by rewrite app_nil_r. }
  apply StronglySorted_inv in Hs as [Hs Hf]. inversion_clear Hf as [|? ? Hx Hl].
  unfold better. destruct (_ || _) eqn:E.
  - replace (newer ++ found :: mid ++ x :: l) with ((newer ++ found :: mid) ++ x :: [] ++ l)
      by by rewrite <- app_assoc.
    assert (prio (info x) <= prio (info found)) as Hle by lia.
    apply IH; [done| |set_solver]. intros y [Hy|Hy]%elem_of_app.
    + specialize (Hn y Hy). lia.
    + apply elem_of_cons in Hy as [->|Hy]; [done|]. specialize (Hm y Hy). lia.
  - replace (newer ++ found :: mid ++ x :: l) with (newer ++ found :: (mid ++ [x]) ++ l)
      by by rewrite <- app_assoc.
    apply IH; [|done|].
    + constructor; [by apply StronglySorted_inv in Hs as [? _]|done].
    + intros y [Hy|Hy]%elem_of_app; [by apply Hm|]. apply list_elem_of_singleton in Hy as ->. lia.
Qed.

Lemma newest_first_remove info x l : newest_first info l -> newest_first info (list_remove_id x l).
Proof.
  unfold newest_first, list_remove_id. induction 1 as [|y l Hs IH Hf]; [constructor|].
  rewrite filter_cons. destruct (decide _); [|done]. constructor; [done|].
  apply list.Forall_forall. intros z [_ Hz]%list_elem_of_filter. rewrite list.Forall_forall in Hf.
  by apply Hf.
Qed.

(** The orders handed out so far are positive, distinct, and below the tag. *)
Definition ordered (s : wait_state (list tid)) : Prop :=
  newest_first (ws_info s) (ws_q s) /\
  (forall y, y ∈ ws_q s -> order (ws_info s y) <= ws_tag s) /\
  (forall y, preserve_bit (ws_info s y) = false).

Lemma newest_first_ext info info' l : (forall y, y ∈ l -> order (info' y) = order (info y)) ->
  newest_first info l -> newest_first info' l.
Proof.
  unfold newest_first. intros He. induction 1 as [|y l Hs IH Hf]; constructor.
  - apply IH. set_solver.
  - rewrite list.Forall_forall in Hf |- *. intros z Hz. rewrite !He by set_solver. by apply Hf.
Qed.

Lemma remove_id_sub x y l : y ∈ list_remove_id x l -> y ∈ l.
Proof. intros [_ H]%list_elem_of_filter. exact H. Qed.

Lemma after_pick_sub info protocol l y : y ∈ after_pick info protocol l -> y ∈ l.
Proof. unfold after_pick. destruct (pick _ _ _); [destruct (again _)|]; eauto using remove_id_sub. Qed.

Lemma after_pick_newest info protocol l : newest_first info l ->
  newest_first info (after_pick info protocol l).
Proof.
  intros H. unfold after_pick. destruct (pick _ _ _); [destruct (again _)|];
    auto using newest_first_remove.
Qed.

Lemma upd_order_ordered s t v : order v = order (ws_info s t) -> preserve_bit v = false ->
  ordered s -> ordered (WS (ws_q s) (upd t v (ws_info s)) (ws_tag s)).
Proof.
  intros Ho Hp (H1 & H2 & H3).
  assert (forall y, order (upd t v (ws_info s) y) = order (ws_info s y)) as Hy.
  { intros y. unfold upd. destruct (Z.eqb_spec y t); congruence. }
  split_and!; cbn [ws_q ws_info ws_tag].
  - by apply (newest_first_ext (ws_info s)).
  - intros y. rewrite Hy. apply H2.
  - intros y. unfold upd. destruct (_ =? _); auto.
Qed.

(** Priorities are only changed while the thread is runnable. *)
Definition runs_when_set (op : wq_op) : bool :=
  match op with SetPrio sleeping _ _ => negb sleeping | _ => true end.

Lemma wait_step_ordered protocol op (s : wait_state (list tid)) :
  0 <= ws_tag s < 2 ^ 49 - 1 -> match op with Emplace t => t ∉ ws_q s | _ => True end ->
  runs_when_set op = true ->
  ordered s -> ordered (wait_step protocol op s).2.
Proof.
  intros Ht Hop Hr (H1 & H2 & H3). destruct op as [t|t| |z t p|t b]; cbn [wait_step snd].
  - rewrite (wrap_small 64) by (split; lia).
    unfold enqueue_order. rewrite H3. rewrite sgn_small by (split; lia).
    assert (forall v y, y ∈ ws_q s -> upd t v (ws_info s) y = ws_info s y) as Hu.
    { intros v y Hy. unfold upd. destruct (Z.eqb_spec y t); [set_solver|done]. }
    assert (forall v, upd t v (ws_info s) t = v) as Ht'.
    { intros v. unfold upd. by rewrite Z.eqb_refl. }
    split_and!; cbn [ws_q ws_info ws_tag wq_emplace list_queue].
    + constructor.
      * apply (newest_first_ext (ws_info s)); [|done]. intros y Hy. by rewrite Hu.
      * apply list.Forall_forall. intros y Hy. rewrite Hu, Ht' by done. cbn [order].
        specialize (H2 y Hy). lia.
    + intros y [->|Hy]%elem_of_cons; [rewrite Ht'; cbn; lia|]. rewrite Hu by done.
      specialize (H2 y Hy). lia.
    + intros y. unfold upd. destruct (_ =? _); [done|auto].
  - split_and!; [by apply newest_first_remove| |done]. intros y Hy%remove_id_sub. by apply H2.
  - split_and!; [by apply after_pick_newest| |done]. intros y Hy%after_pick_sub. by apply H2.
  - destruct z; [done|]. apply upd_order_ordered; [done|apply H3|by split_and!].
  - apply upd_order_ordered; [done|apply H3|by split_and!].
Qed.

Lemma wait_step_tag protocol op (s : wait_state (list tid)) : 0 <= ws_tag s < 2 ^ 49 ->
  ws_tag s <= ws_tag (wait_step protocol op s).2 <= ws_tag s + 1.
Proof.
  intros Ht. assert (wrap 64 (ws_tag s + 1) = ws_tag s + 1) as E by (apply wrap_small; split; lia).
  destruct op as [t|t| |z t p|t b]; cbn [wait_step snd ws_tag]; [lia..| |lia].
  destruct z; cbn; [|lia]. destruct (_ || _); cbn; lia.
Qed.

Lemma wait_run_ordered protocol ops : forall s : wait_state (list tid),
  0 <= ws_tag s -> ws_tag s + Z.of_nat (length ops) < 2 ^ 49 -> waits_once protocol ops s = true ->
  forallb runs_when_set ops = true -> ordered s -> ordered (wait_run protocol ops s).2.
Proof.
  induction ops as [|op ops IH]; intros s H0 Ht Hw Hr Hs; cbn [wait_run snd]; [done|].
  cbn [waits_once forallb length] in Hw, Hr, Ht. apply andb_true_iff in Hw as [Hop Hw], Hr as [Hr Hr'].
  pose proof (wait_step_tag protocol op s ltac:(lia)).
  apply IH; [lia..|done|done|]. apply wait_step_ordered; [lia| |done|done].
  destruct op; [|done..]. by apply bool_decide_eq_true in Hop.
Qed.

(** The initial state: an empty queue, no thread saved by a savestate. *)
Definition start {T} `{WaitQueue T} (info : tid -> thread_info) : wait_state T := WS wq_empty info 0.

Lemma start_refines {T} `{WaitQueue T} info : refines (start info : wait_state T) (start info).
Proof. split; [apply wq_ok_empty|done]. Qed.

Lemma start_ordered info : (forall t, preserve_bit (info t) = false) -> ordered (start info).
Proof. intros Hp. split_and!; [constructor|set_solver|done]. Qed.

Lemma pick_served info protocol l x : newest_first info l -> pick info protocol l = Some x ->
  if protocol =? SYS_SYNC_FIFO then last l = Some x else first_served info l x.
Proof.
  intros Hs. destruct l as [|y l]; cbn [pick]; [done|]. intros [= <-]. destruct (_ =? _).
  - rewrite last_cons. by destruct (last l).
  - apply (best_first_served info l [] y []); [done|set_solver..].
Qed.

(** ** Properties *)

(** C16: the pointer-linked wait queue refines a list: for every sequence of [emplace], [unqueue]
    and [schedule] calls (interleaved with priority changes and with threads entering or leaving
    the [again] state) in which a thread is only queued when it is not waiting, the calls on the
    [next_cpu] list return the same threads as the list operations, and the pointers reachable
    from the head are exactly the list, in order and without repetition. *)
Theorem wait_queue_refines protocol ops info :
  waits_once protocol ops (start info) = true ->
  let r := wait_run protocol ops (start info : wait_state queue) in
  let r' := wait_run protocol ops (start info : wait_state (list tid)) in
  r.1 = r'.1 /\ is_queue (ws_q r.2) (ws_q r'.2) /\ NoDup (ws_q r'.2) /\
  ws_info r.2 = ws_info r'.2 /\ ws_tag r.2 = ws_tag r'.2.
Proof.
  intros Hw r r'. destruct (wait_run_refines protocol ops (start info : wait_state queue) _
    (start_refines info) Hw) as (He & Hq & Hi & Ht).
  split_and!; try assumption. apply (seg_nodup _ _ _ Hq).
Qed.

Lemma wait_queue_refines_witness :
  (wait_run SYS_SYNC_PRIORITY
     [SetPrio false 1 5; SetPrio false 2 3; SetPrio true 3 3; Emplace 1; Emplace 2; Emplace 3; Schedule; Unqueue 1;
      Schedule; Schedule]
     (start (fun _ => Info 0 0 false false) : wait_state queue)).1 =
  [None; None; None; None; None; None; Some 2; Some 1; Some 3; None].
Proof.
  refine (eq_trans (proj1 (wait_queue_refines SYS_SYNC_PRIORITY _ (fun _ => Info 0 0 false false) _)) _);
    vm_compute; reflexivity.
Defined.

(** Scheduling order.  In every state reached from an empty queue by such a sequence of
    calls (fewer than 2^49 of them, so that the 50-bit [order] does not wrap) in which priorities
    are only changed while the thread is runnable, [schedule]
    returns null only when nobody waits; under [SYS_SYNC_FIFO] it returns the thread that has
    waited longest; under the other protocols it returns a thread of the best priority, and among
    threads of that priority the one that was queued first: every thread queued before it has a
    strictly worse priority. *)
Theorem schedule_order protocol ops info :
  (forall t, preserve_bit (info t) = false) -> Z.of_nat (length ops) < 2 ^ 49 ->
  waits_once protocol ops (start info) = true -> forallb runs_when_set ops = true ->
  let s := (wait_run protocol ops (start info : wait_state queue)).2 in
  exists l, is_queue (ws_q s) l /\
    match (schedule (enough (ws_q s)) (ws_info s) protocol true (ws_q s)).1 with
    | None => l = []
    | Some x => if protocol =? SYS_SYNC_FIFO then last l = Some x
                else first_served (ws_info s) l x
    end.
Proof.
  intros Hp Hlen Hw Hr s. destruct (wait_run_refines protocol ops (start info : wait_state queue) _
    (start_refines info) Hw) as (_ & Hq & Hi & _). fold s in Hq, Hi.
  destruct (wait_run_ordered protocol ops (start info)) as (Hs & _);
    [cbn; lia..|done|done|by apply start_ordered|].
  rewrite <- Hi in Hs. eexists. split; [exact Hq|].
  destruct (wq_schedule_ok (ws_info s) protocol _ _ Hq) as [Ho _].
  cbn [wq_schedule linked_queue] in Ho. rewrite Ho.
  destruct (pick _ _ _) as [x|] eqn:E; [by apply pick_served|].
  by destruct (ws_q (wait_run protocol ops (start info)).2).
Qed.

Lemma schedule_order_witness :
  exists l, (let s := (wait_run SYS_SYNC_PRIORITY [SetPrio false 1 5; Emplace 1; Emplace 2]
    (start (fun _ => Info 0 0 false false) : wait_state queue)).2 in
  is_queue (ws_q s) l /\
    match (schedule (enough (ws_q s)) (ws_info s) SYS_SYNC_PRIORITY true (ws_q s)).1 with
    | None => l = []
    | Some x => if SYS_SYNC_PRIORITY =? SYS_SYNC_FIFO then last l = Some x
                else first_served (ws_info s) l x
    end).
Proof.
  apply (schedule_order SYS_SYNC_PRIORITY [SetPrio false 1 5; Emplace 1; Emplace 2]
    (fun _ => Info 0 0 false false)); [done|cbn; lia|vm_compute; reflexivity..].
Defined.
