(* ===== verification/Lv2Base.v ===== *)
(** What the system calls of the lv2 kernel share: the error codes of Emu/Cell/ErrorCodes.h and the
    part of [cpu_thread::state] that sleeping uses (lv2.cpp).

    A thread that calls [lv2_obj::sleep] is [Suspended] until the scheduler runs it again, which
    sets [cpu_flag::signal] and clears [cpu_flag::suspend] in one atomic operation
    ([lv2_obj::schedule_all]); the flag is only set on a suspended thread.  When a runnable thread
    is given the processor is the scheduler's decision: here [awake] makes it [Signaled] at once. *)

From Stdlib Require Import ZArith Lia.
From stdpp Require Import base tactics option list numbers gmap.
From S2P Require Import Prelude Lv2Queue.
Local Open Scope Z_scope.

Definition CELL_OK : Z := 0.
Definition CELL_EAGAIN : Z := 0x80010001.
Definition CELL_EINVAL : Z := 0x80010002.
Definition CELL_ESRCH : Z := 0x80010005.
Definition CELL_EDEADLK : Z := 0x80010008.
Definition CELL_EPERM : Z := 0x80010009.
Definition CELL_EBUSY : Z := 0x8001000A.
Definition CELL_ETIMEDOUT : Z := 0x8001000B.
Definition CELL_EFAULT : Z := 0x8001000D.
Definition CELL_EKRESOURCE : Z := 0x80010011.
Definition CELL_ECANCELED : Z := 0x80010013.
Definition CELL_EEXIST : Z := 0x80010014.

(** [cpu_flag::suspend] and [cpu_flag::signal]. *)
Inductive run_state := Running | Suspended | Signaled.

#[export] Instance run_state_eq_dec : EqDecision run_state.
Proof. solve_decision. Defined.

(** The scheduler's effect on a thread that is awakened; a thread that is already runnable is
    left alone ([emplace_thread] finds it in the run queue). *)
Definition awaken (r : run_state) : run_state :=
  match r with Suspended => Signaled | _ => r end.

(** [lv2_obj::awake_all] on [g_to_awake]. *)
Definition awake_all (woken : list tid) (f : tid -> run_state) : tid -> run_state :=
  foldl (fun f x => upd x (awaken (f x)) f) f woken.

Lemma awaken_idem r : awaken (awaken r) = awaken r.
Proof. by destruct r. Qed.

Lemma awake_all_in woken f t : t ∈ woken -> awake_all woken f t = awaken (f t).
Proof.
  unfold awake_all. revert f. induction woken as [|x w IH]; intros f Ht; cbn [foldl]; [set_solver|].
  destruct (decide (t ∈ w)) as [Hw|Hw].
  - rewrite IH by done. destruct (decide (t = x)) as [->|]; [by rewrite upd_eq, awaken_idem|].
    by rewrite upd_ne.
  - apply elem_of_cons in Ht as [->|]; [|done].
    clear IH. transitivity (upd x (awaken (f x)) f x); [|by rewrite upd_eq].
    generalize (upd x (awaken (f x)) f). induction w as [|y w IH]; intros g; [done|]. cbn [foldl].
    rewrite IH by set_solver. apply upd_ne. set_solver.
Qed.

Lemma awake_all_notin woken f t : t ∉ woken -> awake_all woken f t = f t.
Proof.
  unfold awake_all. revert f. induction woken as [|x w IH]; intros f Ht; [done|]. cbn [foldl].
  rewrite IH by set_solver. apply upd_ne. set_solver.
Qed.

(** What a system call gives back: an error code, or nothing because the emulator is being stopped
    inside the call, which will be repeated ([cpu_flag::again]). *)
Inductive result := Ret (code : Z) | Again.

(** ** Answers to calls

    Seen from one thread, a run is a sequence of points at which the answer to its current call is decided
    by an abstract action, [v], and of points at which the call returns a code to it, [r]. *)

(** The answer that is decided and not yet returned, after one access; [None] when an answer is decided twice or
    the code that is returned is not the one decided. *)
Definition answer (a v r : option Z) : option (option Z) :=
  d ← match v, a with
      | None, _ => Some a
      | Some _, None => Some v
      | Some _, Some _ => None
      end;
  match r with
  | None => Some d
  | Some code => if bool_decide (d = Some code) then Some None else None
  end.

Fixpoint answers (l : list (option Z * option Z)) (a : option Z) : option (option Z) :=
  match l with
  | [] => Some a
  | (v, r) :: l => b ← answer a v r; answers l b
  end.

Lemma answer_silent a : answer a None None = Some a.
Proof. done. Qed.

Lemma answer_decides v : answer None (Some v) None = Some (Some v).
Proof. done. Qed.

Lemma answer_returns v : answer (Some v) None (Some v) = Some None.
Proof. unfold answer. cbn. by rewrite bool_decide_true. Qed.

Lemma answer_at_once v : answer None (Some v) (Some v) = Some None.
Proof. unfold answer. cbn. by rewrite bool_decide_true. Qed.

Create HintDb answer discriminated.
#[export] Hint Resolve answer_silent answer_decides answer_returns answer_at_once : answer.

(** An answer for thread [t], as thread [y] sees it. *)
Definition only_to (t : tid) (v : option Z) (y : tid) : option Z := if y =? t then v else None.

Lemma only_to_eq t v : only_to t v t = v.
Proof. unfold only_to. by rewrite Z.eqb_refl. Qed.

Lemma only_to_ne t v y : y <> t -> only_to t v y = None.
Proof. unfold only_to. by intros ->%Z.eqb_neq. Qed.
