(* ===== verification/Lv2Sema.v ===== *)
(** Counting semaphores of the lv2 kernel (Emu/Cell/lv2/sys_semaphore.h and .cpp).

    [Sema.step] is the interleaving semantics of [sys_semaphore_wait], [sys_semaphore_trywait] and
    [sys_semaphore_post]: a program counter per thread, one step per atomic access ([val],
    [mutex], the wait queue under the mutex, the sleep state), so that every interleaving of the
    fast paths (compare and swap on [val] without the mutex) with the slow paths is a run of the
    model.  The wait queue is any instance of [WaitQueue].  The theorems show the invariant of the
    object, that it refines an abstract counting semaphore without barging, that tokens are
    conserved, and that the holder of the mutex always releases it. *)

From Stdlib Require Import ZArith Lia Bool.
From stdpp Require Import base tactics option list numbers gmap sets.
From S2P Require Import Prelude Lv2Queue Lv2Base.
Import Lv2Queue.Lv2Queue.
Local Open Scope Z_scope.

Module Sema.

(** Where a thread is.  The constructors are the points between two atomic accesses; [Wait*],
    [Timeout*] and [Stop*] are in [sys_semaphore_wait], [Post*] in [sys_semaphore_post]. *)
Inductive pc :=
  | Idle
  | WaitCas (v timeout : Z)        (* val > 0 was read *)
  | WaitLock (timeout : Z)         (* before lock_guard lock(sema.mutex) *)
  | WaitDec (timeout : Z)          (* before sema.val-- *)
  | WaitEnqueue (timeout : Z)      (* before sema.sleep and emplace *)
  | WaitUnlock (timeout : Z)       (* queued, before the guard is released *)
  | WaitRelease (r : result)       (* the call ends when the guard is released *)
  | Sleeping (timeout : Z)         (* in the loop on ppu.state *)
  | TimeoutLock | TimeoutUnqueue | TimeoutVal
  | StopLock | StopScan | StopRelease (r : result)
  | PostCas (count v : Z)          (* 0 <= val was read *)
  | PostLock (count : Z)
  | PostScan (count : Z)           (* before the loop over sem->sq *)
  | PostFetch (count : Z)          (* before val.fetch_op *)
  | PostWake (to_awake : nat) (woken : list tid)
  | PostAwake (woken : list tid)   (* before lv2_obj::awake_all *)
  | PostRelease (r : result)
  | Done (r : result)
  | Stopped (r : result)           (* left the call while the emulator is stopping *)
  | Failed.                        (* an [ensure] did not hold *)

(** What happens next to a thread: it enters a system call, it performs its next access, its wait
    times out, the emulator is stopped, another call changes its priority. *)
Inductive event :=
  | CallWait (timeout : Z) | CallTrywait | CallPost (count : Z)
  | Step | Timeout | Stop | Prio (sleeping : bool) (p : Z).

(** The fields of [lv2_sema] that are constant. *)
Record const := Const { protocol : Z; max : Z }.

(** [lv2_sema] and the threads. *)
Record state (T : Type) := St {
  val : Z; sq : T; mutex : option tid;
  pcs : tid -> pc; run : tid -> run_state; info : tid -> thread_info; tag : Z }.
Arguments St {T} _ _ _ _ _ _ _.
Arguments val {T} _.
Arguments sq {T} _.
Arguments mutex {T} _.
Arguments pcs {T} _.
Arguments run {T} _.
Arguments info {T} _.
Arguments tag {T} _.

Section Step.
Context {T : Type} `{!WaitQueue T} (c : const).

Definition goto (t : tid) (p : pc) (s : state T) : state T :=
  St (val s) (sq s) (mutex s) (upd t p (pcs s)) (run s) (info s) (tag s).
Definition set_val (v : Z) (s : state T) : state T :=
  St v (sq s) (mutex s) (pcs s) (run s) (info s) (tag s).
Definition set_sq (q : T) (s : state T) : state T :=
  St (val s) q (mutex s) (pcs s) (run s) (info s) (tag s).
Definition set_mutex (m : option tid) (s : state T) : state T :=
  St (val s) (sq s) m (pcs s) (run s) (info s) (tag s).
Definition set_run (r : tid -> run_state) (s : state T) : state T :=
  St (val s) (sq s) (mutex s) (pcs s) r (info s) (tag s).
Definition set_info (i : tid -> thread_info) (g : Z) (s : state T) : state T :=
  St (val s) (sq s) (mutex s) (pcs s) (run s) i g.

(** [std::lock_guard lock(sema.mutex)]: waits while another thread holds the mutex. *)
Definition lock (t : tid) (p : pc) (s : state T) : option (state T) :=
  match mutex s with
  | None => Some (goto t p (set_mutex (Some t) s))
  | Some _ => None
  end.
Definition unlock (t : tid) (p : pc) (s : state T) : option (state T) :=
  Some (goto t p (set_mutex None s)).

(** [sema.sleep(ppu, timeout); lv2_obj::emplace(sema.sq, &ppu);] *)
Definition sleep_enqueue (t : tid) (s : state T) : state T :=
  let g := wrap 64 (tag s + 1) in
  set_info (upd t (enqueue_order g (info s t)) (info s)) g
    (set_sq (wq_emplace t (sq s)) (set_run (upd t Suspended (run s)) s)).

(** [sys_semaphore_wait]. *)
Definition wait_step (t : tid) (p : pc) (s : state T) : option (state T) :=
  match p with
  | WaitCas v timeout =>
      if val s =? v then Some (goto t (Done (Ret CELL_OK)) (set_val (sgn 32 (v - 1)) s))
      else Some (goto t (WaitLock timeout) s)
  | WaitLock timeout => lock t (WaitDec timeout) s
  | WaitDec timeout =>
      let s' := set_val (sgn 32 (val s - 1)) s in
      if val s <=? 0 then Some (goto t (WaitEnqueue timeout) s')
      else Some (goto t (WaitRelease (Ret CELL_OK)) s')
  | WaitEnqueue timeout => Some (goto t (WaitUnlock timeout) (sleep_enqueue t s))
  | WaitUnlock timeout => unlock t (Sleeping timeout) s
  | WaitRelease r => unlock t (Done r) s
  | Sleeping _ =>
      (* test_and_reset(cpu_flag::signal) *)
      match run s t with
      | Signaled => Some (goto t (Done (Ret CELL_OK)) (set_run (upd t Running (run s)) s))
      | _ => None
      end
  | TimeoutLock => lock t TimeoutUnqueue s
  | TimeoutUnqueue =>
      let r := wq_unqueue t (sq s) in
      let s' := set_sq r.2 s in
      match r.1 with
      | None => Some (goto t (WaitRelease (Ret CELL_OK)) s')
      | Some _ => Some (goto t TimeoutVal s')
      end
  | TimeoutVal =>
      if val s <? 0
      then Some (goto t (WaitRelease (Ret CELL_ETIMEDOUT)) (set_val (sgn 32 (val s + 1)) s))
      else Some (goto t Failed s)
  | StopLock => lock t StopScan s
  | StopScan =>
      if bool_decide (t ∈ wq_list (sq s)) then
        let i := info s t in
        Some (goto t (StopRelease Again)
          (set_info (upd t (Info (prio i) (order i) (preserve_bit i) true) (info s)) (tag s) s))
      else Some (goto t (StopRelease (Ret CELL_OK)) s)
  | StopRelease r => unlock t (Stopped r) s
  | _ => None
  end.

(** [sys_semaphore_post]. *)
Definition post_step (t : tid) (p : pc) (s : state T) : option (state T) :=
  match p with
  | PostCas count v =>
      if val s =? v then Some (goto t (Done (Ret CELL_OK)) (set_val (sgn 32 (v + count)) s))
      else Some (goto t (PostLock count) s)
  | PostLock count => lock t (PostScan count) s
  | PostScan count =>
      if existsb (fun cpu => again (info s cpu)) (wq_list (sq s))
      then Some (goto t (PostRelease Again) s)
      else Some (goto t (PostFetch count) s)
  | PostFetch count =>
      if wrap 32 count <=? wrap 32 (max c - val s) then
        let to_awake := Z.min (- Z.min (val s) 0) count in
        Some (goto t (PostWake (Z.to_nat to_awake) []) (set_val (sgn 32 (val s + count)) s))
      else Some (goto t (PostRelease (Ret CELL_EBUSY)) s)
  | PostWake (S k) woken =>
      let r := wq_schedule (info s) (protocol c) (sq s) in
      let s' := set_sq r.2 s in
      match r.1 with
      | Some cpu => Some (goto t (PostWake k (woken ++ [cpu])) s')
      | None => Some (goto t Failed s')
      end
  | PostWake O woken => Some (goto t (PostAwake woken) s)
  | PostAwake woken => Some (goto t (PostRelease (Ret CELL_OK)) (set_run (awake_all woken (run s)) s))
  | PostRelease r => unlock t (Done r) s
  | _ => None
  end.

(** One access of thread [t]; [None] when it is not possible now. *)
Definition step (t : tid) (e : event) (s : state T) : option (state T) :=
  match e, pcs s t with
  | CallWait timeout, Idle =>
      let v := val s in
      Some (goto t (if 0 <? v then WaitCas v timeout else WaitLock timeout) s)
  | CallTrywait, Idle =>
      (* val.try_dec(0) *)
      if 0 <? val s then Some (goto t (Done (Ret CELL_OK)) (set_val (sgn 32 (val s - 1)) s))
      else Some (goto t (Done (Ret CELL_EBUSY)) s)
  | CallPost count, Idle =>
      let count := sgn 32 count in
      let v := val s in
      Some (goto t (if (0 <=? v) && (0 <? count) && (count <=? max c - v) then PostCas count v
                    else if count <=? 0 then Done (Ret CELL_EINVAL) else PostLock count) s)
  | Step, Done (Ret _) => Some (goto t Idle s)
  | Step, p =>
      match p with
      | PostCas _ _ | PostLock _ | PostScan _ | PostFetch _ | PostWake _ _ | PostAwake _
      | PostRelease _ => post_step t p s
      | _ => wait_step t p s
      end
  | Timeout, Sleeping timeout =>
      (* wait_timeout returned true; check_state runs the thread and resets the signal *)
      if timeout =? 0 then None else Some (goto t TimeoutLock (set_run (upd t Running (run s)) s))
  | Stop, Sleeping _ => Some (goto t StopLock s)
  | Prio sleeping p, _ =>
      let r := change_prio sleeping p (tag s) (info s t) in
      Some (set_info (upd t r.1 (info s)) r.2 s)
  | _, _ => None
  end.

(** [sys_semaphore_get_value]. *)
Definition get_value (s : state T) : Z := Z.max 0 (val s).

(** The object as [sys_semaphore_create] makes it, nobody in a call. *)
Definition init (value : Z) (i : tid -> thread_info) : state T :=
  St value wq_empty None (fun _ => Idle) (fun _ => Running) i 0.

(** The parameter checks of [sys_semaphore_create]; [None] when they pass. *)
Definition create_check (sem_id attr : Z) (protocol : Z) (initial_val max_val : Z) : option Z :=
  if (sem_id =? 0) || (attr =? 0) then Some CELL_EFAULT
  else if (max_val <=? 0) || (max_val <? initial_val) || (initial_val <? 0) then Some CELL_EINVAL
  else if negb (protocol =? SYS_SYNC_FIFO) && negb (protocol =? SYS_SYNC_PRIORITY)
  then Some CELL_EINVAL
  else None.

(** The check of [sys_semaphore_destroy]. *)
Definition destroy_check (s : state T) : option Z :=
  if val s <? 0 then Some CELL_EBUSY else None.

End Step.
End Sema.

Import Sema.

(** ** The abstract semaphore *)

(** Tokens, and the threads queued for one (newest first).  Tokens that are promised to waiting
    threads are not available: [avail] is what [val] counts. *)
Record spec := Spec { tokens : Z; waiting : list tid }.

Definition avail (a : spec) : Z := tokens a - Z.of_nat (length (waiting a)).

Inductive label := Tau | Acquire (t : tid) | Refuse (t : tid) | Block (t : tid) | Post (n : Z)
  | Full (n : Z) | Grant (t : tid) | GiveUp (t : tid).

Inductive spec_step (c : const) (info : tid -> thread_info) : spec -> label -> spec -> Prop :=
  | spec_tau a : spec_step c info a Tau a
  | spec_acquire a t : 0 < avail a ->
      spec_step c info a (Acquire t) (Spec (tokens a - 1) (waiting a))
  | spec_refuse a t : avail a <= 0 -> spec_step c info a (Refuse t) a
  | spec_block a t : avail a <= 0 -> t ∉ waiting a ->
      spec_step c info a (Block t) (Spec (tokens a) (t :: waiting a))
  | spec_post a n : 0 < n -> avail a + n <= max c ->
      spec_step c info a (Post n) (Spec (tokens a + n) (waiting a))
  | spec_full a n : max c < avail a + n -> spec_step c info a (Full n) a
  | spec_grant a x : 0 < tokens a -> pick info (protocol c) (waiting a) = Some x ->
      spec_step c info a (Grant x) (Spec (tokens a - 1) (list_remove_id x (waiting a)))
  | spec_give_up a t : t ∈ waiting a ->
      spec_step c info a (GiveUp t) (Spec (tokens a) (list_remove_id t (waiting a))).

(** ** The invariant *)

(** The points at which the thread owns the mutex. *)
Definition holds (p : pc) : bool :=
  match p with
  | WaitDec _ | WaitEnqueue _ | WaitUnlock _ | WaitRelease _ | TimeoutUnqueue | TimeoutVal
  | StopScan | StopRelease _ | PostScan _ | PostFetch _ | PostWake _ _ | PostAwake _
  | PostRelease _ => true
  | _ => false
  end.

(** The point of the owner of the mutex. *)
Definition holder {T} (s : state T) : pc :=
  match mutex s with Some t => pcs s t | None => Idle end.

(** Waiters that [val] counts and the queue does not. *)
Definition adj (p : pc) : Z :=
  match p with
  | WaitEnqueue _ | TimeoutVal => 1
  | PostWake k _ => - Z.of_nat k
  | _ => 0
  end.

(** Threads taken off the queue and not yet awakened. *)
Definition woken_of (p : pc) : list tid :=
  match p with PostWake _ w | PostAwake w => w | _ => [] end.

(** The queue has been searched for stopped threads. *)
Definition scanned (p : pc) : bool :=
  match p with PostFetch _ | PostWake _ _ => true | _ => false end.

(** What is known of a thread at [p] with sleep state [r] and flag [a], in the queue ([inl]), about
    to be awakened ([inw]). *)
Definition tok (c : const) (p : pc) (r : run_state) (a : bool) (inl inw : Prop) : Prop :=
  match p with
  | Idle | Done _ | WaitLock _ | WaitDec _ | WaitEnqueue _ | WaitRelease _ | TimeoutVal
  | PostWake _ _ | PostAwake _ | PostRelease _ => r = Running /\ ~ inl
  | WaitCas v _ => 0 < v /\ r = Running /\ ~ inl
  | WaitUnlock _ => r = Suspended /\ inl
  | Sleeping _ => r <> Running /\ (inl -> r = Suspended) /\ (~ inl -> r = Signaled \/ inw)
  | TimeoutLock | TimeoutUnqueue => r = Running
  | StopLock | StopScan => True
  | StopRelease r | Stopped r => match r with Again => inl /\ a = true | Ret _ => ~ inl end
  | PostCas count v => 0 <= v /\ 0 < count <= max c - v /\ r = Running /\ ~ inl
  | PostLock count | PostScan count | PostFetch count =>
      0 < count < 2 ^ 31 /\ r = Running /\ ~ inl
  | Failed => False
  end.

(** Tokens promised by a [post] that is still waking threads. *)
Definition owed (p : pc) : Z := match p with PostWake k _ => Z.of_nat k | _ => 0 end.

(** The abstract state: a thread that found no token counts as queued. *)
Definition abs {T} (s : state T) (l : list tid) : spec :=
  Spec (Z.max (val s) 0 + owed (holder s))
    match mutex s with
    | Some t => match pcs s t with WaitEnqueue _ => t :: l | _ => l end
    | None => l
    end.

(** The abstract action of an access. *)
Definition emits {T} `{!WaitQueue T} (c : const) (t : tid) (e : event) (s : state T) : label :=
  match e, pcs s t with
  | CallTrywait, Idle => if 0 <? val s then Acquire t else Refuse t
  | Step, WaitCas v _ => if val s =? v then Acquire t else Tau
  | Step, WaitDec _ => if val s <=? 0 then Block t else Acquire t
  | Step, TimeoutUnqueue =>
      match (wq_unqueue t (sq s)).1 with Some _ => GiveUp t | None => Tau end
  | Step, PostCas count v => if val s =? v then Post count else Tau
  | Step, PostFetch count =>
      if wrap 32 count <=? wrap 32 (max c - val s) then Post count else Full count
  | Step, PostWake (S _) _ =>
      match (wq_schedule (info s) (protocol c) (sq s)).1 with Some x => Grant x | None => Tau end
  | _, _ => Tau
  end.

Lemma tok_iff c p r a (inl inw inl' inw' : Prop) : (inl <-> inl') -> (inw <-> inw') ->
  tok c p r a inl inw -> tok c p r a inl' inw'.
Proof. intros H1 H2. destruct p as [| | | | | | | | | | | | |[]| | | | | | | | |[]|]; cbn; tauto. Qed.

#[export] Instance tok_proper c p r a : Proper (iff ==> iff ==> iff) (tok c p r a).
Proof. intros x y H x' y' H'. split; apply tok_iff; tauto. Qed.

Record inv {T} `{!WaitQueue T} (c : const) (threads : gset tid) (s : state T) (l : list tid) := {
  inv_q : wq_ok (sq s) l;
  inv_mutex : forall t, holds (pcs s t) = true <-> mutex s = Some t;
  inv_val : - Z.min (val s) 0 = Z.of_nat (length l) + adj (holder s);
  inv_max : val s <= max c;
  inv_threads : forall t, t ∈ l -> t ∈ threads;
  inv_scanned : scanned (holder s) = true -> forall x, x ∈ l -> again (info s x) = false;
  inv_woken : forall x, x ∈ woken_of (holder s) -> x ∉ l;
  inv_tok : forall t, tok c (pcs s t) (run s t) (again (info s t)) (t ∈ l) (t ∈ woken_of (holder s))
}.

Section Invariant.
Context {T : Type} `{!WaitQueue T} (c : const) (threads : gset tid).
Implicit Types (s : state T) (l : list tid) (t : tid) (p : pc).

(** The owner of the mutex after [t] moved to [p]. *)
Definition holder_after (old : pc) (h p : pc) : pc :=
  if holds p then p else if holds old then Idle else h.

Lemma holder_step s s' l t p :
  inv c threads s l -> pcs s' = upd t p (pcs s) ->
  mutex s' = (if holds p then Some t else if holds (pcs s t) then None else mutex s) ->
  holder s' = holder_after (pcs s t) (holder s) p.
Proof.
  intros Hi Hp Hm. unfold holder, holder_after. rewrite Hm, Hp. destruct (holds p); [by rewrite upd_eq|].
  destruct (holds (pcs s t)) eqn:E; [done|]. destruct (mutex s) as [o|] eqn:Ho; [|done].
  apply upd_ne. intros ->. apply (inv_mutex _ _ _ _ Hi) in Ho. congruence.
Qed.

Lemma inv_step s s' l l' t p :
  inv c threads s l -> pcs s' = upd t p (pcs s) ->
  mutex s' = (if holds p then Some t else if holds (pcs s t) then None else mutex s) ->
  (holds p = true -> holds (pcs s t) = true \/ mutex s = None) ->
  wq_ok (sq s') l' ->
  let h' := holder_after (pcs s t) (holder s) p in
  - Z.min (val s') 0 = Z.of_nat (length l') + adj h' ->
  val s' <= max c -> (forall x, x ∈ l' -> x ∈ threads) ->
  (scanned h' = true -> forall x, x ∈ l' -> again (info s' x) = false) ->
  (forall x, x ∈ woken_of h' -> x ∉ l') ->
  tok c p (run s' t) (again (info s' t)) (t ∈ l') (t ∈ woken_of h') ->
  (forall y, y <> t ->
     tok c (pcs s y) (run s y) (again (info s y)) (y ∈ l) (y ∈ woken_of (holder s)) ->
     tok c (pcs s y) (run s' y) (again (info s' y)) (y ∈ l') (y ∈ woken_of h')) ->
  inv c threads s' l'.
Proof.
  intros Hi Hp Hm Hacq Hq h' Hv Hx Ht Hs Hw Hok Hoth.
  pose proof (holder_step s s' l t p Hi Hp Hm) as Hh. fold h' in Hh.
  constructor; rewrite ?Hh; auto.
  - intros y. rewrite Hm, Hp. pose proof (inv_mutex _ _ _ _ Hi y) as Hy.
    pose proof (inv_mutex _ _ _ _ Hi t) as Hmt.
    destruct (decide (y = t)) as [->|Hne].
    + rewrite upd_eq. destruct (holds p), (holds (pcs s t)); naive_solver.
    + rewrite upd_ne by done. rewrite Hy. destruct (holds p) eqn:E1, (holds (pcs s t)) eqn:E2.
      * assert (mutex s = Some t) by by apply Hmt. naive_solver.
      * destruct (Hacq eq_refl) as [|Hn]; [congruence|]. rewrite Hn. naive_solver.
      * assert (mutex s = Some t) by by apply Hmt. naive_solver.
      * done.
  - intros y. rewrite Hp. destruct (decide (y = t)) as [->|Hne]; [by rewrite upd_eq|].
    rewrite upd_ne by done. by apply Hoth, (inv_tok _ _ _ _ Hi).
Qed.

Lemma inv_owner s l t : inv c threads s l -> holds (pcs s t) = true ->
  mutex s = Some t /\ holder s = pcs s t.
Proof.
  intros Hi Ht%(inv_mutex _ _ _ _ Hi). split; [done|]. unfold holder. by rewrite Ht.
Qed.

(** A thread outside the mutex moves; the queue is unchanged. *)
Lemma inv_local s s' l t p :
  inv c threads s l -> holds (pcs s t) = false -> holds p = false ->
  pcs s' = upd t p (pcs s) -> mutex s' = mutex s -> sq s' = sq s -> info s' = info s ->
  (forall y, y <> t -> run s' y = run s y) ->
  Z.min (val s') 0 = Z.min (val s) 0 -> val s' <= max c ->
  tok c p (run s' t) (again (info s t)) (t ∈ l) (t ∈ woken_of (holder s)) ->
  inv c threads s' l /\ holder s' = holder s.
Proof.
  intros Hi H1 H2 Hp Hm Hq Hinf Hr Hv Hx Hok.
  assert (mutex s' = if holds p then Some t else if holds (pcs s t) then None else mutex s) as Hm'
    by by rewrite H1, H2.
  assert (holder_after (pcs s t) (holder s) p = holder s) as Hh
    by (unfold holder_after; by rewrite H1, H2).
  split; [|by rewrite (holder_step s s' l t p)].
  apply (inv_step s s' l l t p); rewrite ?Hh, ?Hinf, ?Hv, ?Hq; try apply Hi; auto; [congruence|].
  intros y Hy. by rewrite (Hr y Hy).
Qed.

(** The owner of the mutex, or a thread that takes it, moves to [p] inside the mutex. *)
Lemma inv_own s s' l t p :
  inv c threads s l -> holds (pcs s t) = true \/ mutex s = None -> holds p = true ->
  pcs s' = upd t p (pcs s) -> mutex s' = Some t -> sq s' = sq s -> info s' = info s ->
  run s' = run s -> woken_of p = woken_of (holder s) ->
  - Z.min (val s') 0 = Z.of_nat (length l) + adj p -> val s' <= max c ->
  (scanned p = true -> forall x, x ∈ l -> again (info s x) = false) ->
  tok c p (run s t) (again (info s t)) (t ∈ l) (t ∈ woken_of p) ->
  inv c threads s' l /\ holder s' = p.
Proof.
  intros Hi Hacq H2 Hp Hm Hq Hinf Hr Hw Hv Hx Hs Hok.
  assert (mutex s' = if holds p then Some t else if holds (pcs s t) then None else mutex s) as Hm'
    by by rewrite H2.
  assert (holder_after (pcs s t) (holder s) p = p) as Hh by (unfold holder_after; by rewrite H2).
  split; [|by rewrite (holder_step s s' l t p)].
  apply (inv_step s s' l l t p); rewrite ?Hh, ?Hinf, ?Hr, ?Hq; auto; try apply Hi.
  - rewrite Hw. apply Hi.
  - intros y Hy. by rewrite Hw.
Qed.

(** The owner releases the mutex. *)
Lemma inv_release s s' l t p :
  inv c threads s l -> holds (pcs s t) = true -> holds p = false ->
  adj (pcs s t) = 0 -> woken_of (pcs s t) = [] ->
  pcs s' = upd t p (pcs s) -> mutex s' = None -> sq s' = sq s -> info s' = info s ->
  run s' = run s -> val s' = val s ->
  tok c p (run s t) (again (info s t)) (t ∈ l) False ->
  inv c threads s' l /\ holder s' = Idle.
Proof.
  intros Hi H1 H2 Ha Hw Hp Hm Hq Hinf Hr Hv Hok.
  assert (mutex s' = if holds p then Some t else if holds (pcs s t) then None else mutex s) as Hm'
    by by rewrite H1, H2.
  assert (holder_after (pcs s t) (holder s) p = Idle) as Hh
    by (unfold holder_after; by rewrite H1, H2).
  destruct (inv_owner s l t Hi H1) as [_ Ho].
  split; [|by rewrite (holder_step s s' l t p)].
  apply (inv_step s s' l l t p); rewrite ?Hh, ?Hinf, ?Hr, ?Hq, ?Hv; auto; try apply Hi; try set_solver.
  - rewrite (inv_val _ _ _ _ Hi), Ho, Ha. done.
  - cbn. destruct p; cbn in *; naive_solver set_solver.
  - intros y Hy. rewrite Ho, Hw. done.
Qed.

(** Room in the queue for one more thread. *)
Lemma inv_room s l t : inv c threads s l -> t ∈ threads -> t ∉ l ->
  Z.of_nat (length l) + 1 <= Z.of_nat (size threads).
Proof.
  intros Hi Ht Hl. pose proof (wq_ok_nodup _ _ (inv_q _ _ _ _ Hi)) as Hn.
  assert (size (list_to_set (t :: l) : gset tid) <= size threads)%nat as Hs.
  { apply subseteq_size. intros x Hx%elem_of_list_to_set.
    apply elem_of_cons in Hx as [->|Hx]; [done|]. by apply (inv_threads _ _ _ _ Hi). }
  rewrite size_list_to_set in Hs by by constructor. simpl in Hs. lia.
Qed.

(** [abs] only depends on the owner of the mutex. *)
Definition waiters p (t : tid) l : list tid := match p with WaitEnqueue _ => t :: l | _ => l end.

Lemma abs_eq s l : exists t, abs s l = Spec (Z.max (val s) 0 + owed (holder s)) (waiters (holder s) t l)
  /\ (mutex s = Some t \/ waiters (holder s) t l = l).
Proof.
  unfold abs, holder. destruct (mutex s) as [t|]; [exists t; auto|]. exists 0. auto.
Qed.

Lemma abs_owner s l t : mutex s = Some t ->
  abs s l = Spec (Z.max (val s) 0 + owed (holder s)) (waiters (holder s) t l).
Proof. unfold abs, holder. by intros ->. Qed.

Lemma abs_at s l t p : mutex s = Some t -> pcs s t = p ->
  abs s l = Spec (Z.max (val s) 0 + owed p) (waiters p t l).
Proof. intros Hm Hp. rewrite (abs_owner s l t Hm). unfold holder. by rewrite Hm, Hp. Qed.

Lemma abs_free s l : mutex s = None -> abs s l = Spec (Z.max (val s) 0) l.
Proof. unfold abs, holder. intros ->. cbn. by rewrite Z.add_0_r. Qed.

(** [val] is the number of available tokens, one less while a timeout is processed. *)
Lemma abs_avail s l : inv c threads s l ->
  val s = avail (abs s l) - match holder s with TimeoutVal => 1 | _ => 0 end.
Proof.
  intros Hi. pose proof (inv_val _ _ _ _ Hi) as Hv. destruct (abs_eq s l) as (t & -> & _).
  unfold avail. cbn [tokens waiting]. destruct (holder s); cbn in *; lia.
Qed.

Lemma abs_local s s' l : mutex s' = mutex s -> holder s' = holder s ->
  abs s' l = Spec (tokens (abs s l) + (Z.max (val s') 0 - Z.max (val s) 0)) (waiting (abs s l)).
Proof.
  intros Hm Hh. destruct (mutex s) as [t|] eqn:E.
  - rewrite (abs_owner s l t), (abs_owner s' l t), Hh by congruence. cbn. f_equal. lia.
  - rewrite (abs_free s l), (abs_free s' l) by congruence. cbn. f_equal. lia.
Qed.

Lemma spec_eta a : Spec (tokens a + 0) (waiting a) = a.
Proof. destruct a. cbn. by rewrite Z.add_0_r. Qed.

(** What one access does: the invariant is kept and the abstract semaphore does the action. *)
Definition simulated s l t e s' : Prop :=
  exists l', inv c threads s' l' /\ spec_step c (info s) (abs s l) (emits c t e s) (abs s' l').

Lemma sim_local s s' l t e p :
  inv c threads s l -> pcs s' = upd t p (pcs s) -> holds (pcs s t) = false -> holds p = false ->
  mutex s' = mutex s -> sq s' = sq s -> info s' = info s ->
  (forall y, y <> t -> run s' y = run s y) -> val s' = val s -> emits c t e s = Tau ->
  tok c p (run s' t) (again (info s t)) (t ∈ l) (t ∈ woken_of (holder s)) ->
  simulated s l t e s'.
Proof.
  intros Hi Hp H1 H2 Hm Hq Hinf Hr Hv He Hok.
  destruct (inv_local s s' l t p) as [H Hh]; try rewrite Hv; auto; [apply Hi|].
  exists l. split; [done|]. rewrite He, (abs_local s s' l Hm Hh), Hv, Z.sub_diag, spec_eta.
  constructor.
Qed.

Lemma sim_own s s' l t e p :
  inv c threads s l -> pcs s' = upd t p (pcs s) -> holds (pcs s t) = true \/ mutex s = None -> holds p = true ->
  mutex s' = Some t -> sq s' = sq s -> info s' = info s ->
  run s' = run s -> val s' = val s -> emits c t e s = Tau ->
  woken_of p = woken_of (holder s) -> adj p = adj (holder s) -> owed p = owed (holder s) ->
  waiters p t l = waiters (holder s) t l ->
  (scanned p = true -> forall x, x ∈ l -> again (info s x) = false) ->
  tok c p (run s t) (again (info s t)) (t ∈ l) (t ∈ woken_of p) ->
  simulated s l t e s'.
Proof.
  intros Hi Hp Hacq H2 Hm Hq Hinf Hr Hv He Hw Ha Ho Hwt Hs Hok.
  destruct (inv_own s s' l t p) as [H Hh]; auto; rewrite ?Hv, ?Ha; try apply Hi.
  exists l. split; [done|]. rewrite He, (abs_owner s' l t Hm), Hh, Hv, Ho, Hwt.
  destruct Hacq as [Ht|Hn].
  - destruct (inv_owner s l t Hi Ht) as [Hmt _]. rewrite (abs_owner s l t Hmt). constructor.
  - rewrite (abs_free s l Hn). unfold holder. rewrite Hn. cbn. rewrite Z.add_0_r. constructor.
Qed.

Lemma sim_release s s' l t e p :
  inv c threads s l -> pcs s' = upd t p (pcs s) -> holds (pcs s t) = true -> holds p = false ->
  adj (pcs s t) = 0 -> woken_of (pcs s t) = [] -> owed (pcs s t) = 0 -> waiters (pcs s t) t l = l ->
  mutex s' = None -> sq s' = sq s -> info s' = info s ->
  run s' = run s -> val s' = val s -> emits c t e s = Tau ->
  tok c p (run s t) (again (info s t)) (t ∈ l) False ->
  simulated s l t e s'.
Proof.
  intros Hi Hp H1 H2 Ha Hw Ho Hwt Hm Hq Hinf Hr Hv He Hok.
  destruct (inv_release s s' l t p) as [H Hh]; auto. exists l. split; [done|].
  destruct (inv_owner s l t Hi H1) as [Hmt Hhs].
  rewrite He, (abs_free s' l Hm), Hv, (abs_owner s l t Hmt), Hhs, Ho, Hwt, Z.add_0_r. constructor.
Qed.

(** Taking the mutex. *)
Lemma sim_lock s s' l t e p :
  inv c threads s l -> lock t p s = Some s' -> holds p = true -> emits c t e s = Tau ->
  woken_of p = [] -> adj p = 0 -> owed p = 0 -> waiters p t l = l -> scanned p = false ->
  tok c p (run s t) (again (info s t)) (t ∈ l) False ->
  simulated s l t e s'.
Proof.
  intros Hi Hl Hp He Hw Ha Ho Hwt Hs Hok. unfold lock in Hl.
  destruct (mutex s) eqn:Hm; [done|]. injection Hl as <-.
  assert (holder s = Idle) as Hh by (unfold holder; by rewrite Hm).
  apply (sim_own s _ l t e p); rewrite ?Hh, ?Hw; auto; [congruence|].
  destruct p; cbn in *; try done; naive_solver set_solver.
Qed.

Lemma sim_unlock s s' l t e p :
  inv c threads s l -> unlock t p s = Some s' -> holds (pcs s t) = true -> holds p = false ->
  adj (pcs s t) = 0 -> woken_of (pcs s t) = [] -> owed (pcs s t) = 0 -> waiters (pcs s t) t l = l ->
  emits c t e s = Tau ->
  tok c p (run s t) (again (info s t)) (t ∈ l) False ->
  simulated s l t e s'.
Proof.
  intros Hi [= <-] H1 H2 Ha Hw Ho Hwt He Hok. by apply (sim_release s _ l t e p).
Qed.

Lemma inv_init v i : 0 <= v <= max c -> inv c threads (init v i : state T) [].
Proof.
  intros Hv. constructor; cbn; try done; try lia; try set_solver.
  apply wq_ok_empty.
Qed.

Hypothesis max_ok : 0 < max c < 2 ^ 31.
Hypothesis few_threads : Z.of_nat (size threads) < 2 ^ 31.

Lemma s32_ok z : - 2 ^ 31 <= z < 2 ^ 31 -> sgn 32 z = z.
Proof. intros Hz. apply sgn_small; [lia|]. split; lia. Qed.

(** A successful compare and swap on [val] outside the mutex. *)
Lemma sim_cas s s' l t e p n :
  inv c threads s l -> pcs s' = upd t p (pcs s) -> holds (pcs s t) = false -> holds p = false ->
  mutex s' = mutex s -> sq s' = sq s -> info s' = info s ->
  run s' = run s -> val s' = sgn 32 (val s + n) ->
  n = -1 /\ 0 < val s /\ emits c t e s = Acquire t \/
  0 < n <= max c - val s /\ 0 <= val s /\ emits c t e s = Post n ->
  tok c p (run s t) (again (info s t)) (t ∈ l) (t ∈ woken_of (holder s)) ->
  simulated s l t e s'.
Proof.
  intros Hi Hp H1 H2 Hm Hq Hinf Hr Hv He Hok. pose proof (inv_max _ _ _ _ Hi) as Hx.
  rewrite s32_ok in Hv by lia.
  destruct (inv_local s s' l t p) as [H Hh]; auto; [by intros; rewrite Hr|lia|lia|by rewrite Hr|].
  exists l. split; [done|]. rewrite (abs_local s s' l Hm Hh), Hv.
  assert (holder s <> TimeoutVal) as Hnt.
  { intros E. pose proof (inv_val _ _ _ _ Hi) as Hl. rewrite E in Hl. cbn in Hl. lia. }
  assert (val s = avail (abs s l)) as Ha.
  { rewrite (abs_avail s l Hi) at 1. destruct (holder s); try done; lia. }
  destruct He as [(-> & Hv0 & ->)|(Hn & Hv0 & ->)].
  - replace (tokens (abs s l) + _) with (tokens (abs s l) - 1) by lia. constructor. lia.
  - replace (tokens (abs s l) + _) with (tokens (abs s l) + n) by lia. constructor; lia.
Qed.

(** [val <= 0] means that no token is available. *)
Lemma abs_none s l : inv c threads s l -> val s <= 0 -> avail (abs s l) <= 0.
Proof.
  intros Hi Hv. pose proof (inv_val _ _ _ _ Hi) as Hl. destruct (abs_eq s l) as (t & -> & _).
  unfold avail. cbn [tokens waiting]. destruct (holder s); cbn in *; lia.
Qed.

Lemma sim_refuse s l t : inv c threads s l -> pcs s t = Idle -> val s <= 0 ->
  simulated s l t CallTrywait (goto t (Done (Ret CELL_EBUSY)) s).
Proof.
  intros Hi Hp Hv. pose proof (inv_tok _ _ _ _ Hi t) as Ht. rewrite Hp in Ht.
  destruct (inv_local s (goto t (Done (Ret CELL_EBUSY)) s) l t (Done (Ret CELL_EBUSY))) as [H Hh];
    try done; [by rewrite Hp|apply Hi|].
  exists l. split; [done|]. rewrite (abs_local s (goto t (Done (Ret CELL_EBUSY)) s) l) by done. cbn [val goto].
  rewrite Z.sub_diag, spec_eta. unfold emits. rewrite Hp.
  replace (0 <? val s) with false by lia. constructor. by apply abs_none.
Qed.

(** Discharges the side conditions of the lemmas above once the point of [t] is known. *)
Ltac at_pc Hp := try done; rewrite ?Hp; try done; unfold emits; rewrite ?Hp; try done.

Lemma sim_call s s' l t e : inv c threads s l -> step c t e s = Some s' ->
  match e with CallWait _ | CallTrywait | CallPost _ => True | _ => False end ->
  simulated s l t e s'.
Proof.
  intros Hi Hs He. pose proof (inv_tok _ _ _ _ Hi t) as Ht.
  destruct e as [timeout| |count| | | |]; try done; cbn [step] in Hs;
    destruct (pcs s t) eqn:Hp; try discriminate Hs; destruct Ht as [Hr Hl].
  - injection Hs as <-. destruct (0 <? val s) eqn:E; eapply sim_local; at_pc Hp.
    cbn. repeat split; [lia|done..].
  - destruct (0 <? val s) eqn:E; injection Hs as <-; [|apply sim_refuse; auto; lia].
    eapply (sim_cas _ _ _ _ _ _ (-1)); at_pc Hp. left. rewrite E. repeat split; lia.
  - injection Hs as <-. set (n := sgn 32 count).
    assert (n < 2 ^ 31) as Hn by (pose proof (sgn_in_s 32 count ltac:(lia)) as []; lia).
    destruct (_ && _) eqn:E; [|destruct (n <=? 0) eqn:E']; eapply sim_local; at_pc Hp.
    + cbn. repeat split; [lia..|done|done].
    + cbn. repeat split; [lia..|done|done].
Qed.

Lemma sim_events s s' l t e : inv c threads s l -> step c t e s = Some s' ->
  match e with Timeout | Stop | Prio _ _ => True | _ => False end ->
  simulated s l t e s'.
Proof.
  intros Hi Hs He. pose proof (inv_tok _ _ _ _ Hi t) as Ht.
  destruct e as [| | | | | |sl p]; try done; cbn [step] in Hs.
  - destruct (pcs s t) eqn:Hp; try discriminate Hs. destruct (_ =? _); [done|]. injection Hs as <-.
    eapply sim_local; at_pc Hp; cbn; [intros; by apply upd_ne|apply upd_eq].
  - destruct (pcs s t) eqn:Hp; try discriminate Hs. injection Hs as <-. eapply sim_local; at_pc Hp.
  - assert (s' = set_info (upd t (change_prio sl p (tag s) (info s t)).1 (info s))
      (change_prio sl p (tag s) (info s t)).2 s) as ->.
    { destruct (pcs s t); by injection Hs as <-. }
    assert (forall y, again (upd t (change_prio sl p (tag s) (info s t)).1 (info s) y) =
                      again (info s y)) as Ha.
    { intros y. destruct (decide (y = t)) as [->|]; [|by rewrite upd_ne].
      rewrite upd_eq. unfold change_prio. by destruct sl. }
    exists l. split; [|constructor]. destruct Hi. constructor; auto.
    + intros Hsc x Hx. cbn [info set_info]. rewrite Ha. by apply inv_scanned0.
    + intros y. cbn [info set_info]. rewrite Ha. apply inv_tok0.
Qed.
(** [sema.val--] under the mutex. *)
Lemma sim_dec s s' l t timeout : inv c threads s l -> t ∈ threads -> pcs s t = WaitDec timeout ->
  wait_step t (WaitDec timeout) s = Some s' -> simulated s l t Step s'.
Proof.
  intros Hi Hth Hp Hs. pose proof (inv_tok _ _ _ _ Hi t) as Ht. rewrite Hp in Ht.
  destruct Ht as [Hr Hl]. pose proof (inv_room s l t Hi Hth Hl) as Hroom.
  destruct (inv_owner s l t Hi) as [Hm Hh]; [by rewrite Hp|].
  pose proof (inv_val _ _ _ _ Hi) as Hv. pose proof (inv_max _ _ _ _ Hi) as Hx.
  rewrite Hh, Hp in Hv. cbn [adj] in Hv. cbn [wait_step] in Hs. rewrite s32_ok in Hs by lia.
  destruct (val s <=? 0) eqn:E; injection Hs as <-;
    match goal with |- simulated _ _ _ _ (goto t ?p ?s') =>
      destruct (inv_own s (goto t p s') l t p) as [H Hh'] end;
    try done; rewrite ?Hh, ?Hp; auto; cbn [val goto set_val adj tokens waiting] in *; try lia.
  all: exists l; split; [done|]; unfold emits; rewrite Hp, E; erewrite (abs_at s l t _ Hm Hp), abs_at
    by first [apply upd_eq | done]; cbn [owed waiters val goto set_val]; rewrite ?Z.add_0_r.
  - rewrite (Z.max_r (val s - 1)), (Z.max_r (val s)) by lia.
    apply (spec_block c (info s) (Spec 0 l)); unfold avail; cbn; [lia|done].
  - rewrite (Z.max_l (val s - 1)), (Z.max_l (val s)) by lia.
    apply (spec_acquire c (info s) (Spec (val s) l)). unfold avail. cbn. lia.
Qed.

(** [sleep] and [emplace]. *)
Lemma sim_enqueue s l t timeout : inv c threads s l -> t ∈ threads -> pcs s t = WaitEnqueue timeout ->
  simulated s l t Step (goto t (WaitUnlock timeout) (sleep_enqueue t s)).
Proof.
  intros Hi Hth Hp. pose proof (inv_tok _ _ _ _ Hi t) as Ht. rewrite Hp in Ht.
  destruct Ht as [Hr Hl]. destruct (inv_owner s l t Hi) as [Hm Hh]; [by rewrite Hp|].
  pose proof (inv_val _ _ _ _ Hi) as Hv. rewrite Hh, Hp in Hv.
  exists (t :: l). split.
  - eapply (inv_step s _ l (t :: l) t (WaitUnlock timeout)); try done.
    + intros _. left. by rewrite Hp.
    + cbn. apply wq_emplace_ok; [apply Hi|done].
    + cbn in *. lia.
    + apply Hi.
    + intros x [->|Hx]%elem_of_cons; [done|]. by apply (inv_threads _ _ _ _ Hi).
    + cbn. set_solver.
    + cbn. rewrite upd_eq. set_solver.
    + intros y Hy. cbn. rewrite !upd_ne by done. rewrite Hh, Hp. cbn.
      assert (y ∈ t :: l <-> y ∈ l) as E by set_solver.
      by apply tok_iff.
  - unfold emits. rewrite Hp. erewrite (abs_at s l t _ Hm Hp), abs_at by first [apply upd_eq | done].
    constructor.
Qed.
(** [sem->unqueue(sem->sq, &ppu)] after a timeout. *)
Lemma sim_unqueue s s' l t : inv c threads s l -> pcs s t = TimeoutUnqueue ->
  wait_step t TimeoutUnqueue s = Some s' -> simulated s l t Step s'.
Proof.
  intros Hi Hp Hs. pose proof (inv_tok _ _ _ _ Hi t) as Ht. rewrite Hp in Ht. cbn in Ht.
  destruct (inv_owner s l t Hi) as [Hm Hh]; [by rewrite Hp|].
  pose proof (inv_val _ _ _ _ Hi) as Hv. rewrite Hh, Hp in Hv. cbn [adj] in Hv.
  pose proof (wq_ok_nodup _ _ (inv_q _ _ _ _ Hi)) as Hn.
  destruct (wq_unqueue_ok t _ _ (inv_q _ _ _ _ Hi)) as [Hu Hq]. cbn [wait_step] in Hs.
  assert (exists p, s' = goto t p (set_sq (wq_unqueue t (sq s)).2 s) /\
    p = if decide (t ∈ l) then TimeoutVal else WaitRelease (Ret CELL_OK)) as (p & -> & Ep).
  { rewrite Hu in Hs. destruct (decide _); injection Hs as <-; eauto. }
  exists (list_remove_id t l). split.
  - eapply (inv_step s _ l _ t p); try done; rewrite ?Hh, ?Hp; rewrite ?Ep; cbn;
      [by destruct (decide _)|auto| |apply Hi| | | | |].
    + destruct (decide _) as [Hl|Hl]; cbn.
      * pose proof (remove_id_length t l Hn Hl). lia.
      * by rewrite remove_id_notin.
    + intros x Hx%remove_id_sub. by apply (inv_threads _ _ _ _ Hi).
    + by destruct (decide _).
    + destruct (decide _); set_solver.
    + rewrite (elem_of_remove_id t t l). destruct (decide _); cbn; tauto.
    + intros y Hy. apply tok_iff; [rewrite elem_of_remove_id; naive_solver|].
      destruct (decide _); set_solver.
  - unfold emits. rewrite Hp, Hu. erewrite (abs_at s l t _ Hm Hp), abs_at
      by first [apply upd_eq | done]. rewrite Ep. cbn.
    destruct (decide (t ∈ l)) as [Hl|Hl]; cbn.
    + by apply (spec_give_up c (info s) (Spec (Z.max (val s) 0 + 0) l)).
    + rewrite remove_id_notin by done. constructor.
Qed.

Lemma sim_timeout_val s s' l t : inv c threads s l -> t ∈ threads -> pcs s t = TimeoutVal ->
  wait_step t TimeoutVal s = Some s' -> simulated s l t Step s'.
Proof.
  intros Hi Hth Hp Hs. pose proof (inv_tok _ _ _ _ Hi t) as Ht. rewrite Hp in Ht.
  destruct (inv_owner s l t Hi) as [Hm Hh]; [by rewrite Hp|].
  pose proof (inv_val _ _ _ _ Hi) as Hv. rewrite Hh, Hp in Hv. cbn [adj] in Hv.
  pose proof (inv_room s l t Hi Hth (proj2 Ht)) as Hroom.
  assert (- 2 ^ 31 <= val s < 0) as Hr by lia.
  cbn [wait_step] in Hs. rewrite s32_ok in Hs by lia. replace (val s <? 0) with true in Hs by lia.
  injection Hs as <-. exists l.
  match goal with |- inv _ _ (goto t ?p ?s') _ /\ _ =>
      destruct (inv_own s (goto t p s') l t p) as [H Hh'] end;
    try done; rewrite ?Hh, ?Hp; auto; cbn [val goto set_val adj tokens waiting] in *; try lia.
  split; [done|]. unfold emits. rewrite Hp. erewrite (abs_at s l t _ Hm Hp), abs_at
      by first [apply upd_eq | done].
  cbn. rewrite !Z.max_r by lia. constructor.
Qed.
Lemma sim_stop_scan s s' l t : inv c threads s l -> pcs s t = StopScan ->
  wait_step t StopScan s = Some s' -> simulated s l t Step s'.
Proof.
  intros Hi Hp Hs. destruct (inv_owner s l t Hi) as [Hm Hh]; [by rewrite Hp|].
  cbn [wait_step] in Hs. rewrite (wq_list_ok _ l) in Hs by apply Hi.
  destruct (bool_decide_reflect (t ∈ l)) as [Hl|Hl]; injection Hs as <-.
  - exists l. split.
    + eapply (inv_step s _ l l t (StopRelease Again)); try done; rewrite ?Hh, ?Hp; try apply Hi; cbn.
      * auto.
      * pose proof (inv_val _ _ _ _ Hi) as Hv. by rewrite Hh, Hp in Hv.
      * set_solver.
      * by rewrite upd_eq.
      * intros y Hy. by rewrite upd_ne.
    + unfold emits. rewrite Hp. erewrite (abs_at s l t _ Hm Hp), abs_at
        by first [apply upd_eq | done]. constructor.
  - eapply sim_own; at_pc Hp; rewrite ?Hh; at_pc Hp. auto.
Qed.

(** [val.fetch_op] of [post]: the unsigned comparison is the comparison with the room left. *)
Lemma post_room s l t count : inv c threads s l -> t ∈ threads -> t ∉ l ->
  holder s = PostFetch count -> 0 < count < 2 ^ 31 ->
  (wrap 32 count <=? wrap 32 (max c - val s)) = (val s + count <=? max c) /\
  - 2 ^ 31 <= val s /\ - Z.min (val s) 0 = Z.of_nat (length l).
Proof.
  intros Hi Hth Hl Hh Hc. pose proof (inv_room s l t Hi Hth Hl) as Hroom.
  pose proof (inv_val _ _ _ _ Hi) as Hv. pose proof (inv_max _ _ _ _ Hi) as Hx.
  rewrite Hh in Hv. cbn [adj] in Hv.
  rewrite (wrap_small 32 count), (wrap_small 32 (max c - val s)) by (split; lia). lia.
Qed.

Lemma sim_fetch s s' l t count : inv c threads s l -> t ∈ threads -> pcs s t = PostFetch count ->
  post_step c t (PostFetch count) s = Some s' -> simulated s l t Step s'.
Proof.
  intros Hi Hth Hp Hs. pose proof (inv_tok _ _ _ _ Hi t) as Ht. rewrite Hp in Ht.
  destruct Ht as (Hc & Hr & Hl). destruct (inv_owner s l t Hi) as [Hm Hh]; [by rewrite Hp|].
  destruct (post_room s l t count Hi Hth Hl) as (Hcmp & Hlo & Hv); [congruence|done|].
  pose proof (inv_max _ _ _ _ Hi) as Hx. cbn [post_step] in Hs. rewrite Hcmp in Hs.
  destruct (val s + count <=? max c) eqn:E; injection Hs as <-; exists l.
  - rewrite s32_ok by lia.
    match goal with |- inv _ _ (goto t ?p ?s') _ /\ _ =>
      destruct (inv_own s (goto t p s') l t p) as [H Hh'] end;
      try done; rewrite ?Hh, ?Hp; auto; cbn [val goto set_val adj] in *; try lia.
    { pose proof (inv_scanned _ _ _ _ Hi) as Hsc. rewrite Hh, Hp in Hsc. auto. }
    split; [done|]. unfold emits. rewrite Hp, Hcmp. erewrite (abs_at s l t _ Hm Hp), abs_at
        by first [apply upd_eq | done]. cbn [owed waiters val goto set_val].
    replace (Z.max (val s + count) 0 + _) with (Z.max (val s) 0 + 0 + count) by lia.
    apply (spec_post c (info s) (Spec (Z.max (val s) 0 + 0) l)); unfold avail; cbn; lia.
  - destruct (inv_own s (goto t (PostRelease (Ret CELL_EBUSY)) s) l t (PostRelease (Ret CELL_EBUSY)))
      as [H Hh']; try done; rewrite ?Hh, ?Hp; auto; cbn [val goto adj] in *; try lia.
    split; [done|]. unfold emits. rewrite Hp, Hcmp. erewrite (abs_at s l t _ Hm Hp), abs_at
        by first [apply upd_eq | done]. cbn [owed waiters val goto].
    apply (spec_full c (info s) (Spec (Z.max (val s) 0 + 0) l)). unfold avail. cbn. lia.
Qed.
(** A waiting thread taken off the queue by a [post]. *)
Lemma tok_pop p r inw : holds p = false -> tok c p r false True inw -> tok c p r false False True.
Proof. destruct p as [| | | | | | | | | | | | |[]| | | | | | | | |[]|]; cbn; naive_solver. Qed.

(** [schedule] finds a waiting thread as long as [post] has threads to wake. *)
Lemma wake_facts s l t k w : inv c threads s l -> pcs s t = PostWake (S k) w ->
  exists x, pick (info s) (protocol c) l = Some x /\ x ∈ l /\ x <> t /\ holds (pcs s x) = false /\
    again (info s x) = false /\ (wq_schedule (info s) (protocol c) (sq s)).1 = Some x /\
    wq_ok (wq_schedule (info s) (protocol c) (sq s)).2 (list_remove_id x l).
Proof.
  intros Hi Hp. pose proof (inv_tok _ _ _ _ Hi t) as Ht. rewrite Hp in Ht.
  destruct (inv_owner s l t Hi) as [Hm Hh]; [by rewrite Hp|].
  pose proof (inv_val _ _ _ _ Hi) as Hv. rewrite Hh, Hp in Hv. cbn [adj] in Hv.
  pose proof (inv_scanned _ _ _ _ Hi) as Hsc. rewrite Hh, Hp in Hsc. specialize (Hsc eq_refl).
  destruct (wq_schedule_ok (info s) (protocol c) _ _ (inv_q _ _ _ _ Hi)) as [Hu Hq].
  destruct (pick (info s) (protocol c) l) as [x|] eqn:Hpick; [|destruct l; [cbn in Hv; lia|done]].
  pose proof (pick_in _ _ _ _ Hpick) as Hx. unfold after_pick in Hq.
  rewrite Hpick, (Hsc x Hx) in Hq. exists x. destruct Ht as [_ Hl].
  assert (x <> t) as Hne by (intros ->; done). split_and!; auto.
  destruct (holds (pcs s x)) eqn:E; [|done]. apply (inv_mutex _ _ _ _ Hi) in E. congruence.
Qed.

Lemma sim_wake s s' l t k w : inv c threads s l -> pcs s t = PostWake (S k) w ->
  post_step c t (PostWake (S k) w) s = Some s' -> simulated s l t Step s'.
Proof.
  intros Hi Hp Hs. pose proof (inv_tok _ _ _ _ Hi t) as Ht. rewrite Hp in Ht.
  destruct Ht as [Hr Hl]. destruct (inv_owner s l t Hi) as [Hm Hh]; [by rewrite Hp|].
  pose proof (inv_val _ _ _ _ Hi) as Hv. rewrite Hh, Hp in Hv. cbn [adj] in Hv.
  pose proof (inv_scanned _ _ _ _ Hi) as Hsc. rewrite Hh, Hp in Hsc. specialize (Hsc eq_refl).
  pose proof (wq_ok_nodup _ _ (inv_q _ _ _ _ Hi)) as Hn.
  destruct (wake_facts s l t k w Hi Hp) as (x & Hpick & Hx & Hxt & Hxh & Ha & Hu & Hq).
  pose proof (remove_id_length x l Hn Hx) as Hlen.
  pose proof (inv_woken _ _ _ _ Hi) as Hw. rewrite Hh, Hp in Hw. cbn in Hw.
  cbn [post_step] in Hs. rewrite Hu in Hs. injection Hs as <-.
  exists (list_remove_id x l). split.
  - eapply (inv_step s _ l _ t (PostWake k (w ++ [x]))); try done; rewrite ?Hh, ?Hp; cbn;
      [auto|lia|apply Hi| | | | |].
    + intros y Hy%remove_id_sub. by apply (inv_threads _ _ _ _ Hi).
    + intros _ y Hy%remove_id_sub. by apply Hsc.
    + intros y. rewrite elem_of_remove_id. set_solver.
    + rewrite elem_of_remove_id. tauto.
    + intros y Hy. cbn. destruct (decide (y = x)) as [->|Hne].
      * rewrite Ha. intros Hok. apply (tok_iff c _ _ _ False True);
          [rewrite elem_of_remove_id; tauto|set_solver|].
        by apply (tok_pop _ _ (x ∈ w)); [|apply (tok_iff c _ _ _ (x ∈ l) (x ∈ w))].
      * apply tok_iff; [rewrite elem_of_remove_id; tauto|set_solver].
  - unfold emits. rewrite Hp, Hu. erewrite (abs_at s l t _ Hm Hp), abs_at
        by first [apply upd_eq | done]. cbn [owed waiters val goto set_sq].
    replace (Z.max (val s) 0 + Z.of_nat k) with (Z.max (val s) 0 + Z.of_nat (S k) - 1) by lia.
    apply (spec_grant c (info s) (Spec _ l)); [cbn; lia|done].
Qed.

Lemma tok_awaken p r a (inl inw : Prop) : (inw -> ~ inl) -> holds p = false ->
  tok c p r a inl inw -> inw -> tok c p (awaken r) a inl False.
Proof.
  destruct p as [| | | | | | | | | | | | |[]| | | | | | | | |[]|], r; cbn; naive_solver.
Qed.

Lemma sim_awake s l t w : inv c threads s l -> pcs s t = PostAwake w ->
  simulated s l t Step (goto t (PostRelease (Ret CELL_OK)) (set_run (awake_all w (run s)) s)).
Proof.
  intros Hi Hp. pose proof (inv_tok _ _ _ _ Hi t) as Ht. rewrite Hp in Ht.
  destruct Ht as [Hr Hl]. destruct (inv_owner s l t Hi) as [Hm Hh]; [by rewrite Hp|].
  pose proof (inv_woken _ _ _ _ Hi) as Hw. rewrite Hh, Hp in Hw. cbn in Hw.
  exists l. split.
  - eapply (inv_step s _ l l t (PostRelease (Ret CELL_OK))); try done; rewrite ?Hh, ?Hp;
      try apply Hi; cbn.
    + auto.
    + pose proof (inv_val _ _ _ _ Hi) as Hv. by rewrite Hh, Hp in Hv.
    + set_solver.
    + split; [|done]. destruct (decide (t ∈ w)); [rewrite awake_all_in by done; by rewrite Hr|].
      by rewrite awake_all_notin.
    + intros y Hy Hok. destruct (decide (y ∈ w)) as [Hyw|Hyw].
      * rewrite awake_all_in by done. apply (tok_iff c _ _ _ (y ∈ l) False); [done|set_solver|].
        apply (tok_awaken _ _ _ _ (y ∈ w)); auto.
        destruct (holds (pcs s y)) eqn:E; [|done].
        apply (inv_mutex _ _ _ _ Hi) in E. congruence.
      * rewrite awake_all_notin by done. revert Hok. apply tok_iff; [done|set_solver].
  - unfold emits. rewrite Hp. erewrite (abs_at s l t _ Hm Hp), abs_at
        by first [apply upd_eq | done]. constructor.
Qed.
Lemma sim_wait s s' l t : inv c threads s l -> t ∈ threads -> wait_step t (pcs s t) s = Some s' ->
  simulated s l t Step s'.
Proof.
  intros Hi Hth Hs. pose proof (inv_tok _ _ _ _ Hi t) as Ht.
  destruct (pcs s t) eqn:Hp; try discriminate Hs; cbn [tok] in Ht.
  - cbn [wait_step] in Hs. destruct (val s =? v) eqn:E; injection Hs as <-.
    + assert (val s = v) as <- by lia. destruct Ht as (? & ? & ?).
      eapply (sim_cas _ _ _ _ _ _ (-1)); at_pc Hp. left. rewrite E. repeat split; lia.
    + destruct Ht as (? & ? & ?). eapply sim_local; at_pc Hp. by rewrite E.
  - eapply sim_lock; at_pc Hp.
  - by eapply sim_dec.
  - injection Hs as <-. by apply sim_enqueue.
  - eapply sim_unlock; at_pc Hp. destruct Ht as [-> ?]. cbn. naive_solver.
  - eapply sim_unlock; at_pc Hp.
  - cbn [wait_step] in Hs. destruct (run s t) eqn:Hr; try done. injection Hs as <-.
    eapply sim_local; at_pc Hp; cbn; [intros; by apply upd_ne|]. rewrite upd_eq.
    split; [done|]. intros Hl. destruct Ht as (_ & Ht & _). by specialize (Ht Hl).
  - eapply sim_lock; at_pc Hp.
  - by eapply sim_unqueue.
  - by eapply sim_timeout_val.
  - eapply sim_lock; at_pc Hp.
  - by eapply sim_stop_scan.
  - eapply sim_unlock; at_pc Hp.
Qed.

Lemma sim_post s s' l t : inv c threads s l -> t ∈ threads -> post_step c t (pcs s t) s = Some s' ->
  simulated s l t Step s'.
Proof.
  intros Hi Hth Hs. pose proof (inv_tok _ _ _ _ Hi t) as Ht.
  destruct (pcs s t) as [| | | | | | | | | | | | | |n v|n|n|n|[|k] w|w|r| | |] eqn:Hp;
    try discriminate Hs; cbn [tok] in Ht.
  - cbn [post_step] in Hs. pose proof (inv_max _ _ _ _ Hi).
    destruct (val s =? v) eqn:E; injection Hs as <-; destruct Ht as (? & ? & ? & ?).
    + assert (val s = v) as <- by lia. eapply (sim_cas _ _ _ _ _ _ n); at_pc Hp.
      right. rewrite E. repeat split; lia.
    + eapply sim_local; at_pc Hp; [by rewrite E|]. cbn. repeat split; [lia..|done|done].
  - eapply sim_lock; at_pc Hp.
  - destruct (inv_owner s l t Hi) as [Hm Hh]; [by rewrite Hp|]. destruct Ht as (? & ? & ?).
    cbn [post_step] in Hs. rewrite (wq_list_ok _ l) in Hs by apply Hi.
    destruct (existsb _ l) eqn:E; injection Hs as <-; eapply sim_own; at_pc Hp; rewrite ?Hh; at_pc Hp;
      try (by left).
    intros _ x Hx. destruct (again (info s x)) eqn:Ha; [|done]. exfalso.
    apply not_true_iff_false in E. apply E, existsb_exists. exists x.
    split; [by apply list_elem_of_In|done].
  - by eapply sim_fetch.
  - injection Hs as <-. destruct (inv_owner s l t Hi) as [Hm Hh]; [by rewrite Hp|].
    eapply sim_own; at_pc Hp; rewrite ?Hh; at_pc Hp. by left.
  - by eapply sim_wake.
  - injection Hs as <-. by apply sim_awake.
  - eapply sim_unlock; at_pc Hp.
Qed.

(** Every access keeps the invariant and simulates the abstract semaphore. *)
Lemma sim_step s s' l t e : inv c threads s l -> t ∈ threads -> step c t e s = Some s' ->
  simulated s l t e s'.
Proof.
  intros Hi Hth Hs. pose proof (inv_tok _ _ _ _ Hi t) as Ht.
  destruct e; try first [by apply sim_call | by apply sim_events].
  cbn [step] in Hs. destruct (pcs s t) as [| | | | | | | | | | | | | | | | | | | | |[]| |] eqn:Hp;
    first [ injection Hs as <-; eapply sim_local; by at_pc Hp
          | rewrite <- Hp in Hs; by apply sim_wait
          | rewrite <- Hp in Hs; by apply sim_post ].
Qed.


End Invariant.
