(* ===== verification/Lv2SemaSpec.v ===== *)
(** Properties of the lv2 semaphore ([Lv2Sema]): runs of the system calls of any number of threads,
    their traces of abstract actions, and the theorems on them. *)

From Stdlib Require Import ZArith Lia Bool.
From stdpp Require Import base tactics option list numbers gmap sets.
From S2P Require Import Prelude Lv2Queue Lv2Base Lv2Sema.
Import Lv2Queue.Lv2Queue Sema.
Local Open Scope Z_scope.

(** ** Runs *)

(** A wait or trywait of [t] gives [CELL_OK] to its caller in this access. *)
Definition wait_returns (p p' : pc) : bool :=
  match p with
  | Idle | WaitCas _ _ | WaitRelease _ | Sleeping _ | StopRelease _ =>
      match p' with
      | Done (Ret code) | Stopped (Ret code) => code =? CELL_OK
      | _ => false
      end
  | _ => false
  end.

(** An access in a run: the thread records at that time, the abstract action, and the thread
    whose call returned with a token. *)
Record entry := Entry { at_info : tid -> thread_info; action : label; returned : option tid }.

(** The accesses [evs], in this order; [None] when one of them is not possible. *)
Fixpoint exec {T} `{!WaitQueue T} (c : const) (evs : list (tid * event)) (s : state T)
    : option (list entry * state T) :=
  match evs with
  | [] => Some ([], s)
  | (t, e) :: evs =>
      s' ← step c t e s;
      r ← exec c evs s';
      Some (Entry (info s) (emits c t e s)
              (if wait_returns (pcs s t) (pcs s' t) then Some t else None) :: r.1, r.2)
  end.

Inductive spec_run (c : const) : spec -> list entry -> spec -> Prop :=
  | spec_run_nil a : spec_run c a [] a
  | spec_run_cons a b d x tr : spec_step c (at_info x) a (action x) b -> spec_run c b tr d ->
      spec_run c a (x :: tr) d.

(** The thread that gets a token in an action. *)
Definition taker (lb : label) : option tid :=
  match lb with Acquire t | Grant t => Some t | _ => None end.

Definition count_takes (tr : list entry) : Z :=
  Z.of_nat (length (filter (fun x => is_Some (taker (action x))) tr)).
Definition takes_of (y : tid) (tr : list entry) : Z :=
  Z.of_nat (length (filter (fun x => taker (action x) = Some y) tr)).
Definition returns_of (y : tid) (tr : list entry) : Z :=
  Z.of_nat (length (filter (fun x => returned x = Some y) tr)).
Definition posted (tr : list entry) : Z :=
  foldr (fun x z => match action x with Post n => n + z | _ => z end) 0 tr.

(** A token was taken for the call the thread is in, which has not returned yet. *)
Definition in_flight (p : pc) (queued : bool) : Z :=
  match p with
  | WaitRelease (Ret code) | StopRelease (Ret code) => if code =? CELL_OK then 1 else 0
  | Sleeping _ | TimeoutLock | TimeoutUnqueue | StopLock | StopScan => if queued then 0 else 1
  | _ => 0
  end.

Definition flight {T} (s : state T) (l : list tid) (y : tid) : Z :=
  in_flight (pcs s y) (bool_decide (y ∈ l)).

Definition took (y : tid) (o : option tid) : Z := if decide (o = Some y) then 1 else 0.

Section Runs.
Context {T : Type} `{!WaitQueue T} (c : const) (threads : gset tid).
Implicit Types (s : state T) (l : list tid) (t : tid).

(** The tokens in flight and returned before and after an access, for thread [y]. *)
Definition balanced s s' l l' t e (y : tid) : Prop :=
  flight s' l' y + took y (if wait_returns (pcs s t) (pcs s' t) then Some t else None) =
  flight s l y + took y (taker (emits c t e s)).

(** The access only concerns [t]: the other threads are in the queue as before. *)
Lemma balanced_local s s' l l' t e p y :
  pcs s' = upd t p (pcs s) -> (forall y, y <> t -> (y ∈ l' <-> y ∈ l)) ->
  taker (emits c t e s) = None \/ taker (emits c t e s) = Some t ->
  in_flight p (bool_decide (t ∈ l')) + (if wait_returns (pcs s t) p then 1 else 0) =
  in_flight (pcs s t) (bool_decide (t ∈ l)) +
    match taker (emits c t e s) with None => 0 | Some _ => 1 end ->
  balanced s s' l l' t e y.
Proof.
  intros Hp Hl Ht He. unfold balanced, flight, took. rewrite Hp, upd_eq.
  destruct (decide (y = t)) as [->|Hne].
  - rewrite upd_eq. destruct (wait_returns _ _); [rewrite (decide_True (P := Some t = Some t)) by done|
      rewrite (decide_False (P := None = Some t)) by done];
    destruct Ht as [E|E]; rewrite E in *; [rewrite (decide_False (P := None = Some t)) by done|
      rewrite (decide_True (P := Some t = Some t)) by done|
      rewrite (decide_False (P := None = Some t)) by done|
      rewrite (decide_True (P := Some t = Some t)) by done]; lia.
  - rewrite upd_ne by done. rewrite (bool_decide_ext _ _ (Hl y Hne)).
    rewrite !decide_False; [done| |]; destruct (wait_returns _ _), Ht as [E|E]; rewrite ?E; congruence.
Qed.

Hypothesis max_ok : 0 < max c < 2 ^ 31.
Hypothesis few_threads : Z.of_nat (size threads) < 2 ^ 31.

Lemma queue_unique s s' l l' : inv c threads s l -> inv c threads s' l' -> sq s' = sq s -> l' = l.
Proof.
  intros Hi Hi' Hq. rewrite <- (wq_list_ok _ _ (inv_q _ _ _ _ Hi)), <- Hq. symmetry.
  apply wq_list_ok, Hi'.
Qed.

(** The common case: the queue is not touched. *)
Lemma balanced_quiet s s' l l' t e p y : inv c threads s l -> inv c threads s' l' ->
  pcs s' = upd t p (pcs s) -> sq s' = sq s ->
  taker (emits c t e s) = None \/ taker (emits c t e s) = Some t ->
  in_flight p (bool_decide (t ∈ l)) + (if wait_returns (pcs s t) p then 1 else 0) =
  in_flight (pcs s t) (bool_decide (t ∈ l)) +
    match taker (emits c t e s) with None => 0 | Some _ => 1 end ->
  balanced s s' l l' t e y.
Proof.
  intros Hi Hi' Hp Hq Ht He. pose proof (queue_unique _ _ _ _ Hi Hi' Hq) as ->.
  by apply (balanced_local s s' l l t e p).
Qed.

Ltac quiet Hp :=
  eapply balanced_quiet; [eassumption..|reflexivity|reflexivity| |]; unfold emits; rewrite ?Hp; cbn.

Lemma balanced_call s s' l l' t e y : inv c threads s l -> inv c threads s' l' ->
  step c t e s = Some s' -> match e with Step => False | _ => True end -> balanced s s' l l' t e y.
Proof.
  intros Hi Hi' Hs He. pose proof (inv_tok _ _ _ _ Hi t) as Ht.
  destruct e as [timeout| |count| | | |sl p]; try done; cbn [step] in Hs.
  - destruct (pcs s t) eqn:Hp; try discriminate Hs. injection Hs as <-.
    quiet Hp; [auto|by destruct (_ <? _)].
  - destruct (pcs s t) eqn:Hp; try discriminate Hs.
    destruct (0 <? val s) eqn:E; injection Hs as <-; quiet Hp; rewrite E; auto.
  - destruct (pcs s t) eqn:Hp; try discriminate Hs. injection Hs as <-.
    quiet Hp; [auto|]. destruct (_ && _); [done|]. by destruct (_ <=? 0).
  - destruct (pcs s t) eqn:Hp; try discriminate Hs. destruct (_ =? _); [done|]. injection Hs as <-.
    quiet Hp; auto.
  - destruct (pcs s t) eqn:Hp; try discriminate Hs. injection Hs as <-. quiet Hp; auto.
  - assert (pcs s' = pcs s /\ sq s' = sq s) as [E1 E2] by (destruct (pcs s t); by injection Hs as <-).
    pose proof (queue_unique _ _ _ _ Hi Hi' E2) as ->. unfold balanced, flight. rewrite E1.
    replace (wait_returns _ _) with false by by destruct (pcs s t). unfold emits. cbn. lia.
Qed.

Lemma balanced_wait s s' l l' t y : inv c threads s l -> inv c threads s' l' ->
  wait_step t (pcs s t) s = Some s' -> balanced s s' l l' t Step y.
Proof.
  intros Hi Hi' Hs. pose proof (inv_tok _ _ _ _ Hi t) as Ht.
  destruct (pcs s t) eqn:Hp; try discriminate Hs; cbn [wait_step] in Hs; cbn [tok] in Ht;
    unfold lock, unlock in Hs.
  - destruct (val s =? v) eqn:E; injection Hs as <-; quiet Hp; rewrite E; auto.
  - destruct (mutex s); [done|]. injection Hs as <-. quiet Hp; auto.
  - destruct (val s <=? 0) eqn:E; injection Hs as <-; quiet Hp; rewrite E; auto.
  - injection Hs as <-. eapply balanced_local; [reflexivity| | |]; unfold emits; rewrite ?Hp; cbn; auto.
    assert (wq_ok (wq_emplace t (sq s)) (t :: l)) as Hq by (apply wq_emplace_ok; [apply Hi|tauto]).
    pose proof (wq_list_ok _ _ (inv_q _ _ _ _ Hi')) as E. cbn in E.
    rewrite (wq_list_ok _ _ Hq) in E. subst l'. set_solver.
  - injection Hs as <-. quiet Hp; auto. by rewrite bool_decide_true by tauto.
  - injection Hs as <-. quiet Hp; auto. destruct r as [code|]; [|done]. cbn. destruct (_ =? _); done.
  - destruct (run s t) eqn:Hr; try done. injection Hs as <-. quiet Hp; auto.
    rewrite bool_decide_false; [done|]. intros Hl. destruct Ht as (_ & Ht & _). by specialize (Ht Hl).
  - destruct (mutex s); [done|]. injection Hs as <-. quiet Hp; auto.
  - destruct (wq_unqueue_ok t _ _ (inv_q _ _ _ _ Hi)) as [Hu Hq].
    pose proof (wq_list_ok _ _ (inv_q _ _ _ _ Hi')) as E.
    assert (sq s' = (wq_unqueue t (sq s)).2) as Esq.
    { destruct (wq_unqueue t (sq s)).1; by injection Hs as <-. }
    rewrite Esq, (wq_list_ok _ _ Hq) in E. subst l'. rewrite Hu in Hs.
    destruct (decide (t ∈ l)) as [Hl|Hl]; injection Hs as <-;
      (eapply balanced_local; [reflexivity| | |]; unfold emits; rewrite ?Hp, ?Hu; cbn; auto;
       [intros z Hz; rewrite elem_of_remove_id; tauto|]).
    + by rewrite (bool_decide_true (t ∈ l)).
    + by rewrite (bool_decide_false (t ∈ l)).
  - destruct (val s <? 0); injection Hs as <-; quiet Hp; auto.
  - destruct (mutex s); [done|]. injection Hs as <-. quiet Hp; auto.
  - rewrite (wq_list_ok _ l) in Hs by apply Hi.
    destruct (bool_decide_reflect (t ∈ l)) as [Hl|Hl]; injection Hs as <-; quiet Hp; auto.
    + by rewrite (bool_decide_true (t ∈ l)).
    + by rewrite (bool_decide_false (t ∈ l)).
  - injection Hs as <-. quiet Hp; auto. destruct r as [code|]; [|done]. cbn. destruct (_ =? _); done.
Qed.

(** The thread taken off the queue gets a token, nobody else does. *)
Lemma balanced_wake s s' l l' t k w y : inv c threads s l -> inv c threads s' l' ->
  pcs s t = PostWake (S k) w -> post_step c t (PostWake (S k) w) s = Some s' ->
  balanced s s' l l' t Step y.
Proof.
  intros Hi Hi' Hp Hs.
  destruct (wake_facts c threads s l t k w Hi Hp) as (x & _ & Hx & Hxt & Hxh & Ha & Hu & Hq).
  cbn [post_step] in Hs. rewrite Hu in Hs. injection Hs as <-.
  pose proof (wq_list_ok _ _ (inv_q _ _ _ _ Hi')) as E. cbn in E.
  rewrite (wq_list_ok _ _ Hq) in E. subst l'. unfold balanced, flight, took, emits.
  cbn [pcs goto set_sq]. rewrite upd_eq, Hp, Hu. cbn [wait_returns taker].
  rewrite (decide_False (P := None = Some y)) by done. destruct (decide (y = t)) as [->|Hyt].
  - rewrite upd_eq, Hp, decide_False by congruence. done.
  - rewrite upd_ne by done. destruct (decide (y = x)) as [->|Hyx].
    + rewrite decide_True by done.
      rewrite bool_decide_false by (rewrite elem_of_remove_id; tauto). rewrite bool_decide_true by done.
      pose proof (inv_tok _ _ _ _ Hi x) as Hok. rewrite Ha in Hok.
      destruct (pcs s x) as [| | | | | | | | | | | | |[]| | | | | | | | |[]|]; cbn in *;
        naive_solver lia.
    + rewrite decide_False by congruence.
      rewrite (bool_decide_ext (y ∈ list_remove_id x l) (y ∈ l)); [done|].
      rewrite elem_of_remove_id. tauto.
Qed.

Lemma balanced_post s s' l l' t y : inv c threads s l -> inv c threads s' l' ->
  post_step c t (pcs s t) s = Some s' -> balanced s s' l l' t Step y.
Proof.
  intros Hi Hi' Hs. pose proof (inv_tok _ _ _ _ Hi t) as Ht.
  destruct (pcs s t) as [| | | | | | | | | | | | | |n v|n|n|n|[|k] w|w|r| | |] eqn:Hp;
    try discriminate Hs; cbn [post_step] in Hs; cbn [tok] in Ht; unfold lock, unlock in Hs.
  - destruct (val s =? v) eqn:E; injection Hs as <-; quiet Hp; rewrite E; auto.
  - destruct (mutex s); [done|]. injection Hs as <-. quiet Hp; auto.
  - destruct (existsb _ _); injection Hs as <-; quiet Hp; auto.
  - destruct (_ <=? _) eqn:E; injection Hs as <-; quiet Hp; rewrite E; auto.
  - injection Hs as <-. quiet Hp; auto.
  - by eapply balanced_wake.
  - injection Hs as <-. quiet Hp; auto.
  - injection Hs as <-. quiet Hp; auto.
Qed.

Lemma balanced_step s s' l l' t e y : inv c threads s l -> inv c threads s' l' ->
  step c t e s = Some s' -> balanced s s' l l' t e y.
Proof.
  intros Hi Hi' Hs. destruct e; try by apply balanced_call.
  cbn [step] in Hs. destruct (pcs s t) as [| | | | | | | | | | | | | | | | | | | | |[]| |] eqn:Hp;
    first [ rewrite <- Hp in Hs; by apply balanced_wait
          | rewrite <- Hp in Hs; by apply balanced_post
          | injection Hs as <-; quiet Hp; auto ].
Qed.

(** ** Runs from the initial state *)

Definition by_threads (evs : list (tid * event)) : bool :=
  forallb (fun p => bool_decide (p.1 ∈ threads)) evs.

Lemma takes_cons y x tr : takes_of y (x :: tr) = took y (taker (action x)) + takes_of y tr.
Proof. unfold takes_of, took. rewrite filter_cons. destruct (decide _); simpl; lia. Qed.

Lemma returns_cons y x tr : returns_of y (x :: tr) = took y (returned x) + returns_of y tr.
Proof. unfold returns_of, took. rewrite filter_cons. destruct (decide _); simpl; lia. Qed.

Lemma exec_ok evs : forall s l tr s', inv c threads s l -> by_threads evs = true ->
  exec c evs s = Some (tr, s') ->
  exists l', inv c threads s' l' /\ spec_run c (abs s l) tr (abs s' l') /\
    forall y, flight s' l' y + returns_of y tr = flight s l y + takes_of y tr.
Proof.
  induction evs as [|[t e] evs IH]; intros s l tr s' Hi Hb He; cbn [exec] in He.
  { injection He as <- <-. exists l. split; [done|]. split; [constructor|done]. }
  cbn [by_threads forallb fst] in Hb. apply andb_true_iff in Hb as [Ht Hb].
  apply bool_decide_eq_true in Ht.
  destruct (step c t e s) as [s1|] eqn:Hs; [|discriminate He].
  destruct (exec c evs s1) as [[tr1 s2]|] eqn:He1; [|cbn in He; rewrite He1 in He; discriminate He].
  cbn in He. rewrite He1 in He. injection He as <- <-.
  destruct (sim_step c threads max_ok few_threads s s1 l t e Hi Ht Hs) as (l1 & Hi1 & Hsim).
  destruct (IH s1 l1 tr1 s2 Hi1 Hb He1) as (l' & Hi' & Hrun & Hbal).
  exists l'. split; [done|]. split; [by econstructor|]. intros y.
  rewrite takes_cons, returns_cons. specialize (Hbal y).
  pose proof (balanced_step s s1 l l1 t e y Hi Hi1 Hs) as Hy. unfold balanced in Hy.
  cbn [action returned]. lia.
Qed.

Lemma count_takes_cons x tr :
  count_takes (x :: tr) = match taker (action x) with Some _ => 1 | None => 0 end + count_takes tr.
Proof.
  unfold count_takes. rewrite filter_cons. destruct (taker (action x)) eqn:E.
  - rewrite decide_True by eauto. simpl. lia.
  - rewrite decide_False by (intros [? [=]]). lia.
Qed.

(** Tokens are only made by [post] and only used up by the threads that get them. *)
Lemma spec_conserves a tr b : spec_run c a tr b ->
  tokens a + posted tr = tokens b + count_takes tr.
Proof.
  induction 1 as [a|a b d x tr Hs Hr IH]; [change (count_takes []) with 0; cbn; lia|]. rewrite count_takes_cons.
  cbn [posted foldr]. fold (posted tr). inversion Hs; subst; cbn [taker tokens] in *; lia.
Qed.

(** ** The owner of the mutex releases it *)

(** Accesses left until the mutex is released. *)
Definition to_release (p : pc) (waiting : nat) : nat :=
  match p with
  | WaitDec _ | TimeoutUnqueue => 3
  | WaitEnqueue _ | TimeoutVal | StopScan => 2
  | PostScan _ => 5 + waiting
  | PostFetch _ => 4 + waiting
  | PostWake k _ => 3 + k
  | PostAwake _ => 2
  | _ => 1
  end.

Ltac owned := eexists; split; [reflexivity|]; right; cbn; rewrite upd_eq; cbn; split; [done|intros; lia].

Lemma owner_steps s l t : inv c threads s l -> t ∈ threads -> holds (pcs s t) = true ->
  exists s', step c t Step s = Some s' /\
    (mutex s' = None \/
     holds (pcs s' t) = true /\ forall l', inv c threads s' l' ->
       (to_release (pcs s' t) (length l') < to_release (pcs s t) (length l))%nat).
Proof.
  intros Hi Hth Hh. pose proof (inv_tok _ _ _ _ Hi t) as Ht. cbn [step].
  destruct (inv_owner c threads s l t Hi Hh) as [Hm Ho]. pose proof (inv_val _ _ _ _ Hi) as Hv.
  rewrite Ho in Hv.
  destruct (pcs s t) as [| | | | | | | | | | | | | | | |n|n|[|k] w|w|r| | |] eqn:Hp; try discriminate Hh;
    cbn [wait_step post_step]; unfold unlock;
    try (eexists; split; [reflexivity|by left]); try (owned; fail).
  - destruct (_ <=? _); owned.
  - destruct (wq_unqueue t (sq s)).1; owned.
  - cbn in Hv. replace (val s <? 0) with true by lia. owned.
  - destruct (bool_decide _); owned.
  - destruct (existsb _ _); [owned|]. eexists. split; [reflexivity|]. right. cbn. rewrite upd_eq. cbn.
    split; [done|]. intros l' Hi'. rewrite (queue_unique _ _ _ _ Hi Hi' eq_refl). lia.
  - destruct (_ <=? _); cbn [adj] in Hv; owned.
  - destruct (wake_facts c threads s l t k w Hi Hp) as (x & _ & _ & _ & _ & _ & -> & _). owned.
Qed.

(** [n] accesses of [t] in a row. *)
Fixpoint alone (n : nat) (t : tid) (s : state T) : option (state T) :=
  match n with O => Some s | S n => s' ← step c t Step s; alone n t s' end.

(** The mutex is released within the bound, if the owner runs alone. *)
Lemma owner_releases n : forall s l t, inv c threads s l -> t ∈ threads -> holds (pcs s t) = true ->
  (to_release (pcs s t) (length l) <= n)%nat ->
  exists m s', (m <= n)%nat /\ alone m t s = Some s' /\ mutex s' = None.
Proof.
  induction n as [|n IH]; intros s l t Hi Hth Hh Hn.
  { destruct (pcs s t); cbn in *; try done; lia. }
  destruct (owner_steps s l t Hi Hth Hh) as (s1 & Hs & [Hfree|[Hh1 Hlt]]).
  { exists 1%nat, s1. cbn [alone]. rewrite Hs. split; [lia|done]. }
  destruct (sim_step c threads max_ok few_threads s s1 l t Step Hi Hth Hs) as (l1 & Hi1 & _).
  destruct (IH s1 l1 t Hi1 Hth Hh1) as (m & s' & Hm & Ha & Hf).
  { specialize (Hlt l1 Hi1). lia. }
  exists (S m), s'. cbn [alone]. rewrite Hs. split; [lia|done].
Qed.

Lemma inv_val_low s l : inv c threads s l -> - 2 ^ 31 <= val s.
Proof.
  intros Hi. pose proof (inv_val _ _ _ _ Hi) as Hv. pose proof (wq_ok_nodup _ _ (inv_q _ _ _ _ Hi)) as Hn.
  assert (Z.of_nat (length l) <= Z.of_nat (size threads)) as Hl.
  { rewrite <- (size_list_to_set (C := gset tid) l Hn). apply Nat2Z.inj_le, subseteq_size.
    intros x Hx%elem_of_list_to_set. by apply (inv_threads _ _ _ _ Hi). }
  destruct (holder s); cbn in Hv; lia.
Qed.

Lemma release_bound s l t : inv c threads s l -> holds (pcs s t) = true ->
  (to_release (pcs s t) (length l) <= 5 + length l)%nat.
Proof.
  intros Hi Hh. destruct (inv_owner c threads s l t Hi Hh) as [_ Ho].
  pose proof (inv_val _ _ _ _ Hi) as Hv. rewrite Ho in Hv.
  destruct (pcs s t); cbn in *; lia.
Qed.
End Runs.

(** What [exec_ok] gives for a run from the initial state. *)
Lemma run_ok {T} `{!WaitQueue T} c threads evs v i tr (s : state T) :
  0 < max c < 2 ^ 31 -> Z.of_nat (size threads) < 2 ^ 31 -> 0 <= v <= max c ->
  by_threads threads evs = true -> exec c evs (init v i) = Some (tr, s) ->
  inv c threads s (wq_list (sq s)) /\ spec_run c (Spec v []) tr (abs s (wq_list (sq s))) /\
  forall y, flight s (wq_list (sq s)) y + returns_of y tr = takes_of y tr.
Proof.
  intros Hm Hn Hv Hb He.
  destruct (exec_ok c threads Hm Hn evs _ [] tr s (inv_init c threads v i Hv) Hb He)
    as (l & Hi & Hr & Hf).
  rewrite (wq_list_ok _ _ (inv_q _ _ _ _ Hi)). rewrite (abs_free (init v i) []) in Hr by done. cbn in Hr.
  rewrite Z.max_l in Hr by lia. auto.
Qed.

(** ** Properties *)

Definition demo_const : const := Const SYS_SYNC_PRIORITY 2.
Definition demo_info : tid -> thread_info := fun t => Info (10 - t) 0 false false.

(** Threads 1 and 2 wait, thread 3 posts twice, thread 2 (the better priority) is awakened first;
    thread 4 gets the second token with [trywait] and thread 1 times out. *)
Definition demo_run : list (tid * event) :=
  [(1, CallWait 5); (2, CallWait 0); (1, Step); (1, Step); (1, Step); (1, Step); (2, Step); (2, Step);
   (2, Step); (2, Step); (3, CallPost 1); (3, Step); (3, Step); (3, Step); (3, Step); (3, Step);
   (3, Step); (3, Step); (2, Step); (1, Timeout); (1, Step); (1, Step); (1, Step); (1, Step);
   (3, Step); (3, CallPost 1); (3, Step); (4, CallTrywait)].

Ltac demo_side := first [reflexivity | vm_compute; reflexivity | vm_compute; split; congruence].

(** C6: the semaphore refines an abstract counting semaphore.  Whatever the interleaving of the
    accesses of fewer than 2^31 threads in [sys_semaphore_wait], [trywait] and [post], with
    timeouts, stops and priority changes at any point, the run performs the abstract actions of
    its trace, in which a token is only acquired directly when more tokens are left than threads
    wait (nobody overtakes a waiting thread), a thread only blocks when none is available, a post
    is only refused when the maximum would be exceeded, and a waiting thread is granted a token in
    the order of the protocol. *)
Theorem sema_refines {T} `{!WaitQueue T} c threads evs v i tr (s : state T) :
  0 < max c < 2 ^ 31 -> Z.of_nat (size threads) < 2 ^ 31 -> 0 <= v <= max c ->
  by_threads threads evs = true -> exec c evs (init v i) = Some (tr, s) ->
  spec_run c (Spec v []) tr (abs s (wq_list (sq s))).
Proof.
  intros Hm Hn Hv Hb He. by destruct (run_ok c threads evs v i tr s Hm Hn Hv Hb He) as (_ & ? & _).
Qed.

Lemma sema_refines_witness : exists tr (s : state queue),
  exec demo_const demo_run (init 0 demo_info) = Some (tr, s) /\
  map action (List.filter (fun x => match action x with Tau => false | _ => true end) tr) =
    [Block 1; Block 2; Post 1; Grant 2; GiveUp 1; Post 1; Acquire 4] /\
  spec_run demo_const (Spec 0 []) tr (abs s (wq_list (sq s))).
Proof.
  destruct (exec demo_const demo_run (init 0 demo_info : state queue)) as [[tr s]|] eqn:E.
  - exists tr, s. split; [reflexivity|]. split.
    + assert (Some tr = option_map fst (exec demo_const demo_run (init 0 demo_info : state queue))) as E'
        by by rewrite E.
      vm_compute in E'. injection E' as ->. reflexivity.
    + apply (sema_refines demo_const {[1; 2; 3; 4]} demo_run 0 demo_info); try demo_side. exact E.
  - exfalso. vm_compute in E. discriminate E.
Defined.

(** The invariant of the semaphore.  In every state of every run: no [ensure] has failed; [val]
    is between [-2^31] and the maximum; at most one thread is inside the mutex, the one that owns
    it; and when the mutex is free, exactly [max 0 (-val)] threads are queued (so none while [val]
    is positive), and a sleeping thread is either queued and suspended, or has been taken off the
    queue and signalled: no wakeup is lost. *)
Theorem sema_invariant {T} `{!WaitQueue T} c threads evs v i tr (s : state T) :
  0 < max c < 2 ^ 31 -> Z.of_nat (size threads) < 2 ^ 31 -> 0 <= v <= max c ->
  by_threads threads evs = true -> exec c evs (init v i) = Some (tr, s) ->
  (forall t, pcs s t <> Failed) /\ - 2 ^ 31 <= val s <= max c /\
  (forall t, holds (pcs s t) = true <-> mutex s = Some t) /\
  (mutex s = None ->
     Z.of_nat (length (wq_list (sq s))) = Z.max 0 (- val s) /\
     forall t timeout, pcs s t = Sleeping timeout ->
       run s t = if bool_decide (t ∈ wq_list (sq s)) then Suspended else Signaled).
Proof.
  intros Hm Hn Hv Hb He. destruct (run_ok c threads evs v i tr s Hm Hn Hv Hb He) as (Hi & _ & _).
  set (l := wq_list (sq s)) in *. pose proof (inv_val _ _ _ _ Hi) as Hl. split_and!.
  - intros t Ht. pose proof (inv_tok _ _ _ _ Hi t) as Hok. by rewrite Ht in Hok.
  - by apply (inv_val_low c threads Hn s l).
  - apply Hi.
  - apply Hi.
  - intros Hfree. assert (holder s = Idle) as Hh by (unfold holder; by rewrite Hfree).
    rewrite Hh in Hl. cbn in Hl. split; [lia|]. intros t timeout Ht.
    pose proof (inv_tok _ _ _ _ Hi t) as Hok. rewrite Ht, Hh in Hok. cbn in Hok.
    destruct Hok as (_ & H1 & H2). destruct (bool_decide_reflect (t ∈ l)) as [Ht'|Ht']; [auto|].
    destruct (H2 Ht') as [?|[]%not_elem_of_nil]; done.
Qed.

Lemma sema_invariant_witness : exists tr (s : state queue),
  exec demo_const (take 24 demo_run) (init 0 demo_info) = Some (tr, s) /\
  (forall t, pcs s t <> Failed) /\ - 2 ^ 31 <= val s <= max demo_const.
Proof.
  destruct (exec demo_const (take 24 demo_run) (init 0 demo_info : state queue)) as [[tr s]|] eqn:E.
  - exists tr, s. split; [reflexivity|].
    destruct (sema_invariant demo_const {[1; 2; 3; 4]} (take 24 demo_run) 0 demo_info tr s)
      as (H1 & H2 & _); try demo_side; [exact E|]. split; assumption.
  - exfalso. vm_compute in E. discriminate E.
Defined.

(** C31: tokens are neither lost nor made up.  In every run, the initial value plus the counts of
    the successful posts is the number of tokens left plus the number of tokens given to threads;
    and each thread's [wait] and [trywait] calls return [CELL_OK] exactly once for each token given
    to it, except for a token whose call has not returned yet. *)
Theorem sema_tokens {T} `{!WaitQueue T} c threads evs v i tr (s : state T) :
  0 < max c < 2 ^ 31 -> Z.of_nat (size threads) < 2 ^ 31 -> 0 <= v <= max c ->
  by_threads threads evs = true -> exec c evs (init v i) = Some (tr, s) ->
  v + posted tr = tokens (abs s (wq_list (sq s))) + count_takes tr /\
  forall y, takes_of y tr = returns_of y tr + flight s (wq_list (sq s)) y.
Proof.
  intros Hm Hn Hv Hb He. destruct (run_ok c threads evs v i tr s Hm Hn Hv Hb He) as (_ & Hr & Hf).
  split; [by apply (spec_conserves c) in Hr|]. intros y. specialize (Hf y). lia.
Qed.

Lemma sema_tokens_witness : exists tr (s : state queue),
  exec demo_const demo_run (init 0 demo_info) = Some (tr, s) /\
  0 + posted tr = tokens (abs s (wq_list (sq s))) + count_takes tr.
Proof.
  destruct (exec demo_const demo_run (init 0 demo_info : state queue)) as [[tr s]|] eqn:E.
  - exists tr, s. split; [reflexivity|].
    apply (sema_tokens demo_const {[1; 2; 3; 4]} demo_run 0 demo_info tr s); try demo_side. exact E.
  - exfalso. vm_compute in E. discriminate E.
Defined.

(** The mutex is never kept.  In every state of every run, the thread that owns the mutex is
    not blocked, and releases it after at most five accesses and one for each queued thread. *)
Theorem sema_mutex_released {T} `{!WaitQueue T} c threads evs v i tr (s : state T) t :
  0 < max c < 2 ^ 31 -> Z.of_nat (size threads) < 2 ^ 31 -> 0 <= v <= max c ->
  by_threads threads evs = true -> exec c evs (init v i) = Some (tr, s) ->
  t ∈ threads -> mutex s = Some t ->
  exists n s', (n <= 5 + length (wq_list (sq s)))%nat /\ alone c n t s = Some s' /\ mutex s' = None.
Proof.
  intros Hm Hn Hv Hb He Ht Ho. destruct (run_ok c threads evs v i tr s Hm Hn Hv Hb He) as (Hi & _).
  apply (inv_mutex _ _ _ _ Hi) in Ho as Hh.
  apply (owner_releases c threads Hm Hn _ s _ t Hi Ht Hh). by apply (release_bound c threads).
Qed.

Lemma sema_mutex_released_witness : exists tr (s : state queue) n s',
  exec demo_const (take 15 demo_run) (init 0 demo_info) = Some (tr, s) /\ mutex s = Some 3 /\
  (n <= 7)%nat /\ alone demo_const n 3 s = Some s' /\ mutex s' = None.
Proof.
  destruct (exec demo_const (take 15 demo_run) (init 0 demo_info : state queue)) as [[tr s]|] eqn:E.
  - assert (option_map (fun r => (mutex r.2, length (wq_list (sq r.2))))
      (exec demo_const (take 15 demo_run) (init 0 demo_info : state queue)) = Some (Some 3, 1%nat)) as E'
      by (vm_compute; reflexivity).
    rewrite E in E'. injection E' as E1 E2.
    destruct (sema_mutex_released demo_const {[1; 2; 3; 4]} (take 15 demo_run) 0 demo_info tr s 3)
      as (n & s' & Hn & Ha & Hf); [demo_side..|exact E|set_solver|exact E1|].
    change (length (wq_list (sq s)) = 1%nat) in E2. rewrite E2 in Hn. exists tr, s, n, s'. split; [reflexivity|]. split; [exact E1|].
    split; [lia|]. split; assumption.
  - exfalso. vm_compute in E. discriminate E.
Defined.
