(* ===== verification/Lv2Mutex.v ===== *)
(** Mutexes of the lv2 kernel (Emu/Cell/lv2/sys_mutex.h and .cpp).

    [Mutex.step] is the interleaving semantics of [sys_mutex_lock], [sys_mutex_trylock] and
    [sys_mutex_unlock] for any number of threads: one step per atomic access to [control]
    ([owner] and the wait queue [sq], changed by compare and swap without the object's mutex),
    to the object's mutex and to the sleep state, including the window between queueing and
    sleeping in which [cancel_sleep] replaces the wakeup.  [reown] is one step: it runs under the
    object's mutex, where only new waiters can be added. *)

From Stdlib Require Import ZArith Lia Bool.
From stdpp Require Import base tactics option list numbers gmap sets.
From S2P Require Import Prelude Lv2Queue Lv2Base.
Import Lv2Queue.Lv2Queue.
Local Open Scope Z_scope.

Module Mutex.

(** The caller of [try_lock]. *)
Inductive kind := Try | Lock (timeout : Z).

(** Where a thread is: [Lock*], [Timeout*] and [Stop*] in [sys_mutex_lock] and [sys_mutex_trylock],
    [Unlock*] in [sys_mutex_unlock]. *)
Inductive pc :=
  | Idle
  | LockCas (sq : option tid) (k : kind)  (* owner == 0 was read, with this sq *)
  | LockBusy (timeout : Z)                (* try_lock gave CELL_EBUSY *)
  | LockRetry (timeout : Z)               (* spinning, before try_lock *)
  | LockSleep (timeout : Z)               (* queued by try_own, before mutex.sleep *)
  | Sleeping (timeout : Z)                (* in the loop on ppu.state *)
  | LockRelease (r : result)
  | TimeoutRead | TimeoutWait | TimeoutLock | TimeoutUnqueue
  | StopLock | StopScan | StopRelease (r : result)
  | UnlockCas                             (* owner and no sq was read *)
  | UnlockLock | UnlockReown
  | UnlockAwake (cpu : tid)               (* before mutex.awake(cpu) *)
  | UnlockRelease (r : result)
  | Done (r : result)
  | Stopped (r : result).

Inductive event :=
  | CallLock (timeout : Z) | CallTrylock | CallUnlock
  | Step | Spin | Timeout | Stop | Prio (sleeping : bool) (p : Z).

(** The constant fields of [lv2_mutex]. *)
Record const := Const { protocol : Z; recursive : Z }.

Definition SYS_SYNC_RECURSIVE : Z := 0x10.
Definition SYS_SYNC_NOT_RECURSIVE : Z := 0x20.

(** [lv2_mutex] ([control] is [owner] and [sq]; no owner is the id 0) and the threads. *)
Record state (T : Type) := St {
  owner : option tid; sq : T; lock_count : Z; mutex : option tid;
  pcs : tid -> pc; run : tid -> run_state; cancel_sleep : tid -> Z;
  info : tid -> thread_info; tag : Z }.
Arguments St {T} _ _ _ _ _ _ _ _ _.
Arguments owner {T} _.
Arguments sq {T} _.
Arguments lock_count {T} _.
Arguments mutex {T} _.
Arguments pcs {T} _.
Arguments run {T} _.
Arguments cancel_sleep {T} _.
Arguments info {T} _.
Arguments tag {T} _.

Section Step.
Context {T : Type} `{!WaitQueue T} (c : const).

Definition goto (t : tid) (p : pc) (s : state T) : state T :=
  St (owner s) (sq s) (lock_count s) (mutex s) (upd t p (pcs s)) (run s) (cancel_sleep s) (info s) (tag s).
Definition set_owner (o : option tid) (s : state T) : state T :=
  St o (sq s) (lock_count s) (mutex s) (pcs s) (run s) (cancel_sleep s) (info s) (tag s).
Definition set_sq (q : T) (s : state T) : state T :=
  St (owner s) q (lock_count s) (mutex s) (pcs s) (run s) (cancel_sleep s) (info s) (tag s).
Definition set_count (n : Z) (s : state T) : state T :=
  St (owner s) (sq s) n (mutex s) (pcs s) (run s) (cancel_sleep s) (info s) (tag s).
Definition set_mutex (m : option tid) (s : state T) : state T :=
  St (owner s) (sq s) (lock_count s) m (pcs s) (run s) (cancel_sleep s) (info s) (tag s).
Definition set_run (t : tid) (r : run_state) (s : state T) : state T :=
  St (owner s) (sq s) (lock_count s) (mutex s) (pcs s) (upd t r (run s)) (cancel_sleep s) (info s) (tag s).
Definition set_cancel (t : tid) (z : Z) (s : state T) : state T :=
  St (owner s) (sq s) (lock_count s) (mutex s) (pcs s) (run s) (upd t z (cancel_sleep s)) (info s) (tag s).
Definition set_info (t : tid) (i : thread_info) (g : Z) (s : state T) : state T :=
  St (owner s) (sq s) (lock_count s) (mutex s) (pcs s) (run s) (cancel_sleep s) (upd t i (info s)) g.

Definition lock (t : tid) (p : pc) (s : state T) : option (state T) :=
  match mutex s with
  | None => Some (goto t p (set_mutex (Some t) s))
  | Some _ => None
  end.
Definition unlock (t : tid) (p : pc) (s : state T) : option (state T) :=
  Some (goto t p (set_mutex None s)).

(** [CELL_EBUSY] from [try_lock]. *)
Definition busy (k : kind) : pc :=
  match k with Try => Done (Ret CELL_EBUSY) | Lock timeout => LockBusy timeout end.

(** [try_lock] up to its compare and swap. *)
Definition try_lock (t : tid) (k : kind) (s : state T) : state T :=
  match owner s with
  | None => goto t (LockCas (head (wq_list (sq s))) k) s
  | Some o =>
      if o =? t then
        if recursive c =? SYS_SYNC_RECURSIVE then
          if lock_count s =? 0xffffffff then goto t (Done (Ret CELL_EKRESOURCE)) s
          else goto t (Done (Ret CELL_OK)) (set_count (wrap 32 (lock_count s + 1)) s)
        else goto t (Done (Ret CELL_EDEADLK)) s
      else goto t (busy k) s
  end.

Definition try_lock_cas (t : tid) (h : option tid) (k : kind) (s : state T) : state T :=
  if bool_decide (owner s = None) && bool_decide (head (wq_list (sq s)) = h)
  then goto t (Done (Ret CELL_OK)) (set_owner (Some t) s)
  else goto t (busy k) s.

(** [ppu.cancel_sleep = 1], then [try_own]. *)
Definition try_own (t timeout : Z) (s : state T) : state T :=
  match owner s with
  | Some _ =>
      let g := wrap 64 (tag s + 1) in
      let i := info s t in
      goto t (LockSleep timeout) (set_cancel t 1 (set_sq (wq_emplace t (sq s))
        (set_info t (Info (prio i) (sgn 50 g) (preserve_bit i) (again i)) g s)))
  | None => goto t (Done (Ret CELL_OK)) (set_owner (Some t) s)
  end.

(** [lv2_obj::awake] of one thread ([emplace_thread]): a thread that has not gone to sleep yet has
    its next [sleep] cancelled. *)
Definition awake (x : tid) (s : state T) : state T :=
  match run s x with
  | Suspended => set_run x Signaled s
  | Running => if cancel_sleep s x =? 1 then set_cancel x 2 s else s
  | Signaled => s
  end.

(** [sys_mutex_lock] and [sys_mutex_trylock]. *)
Definition lock_step (t : tid) (p : pc) (s : state T) : option (state T) :=
  match p with
  | LockCas h k => Some (try_lock_cas t h k s)
  | LockBusy timeout => Some (try_own t timeout s)
  | LockRetry timeout => Some (try_lock t (Lock timeout) s)
  | LockSleep timeout =>
      let s' := set_cancel t 0 s in
      if cancel_sleep s t =? 2 then Some (goto t (Done (Ret CELL_OK)) s')
      else Some (goto t (Sleeping timeout) (set_run t Suspended s'))
  | Sleeping _ =>
      match run s t with
      | Signaled => Some (goto t (Done (Ret CELL_OK)) (set_run t Running s))
      | _ => None
      end
  | LockRelease r => unlock t (Done r) s
  | TimeoutRead => Some (goto t (if wq_null (sq s) then TimeoutWait else TimeoutLock) s)
  | TimeoutWait =>
      (* mutex->mutex.lock_unlock() *)
      match mutex s with None => Some (goto t (Done (Ret CELL_OK)) s) | Some _ => None end
  | TimeoutLock => lock t TimeoutUnqueue s
  | TimeoutUnqueue =>
      let r := wq_unqueue t (sq s) in
      Some (goto t (LockRelease (Ret (match r.1 with Some _ => CELL_ETIMEDOUT | None => CELL_OK end)))
             (set_sq r.2 s))
  | StopLock => lock t StopScan s
  | StopScan =>
      if bool_decide (t ∈ wq_list (sq s)) then
        let i := info s t in
        Some (goto t (StopRelease Again) (set_info t (Info (prio i) (order i) (preserve_bit i) true) (tag s) s))
      else Some (goto t (StopRelease (Ret CELL_OK)) s)
  | StopRelease r => unlock t (Stopped r) s
  | _ => None
  end.

(** [try_unlock] up to its compare and swap. *)
Definition try_unlock (t : tid) (s : state T) : state T :=
  if negb (bool_decide (owner s = Some t)) then goto t (Done (Ret CELL_EPERM)) s
  else if negb (lock_count s =? 0)
  then goto t (Done (Ret CELL_OK)) (set_count (wrap 32 (lock_count s - 1)) s)
  else goto t (if wq_null (sq s) then UnlockCas else UnlockLock) s.

(** [reown] ([schedule] gives null exactly when [sq] is null) and the test of [cpu_flag::again]
    after it. *)
Definition reown (t : tid) (s : state T) : state T :=
  let r := wq_schedule (info s) (protocol c) (sq s) in
  match r.1 with
  | None => goto t (UnlockRelease (Ret CELL_OK)) (set_owner None s)
  | Some res =>
      if again (info s res) then goto t (UnlockRelease Again) s
      else goto t (UnlockAwake res) (set_owner (Some res) (set_sq r.2 s))
  end.

(** [sys_mutex_unlock]. *)
Definition unlock_step (t : tid) (p : pc) (s : state T) : option (state T) :=
  match p with
  | UnlockCas =>
      if bool_decide (owner s = Some t) && wq_null (sq s)
      then Some (goto t (Done (Ret CELL_OK)) (set_owner None s))
      else Some (goto t UnlockLock s)
  | UnlockLock => lock t UnlockReown s
  | UnlockReown => Some (reown t s)
  | UnlockAwake x => Some (goto t (UnlockRelease (Ret CELL_OK)) (awake x s))
  | UnlockRelease r => unlock t (Done r) s
  | _ => None
  end.

Definition step (t : tid) (e : event) (s : state T) : option (state T) :=
  match e, pcs s t with
  | CallLock timeout, Idle => Some (try_lock t (Lock timeout) s)
  | CallTrylock, Idle => Some (try_lock t Try s)
  | CallUnlock, Idle => Some (try_unlock t s)
  | Step, Done (Ret _) => Some (goto t Idle s)
  | Step, p =>
      match p with
      | UnlockCas | UnlockLock | UnlockReown | UnlockAwake _ | UnlockRelease _ => unlock_step t p s
      | _ => lock_step t p s
      end
  | Spin, LockBusy timeout => if wq_null (sq s) then Some (goto t (LockRetry timeout) s) else None
  | Timeout, Sleeping timeout =>
      if timeout =? 0 then None else Some (goto t TimeoutRead (set_run t Running s))
  | Stop, Sleeping _ => Some (goto t StopLock s)
  | Prio sleeping p, _ =>
      let r := change_prio sleeping p (tag s) (info s t) in Some (set_info t r.1 r.2 s)
  | _, _ => None
  end.

(** The object as [sys_mutex_create] makes it. *)
Definition init (i : tid -> thread_info) : state T :=
  St None wq_empty 0 None (fun _ => Idle) (fun _ => Running) (fun _ => 0) i 0.

(** The check of [sys_mutex_destroy]; [cond_count] is the number of condition variables. *)
Definition destroy_check (cond_count : Z) (s : state T) : option Z :=
  if negb (bool_decide (owner s = None)) then Some CELL_EBUSY
  else if negb (cond_count =? 0) then Some CELL_EPERM else None.

End Step.
End Mutex.

Import Mutex.

(** ** The abstract mutex *)

(** Owner, nesting depth beyond the first lock, and the waiting threads (newest first). *)
Record spec := Spec { s_owner : option tid; depth : Z; waiting : list tid }.

Inductive label := Tau | Take (t : tid) | Nest (t : tid) | Fail (t : tid) (code : Z) | Queue (t : tid)
  | Unnest (t : tid) | Release (t : tid) | Handoff (t x : tid) | GiveUp (t : tid).

Inductive spec_step (c : const) (info : tid -> thread_info) : spec -> label -> spec -> Prop :=
  | spec_tau a : spec_step c info a Tau a
  | spec_take t : spec_step c info (Spec None 0 []) (Take t) (Spec (Some t) 0 [])
  | spec_nest t n w : recursive c = SYS_SYNC_RECURSIVE -> 0 <= n < 2 ^ 32 - 1 ->
      spec_step c info (Spec (Some t) n w) (Nest t) (Spec (Some t) (n + 1) w)
  | spec_deadlock t n w : recursive c <> SYS_SYNC_RECURSIVE ->
      spec_step c info (Spec (Some t) n w) (Fail t CELL_EDEADLK) (Spec (Some t) n w)
  | spec_resource t w : recursive c = SYS_SYNC_RECURSIVE ->
      spec_step c info (Spec (Some t) (2 ^ 32 - 1) w) (Fail t CELL_EKRESOURCE) (Spec (Some t) (2 ^ 32 - 1) w)
  | spec_busy t o n w : o <> t ->
      spec_step c info (Spec (Some o) n w) (Fail t CELL_EBUSY) (Spec (Some o) n w)
  | spec_perm t a : s_owner a <> Some t -> spec_step c info a (Fail t CELL_EPERM) a
  | spec_queue t o n w : o <> t -> t ∉ w ->
      spec_step c info (Spec (Some o) n w) (Queue t) (Spec (Some o) n (t :: w))
  | spec_unnest t n w : 0 < n < 2 ^ 32 ->
      spec_step c info (Spec (Some t) n w) (Unnest t) (Spec (Some t) (n - 1) w)
  | spec_release t : spec_step c info (Spec (Some t) 0 []) (Release t) (Spec None 0 [])
  | spec_handoff t x w : pick info (protocol c) w = Some x ->
      spec_step c info (Spec (Some t) 0 w) (Handoff t x) (Spec (Some x) 0 (list_remove_id x w))
  | spec_give_up t o n w : t ∈ w ->
      spec_step c info (Spec o n w) (GiveUp t) (Spec o n (list_remove_id t w)).

Definition abs {T} (s : state T) (l : list tid) : spec := Spec (owner s) (lock_count s) l.

Definition try_lock_emits {T} (c : const) (t : tid) (k : kind) (s : state T) : label :=
  match owner s with
  | None => Tau
  | Some o =>
      if o =? t then
        if recursive c =? SYS_SYNC_RECURSIVE then
          if lock_count s =? 0xffffffff then Fail t CELL_EKRESOURCE else Nest t
        else Fail t CELL_EDEADLK
      else match k with Try => Fail t CELL_EBUSY | Lock _ => Tau end
  end.

(** The abstract action of an access. *)
Definition emits {T} `{!WaitQueue T} (c : const) (t : tid) (e : event) (s : state T) : label :=
  match e, pcs s t with
  | CallLock timeout, Idle => try_lock_emits c t (Lock timeout) s
  | CallTrylock, Idle => try_lock_emits c t Try s
  | CallUnlock, Idle =>
      if negb (bool_decide (owner s = Some t)) then Fail t CELL_EPERM
      else if negb (lock_count s =? 0) then Unnest t else Tau
  | Step, LockCas h k =>
      if bool_decide (owner s = None) && bool_decide (head (wq_list (sq s)) = h) then Take t
      else match k with Try => Fail t CELL_EBUSY | Lock _ => Tau end
  | Step, LockRetry timeout => try_lock_emits c t (Lock timeout) s
  | Step, LockBusy _ => match owner s with None => Take t | Some _ => Queue t end
  | Step, TimeoutUnqueue => match (wq_unqueue t (sq s)).1 with Some _ => GiveUp t | None => Tau end
  | Step, UnlockCas => if bool_decide (owner s = Some t) && wq_null (sq s) then Release t else Tau
  | Step, UnlockReown =>
      match (wq_schedule (info s) (protocol c) (sq s)).1 with
      | None => Release t
      | Some x => if again (info s x) then Tau else Handoff t x
      end
  | _, _ => Tau
  end.

(** ** The invariant *)

(** The points at which the thread has the object's mutex. *)
Definition holds (p : pc) : bool :=
  match p with
  | LockRelease _ | TimeoutUnqueue | StopScan | StopRelease _ | UnlockReown | UnlockAwake _
  | UnlockRelease _ => true
  | _ => false
  end.

Definition holder {T} (s : state T) : pc := match mutex s with Some t => pcs s t | None => Idle end.

(** The thread that was given the mutex and is about to be awakened. *)
Definition pending (p : pc) : option tid := match p with UnlockAwake x => Some x | _ => None end.

(** The points of a thread whose lock request is not decided. *)
Definition waits (p : pc) : bool :=
  match p with
  | LockSleep _ | Sleeping _ | TimeoutRead | TimeoutWait | TimeoutLock | TimeoutUnqueue
  | StopLock | StopScan => true
  | _ => false
  end.

(** What is known of a thread at [p]: sleep state [r], [cancel_sleep], [again] flag, [lock_count],
    whether it is queued, about to be awakened, and the owner. *)
Definition tok (p : pc) (r : run_state) (cn : Z) (a : bool) (n : Z) (inl inw own : Prop) : Prop :=
  match p with
  | Idle | Done _ | UnlockAwake _ | UnlockRelease _ => r = Running /\ cn = 0 /\ ~ inl
  | LockCas h _ => r = Running /\ cn = 0 /\ ~ inl /\ ~ own /\ h = None
  | LockBusy _ | LockRetry _ => r = Running /\ cn = 0 /\ ~ inl /\ ~ own
  | LockSleep _ =>
      r = Running /\ (inl -> cn = 1) /\ (~ inl -> own /\ (cn = 2 /\ ~ inw \/ cn = 1 /\ inw))
  | Sleeping _ =>
      r <> Running /\ cn = 0 /\ (inl -> r = Suspended) /\
      (~ inl -> own /\ (r = Signaled /\ ~ inw \/ r = Suspended /\ inw))
  | TimeoutRead | TimeoutLock | TimeoutUnqueue => r = Running /\ cn = 0 /\ (~ inl -> own)
  | TimeoutWait => r = Running /\ cn = 0 /\ ~ inl /\ own
  | LockRelease res => r = Running /\ cn = 0 /\ ~ inl /\ (res = Ret CELL_OK -> own)
  | StopLock | StopScan => cn = 0 /\ (~ inl -> own)
  | StopRelease res | Stopped res =>
      cn = 0 /\ match res with Again => inl /\ a = true | Ret _ => ~ inl /\ own end
  | UnlockCas | UnlockLock | UnlockReown => r = Running /\ cn = 0 /\ ~ inl /\ own /\ n = 0
  end.

Record inv {T} `{!WaitQueue T} (s : state T) (l : list tid) := {
  inv_q : wq_ok (sq s) l;
  inv_mutex : forall t, holds (pcs s t) = true <-> mutex s = Some t;
  inv_count : 0 <= lock_count s < 2 ^ 32;
  inv_free : owner s = None -> l = [] /\ lock_count s = 0;
  inv_owner : forall o, owner s = Some o -> o ∉ l;
  inv_pending : forall x, pending (holder s) = Some x -> owner s = Some x /\ waits (pcs s x) = true;
  inv_tok : forall t, tok (pcs s t) (run s t) (cancel_sleep s t) (again (info s t)) (lock_count s)
    (t ∈ l) (pending (holder s) = Some t) (owner s = Some t)
}.

Lemma mutex_tok_iff p r cn a n (inl inw own inl' inw' own' : Prop) :
  (inl <-> inl') -> (inw <-> inw') -> (own <-> own') ->
  tok p r cn a n inl inw own -> tok p r cn a n inl' inw' own'.
Proof.
  intros H1 H2 H3. destruct p as [| | | | | |res| | | | | | |[]| | | | |res|res|[]]; cbn; tauto.
Qed.

#[export] Instance tok_proper p r cn a n : Proper (iff ==> iff ==> iff ==> iff) (tok p r cn a n).
Proof. intros x y H x' y' H' x'' y'' H''. split; apply mutex_tok_iff; tauto. Qed.

(** [lock_count] only matters to the owner. *)
Lemma tok_count p r cn a n n' inl inw (own : Prop) : ~ own ->
  tok p r cn a n inl inw own -> tok p r cn a n' inl inw own.
Proof. destruct p as [| | | | | |res| | | | | | |[]| | | | |res|res|[]]; cbn; tauto. Qed.

(** A queued thread that is given the mutex. *)
Lemma tok_handoff p r cn n (inw own : Prop) : holds p = false ->
  tok p r cn false n True inw own -> tok p r cn false n False True True.
Proof.
  destruct p as [| | | | | |res| | | | | | |[]| | | | |res|res|[]]; cbn; naive_solver.
Qed.

(** The new owner is awakened. *)
Lemma tok_awake p r cn a n (own : Prop) : waits p = true -> tok p r cn a n False True own ->
  tok p (awaken r) (match r with Running => if cn =? 1 then 2 else cn | _ => cn end) a n False False own.
Proof.
  destruct p; try discriminate; intros _; destruct r; cbn; try tauto; try naive_solver.
  all: destruct (Z.eqb_spec cn 1); naive_solver.
Qed.

Section Invariant.
Context {T : Type} `{!WaitQueue T} (c : const).
Implicit Types (s : state T) (l : list tid) (t : tid) (p : pc).

Definition holder_after (old h p : pc) : pc :=
  if holds p then p else if holds old then Idle else h.

Lemma mutex_holder_step s s' l t p :
  inv s l -> pcs s' = upd t p (pcs s) ->
  mutex s' = (if holds p then Some t else if holds (pcs s t) then None else mutex s) ->
  holder s' = holder_after (pcs s t) (holder s) p.
Proof.
  intros Hi Hp Hm. unfold holder, holder_after. rewrite Hm, Hp. destruct (holds p); [by rewrite upd_eq|].
  destruct (holds (pcs s t)) eqn:E; [done|]. destruct (mutex s) as [o|] eqn:Ho; [|done].
  apply upd_ne. intros ->. apply (inv_mutex _ _ Hi) in Ho. congruence.
Qed.

Definition known s l t (p : pc) (h : pc) : Prop :=
  tok p (run s t) (cancel_sleep s t) (again (info s t)) (lock_count s) (t ∈ l)
    (pending h = Some t) (owner s = Some t).

Lemma mutex_inv_step s s' l l' t p :
  inv s l -> pcs s' = upd t p (pcs s) ->
  mutex s' = (if holds p then Some t else if holds (pcs s t) then None else mutex s) ->
  (holds p = true -> holds (pcs s t) = true \/ mutex s = None) ->
  wq_ok (sq s') l' -> 0 <= lock_count s' < 2 ^ 32 ->
  (owner s' = None -> l' = [] /\ lock_count s' = 0) ->
  (forall o, owner s' = Some o -> o ∉ l') ->
  let h' := holder_after (pcs s t) (holder s) p in
  (forall x, pending h' = Some x -> owner s' = Some x /\ waits (upd t p (pcs s) x) = true) ->
  known s' l' t p h' ->
  (forall y, y <> t -> known s l y (pcs s y) (holder s) -> known s' l' y (pcs s y) h') ->
  inv s' l'.
Proof.
  intros Hi Hp Hm Hacq Hq Hc Hf Ho h' Hpend Hok Hoth.
  pose proof (mutex_holder_step s s' l t p Hi Hp Hm) as Hh. fold h' in Hh.
  constructor; rewrite ?Hh; auto.
  - intros y. rewrite Hm, Hp. pose proof (inv_mutex _ _ Hi y) as Hy.
    pose proof (inv_mutex _ _ Hi t) as Hmt. destruct (decide (y = t)) as [->|Hne].
    + rewrite upd_eq. destruct (holds p), (holds (pcs s t)); naive_solver.
    + rewrite upd_ne by done. rewrite Hy. destruct (holds p) eqn:E1, (holds (pcs s t)) eqn:E2.
      * assert (mutex s = Some t) by by apply Hmt. naive_solver.
      * destruct (Hacq eq_refl) as [|Hn]; [congruence|]. rewrite Hn. naive_solver.
      * assert (mutex s = Some t) by by apply Hmt. naive_solver.
      * done.
  - by rewrite Hp.
  - intros y. rewrite Hp. destruct (decide (y = t)) as [->|Hne]; [by rewrite upd_eq|].
    rewrite upd_ne by done. by apply Hoth, (inv_tok _ _ Hi).
Qed.

(** [t] moves to [p], inside or outside the object's mutex; the object is unchanged. *)
Lemma inv_quiet s s' l t p :
  inv s l -> pcs s' = upd t p (pcs s) ->
  mutex s' = (if holds p then Some t else if holds (pcs s t) then None else mutex s) ->
  (holds p = true -> holds (pcs s t) = true \/ mutex s = None) ->
  sq s' = sq s -> lock_count s' = lock_count s -> owner s' = owner s ->
  (forall y, y <> t -> run s' y = run s y /\ cancel_sleep s' y = cancel_sleep s y /\
     again (info s' y) = again (info s y)) ->
  pending (holder_after (pcs s t) (holder s) p) = pending (holder s) ->
  (pending (holder s) = Some t -> waits p = true) ->
  known s' l t p (holder s) -> inv s' l.
Proof.
  intros Hi Hp Hm Hacq Hq Hc Ho Hr Hpd Hw Hok.
  apply (mutex_inv_step s s' l l t p); rewrite ?Hq, ?Hc, ?Ho, ?Hpd; try apply Hi; auto.
  - intros x Hx. destruct (inv_pending _ _ Hi x Hx) as [H1 H2]. split; [done|].
    destruct (decide (x = t)) as [->|]; [rewrite upd_eq; auto|by rewrite upd_ne].
  - unfold known. by rewrite Hpd.
  - intros y Hy. unfold known. destruct (Hr y Hy) as (-> & -> & ->). by rewrite Hc, Ho, Hpd.
Qed.

Definition simulated s l t e s' : Prop :=
  exists l', inv s' l' /\ spec_step c (info s) (abs s l) (emits c t e s) (abs s' l').

Lemma sim_quiet s s' l t e p :
  inv s l -> pcs s' = upd t p (pcs s) ->
  mutex s' = (if holds p then Some t else if holds (pcs s t) then None else mutex s) ->
  (holds p = true -> holds (pcs s t) = true \/ mutex s = None) ->
  sq s' = sq s -> lock_count s' = lock_count s -> owner s' = owner s ->
  (forall y, y <> t -> run s' y = run s y /\ cancel_sleep s' y = cancel_sleep s y /\
     again (info s' y) = again (info s y)) ->
  pending (holder_after (pcs s t) (holder s) p) = pending (holder s) ->
  (pending (holder s) = Some t -> waits p = true) ->
  spec_step c (info s) (abs s l) (emits c t e s) (abs s l) ->
  known s' l t p (holder s) -> simulated s l t e s'.
Proof.
  intros Hi Hp Hm Hacq Hq Hc Ho Hr Hpd Hw He Hok. exists l. split; [by eapply inv_quiet|].
  unfold abs in *. by rewrite Hc, Ho.
Qed.

(** Outside the object's mutex; the thread is not one that was just given the mutex. *)
Lemma mutex_sim_local s s' l t e p :
  inv s l -> pcs s' = upd t p (pcs s) -> holds (pcs s t) = false -> holds p = false ->
  mutex s' = mutex s -> sq s' = sq s -> lock_count s' = lock_count s -> owner s' = owner s ->
  (forall y, y <> t -> run s' y = run s y /\ cancel_sleep s' y = cancel_sleep s y /\
     again (info s' y) = again (info s y)) ->
  (waits (pcs s t) = true -> pending (holder s) = Some t -> waits p = true) ->
  spec_step c (info s) (abs s l) (emits c t e s) (abs s l) ->
  known s' l t p (holder s) -> simulated s l t e s'.
Proof.
  intros Hi Hp H1 H2 Hm Hq Hc Ho Hr Hw He Hok.
  apply (sim_quiet s s' l t e p); auto; rewrite ?H1, ?H2; auto.
  - unfold holder_after. by rewrite H1, H2.
  - intros Hx. apply Hw; [|done]. by destruct (inv_pending _ _ Hi t Hx).
Qed.

Lemma sim_tau s s' l t e p :
  inv s l -> pcs s' = upd t p (pcs s) -> holds (pcs s t) = false -> holds p = false ->
  mutex s' = mutex s -> sq s' = sq s -> lock_count s' = lock_count s -> owner s' = owner s ->
  emits c t e s = Tau ->
  (forall y, y <> t -> run s' y = run s y /\ cancel_sleep s' y = cancel_sleep s y /\
     again (info s' y) = again (info s y)) ->
  (waits (pcs s t) = true -> pending (holder s) = Some t -> waits p = true) ->
  known s' l t p (holder s) -> simulated s l t e s'.
Proof.
  intros Hi Hp H1 H2 Hm Hq Hc Ho He Hr Hw Hok. apply (mutex_sim_local s s' l t e p); auto.
  rewrite He. constructor.
Qed.

(** The owner of the object's mutex. *)
Lemma inv_held s l t : inv s l -> holds (pcs s t) = true -> mutex s = Some t /\ holder s = pcs s t.
Proof. intros Hi Ht%(inv_mutex _ _ Hi). split; [done|]. unfold holder. by rewrite Ht. Qed.

Lemma mutex_sim_lock s s' l t e p :
  inv s l -> lock t p s = Some s' -> holds p = true -> pending p = None ->
  emits c t e s = Tau -> tok p (run s t) (cancel_sleep s t) (again (info s t)) (lock_count s) (t ∈ l)
    False (owner s = Some t) -> simulated s l t e s'.
Proof.
  intros Hi Hl Hp Hpd He Hok. unfold lock in Hl. destruct (mutex s) eqn:Hm; [done|]. injection Hl as <-.
  assert (holder s = Idle) as Hh by (unfold holder; by rewrite Hm).
  apply (sim_quiet s _ l t e p); try done; rewrite ?Hp, ?Hh; auto.
  - unfold holder_after. by rewrite Hp.
  - done.
  - rewrite He. constructor.
  - by apply (mutex_tok_iff _ _ _ _ _ (t ∈ l) False (owner s = Some t)).
Qed.

Lemma mutex_sim_unlock s s' l t e p :
  inv s l -> unlock t p s = Some s' -> holds (pcs s t) = true -> holds p = false ->
  pending (pcs s t) = None -> emits c t e s = Tau ->
  tok p (run s t) (cancel_sleep s t) (again (info s t)) (lock_count s) (t ∈ l)
    False (owner s = Some t) -> simulated s l t e s'.
Proof.
  intros Hi [= <-] H1 H2 Hpd He Hok. destruct (inv_held s l t Hi H1) as [Hm Hh].
  apply (sim_quiet s _ l t e p); try done; rewrite ?Hh, ?H1, ?H2, ?Hpd; auto; try congruence.
  - unfold holder_after. by rewrite H1, H2.
  - rewrite He. constructor.
  - unfold known. rewrite Hpd. by apply (mutex_tok_iff _ _ _ _ _ (t ∈ l) False (owner s = Some t)).
Qed.

(** The mutex was free and [t] takes it. *)
Lemma sim_take s l t e : inv s l -> owner s = None -> emits c t e s = Take t ->
  match pcs s t with LockCas _ _ | LockBusy _ => True | _ => False end ->
  simulated s l t e (goto t (Done (Ret CELL_OK)) (set_owner (Some t) s)).
Proof.
  intros Hi Ho He Hp. destruct (inv_free _ _ Hi Ho) as [-> Hc].
  assert (holds (pcs s t) = false) as Hh by by destruct (pcs s t).
  pose proof (inv_tok _ _ Hi t) as Ht. exists []. split.
  - eapply (mutex_inv_step s _ [] [] t); [done|reflexivity|..]; cbn; rewrite ?Hh; try apply Hi; try done.
    + set_solver.
    + unfold holder_after. cbn. rewrite ?Hh. intros x Hx.
      destruct (inv_pending _ _ Hi x Hx) as [Hx' _]. congruence.
    + unfold known. cbn. destruct (pcs s t); cbn in *; try done; tauto.
    + unfold known, holder_after. cbn. rewrite ?Hh, Ho. intros y Hy. apply mutex_tok_iff; [done..|].
      split; congruence.
  - rewrite He. unfold abs. cbn. rewrite Ho, Hc. constructor.
Qed.

(** The owner changes its nesting depth. *)
Lemma sim_count s l t e n : inv s l -> pcs s t = Idle -> owner s = Some t -> 0 <= n < 2 ^ 32 ->
  spec_step c (info s) (Spec (Some t) (lock_count s) l) (emits c t e s) (Spec (Some t) n l) ->
  simulated s l t e (goto t (Done (Ret CELL_OK)) (set_count n s)).
Proof.
  intros Hi Hp Ho Hn He. pose proof (inv_tok _ _ Hi t) as Ht. rewrite Hp in Ht.
  assert (holder_after (pcs s t) (holder s) (Done (Ret CELL_OK)) = holder s) as Hh
    by (unfold holder_after; by rewrite Hp).
  exists l. split; [|unfold abs; cbn; by rewrite Ho].
  eapply (mutex_inv_step s _ l l t); [done|reflexivity|..]; rewrite ?Hh, ?Hp; cbn; try apply Hi; try done.
  - congruence.
  - intros x Hx. destruct (inv_pending _ _ Hi x Hx) as [H1 H2]. split; [done|].
    rewrite upd_ne; [done|]. intros ->. by rewrite Hp in H2.
  - intros y Hy. unfold known. cbn. apply tok_count. rewrite Ho. congruence.
Qed.

(** The owner frees a mutex nobody waits for. *)
Lemma sim_drop s l t e p : inv s l -> owner s = Some t -> lock_count s = 0 -> l = [] ->
  emits c t e s = Release t -> match pcs s t with UnlockCas | UnlockReown => True | _ => False end ->
  holds p = holds (pcs s t) -> pending p = None -> known (set_owner None s) l t p Idle ->
  match p with Done _ | UnlockRelease _ => True | _ => False end ->
  simulated s l t e (goto t p (set_owner None s)).
Proof.
  intros Hi Ho Hc -> He Hp Hhp Hpd Hok Hk.
  assert (waits (pcs s t) = false) as Hw by by destruct (pcs s t).
  assert (forall x, pending (holder s) <> Some x) as Hnp.
  { intros x Hx. destruct (inv_pending _ _ Hi x Hx) as [H1 H2]. congruence. }
  assert (pending (holder_after (pcs s t) (holder s) p) = None) as Hpa.
  { unfold holder_after. destruct (holds p); [done|]. destruct (holds (pcs s t)); [done|].
    destruct (pending (holder s)) as [x|]; [by destruct (Hnp x)|done]. }
  exists []. split; [|rewrite He; unfold abs; cbn; rewrite Ho, Hc; constructor].
  eapply (mutex_inv_step s _ [] [] t); [done|reflexivity|..]; rewrite ?Hpa; cbn; try apply Hi; try done.
  - rewrite Hhp. destruct (holds (pcs s t)) eqn:E; [|done]. by apply (inv_mutex _ _ Hi).
  - rewrite Hhp. auto.
  - destruct p; cbn in *; tauto.
  - unfold known. rewrite Hpa. intros y Hy. cbn. apply mutex_tok_iff; [done| |].
    + split; [by intros ?%Hnp|done].
    + split; congruence.
Qed.

(** [try_own] queues the thread. *)
Lemma sim_push s l t timeout o : inv s l -> pcs s t = LockBusy timeout -> owner s = Some o ->
  simulated s l t Step (try_own t timeout s).
Proof.
  intros Hi Hp Ho. pose proof (inv_tok _ _ Hi t) as Ht. rewrite Hp in Ht.
  destruct Ht as (Hr & Hcn & Hl & Hown). unfold try_own. rewrite Ho.
  assert (holder_after (pcs s t) (holder s) (LockSleep timeout) = holder s) as Hh
    by (unfold holder_after; by rewrite Hp).
  assert (pending (holder s) <> Some t) as Hnp.
  { intros Hx. destruct (inv_pending _ _ Hi t Hx) as [_ H2]. by rewrite Hp in H2. }
  exists (t :: l). split.
  - eapply (mutex_inv_step s _ l (t :: l) t); [done|reflexivity|..]; rewrite ?Hh, ?Hp; cbn; try apply Hi; try done.
    + apply wq_emplace_ok; [apply Hi|done].
    + congruence.
    + intros o' Ho'. pose proof (inv_owner _ _ Hi o' Ho'). set_solver.
    + intros x Hx. destruct (inv_pending _ _ Hi x Hx) as [H1 H2]. split; [done|].
      rewrite upd_ne; [done|congruence].
    + unfold known. cbn. rewrite upd_eq. set_solver.
    + intros y Hy. unfold known. cbn. rewrite !upd_ne by done. apply mutex_tok_iff; set_solver.
  - unfold emits. rewrite Hp, Ho. unfold abs. cbn. rewrite Ho. constructor; congruence.
Qed.

(** [unqueue] after a timeout. *)
Lemma mutex_sim_unqueue s s' l t : inv s l -> pcs s t = TimeoutUnqueue ->
  lock_step c t TimeoutUnqueue s = Some s' -> simulated s l t Step s'.
Proof.
  intros Hi Hp [= <-]. pose proof (inv_tok _ _ Hi t) as Ht. rewrite Hp in Ht.
  destruct (inv_held s l t Hi) as [Hm Hh]; [by rewrite Hp|]. rewrite Hh, Hp in Ht. cbn in Ht.
  destruct (wq_unqueue_ok t _ _ (inv_q _ _ Hi)) as [Hu Hq]. rewrite Hu.
  exists (list_remove_id t l). split.
  - eapply (mutex_inv_step s _ l _ t); [done|reflexivity|..]; rewrite ?Hh, ?Hp; cbn; try done; try apply Hi.
    + auto.
    + intros Ho. destruct (inv_free _ _ Hi Ho) as [-> ?]. done.
    + intros o Ho Hx%remove_id_sub. by apply (inv_owner _ _ Hi o Ho).
    + unfold known. cbn. rewrite (elem_of_remove_id t t l). destruct (decide (t ∈ l)); naive_solver.
    + intros y Hy. unfold known. apply mutex_tok_iff; [rewrite elem_of_remove_id; naive_solver|done..].
  - unfold emits. rewrite Hp, Hu. unfold abs. cbn. destruct (decide (t ∈ l)) as [Hl|Hl].
    + by constructor.
    + rewrite remove_id_notin by done. constructor.
Qed.

Lemma mutex_sim_stop_scan s s' l t : inv s l -> pcs s t = StopScan ->
  lock_step c t StopScan s = Some s' -> simulated s l t Step s'.
Proof.
  intros Hi Hp Hs. pose proof (inv_tok _ _ Hi t) as Ht. rewrite Hp in Ht.
  destruct (inv_held s l t Hi) as [Hm Hh]; [by rewrite Hp|]. cbn in Ht.
  cbn [lock_step] in Hs. rewrite (wq_list_ok _ l) in Hs by apply Hi.
  destruct (bool_decide_reflect (t ∈ l)) as [Hl|Hl]; injection Hs as <-;
    (eapply sim_quiet; [done|reflexivity|..]; rewrite ?Hh, ?Hp; cbn; auto; try discriminate).
  - intros y Hy. by rewrite upd_ne.
  - rewrite ?Hp. constructor.
  - unfold known. cbn. rewrite upd_eq. naive_solver.
  - rewrite ?Hp. constructor.
  - unfold known. cbn. naive_solver.
Qed.

(** [reown] gives the mutex to the thread the protocol selects. *)
Lemma sim_handoff s l t x : inv s l -> pcs s t = UnlockReown ->
  pick (info s) (protocol c) l = Some x -> again (info s x) = false ->
  wq_ok (wq_schedule (info s) (protocol c) (sq s)).2 (list_remove_id x l) ->
  emits c t Step s = Handoff t x ->
  simulated s l t Step (goto t (UnlockAwake x)
    (set_owner (Some x) (set_sq (wq_schedule (info s) (protocol c) (sq s)).2 s))).
Proof.
  intros Hi Hp Hpick Ha Hq He. pose proof (inv_tok _ _ Hi t) as Ht. rewrite Hp in Ht.
  destruct Ht as (Hr & Hcn & Hl & Hown & Hc). pose proof (pick_in _ _ _ _ Hpick) as Hx.
  destruct (inv_held s l t Hi) as [Hm Hh]; [by rewrite Hp|].
  assert (x <> t) as Hxt by (intros ->; done).
  assert (holds (pcs s x) = false) as Hhx.
  { destruct (holds (pcs s x)) eqn:E; [|done]. apply (inv_mutex _ _ Hi) in E. congruence. }
  pose proof (inv_tok _ _ Hi x) as Hxt'. rewrite Ha in Hxt'.
  exists (list_remove_id x l). split.
  - eapply (mutex_inv_step s _ l _ t); [done|reflexivity|..]; rewrite ?Hh, ?Hp; cbn; try done; try apply Hi.
    + auto.
    + intros o [= <-]. rewrite elem_of_remove_id. tauto.
    + intros y [= <-]. rewrite upd_ne by done. split; [done|].
      destruct (pcs s x) as [| | | | | |res| | | | | | |[]| | | | |res|res|[]]; cbn in *; naive_solver.
    + unfold known. cbn. rewrite (elem_of_remove_id x t l). tauto.
    + intros y Hy. unfold known. cbn. destruct (decide (y = x)) as [->|Hyx].
      * rewrite Ha. intros Hok. apply (mutex_tok_iff _ _ _ _ _ False True True);
          [rewrite elem_of_remove_id; tauto|done|done|].
        apply (tok_handoff _ _ _ _ (None = Some x) (owner s = Some x) Hhx).
        by apply (mutex_tok_iff _ _ _ _ _ (x ∈ l) (None = Some x) (owner s = Some x)).
      * apply mutex_tok_iff; [rewrite elem_of_remove_id; tauto|split; congruence..].
  - rewrite He. unfold abs. cbn. rewrite Hown, Hc. by constructor.
Qed.

Lemma sim_reown s l t : inv s l -> pcs s t = UnlockReown -> simulated s l t Step (reown c t s).
Proof.
  intros Hi Hp. pose proof (inv_tok _ _ Hi t) as Ht. rewrite Hp in Ht.
  destruct Ht as (Hr & Hcn & Hl & Hown & Hc).
  destruct (inv_held s l t Hi) as [Hm Hh]; [by rewrite Hp|].
  destruct (wq_schedule_ok (info s) (protocol c) _ _ (inv_q _ _ Hi)) as [Hu Hq]. unfold reown.
  assert (emits c t Step s = match pick (info s) (protocol c) l with
    | None => Release t | Some x => if again (info s x) then Tau else Handoff t x end) as He.
  { unfold emits. by rewrite Hp, Hu. }
  rewrite Hu. unfold after_pick in Hq. destruct (pick (info s) (protocol c) l) as [x|] eqn:Hpick.
  - destruct (again (info s x)) eqn:Ha; [|by apply (sim_handoff s l t x)].
    eapply sim_quiet; [done|reflexivity|..]; rewrite ?Hh, ?Hp; cbn -[emits]; auto; [done|].
    rewrite He. constructor.
  - apply sim_drop; auto; rewrite ?Hp; auto; [by destruct l|]. unfold known. cbn. tauto.
Qed.

(** [awake] of the new owner. *)
Lemma mutex_sim_awake s l t x : inv s l -> pcs s t = UnlockAwake x ->
  simulated s l t Step (goto t (UnlockRelease (Ret CELL_OK)) (awake x s)).
Proof.
  intros Hi Hp. destruct (inv_held s l t Hi) as [Hm Hh]; [by rewrite Hp|].
  assert (pending (holder s) = Some x) as Hpd by by rewrite Hh, Hp.
  destruct (inv_pending _ _ Hi x Hpd) as [Hown Hw].
  pose proof (inv_owner _ _ Hi x Hown) as Hl. pose proof (inv_tok _ _ Hi t) as Ht.
  rewrite Hp in Ht. destruct Ht as (Hr & Hcn & Htl).
  assert (x <> t) as Hxt by (intros ->; by rewrite Hp in Hw).
  assert (forall y, y <> x -> run (awake x s) y = run s y /\ cancel_sleep (awake x s) y = cancel_sleep s y)
    as Hoth.
  { intros y Hy. unfold awake. destruct (run s x); [destruct (_ =? _)| |]; cbn; by rewrite ?upd_ne. }
  assert (owner (awake x s) = owner s /\ sq (awake x s) = sq s /\ mutex (awake x s) = mutex s /\
    lock_count (awake x s) = lock_count s /\ info (awake x s) = info s /\ pcs (awake x s) = pcs s)
    as (E1 & E2 & E3 & E4 & E5 & E6).
  { unfold awake. by destruct (run s x); [destruct (_ =? _)| |]. }
  exists l. split; [|unfold emits, abs; cbn; rewrite Hp, E1, E4; constructor].
  eapply (mutex_inv_step s _ l l t (UnlockRelease (Ret CELL_OK))); [done|..]; rewrite ?Hh, ?Hp; cbn;
    rewrite ?E1, ?E2, ?E3, ?E4, ?E6; try done; try apply Hi; auto.
  - unfold known. cbn. destruct (Hoth t) as [-> ->]; auto.
  - intros y Hy. unfold known. cbn. rewrite E1, E4, E5. destruct (decide (y = x)) as [->|Hyx].
    + pose proof (inv_tok _ _ Hi x) as Hok. rewrite Hh, Hp in Hok. cbn in Hok. intros _.
      assert (run (awake x s) x = awaken (run s x) /\ cancel_sleep (awake x s) x =
        match run s x with Running => if cancel_sleep s x =? 1 then 2 else cancel_sleep s x
        | _ => cancel_sleep s x end) as [-> ->].
      { unfold awake. destruct (run s x) eqn:Hrx; [destruct (_ =? _)| |]; cbn; by rewrite ?upd_eq. }
      apply (mutex_tok_iff _ _ _ _ _ False False (owner s = Some x)); [tauto|by split|done|].
      apply (tok_awake _ _ _ _ _ _ Hw).
      by apply (mutex_tok_iff _ _ _ _ _ (x ∈ l) (Some x = Some x) (owner s = Some x)).
    + destruct (Hoth y Hyx) as [-> ->]. apply mutex_tok_iff; [done| |done]. split; congruence.
Qed.

(** Discharges the side conditions of [mutex_sim_local] at a known point. *)
Ltac at_pc Hp := try done; rewrite ?Hp; try done; auto.

Lemma sim_try_lock s l t e k : inv s l ->
  match pcs s t with Idle | LockRetry _ => True | _ => False end ->
  emits c t e s = try_lock_emits c t k s -> simulated s l t e (try_lock c t k s).
Proof.
  intros Hi Hp He. pose proof (inv_tok _ _ Hi t) as Ht.
  assert (holds (pcs s t) = false /\ waits (pcs s t) = false) as [Hh Hw] by by destruct (pcs s t).
  assert (run s t = Running /\ cancel_sleep s t = 0 /\ t ∉ l) as (Hr & Hcn & Hl).
  { destruct (pcs s t); try done; cbn in Ht; tauto. }
  unfold try_lock. unfold try_lock_emits in He. destruct (owner s) as [o|] eqn:Ho.
  - destruct (Z.eqb_spec o t) as [->|Hot].
    + assert (pcs s t = Idle) as Hidle by (destruct (pcs s t); try done; cbn in Ht; tauto).
      pose proof (inv_count _ _ Hi) as Hc.
      destruct (Z.eqb_spec (recursive c) SYS_SYNC_RECURSIVE);
        [destruct (Z.eqb_spec (lock_count s) 0xffffffff)|].
      * eapply mutex_sim_local; at_pc Hidle.
        rewrite He. unfold abs. rewrite Ho, e1. by constructor.
      * rewrite wrap_small by (split; lia). apply sim_count; auto; [lia|]. rewrite He. constructor; [done|lia].
      * eapply mutex_sim_local; at_pc Hidle.
        rewrite He. unfold abs. rewrite Ho. by constructor.
    + eapply mutex_sim_local; at_pc Hh; [by destruct k|congruence| |].
      * rewrite He. unfold abs. rewrite Ho. destruct k; by constructor.
      * unfold known. destruct k; cbn; rewrite ?Ho; [done|]. split_and!; auto. congruence.
  - eapply mutex_sim_local; at_pc Hh; [congruence|rewrite He; constructor|].
    destruct (inv_free _ _ Hi Ho) as [-> _]. unfold known. cbn.
    rewrite Ho, (wq_list_ok _ _ (inv_q _ _ Hi)). done.
Qed.

(** No owner means an empty queue, so the compare and swap of [try_lock] only fails on [owner]. *)
Lemma mutex_sim_cas s l t h k : inv s l -> pcs s t = LockCas h k ->
  simulated s l t Step (try_lock_cas t h k s).
Proof.
  intros Hi Hp. pose proof (inv_tok _ _ Hi t) as Ht. rewrite Hp in Ht. cbn in Ht. unfold try_lock_cas.
  destruct (_ && _) eqn:E.
  - apply andb_true_iff in E as [E1 E2]. apply bool_decide_eq_true in E1 as Ho.
    apply sim_take; auto; [|by rewrite Hp]. unfold emits. by rewrite Hp, E1, E2.
  - destruct (owner s) as [o|] eqn:Ho.
    + eapply mutex_sim_local; [done|reflexivity|..]; at_pc Hp; [by destruct k| |].
      * unfold emits, abs. rewrite Hp, Ho, E. destruct k; constructor. naive_solver.
      * unfold known. rewrite <- Ho in Ht. destruct k; cbn; tauto.
    + destruct (inv_free _ _ Hi Ho) as [-> _]. destruct Ht as (_ & _ & _ & _ & ->).
      by rewrite (wq_list_ok _ _ (inv_q _ _ Hi)) in E.
Qed.

(** [mutex.sleep], cancelled when the mutex was handed over before it. *)
Lemma sim_sleep s s' l t timeout : inv s l -> pcs s t = LockSleep timeout ->
  lock_step c t (LockSleep timeout) s = Some s' -> simulated s l t Step s'.
Proof.
  intros Hi Hp Hs. pose proof (inv_tok _ _ Hi t) as Ht. rewrite Hp in Ht. cbn in Ht.
  destruct Ht as (Hr & Hin & Hout). cbn [lock_step] in Hs.
  destruct (Z.eqb_spec (cancel_sleep s t) 2) as [E|E]; injection Hs as <-;
    (eapply sim_tau; [done|reflexivity|..]; rewrite ?Hp; auto; [unfold emits; by rewrite Hp|..]).
  - intros y Hy. cbn. by rewrite upd_ne.
  - intros _ Hx. cbn. destruct (decide (t ∈ l)) as [Hl|Hl]; [specialize (Hin Hl); lia|].
    destruct (Hout Hl) as (_ & [[_ []]|[? _]]); [done|lia].
  - unfold known. cbn. rewrite upd_eq. split_and!; auto. intros Hl. specialize (Hin Hl). lia.
  - intros y Hy. cbn. by rewrite !upd_ne.
  - unfold known. cbn. rewrite !upd_eq. split_and!; auto.
    intros Hl. destruct (Hout Hl) as (Ho & [[? _]|[_ Hw]]); [lia|]. auto.
Qed.

Lemma sim_signaled s s' l t timeout : inv s l -> pcs s t = Sleeping timeout ->
  lock_step c t (Sleeping timeout) s = Some s' -> simulated s l t Step s'.
Proof.
  intros Hi Hp Hs. pose proof (inv_tok _ _ Hi t) as Ht. rewrite Hp in Ht. cbn in Ht.
  destruct Ht as (Hr & Hcn & Hin & Hout). cbn [lock_step] in Hs.
  destruct (run s t) eqn:E; try done. injection Hs as <-.
  assert (t ∉ l) as Hl by (intros Hl; by specialize (Hin Hl)).
  destruct (Hout Hl) as (Ho & [[_ Hw]|[[=] _]]).
  eapply sim_tau; [done|reflexivity|..]; rewrite ?Hp; auto; [unfold emits; by rewrite Hp|..].
  - intros y Hy. cbn. by rewrite upd_ne.
  - unfold known. cbn. rewrite upd_eq. auto.
Qed.

Lemma sim_lock_step s s' l t : inv s l -> lock_step c t (pcs s t) s = Some s' ->
  simulated s l t Step s'.
Proof.
  intros Hi Hs. pose proof (inv_tok _ _ Hi t) as Ht.
  destruct (pcs s t) eqn:Hp; try discriminate Hs.
  - injection Hs as <-. by apply mutex_sim_cas.
  - injection Hs as <-. destruct (owner s) as [o|] eqn:Ho; [by eapply sim_push|].
    unfold try_own. rewrite Ho. apply sim_take; auto; [|by rewrite Hp]. unfold emits. by rewrite Hp, Ho.
  - injection Hs as <-. apply sim_try_lock; auto; [by rewrite Hp|]. unfold emits. by rewrite Hp.
  - by eapply sim_sleep.
  - by eapply sim_signaled.
  - eapply mutex_sim_unlock; at_pc Hp. { unfold emits. by rewrite Hp. } cbn in *. tauto.
  - injection Hs as <-. pose proof (wq_null_ok _ _ (inv_q _ _ Hi)) as Hn.
    eapply sim_tau; [done|reflexivity|..]; rewrite ?Hp; auto; try (by destruct (wq_null _)).
    { unfold emits. by rewrite Hp. }
    rewrite Hn. unfold known. destruct (bool_decide_reflect (l = [])) as [->|]; cbn in *; [|tauto].
    set_solver.
  - cbn [lock_step] in Hs. destruct (mutex s) eqn:Hm; [done|]. injection Hs as <-.
    assert (holder s = Idle) as Hh by (unfold holder; by rewrite Hm).
    eapply sim_tau; [done|reflexivity|..]; rewrite ?Hp, ?Hh; auto; [unfold emits; by rewrite Hp|done|].
    unfold known. cbn in *. tauto.
  - eapply mutex_sim_lock; at_pc Hp. unfold emits. by rewrite Hp.
  - by eapply mutex_sim_unqueue.
  - eapply mutex_sim_lock; at_pc Hp. unfold emits. by rewrite Hp.
  - by eapply mutex_sim_stop_scan.
  - eapply mutex_sim_unlock; at_pc Hp. unfold emits. by rewrite Hp.
Qed.

Lemma sim_unlock_step s s' l t : inv s l -> unlock_step c t (pcs s t) s = Some s' ->
  simulated s l t Step s'.
Proof.
  intros Hi Hs. pose proof (inv_tok _ _ Hi t) as Ht.
  destruct (pcs s t) eqn:Hp; try discriminate Hs; cbn in Ht.
  - destruct Ht as (Hr & Hcn & Hl & Ho & Hc). cbn [unlock_step] in Hs.
    pose proof (wq_null_ok _ _ (inv_q _ _ Hi)) as Hn. rewrite Hn, (bool_decide_true _ Ho) in Hs.
    destruct (bool_decide_reflect (l = [])) as [->|Hne]; injection Hs as <-.
    + apply sim_drop; auto; rewrite ?Hp; auto; [|unfold known; cbn; tauto].
      unfold emits. by rewrite Hp, Hn, (bool_decide_true _ Ho).
    + eapply sim_tau; [done|reflexivity|..]; rewrite ?Hp; auto; [|unfold known; cbn; tauto].
      unfold emits. by rewrite Hp, Hn, (bool_decide_true _ Ho).
  - eapply mutex_sim_lock; at_pc Hp. unfold emits. by rewrite Hp.
  - injection Hs as <-. by apply sim_reown.
  - injection Hs as <-. by apply mutex_sim_awake.
  - eapply mutex_sim_unlock; at_pc Hp. unfold emits. by rewrite Hp.
Qed.

Lemma sim_call_unlock s l t : inv s l -> pcs s t = Idle -> simulated s l t CallUnlock (try_unlock t s).
Proof.
  intros Hi Hp. pose proof (inv_tok _ _ Hi t) as Ht. rewrite Hp in Ht. cbn in Ht.
  assert (emits c t CallUnlock s = if negb (bool_decide (owner s = Some t)) then Fail t CELL_EPERM
    else if negb (lock_count s =? 0) then Unnest t else Tau) as He by (unfold emits; by rewrite Hp).
  unfold try_unlock. destruct (bool_decide_reflect (owner s = Some t)) as [Ho|Ho]; cbn [negb] in *.
  - pose proof (inv_count _ _ Hi) as Hc. destruct (Z.eqb_spec (lock_count s) 0) as [E|E]; cbn [negb] in *.
    + eapply sim_tau; [done|reflexivity|..]; rewrite ?Hp; auto; try (by destruct (wq_null _)).
      unfold known. destruct (wq_null _); cbn; tauto.
    + rewrite wrap_small by (split; lia). apply sim_count; auto; [lia|]. rewrite He. constructor. lia.
  - eapply mutex_sim_local; [done|reflexivity|..]; rewrite ?Hp; auto. rewrite He. by constructor.
Qed.

(** Every access keeps the invariant and simulates the abstract mutex. *)
Lemma mutex_sim_step s s' l t e : inv s l -> step c t e s = Some s' -> simulated s l t e s'.
Proof.
  intros Hi Hs. pose proof (inv_tok _ _ Hi t) as Ht.
  destruct e as [timeout| | | | | | |sl p]; cbn [step] in Hs.
  - destruct (pcs s t) eqn:Hp; try discriminate Hs. injection Hs as <-.
    apply sim_try_lock; auto; [by rewrite Hp|]. unfold emits. by rewrite Hp.
  - destruct (pcs s t) eqn:Hp; try discriminate Hs. injection Hs as <-.
    apply sim_try_lock; auto; [by rewrite Hp|]. unfold emits. by rewrite Hp.
  - destruct (pcs s t) eqn:Hp; try discriminate Hs. injection Hs as <-. by apply sim_call_unlock.
  - destruct (pcs s t) as [| | | | | | | | | | | | | | | | | | |[]|] eqn:Hp;
      first [ rewrite <- Hp in Hs; by apply sim_lock_step
            | rewrite <- Hp in Hs; by apply sim_unlock_step
            | injection Hs as <-; eapply sim_tau; [done|reflexivity|..]; rewrite ?Hp; auto;
              unfold emits; by rewrite Hp ].
  - destruct (pcs s t) eqn:Hp; try discriminate Hs. destruct (wq_null _); [|done]. injection Hs as <-.
    eapply sim_tau; [done|reflexivity|..]; rewrite ?Hp; auto.
  - destruct (pcs s t) eqn:Hp; try discriminate Hs. destruct (_ =? _); [done|]. injection Hs as <-.
    eapply sim_tau; [done|reflexivity|..]; rewrite ?Hp; auto.
    + intros y Hy. cbn. by rewrite upd_ne.
    + unfold known. cbn in *. rewrite upd_eq. tauto.
  - destruct (pcs s t) eqn:Hp; try discriminate Hs. injection Hs as <-.
    eapply sim_tau; [done|reflexivity|..]; rewrite ?Hp; auto. unfold known. cbn in *. tauto.
  - assert (s' = set_info t (change_prio sl p (tag s) (info s t)).1
      (change_prio sl p (tag s) (info s t)).2 s) as ->.
    { destruct (pcs s t); by injection Hs as <-. }
    assert (forall y, again (upd t (change_prio sl p (tag s) (info s t)).1 (info s) y) =
                      again (info s y)) as Ha.
    { intros y. destruct (decide (y = t)) as [->|]; [|by rewrite upd_ne].
      rewrite upd_eq. unfold change_prio. by destruct sl. }
    exists l. split; [|constructor]. destruct Hi. constructor; auto.
    intros y. cbn [info set_info]. rewrite Ha. apply inv_tok0.
Qed.

Lemma mutex_inv_init i : inv (init i : state T) [].
Proof. constructor; cbn; try done; try lia; [apply wq_ok_empty|]. intros t. split_and!; set_solver. Qed.

End Invariant.
