(* ===== verification/Lv2MutexSpec.v ===== *)
(** Properties of the lv2 mutex ([Lv2Mutex]): runs of the system calls of any number of threads,
    their traces of abstract actions, and the theorems on them. *)

From Stdlib Require Import ZArith Lia Bool.
From stdpp Require Import base tactics option list numbers gmap sets.
From S2P Require Import Prelude Lv2Queue Lv2Base Lv2Mutex.
Import Lv2Queue.Lv2Queue Mutex.
Local Open Scope Z_scope.

(** ** Runs *)

(** A lock or trylock gives [CELL_OK] to its caller in this access. *)
Definition lock_returns (e : event) (p p' : pc) : bool :=
  match e, p with
  | CallLock _, Idle | CallTrylock, Idle
  | Step, (LockCas _ _ | LockBusy _ | LockRetry _ | LockSleep _ | Sleeping _ | TimeoutWait
          | LockRelease _ | StopRelease _) =>
      match p' with Done (Ret code) | Stopped (Ret code) => code =? CELL_OK | _ => false end
  | _, _ => false
  end.

(** The code a system call gives to its caller in this access. *)
Definition reply (e : event) (p' : pc) : option Z :=
  match e, p' with
  | Prio _ _, _ => None
  | _, (Done (Ret code) | Stopped (Ret code)) => Some code
  | _, _ => None
  end.

(** An access of thread [by]. *)
Record entry := Entry {
  by_thread : tid; at_info : tid -> thread_info; action : label; returned : option tid; replied : option Z }.

Fixpoint exec {T} `{!WaitQueue T} (c : const) (evs : list (tid * event)) (s : state T)
    : option (list entry * state T) :=
  match evs with
  | [] => Some ([], s)
  | (t, e) :: evs =>
      s' ← step c t e s;
      r ← exec c evs s';
      Some (Entry t (info s) (emits c t e s)
              (if lock_returns e (pcs s t) (pcs s' t) then Some t else None) (reply e (pcs s' t)) :: r.1, r.2)
  end.

Inductive spec_run (c : const) : spec -> list entry -> spec -> Prop :=
  | spec_run_nil a : spec_run c a [] a
  | spec_run_cons a b d x tr : spec_step c (at_info x) a (action x) b -> spec_run c b tr d ->
      spec_run c a (x :: tr) d.

(** The answer that an abstract action decides for thread [y]. *)
Definition verdict (lb : label) (y : tid) : option Z :=
  match lb with
  | Tau | Queue _ => None
  | Take t | Nest t | Unnest t | Release t => only_to t (Some CELL_OK) y
  | Handoff t x => if y =? t then Some CELL_OK else only_to x (Some CELL_OK) y
  | Fail t code => only_to t (Some code) y
  | GiveUp t => only_to t (Some CELL_ETIMEDOUT) y
  end.

(** A run as thread [y] sees it: answers decided and codes returned. *)
Definition seen_by (y : tid) (tr : list entry) : list (option Z * option Z) :=
  map (fun x => (verdict (action x) y, only_to (by_thread x) (replied x) y)) tr.

(** The answer of a thread's current call that is decided and not returned yet. *)
Definition owed (p : pc) (queued : bool) : option Z :=
  match p with
  | LockSleep _ | Sleeping _ | TimeoutRead | TimeoutLock | TimeoutUnqueue | StopLock | StopScan =>
      if queued then None else Some CELL_OK
  | TimeoutWait | UnlockAwake _ => Some CELL_OK
  | LockRelease (Ret code) | StopRelease (Ret code) | UnlockRelease (Ret code) => Some code
  | _ => None
  end.

Definition owes {T} (s : state T) (l : list tid) (y : tid) : option Z :=
  owed (pcs s y) (bool_decide (y ∈ l)).

(** The thread that gets the mutex, or one more level of it; the thread that gives one up. *)
Definition taker (lb : label) : option tid :=
  match lb with Take t | Nest t | Handoff _ t => Some t | _ => None end.
Definition dropper (lb : label) : option tid :=
  match lb with Unnest t | Release t | Handoff t _ => Some t | _ => None end.

Definition took (y : tid) (o : option tid) : Z := if decide (o = Some y) then 1 else 0.

Definition sum_of (f : entry -> option tid) (y : tid) (tr : list entry) : Z :=
  foldr (fun x z => took y (f x) + z) 0 tr.
Definition takes_of : tid -> list entry -> Z := sum_of (fun x => taker (action x)).
Definition drops_of : tid -> list entry -> Z := sum_of (fun x => dropper (action x)).
Definition returns_of : tid -> list entry -> Z := sum_of returned.

(** The thread was given the mutex for the call it is in, which has not returned yet. *)
Definition in_flight (p : pc) (queued : bool) : Z :=
  match p with
  | LockSleep _ | Sleeping _ | TimeoutRead | TimeoutLock | TimeoutUnqueue | StopLock | StopScan =>
      if queued then 0 else 1
  | TimeoutWait => 1
  | LockRelease (Ret code) | StopRelease (Ret code) => if code =? CELL_OK then 1 else 0
  | _ => 0
  end.

Definition flight {T} (s : state T) (l : list tid) (y : tid) : Z :=
  in_flight (pcs s y) (bool_decide (y ∈ l)).

(** Levels of the mutex held by a thread. *)
Definition level (a : spec) (y : tid) : Z := if decide (s_owner a = Some y) then depth a + 1 else 0.

Lemma took_none y : took y None = 0.
Proof. done. Qed.

Lemma took_same t : took t (Some t) = 1.
Proof. unfold took. by rewrite decide_True. Qed.

Lemma took_other y t : y <> t -> took y (Some t) = 0.
Proof. intros H. unfold took. rewrite decide_False; [done|congruence]. Qed.

(** Levels change by what is taken and dropped. *)
Lemma level_step c i a lb b y : spec_step c i a lb b ->
  level b y = level a y + took y (taker lb) - took y (dropper lb).
Proof.
  destruct 1; cbn [taker dropper]; unfold level, took; cbn [s_owner depth];
    repeat destruct (decide _); try congruence; try lia.
Qed.

Lemma level_run c a tr b y : spec_run c a tr b ->
  level b y = level a y + takes_of y tr - drops_of y tr.
Proof.
  unfold takes_of, drops_of. induction 1 as [a|a b d x tr Hs Hr IH]; cbn [sum_of foldr]; [lia|].
  apply (level_step _ _ _ _ _ y) in Hs. unfold sum_of in *. lia.
Qed.

Section Runs.
Context {T : Type} `{!WaitQueue T} (c : const).
Implicit Types (s : state T) (l : list tid) (t : tid).

Definition balanced s s' l l' t e (y : tid) : Prop :=
  flight s' l' y + took y (if lock_returns e (pcs s t) (pcs s' t) then Some t else None) =
  flight s l y + took y (taker (emits c t e s)).

(** The access only concerns [t]. *)
Lemma mutex_balanced_local s s' l l' t e p y :
  pcs s' = upd t p (pcs s) -> (forall y, y <> t -> (y ∈ l' <-> y ∈ l)) ->
  taker (emits c t e s) = None \/ taker (emits c t e s) = Some t ->
  in_flight p (bool_decide (t ∈ l')) + (if lock_returns e (pcs s t) p then 1 else 0) =
  in_flight (pcs s t) (bool_decide (t ∈ l)) +
    match taker (emits c t e s) with None => 0 | Some _ => 1 end ->
  balanced s s' l l' t e y.
Proof.
  intros Hp Hl Ht He. unfold balanced, flight. rewrite Hp, upd_eq.
  destruct (decide (y = t)) as [->|Hne].
  - rewrite upd_eq. destruct (lock_returns _ _ _), Ht as [E|E]; rewrite E in *;
      rewrite ?took_none, ?took_same; lia.
  - rewrite upd_ne by done. rewrite (bool_decide_ext _ _ (Hl y Hne)).
    destruct (lock_returns _ _ _), Ht as [E|E]; rewrite E; by rewrite ?took_none, ?took_other.
Qed.

Lemma mutex_queue_unique s s' l l' : inv s l -> inv s' l' -> sq s' = sq s -> l' = l.
Proof.
  intros Hi Hi' Hq. rewrite <- (wq_list_ok _ _ (inv_q _ _ Hi)), <- Hq. symmetry.
  apply wq_list_ok, Hi'.
Qed.

Lemma mutex_balanced_quiet s s' l l' t e p y : inv s l -> inv s' l' ->
  pcs s' = upd t p (pcs s) -> sq s' = sq s ->
  taker (emits c t e s) = None \/ taker (emits c t e s) = Some t ->
  in_flight p (bool_decide (t ∈ l)) + (if lock_returns e (pcs s t) p then 1 else 0) =
  in_flight (pcs s t) (bool_decide (t ∈ l)) +
    match taker (emits c t e s) with None => 0 | Some _ => 1 end ->
  balanced s s' l l' t e y.
Proof.
  intros Hi Hi' Hp Hq Ht He. pose proof (mutex_queue_unique _ _ _ _ Hi Hi' Hq) as ->.
  by apply (mutex_balanced_local s s' l l t e p).
Qed.

Ltac quiet Hp :=
  eapply mutex_balanced_quiet; [eassumption..|reflexivity|reflexivity| |]; unfold emits; rewrite ?Hp; cbn.

Lemma balanced_try_lock s l l' t e k y : inv s l -> inv (try_lock c t k s) l' ->
  match e, pcs s t with
  | (CallLock _ | CallTrylock), Idle | Step, LockRetry _ => True
  | _, _ => False
  end -> emits c t e s = try_lock_emits c t k s -> balanced s (try_lock c t k s) l l' t e y.
Proof.
  intros Hi Hi' Hp He. unfold try_lock in *. unfold try_lock_emits in He.
  assert (forall b, in_flight (pcs s t) b = 0) as Hz by (intros; destruct e, (pcs s t); done).
  assert (forall p, lock_returns e (pcs s t) p =
    match p with Done (Ret code) | Stopped (Ret code) => code =? CELL_OK | _ => false end) as Hret
    by (intros; destruct e, (pcs s t); done).
  destruct (owner s) as [o|]; [destruct (o =? t); [destruct (recursive c =? _); [destruct (lock_count s =? _)|]|
    destruct k]|]; (eapply mutex_balanced_quiet; [exact Hi|exact Hi'|reflexivity|reflexivity|..]);
    rewrite ?He, ?Hz, ?Hret; cbn; auto.
Qed.

Lemma balanced_lock s s' l l' t y : inv s l -> inv s' l' ->
  lock_step c t (pcs s t) s = Some s' -> balanced s s' l l' t Step y.
Proof.
  intros Hi Hi' Hs. pose proof (inv_tok _ _ Hi t) as Ht.
  destruct (pcs s t) as [|h k|timeout|timeout|timeout|timeout|r| | | | | | |r| | | | | | |] eqn:Hp;
    try discriminate Hs; cbn [lock_step] in Hs; cbn [tok] in Ht; unfold lock, unlock in Hs.
  - injection Hs as <-. unfold try_lock_cas in *.
    destruct (_ && _) eqn:E; quiet Hp; rewrite ?E; auto; by destruct k; auto.
  - injection Hs as <-. unfold try_own in *. destruct (owner s) as [o|] eqn:Ho.
    + eapply mutex_balanced_local; [reflexivity| | |]; unfold emits; rewrite ?Hp, ?Ho; cbn; auto.
      * intros z Hz. assert (wq_ok (wq_emplace t (sq s)) (t :: l)) as Hq
          by (apply wq_emplace_ok; [apply Hi|tauto]).
        pose proof (wq_list_ok _ _ (inv_q _ _ Hi')) as E. cbn in E.
        rewrite (wq_list_ok _ _ Hq) in E. subst l'. set_solver.
      * assert (wq_ok (wq_emplace t (sq s)) (t :: l)) as Hq by (apply wq_emplace_ok; [apply Hi|tauto]).
        pose proof (wq_list_ok _ _ (inv_q _ _ Hi')) as E. cbn in E.
        rewrite (wq_list_ok _ _ Hq) in E. subst l'. by rewrite bool_decide_true by set_solver.
    + quiet Hp; rewrite Ho; auto.
  - injection Hs as <-. apply balanced_try_lock; auto; [by rewrite Hp|]. unfold emits. by rewrite Hp.
  - destruct Ht as (Hr & Hin & Hout).
    destruct (Z.eqb_spec (cancel_sleep s t) 2) as [E|E]; injection Hs as <-; quiet Hp; auto.
    rewrite bool_decide_false; [done|]. intros Hl. specialize (Hin Hl). lia.
  - destruct (run s t) eqn:Hr; try done. injection Hs as <-. quiet Hp; auto.
    rewrite bool_decide_false; [done|]. intros Hl. destruct Ht as (_ & _ & Ht & _). by specialize (Ht Hl).
  - injection Hs as <-. quiet Hp; auto. destruct r as [code|]; [|done]. cbn. destruct (_ =? _); done.
  - injection Hs as <-. pose proof (wq_null_ok _ _ (inv_q _ _ Hi)) as Hn. quiet Hp; auto.
    rewrite Hn. destruct (bool_decide_reflect (l = [])) as [->|]; cbn; [|lia].
    by rewrite bool_decide_false by set_solver.
  - destruct (mutex s); [done|]. injection Hs as <-. quiet Hp; auto.
  - destruct (mutex s); [done|]. injection Hs as <-. quiet Hp; auto.
  - destruct (wq_unqueue_ok t _ _ (inv_q _ _ Hi)) as [Hu Hq]. injection Hs as <-.
    pose proof (wq_list_ok _ _ (inv_q _ _ Hi')) as E. cbn in E. rewrite (wq_list_ok _ _ Hq) in E. subst l'.
    eapply mutex_balanced_local; [reflexivity| | |]; unfold emits; rewrite ?Hp, ?Hu; cbn; auto.
    + intros z Hz. rewrite elem_of_remove_id. tauto.
    + destruct (decide (t ∈ l)); auto.
    + destruct (decide (t ∈ l)) as [Hl|Hl].
      * by rewrite (bool_decide_true (t ∈ l)).
      * by rewrite (bool_decide_false (t ∈ l)).
  - destruct (mutex s); [done|]. injection Hs as <-. quiet Hp; auto.
  - rewrite (wq_list_ok _ l) in Hs by apply Hi.
    destruct (bool_decide_reflect (t ∈ l)) as [Hl|Hl]; injection Hs as <-; quiet Hp; auto.
    + by rewrite (bool_decide_true (t ∈ l)).
    + by rewrite (bool_decide_false (t ∈ l)).
  - injection Hs as <-. quiet Hp; auto. destruct r as [code|]; [|done]. cbn. destruct (_ =? _); done.
Qed.

(** The thread that is handed the mutex is the only one whose balance changes. *)
Lemma balanced_reown s l l' t y : inv s l -> inv (reown c t s) l' -> pcs s t = UnlockReown ->
  balanced s (reown c t s) l l' t Step y.
Proof.
  intros Hi Hi' Hp. destruct (wq_schedule_ok (info s) (protocol c) _ _ (inv_q _ _ Hi)) as [Hu Hq].
  unfold reown in *. destruct (wq_schedule (info s) (protocol c) (sq s)).1 as [x|] eqn:E1.
  2: { quiet Hp; rewrite ?E1; auto. }
  destruct (again (info s x)) eqn:Ha. { quiet Hp; rewrite ?E1, ?Ha; auto. }
  unfold after_pick in Hq. rewrite <- Hu, Ha in Hq.
  pose proof (wq_list_ok _ _ (inv_q _ _ Hi')) as E. cbn in E. rewrite (wq_list_ok _ _ Hq) in E. subst l'.
  pose proof (pick_in _ _ _ _ (eq_sym Hu)) as Hx. pose proof (inv_tok _ _ Hi t) as Ht.
  rewrite Hp in Ht. destruct Ht as (_ & _ & Htl & _).
  assert (x <> t) as Hxt by (intros ->; done).
  unfold balanced, flight, emits. cbn [pcs goto set_owner set_sq]. rewrite upd_eq, Hp, E1, Ha.
  cbn [lock_returns taker]. rewrite took_none. destruct (decide (y = t)) as [->|Hyt].
  - rewrite upd_eq, Hp, took_other by done. done.
  - rewrite upd_ne by done. destruct (decide (y = x)) as [->|Hyx].
    + rewrite took_same. rewrite bool_decide_false by (rewrite elem_of_remove_id; tauto).
      rewrite bool_decide_true by done. pose proof (inv_tok _ _ Hi x) as Hok. rewrite Ha in Hok.
      destruct (pcs s x) as [| | | | | |res| | | | | | |[]| | | | |res|res|[]] eqn:Hpx;
        cbn [tok in_flight] in *; try lia; try tauto; try (destruct Hok as (_ & _ & ? & _); tauto);
        exfalso; naive_solver.
    + rewrite took_other by done.
      rewrite (bool_decide_ext (y ∈ list_remove_id x l) (y ∈ l)); [done|].
      rewrite elem_of_remove_id. tauto.
Qed.

Lemma balanced_unlock s s' l l' t y : inv s l -> inv s' l' ->
  unlock_step c t (pcs s t) s = Some s' -> balanced s s' l l' t Step y.
Proof.
  intros Hi Hi' Hs. destruct (pcs s t) as [| | | | | | | | | | | | | | | | |x|r| |] eqn:Hp;
    try discriminate Hs; cbn [unlock_step] in Hs; unfold lock, unlock in Hs.
  - destruct (_ && _) eqn:E; injection Hs as <-; quiet Hp; rewrite ?E; auto.
  - destruct (mutex s); [done|]. injection Hs as <-. quiet Hp; auto.
  - injection Hs as <-. by apply balanced_reown.
  - injection Hs as <-.
    assert (pcs (awake x s) = pcs s /\ sq (awake x s) = sq s) as [E1 E2].
    { unfold awake. by destruct (run s x); [destruct (_ =? _)| |]. }
    eapply mutex_balanced_quiet; [exact Hi|exact Hi'|cbn; by rewrite E1|done|..]; unfold emits; rewrite ?Hp;
      cbn; auto.
  - injection Hs as <-. quiet Hp; auto.
Qed.

Lemma mutex_balanced_step s s' l l' t e y : inv s l -> inv s' l' ->
  step c t e s = Some s' -> balanced s s' l l' t e y.
Proof.
  intros Hi Hi' Hs. destruct e as [timeout| | | | | | |sl p]; cbn [step] in Hs.
  - destruct (pcs s t) eqn:Hp; try discriminate Hs. injection Hs as <-.
    apply balanced_try_lock; auto; [by rewrite Hp|]. unfold emits. by rewrite Hp.
  - destruct (pcs s t) eqn:Hp; try discriminate Hs. injection Hs as <-.
    apply balanced_try_lock; auto; [by rewrite Hp|]. unfold emits. by rewrite Hp.
  - destruct (pcs s t) eqn:Hp; try discriminate Hs. injection Hs as <-. unfold try_unlock in *.
    destruct (negb (bool_decide _)) eqn:E1; [|destruct (negb (_ =? 0)) eqn:E2]; quiet Hp;
      rewrite ?E1, ?E2; auto. by destruct (wq_null _).
  - destruct (pcs s t) as [| | | | | | | | | | | | | | | | | | |[]|] eqn:Hp;
      first [ rewrite <- Hp in Hs; by apply balanced_lock
            | rewrite <- Hp in Hs; by apply balanced_unlock
            | injection Hs as <-; quiet Hp; auto ].
  - destruct (pcs s t) eqn:Hp; try discriminate Hs. destruct (wq_null _); [|done]. injection Hs as <-.
    quiet Hp; auto.
  - destruct (pcs s t) eqn:Hp; try discriminate Hs. destruct (_ =? _); [done|]. injection Hs as <-.
    quiet Hp; auto.
  - destruct (pcs s t) eqn:Hp; try discriminate Hs. injection Hs as <-. quiet Hp; auto.
  - assert (pcs s' = pcs s /\ sq s' = sq s) as [E1 E2] by (destruct (pcs s t); by injection Hs as <-).
    pose proof (mutex_queue_unique _ _ _ _ Hi Hi' E2) as ->. unfold balanced, flight. rewrite E1.
    replace (lock_returns _ _ _) with false by by destruct (pcs s t). unfold emits. cbn. lia.
Qed.

(** *** Answers *)

Definition answered s s' l l' t e (y : tid) : Prop :=
  answer (owes s l y) (verdict (emits c t e s) y) (only_to t (reply e (pcs s' t)) y) = Some (owes s' l' y).

(** The access only concerns [t]. *)
Lemma answered_local s s' l l' t e p y :
  pcs s' = upd t p (pcs s) -> (forall y, y <> t -> (y ∈ l' <-> y ∈ l)) ->
  (forall y, y <> t -> verdict (emits c t e s) y = None) ->
  answer (owed (pcs s t) (bool_decide (t ∈ l))) (verdict (emits c t e s) t) (reply e p) =
    Some (owed p (bool_decide (t ∈ l'))) ->
  answered s s' l l' t e y.
Proof.
  intros Hp Hl Hv He. unfold answered, owes. rewrite Hp, upd_eq. destruct (decide (y = t)) as [->|Hne].
  - by rewrite upd_eq, only_to_eq.
  - rewrite upd_ne, only_to_ne, Hv by done. by rewrite (bool_decide_ext _ _ (Hl y Hne)).
Qed.

Lemma answered_quiet s s' l l' t e p y : inv s l -> inv s' l' ->
  pcs s' = upd t p (pcs s) -> sq s' = sq s ->
  (forall y, y <> t -> verdict (emits c t e s) y = None) ->
  answer (owed (pcs s t) (bool_decide (t ∈ l))) (verdict (emits c t e s) t) (reply e p) =
    Some (owed p (bool_decide (t ∈ l))) ->
  answered s s' l l' t e y.
Proof.
  intros Hi Hi' Hp Hq Hv He. pose proof (mutex_queue_unique _ _ _ _ Hi Hi' Hq) as ->.
  by apply (answered_local s s' l l t e p).
Qed.

Ltac says Hp :=
  eapply answered_quiet; [eassumption..|reflexivity|reflexivity| |]; unfold emits; rewrite ?Hp;
    cbn [verdict owed reply]; rewrite ?only_to_eq.

Ltac told := solve [auto with answer | done | intros; cbn [verdict]; by rewrite ?only_to_ne].

Lemma answered_try_lock s l l' t e k y : inv s l -> inv (try_lock c t k s) l' ->
  match e, pcs s t with
  | (CallLock _ | CallTrylock), Idle | Step, LockRetry _ => True
  | _, _ => False
  end -> emits c t e s = try_lock_emits c t k s -> answered s (try_lock c t k s) l l' t e y.
Proof.
  intros Hi Hi' Hp He. unfold try_lock in *. unfold try_lock_emits in He.
  assert (forall b, owed (pcs s t) b = None) as Hz by (intros; destruct e, (pcs s t); done).
  assert (forall p, reply e p = match p with Done (Ret code) | Stopped (Ret code) => Some code | _ => None end)
    as Hret by (intros; destruct e, (pcs s t); done).
  destruct (owner s) as [o|]; [destruct (o =? t); [destruct (recursive c =? _); [destruct (lock_count s =? _)|]|
    destruct k]|]; (eapply answered_quiet; [exact Hi|exact Hi'|reflexivity|reflexivity|..]);
    rewrite ?He, ?Hz, ?Hret; cbn [verdict owed busy]; rewrite ?only_to_eq; told.
Qed.

Lemma answered_lock s s' l l' t y : inv s l -> inv s' l' ->
  lock_step c t (pcs s t) s = Some s' -> answered s s' l l' t Step y.
Proof.
  intros Hi Hi' Hs. pose proof (inv_tok _ _ Hi t) as Ht.
  destruct (pcs s t) as [|h k|timeout|timeout|timeout|timeout|r| | | | | | |r| | | | | | |] eqn:Hp;
    try discriminate Hs; cbn [lock_step] in Hs; cbn [tok] in Ht; unfold lock, unlock in Hs.
  - injection Hs as <-. unfold try_lock_cas in *.
    destruct (_ && _) eqn:E; [|destruct k]; says Hp; rewrite ?E; cbn [verdict busy]; rewrite ?only_to_eq; told.
  - injection Hs as <-. unfold try_own in *. destruct (owner s) as [o|] eqn:Ho.
    + assert (wq_ok (wq_emplace t (sq s)) (t :: l)) as Hq by (apply wq_emplace_ok; [apply Hi|tauto]).
      pose proof (wq_list_ok _ _ (inv_q _ _ Hi')) as E. cbn in E. rewrite (wq_list_ok _ _ Hq) in E. subst l'.
      eapply answered_local; [reflexivity| | |]; unfold emits; rewrite ?Hp, ?Ho; [set_solver|told|].
      cbn [verdict owed reply]. rewrite bool_decide_true by set_solver. told.
    + says Hp; rewrite Ho; cbn [verdict]; rewrite ?only_to_eq; told.
  - injection Hs as <-. apply answered_try_lock; auto; [by rewrite Hp|]. unfold emits. by rewrite Hp.
  - destruct Ht as (Hr & Hin & Hout).
    destruct (Z.eqb_spec (cancel_sleep s t) 2) as [E|E]; injection Hs as <-; says Hp; try told.
    rewrite bool_decide_false; [told|]. intros Hl. specialize (Hin Hl). lia.
  - destruct (run s t) eqn:Hr; try done. injection Hs as <-. says Hp; [told|].
    rewrite bool_decide_false; [told|]. intros Hl. destruct Ht as (_ & _ & Ht & _). by specialize (Ht Hl).
  - injection Hs as <-. says Hp; [told|]. destruct r; told.
  - injection Hs as <-. pose proof (wq_null_ok _ _ (inv_q _ _ Hi)) as Hn. says Hp; [told|].
    rewrite Hn. destruct (bool_decide_reflect (l = [])) as [->|]; cbn [owed]; [|told].
    rewrite bool_decide_false by set_solver. told.
  - destruct (mutex s); [done|]. injection Hs as <-. says Hp; told.
  - destruct (mutex s); [done|]. injection Hs as <-. says Hp; told.
  - destruct (wq_unqueue_ok t _ _ (inv_q _ _ Hi)) as [Hu Hq]. injection Hs as <-.
    pose proof (wq_list_ok _ _ (inv_q _ _ Hi')) as E. cbn in E. rewrite (wq_list_ok _ _ Hq) in E. subst l'.
    eapply answered_local; [reflexivity| | |]; unfold emits; rewrite ?Hp, ?Hu.
    + intros z Hz. rewrite elem_of_remove_id. tauto.
    + destruct (decide (t ∈ l)); told.
    + destruct (decide (t ∈ l)) as [Hl|Hl]; cbn [verdict owed reply]; rewrite ?only_to_eq.
      * rewrite (bool_decide_true (t ∈ l)) by done. told.
      * rewrite (bool_decide_false (t ∈ l)) by done. told.
  - destruct (mutex s); [done|]. injection Hs as <-. says Hp; told.
  - rewrite (wq_list_ok _ l) in Hs by apply Hi.
    destruct (bool_decide_reflect (t ∈ l)) as [Hl|Hl]; injection Hs as <-; says Hp; try told.
    + rewrite (bool_decide_true (t ∈ l)) by done. told.
    + rewrite (bool_decide_false (t ∈ l)) by done. told.
  - injection Hs as <-. says Hp; [told|]. destruct r; told.
Qed.

(** The thread that is handed the mutex gets its answer decided, too. *)
Lemma answered_reown s l l' t y : inv s l -> inv (reown c t s) l' -> pcs s t = UnlockReown ->
  answered s (reown c t s) l l' t Step y.
Proof.
  intros Hi Hi' Hp. destruct (wq_schedule_ok (info s) (protocol c) _ _ (inv_q _ _ Hi)) as [Hu Hq].
  unfold reown in *. destruct (wq_schedule (info s) (protocol c) (sq s)).1 as [x|] eqn:E1.
  2: { says Hp; rewrite ?E1; cbn [verdict]; rewrite ?only_to_eq; told. }
  destruct (again (info s x)) eqn:Ha. { says Hp; rewrite ?E1, ?Ha; told. }
  unfold after_pick in Hq. rewrite <- Hu, Ha in Hq.
  pose proof (wq_list_ok _ _ (inv_q _ _ Hi')) as E. cbn in E. rewrite (wq_list_ok _ _ Hq) in E. subst l'.
  pose proof (pick_in _ _ _ _ (eq_sym Hu)) as Hx. pose proof (inv_tok _ _ Hi t) as Ht.
  rewrite Hp in Ht. destruct Ht as (_ & _ & Htl & _).
  assert (x <> t) as Hxt by (intros ->; done).
  unfold answered, owes, emits. cbn [pcs goto set_owner set_sq]. rewrite upd_eq, Hp, E1, Ha.
  cbn [reply verdict]. destruct (Z.eqb_spec y t) as [->|Hyt].
  - rewrite upd_eq, Hp, only_to_eq. told.
  - rewrite upd_ne, (only_to_ne t) by done. destruct (decide (y = x)) as [->|Hyx].
    + rewrite only_to_eq. rewrite (bool_decide_false (x ∈ list_remove_id x l)) by (rewrite elem_of_remove_id; tauto).
      rewrite bool_decide_true by done. pose proof (inv_tok _ _ Hi x) as Hok. rewrite Ha in Hok.
      destruct (pcs s x) as [| | | | | |res| | | | | | |[]| | | | |res|res|[]] eqn:Hpx;
        cbn [tok owed] in *; try told; try tauto; try (destruct Hok as (_ & _ & ? & _); tauto);
        exfalso; naive_solver.
    + rewrite only_to_ne by done.
      rewrite (bool_decide_ext (y ∈ list_remove_id x l) (y ∈ l)); [told|].
      rewrite elem_of_remove_id. tauto.
Qed.

Lemma answered_unlock s s' l l' t y : inv s l -> inv s' l' ->
  unlock_step c t (pcs s t) s = Some s' -> answered s s' l l' t Step y.
Proof.
  intros Hi Hi' Hs. destruct (pcs s t) as [| | | | | | | | | | | | | | | | |x|r| |] eqn:Hp;
    try discriminate Hs; cbn [unlock_step] in Hs; unfold lock, unlock in Hs.
  - destruct (_ && _) eqn:E; injection Hs as <-; says Hp; rewrite ?E; cbn [verdict]; rewrite ?only_to_eq; told.
  - destruct (mutex s); [done|]. injection Hs as <-. says Hp; told.
  - injection Hs as <-. by apply answered_reown.
  - injection Hs as <-.
    assert (pcs (awake x s) = pcs s /\ sq (awake x s) = sq s) as [E1 E2].
    { unfold awake. by destruct (run s x); [destruct (_ =? _)| |]. }
    eapply answered_quiet; [exact Hi|exact Hi'|cbn; by rewrite E1|done|..]; unfold emits; rewrite ?Hp; told.
  - injection Hs as <-. says Hp; [told|]. destruct r; told.
Qed.

Lemma answered_step s s' l l' t e y : inv s l -> inv s' l' ->
  step c t e s = Some s' -> answered s s' l l' t e y.
Proof.
  intros Hi Hi' Hs. destruct e as [timeout| | | | | | |sl p]; cbn [step] in Hs.
  - destruct (pcs s t) eqn:Hp; try discriminate Hs. injection Hs as <-.
    apply answered_try_lock; auto; [by rewrite Hp|]. unfold emits. by rewrite Hp.
  - destruct (pcs s t) eqn:Hp; try discriminate Hs. injection Hs as <-.
    apply answered_try_lock; auto; [by rewrite Hp|]. unfold emits. by rewrite Hp.
  - destruct (pcs s t) eqn:Hp; try discriminate Hs. injection Hs as <-. unfold try_unlock in *.
    destruct (negb (bool_decide _)) eqn:E1; [|destruct (negb (_ =? 0)) eqn:E2; [|destruct (wq_null _)]]; says Hp;
      rewrite ?E1, ?E2; cbn [verdict]; rewrite ?only_to_eq; told.
  - destruct (pcs s t) as [| | | | | | | | | | | | | | | | | | |[]|] eqn:Hp;
      first [ rewrite <- Hp in Hs; by apply answered_lock
            | rewrite <- Hp in Hs; by apply answered_unlock
            | injection Hs as <-; says Hp; told ].
  - destruct (pcs s t) eqn:Hp; try discriminate Hs. destruct (wq_null _); [|done]. injection Hs as <-.
    says Hp; told.
  - destruct (pcs s t) eqn:Hp; try discriminate Hs. destruct (_ =? _); [done|]. injection Hs as <-.
    says Hp; told.
  - destruct (pcs s t) eqn:Hp; try discriminate Hs. injection Hs as <-. says Hp; told.
  - assert (pcs s' = pcs s /\ sq s' = sq s) as [E1 E2] by (destruct (pcs s t); by injection Hs as <-).
    pose proof (mutex_queue_unique _ _ _ _ Hi Hi' E2) as ->. unfold answered, owes. rewrite E1.
    unfold emits, reply, only_to. by destruct (y =? t).
Qed.

Lemma mutex_exec_ok evs : forall s l tr s', inv s l -> exec c evs s = Some (tr, s') ->
  exists l', inv s' l' /\ spec_run c (abs s l) tr (abs s' l') /\
    (forall y, flight s' l' y + returns_of y tr = flight s l y + takes_of y tr) /\
    forall y, answers (seen_by y tr) (owes s l y) = Some (owes s' l' y).
Proof.
  induction evs as [|[t e] evs IH]; intros s l tr s' Hi He; cbn [exec] in He.
  { injection He as <- <-. exists l. split; [done|]. split; [constructor|]. cbn. split; [lia|done]. }
  destruct (step c t e s) as [s1|] eqn:Hs; [|discriminate He].
  destruct (exec c evs s1) as [[tr1 s2]|] eqn:He1; cbn in He; rewrite He1 in He; [|discriminate He].
  injection He as <- <-.
  destruct (mutex_sim_step c s s1 l t e Hi Hs) as (l1 & Hi1 & Hsim).
  destruct (IH s1 l1 tr1 s2 Hi1 He1) as (l' & Hi' & Hrun & Hbal & Hans).
  exists l'. split; [done|]. split; [by econstructor|]. split; intros y.
  - pose proof (mutex_balanced_step s s1 l l1 t e y Hi Hi1 Hs) as Hy. specialize (Hbal y).
    unfold balanced, takes_of, returns_of, sum_of in *. cbn [foldr action returned]. lia.
  - pose proof (answered_step s s1 l l1 t e y Hi Hi1 Hs) as Hy. unfold answered in Hy.
    cbn [seen_by map answers action by_thread replied]. rewrite Hy. apply Hans.
Qed.

Lemma mutex_run_ok evs i tr s : exec c evs (init i : state T) = Some (tr, s) ->
  inv s (wq_list (sq s)) /\ spec_run c (Spec None 0 []) tr (abs s (wq_list (sq s))) /\
  (forall y, flight s (wq_list (sq s)) y + returns_of y tr = takes_of y tr) /\
  forall y, answers (seen_by y tr) None = Some (owes s (wq_list (sq s)) y).
Proof.
  intros He. destruct (mutex_exec_ok evs _ [] tr s (mutex_inv_init i) He) as (l & Hi & Hr & Hf & Ha).
  rewrite (wq_list_ok _ _ (inv_q _ _ Hi)). split; [done|]. split; [done|]. split; [|exact Ha].
  intros y. specialize (Hf y). cbn in Hf. lia.
Qed.
End Runs.

(** ** Properties *)

Definition demo_const : const := Const SYS_SYNC_PRIORITY SYS_SYNC_RECURSIVE.
Definition demo_info : tid -> thread_info := fun t => Info (10 - t) 0 false false.

(** Thread 1 locks twice; 2 and 3 queue; 1 unlocks twice and hands the mutex over to 3 (the better
    priority), which had not gone to sleep yet; thread 2 times out. *)
Definition demo_run : list (tid * event) :=
  [(1, CallLock 0); (1, Step); (1, Step); (1, CallLock 0); (1, Step); (2, CallLock 9); (2, Step);
   (2, Step); (3, CallLock 0); (3, Step); (1, CallUnlock); (1, Step); (1, CallUnlock); (1, Step);
   (1, Step); (1, Step); (3, Step); (2, Timeout); (2, Step); (1, Step); (2, Step); (2, Step); (2, Step)].

(** C7: the mutex refines an abstract one.  Whatever the interleaving of the accesses of the
    threads in [sys_mutex_lock], [trylock] and [unlock], with spinning, timeouts, stops and
    priority changes, the run performs the abstract actions of its trace: a free mutex is taken
    by one thread; only the owner nests and unnests (within 32 bits); an owner that unlocks at depth 0
    frees the mutex if nobody waits and otherwise hands it to the thread selected by the protocol, so
    that no newcomer can take it in between; a thread that times out leaves the queue.  And every code
    returned to a thread is the one that the abstract action on its call decided, each being returned at most
    once: [CELL_OK] for a lock that was taken, nested or handed over and for an unlock by the owner,
    [CELL_EDEADLK] and [CELL_EKRESOURCE] for an owner that may not nest or nest deeper, [CELL_EBUSY] for a
    trylock while another thread owns the mutex, [CELL_EPERM] for an unlock by another thread,
    [CELL_ETIMEDOUT] for leaving the queue; an answer that is decided and not returned is that of a call still in
    progress. *)
Theorem mutex_refines {T} `{!WaitQueue T} c evs i tr (s : state T) :
  exec c evs (init i) = Some (tr, s) ->
  spec_run c (Spec None 0 []) tr (abs s (wq_list (sq s))) /\
  forall y, answers (seen_by y tr) None = Some (owes s (wq_list (sq s)) y).
Proof. intros He. by destruct (mutex_run_ok c evs i tr s He) as (_ & ? & _ & ?). Qed.

Lemma mutex_refines_witness : exists tr (s : state queue),
  exec demo_const demo_run (init demo_info) = Some (tr, s) /\
  map action (List.filter (fun x => match action x with Tau => false | _ => true end) tr) =
    [Take 1; Nest 1; Queue 2; Queue 3; Unnest 1; Handoff 1 3; GiveUp 2] /\
  seen_by 2 (List.filter (fun x => match verdict (action x) 2, only_to (by_thread x) (replied x) 2 with
                                   None, None => false | _, _ => true end) tr) =
    [(Some CELL_ETIMEDOUT, None); (None, Some CELL_ETIMEDOUT)] /\
  spec_run demo_const (Spec None 0 []) tr (abs s (wq_list (sq s))).
Proof.
  destruct (exec demo_const demo_run (init demo_info : state queue)) as [[tr s]|] eqn:E.
  - exists tr, s. split; [reflexivity|].
    assert (Some tr = option_map fst (exec demo_const demo_run (init demo_info : state queue))) as E'
      by by rewrite E.
    split; [vm_compute in E'; injection E' as ->; reflexivity|].
    split; [vm_compute in E'; injection E' as ->; reflexivity|].
    apply (mutex_refines demo_const demo_run demo_info). exact E.
  - exfalso. vm_compute in E. discriminate E.
Defined.

(** C30: mutual exclusion.  In every run, for every thread, the levels taken minus the levels dropped
    are the nesting level of the owner and 0 for all others, so at most one thread holds the
    mutex; and each thread's [lock] and [trylock] calls return [CELL_OK] exactly once for each
    level given to it, except for one whose call has not returned yet. *)
Theorem mutex_exclusion {T} `{!WaitQueue T} c evs i tr (s : state T) :
  exec c evs (init i) = Some (tr, s) ->
  (forall y, takes_of y tr - drops_of y tr =
     if decide (owner s = Some y) then lock_count s + 1 else 0) /\
  (forall y z, 0 < takes_of y tr - drops_of y tr -> 0 < takes_of z tr - drops_of z tr -> y = z) /\
  forall y, takes_of y tr = returns_of y tr + flight s (wq_list (sq s)) y.
Proof.
  intros He. destruct (mutex_run_ok c evs i tr s He) as (_ & Hr & Hf & _).
  assert (forall y, takes_of y tr - drops_of y tr =
     if decide (owner s = Some y) then lock_count s + 1 else 0) as Hl.
  { intros y. pose proof (level_run c _ _ _ y Hr) as Hl. assert (level (Spec None 0 []) y = 0) as E by done.
    rewrite E in Hl. unfold level in Hl. cbn [abs s_owner depth] in Hl. lia. }
  split; [done|]. split.
  - intros y z Hy Hz. rewrite Hl in Hy, Hz. repeat destruct (decide _); [congruence|lia..].
  - intros y. specialize (Hf y). lia.
Qed.

Lemma mutex_exclusion_witness : exists tr (s : state queue),
  exec demo_const demo_run (init demo_info) = Some (tr, s) /\
  takes_of 3 tr - drops_of 3 tr = if decide (owner s = Some 3) then lock_count s + 1 else 0.
Proof.
  destruct (exec demo_const demo_run (init demo_info : state queue)) as [[tr s]|] eqn:E.
  - exists tr, s. split; [reflexivity|]. 
    destruct (mutex_exclusion demo_const demo_run demo_info tr s E) as (H & _). exact (H 3).
  - exfalso. vm_compute in E. discriminate E.
Defined.

(** The invariant of the mutex.  In every state of every run: a mutex without owner has no
    waiting thread and depth 0; the owner does not wait; at most one thread is inside the object's
    own mutex; and when that is free, a sleeping thread is either queued and suspended, or owns the
    mutex and has been signalled, and a queued thread that is about to sleep will sleep, while one
    that was handed the mutex in that window has its sleep cancelled: no wakeup is lost. *)
Theorem mutex_invariant {T} `{!WaitQueue T} c evs i tr (s : state T) :
  exec c evs (init i) = Some (tr, s) ->
  (owner s = None -> wq_list (sq s) = [] /\ lock_count s = 0) /\
  (forall o, owner s = Some o -> o ∉ wq_list (sq s)) /\
  (forall t, holds (pcs s t) = true <-> mutex s = Some t) /\
  (mutex s = None -> forall t timeout,
     (pcs s t = Sleeping timeout ->
        if bool_decide (t ∈ wq_list (sq s)) then run s t = Suspended
        else run s t = Signaled /\ owner s = Some t) /\
     (pcs s t = LockSleep timeout ->
        if bool_decide (t ∈ wq_list (sq s)) then cancel_sleep s t = 1
        else cancel_sleep s t = 2 /\ owner s = Some t)).
Proof.
  intros He. destruct (mutex_run_ok c evs i tr s He) as (Hi & _ & _). set (l := wq_list (sq s)) in *.
  split; [apply Hi|]. split; [apply Hi|]. split; [apply Hi|].
  intros Hfree t timeout. assert (holder s = Idle) as Hh by (unfold holder; by rewrite Hfree).
  pose proof (inv_tok _ _ Hi t) as Ht. rewrite Hh in Ht. cbn in Ht.
  split; intros Hp; rewrite Hp in Ht; cbn in Ht; destruct (bool_decide_reflect (t ∈ l)) as [Hl|Hl].
  - tauto.
  - destruct Ht as (_ & _ & _ & Ht). destruct (Ht Hl) as (Ho & [[? _]|[_ [=]]]). done.
  - tauto.
  - destruct Ht as (_ & _ & Ht). destruct (Ht Hl) as (Ho & [[? _]|[_ [=]]]). done.
Qed.

Lemma mutex_invariant_witness : exists tr (s : state queue),
  exec demo_const (take 10 demo_run) (init demo_info) = Some (tr, s) /\
  forall o, owner s = Some o -> o ∉ wq_list (sq s).
Proof.
  destruct (exec demo_const (take 10 demo_run) (init demo_info : state queue)) as [[tr s]|] eqn:E.
  - exists tr, s. split; [reflexivity|].
    destruct (mutex_invariant demo_const (take 10 demo_run) demo_info tr s E) as (_ & H & _). exact H.
  - exfalso. vm_compute in E. discriminate E.
Defined.
