(* ===== verification/Lv2EventFlag.v ===== *)
(** Event flags of the lv2 kernel (Emu/Cell/lv2/sys_event_flag.h and .cpp).

    [EventFlag] transcribes [check_mode], [check_pattern] and the system calls.  The flag's 64-bit
    [pattern] is also changed without the flag's mutex, by [sys_event_flag_clear], by [trywait]
    and by the fast path of [wait]; [sys_event_flag_set] therefore computes its effect on the
    waiting threads from a snapshot of the pattern and commits it with an atomic operation that
    fails if a bit it depended on has changed.  In [set] the accesses of the other threads in
    each of these windows are an argument ([between]), so that the theorems are about every
    interleaving. *)

From Stdlib Require Import ZArith Lia Bool Sorted.
From stdpp Require Import base tactics option list numbers gmap.
From S2P Require Import Prelude Lv2Queue Lv2Base.
Local Open Scope Z_scope.

Module EventFlag.

Definition SYS_SYNC_WAITER_SINGLE : Z := 0x10000.
Definition SYS_SYNC_WAITER_MULTIPLE : Z := 0x20000.
Definition SYS_EVENT_FLAG_WAIT_AND : Z := 0x01.
Definition SYS_EVENT_FLAG_WAIT_OR : Z := 0x02.
Definition SYS_EVENT_FLAG_WAIT_CLEAR : Z := 0x10.
Definition SYS_EVENT_FLAG_WAIT_CLEAR_ALL : Z := 0x20.

Definition check_mode (mode : Z) : bool :=
  let low := Z.land mode 0xf in
  let high := Z.ldiff mode 0xf in
  ((low =? SYS_EVENT_FLAG_WAIT_AND) || (low =? SYS_EVENT_FLAG_WAIT_OR)) &&
  ((high =? 0) || (high =? SYS_EVENT_FLAG_WAIT_CLEAR) || (high =? SYS_EVENT_FLAG_WAIT_CLEAR_ALL)).

(** The test of [check_pattern]. *)
Definition satisfied (pattern bitptn mode : Z) : bool :=
  negb ((Z.land mode 0xf =? SYS_EVENT_FLAG_WAIT_AND) && negb (Z.land pattern bitptn =? bitptn) ||
        (Z.land mode 0xf =? SYS_EVENT_FLAG_WAIT_OR) && (Z.land pattern bitptn =? 0)).

(** The clearing of [check_pattern]. *)
Definition cleared (pattern bitptn mode : Z) : Z :=
  if Z.ldiff mode 0xf =? SYS_EVENT_FLAG_WAIT_CLEAR then Z.ldiff pattern bitptn
  else if Z.ldiff mode 0xf =? SYS_EVENT_FLAG_WAIT_CLEAR_ALL then 0 else pattern.

(** Success and the new pattern; the old pattern is what [*result] receives. *)
Definition check_pattern (pattern bitptn mode : Z) : bool * Z :=
  if satisfied pattern bitptn mode then (true, cleared pattern bitptn mode) else (false, pattern).

(** A waiting thread: [gpr[4]] and [gpr[5]] hold the arguments of its call; [cpu_flag::again] of its
    state. *)
Record waiter := W { w_tid : tid; gpr4 : Z; gpr5 : Z; w_prio : Z; w_again : bool }.

(** [lv2_event_flag]; the result registers of the waiting threads. *)
Record flag := Flag { pattern : Z; sq : list waiter; gpr3 : tid -> Z; gpr6 : tid -> Z }.

(** The constant fields. *)
Record const := Const { protocol : Z; type : Z }.

(** [gpr[3] = -1]. *)
Definition NONE : Z := 2 ^ 64 - 1.

(** ** Accesses without the mutex *)

(** [flag.pattern &= bitptn] of [clear], and [fetch_op(check_pattern)] of [trywait] and [wait]. *)
Inductive fast := Clear (bitptn : Z) | Try (bitptn mode : Z).

Definition fast_op (f : fast) (pat : Z) : Z :=
  match f with
  | Clear bitptn => Z.land pat bitptn
  | Try bitptn mode => (check_pattern pat bitptn mode).2
  end.

Definition fast_ops (fs : list fast) (pat : Z) : Z := foldl (fun p f => fast_op f p) pat fs.

(** ** [sys_event_flag_set] *)

Section Set_.
Context (c : const) (bitptn : Z).

(** [get_next]: the last unmarked thread of the best priority so far. *)
Fixpoint get_next (gpr7 : tid -> Z) (l : list waiter) (prio : Z) (it : option waiter) : option waiter :=
  match l with
  | [] => it
  | ppu :: l =>
      if (gpr7 (w_tid ppu) =? 0) &&
         (negb (protocol c =? SYS_SYNC_PRIORITY) || (w_prio ppu <=? prio))
      then get_next gpr7 l (w_prio ppu) (Some ppu)
      else get_next gpr7 l prio it
  end.

Definition smax : Z := 2 ^ 31 - 1.

(** What an attempt computes. *)
Record attempt := At { to_write : Z; dependant_mask : Z; count : Z; r3 : tid -> Z; r6 : tid -> Z }.

(** The mask of bits of the old value on which waking [ppu] depends. *)
Definition dependant_mask_or (to_write : Z) (ppu : waiter) : Z :=
  if (Z.land (gpr5 ppu) 0xf =? SYS_EVENT_FLAG_WAIT_OR) ||
     (Z.land (Z.land bitptn (gpr4 ppu)) to_write =? gpr4 ppu)
  then 0 else gpr4 ppu.

(** One waiting thread; [true] when the loop is left. *)
Definition visit (ppu : waiter) (a : attempt) : attempt * bool :=
  let t := w_tid ppu in
  let m := dependant_mask_or (to_write a) ppu in
  let r := check_pattern (to_write a) (gpr4 ppu) (gpr5 ppu) in
  let r6' := upd t (to_write a) (r6 a) in
  if r.1 then
    (At r.2 (Z.lor (dependant_mask a) m) (count a + 1) (upd t CELL_OK (r3 a)) r6', r.2 =? 0)
  else (At (to_write a) (dependant_mask a) (count a) (upd t NONE (r3 a)) r6', false).

(** [while (auto it = get_next())]. *)
Fixpoint visit_loop (fuel : nat) (l : list waiter) (gpr7 : tid -> Z) (a : attempt) : attempt :=
  match fuel with
  | O => a
  | S fuel =>
      match get_next gpr7 l smax None with
      | None => a
      | Some ppu =>
          let r := visit ppu a in
          if r.2 then r.1 else visit_loop fuel l (upd (w_tid ppu) 1 gpr7) r.1
      end
  end.

(** The body of the loop up to the commit, on the snapshot [pat]. *)
Definition attempt_on (pat : Z) (f : flag) : attempt :=
  let a := visit_loop (S (length (sq f))) (sq f) (fun _ => 0)
             (At (Z.lor pat bitptn) 0 0 (gpr3 f) (gpr6 f)) in
  At (to_write a) (Z.ldiff (dependant_mask a) bitptn) (count a) (r3 a) (r6 a).

(** [pattern.fetch_op] of the commit, on the value [x]. *)
Definition commit (pat x : Z) (a : attempt) : option Z :=
  if negb (Z.land (Z.lxor x pat) (dependant_mask a) =? 0) then None
  else Some (Z.ldiff (Z.lor x bitptn) (Z.ldiff (Z.lor pat bitptn) (to_write a))).

(** The attempts; [between] lists the accesses of the other threads before each commit (none once it
    is exhausted).  The result is the flag with the waiting threads still queued, and the number
    of threads to wake. *)
Fixpoint set_loop (between : list (list fast)) (pat : Z) (f : flag) : flag * Z :=
  let a := attempt_on pat f in
  match between with
  | [] =>
      match commit pat pat a with
      | Some v => (Flag v (sq f) (r3 a) (r6 a), count a)
      | None => (f, 0)
      end
  | fs :: between =>
      let x := fast_ops fs pat in
      match commit pat x a with
      | Some v => (Flag v (sq f) (r3 a) (r6 a), count a)
      | None => set_loop between x (Flag x (sq f) (r3 a) (r6 a))
      end
  end.

(** The rest of [sys_event_flag_set] inside the mutex: the flag and the threads awakened, in queue
    order. *)
Definition set_locked (between : list (list fast)) (f : flag) : flag * list tid :=
  let r := set_loop between (pattern f) f in
  if r.2 =? 0 then (r.1, [])
  else
    (Flag (pattern r.1) (List.filter (fun w => negb (gpr3 r.1 (w_tid w) =? CELL_OK)) (sq r.1))
       (gpr3 r.1) (gpr6 r.1),
     map w_tid (List.filter (fun w => gpr3 r.1 (w_tid w) =? CELL_OK) (sq r.1))).

(** [sys_event_flag_set]: nothing to do when the bits are set already, and given up when a waiting
    thread is being stopped. *)
Definition set (between : list (list fast)) (f : flag) : result * (flag * list tid) :=
  if Z.land (pattern f) bitptn =? bitptn then (Ret CELL_OK, (f, []))
  else if existsb w_again (sq f) then (Again, (f, []))
  else (Ret CELL_OK, set_locked between f).

End Set_.

(** ** The other system calls *)

(** [sys_event_flag_wait] inside the mutex: [None] when the thread is queued. *)
Definition wait_locked (c : const) (w : waiter) (f : flag) : option Z * flag :=
  let r := check_pattern (pattern f) (gpr4 w) (gpr5 w) in
  let f' := Flag (if r.1 then r.2 else pattern f) (sq f) (gpr3 f) (upd (w_tid w) (pattern f) (gpr6 f)) in
  if r.1 then (Some CELL_OK, f')
  else if (type c =? SYS_SYNC_WAITER_SINGLE) && negb (bool_decide (sq f = []))
  then (Some CELL_EPERM, f')
  else (None, Flag (pattern f') (w :: sq f) (upd (w_tid w) NONE (gpr3 f)) (gpr6 f')).

(** A waiting thread whose time is up leaves the queue. *)
Definition timeout (t : tid) (f : flag) : flag :=
  if existsb (fun w => w_tid w =? t) (sq f) then
    Flag (pattern f) (List.filter (fun w => negb (w_tid w =? t)) (sq f))
      (upd t CELL_ETIMEDOUT (gpr3 f)) (upd t (pattern f) (gpr6 f))
  else f.

(** A thread that finds the emulator stopped while it is queued. *)
Definition stop (t : tid) (f : flag) : flag :=
  Flag (pattern f)
    (map (fun w => if w_tid w =? t then W (w_tid w) (gpr4 w) (gpr5 w) (w_prio w) true else w) (sq f))
    (gpr3 f) (gpr6 f).

(** [sys_event_flag_cancel]: the number of threads and the flag. *)
Definition cancel (f : flag) : result * (Z * flag) :=
  if existsb w_again (sq f) then (Again, (0, f))
  else
    (Ret CELL_OK,
     (Z.of_nat (length (sq f)),
      Flag (pattern f) []
        (fun t => if existsb (fun w => w_tid w =? t) (sq f) then CELL_ECANCELED else gpr3 f t)
        (fun t => if existsb (fun w => w_tid w =? t) (sq f) then pattern f else gpr6 f t))).

(** [sys_event_flag_get] stores the pattern. *)
Definition get (f : flag) : Z := pattern f.

(** The check of [sys_event_flag_destroy]. *)
Definition destroy_check (f : flag) : option Z :=
  if bool_decide (sq f = []) then None else Some CELL_EBUSY.

End EventFlag.

Import EventFlag.

(** ** Bit patterns as sets *)

Definition sub (x p : Z) : Prop := forall n, 0 <= n -> Z.testbit x n = true -> Z.testbit p n = true.

Lemma sub_refl x : sub x x.
Proof. by intros n. Qed.

Lemma sub_trans x y z : sub x y -> sub y z -> sub x z.
Proof. intros H1 H2 n Hn Hx. by apply H2, H1. Qed.

Lemma bits_eq a b : (forall n, 0 <= n -> Z.testbit a n = Z.testbit b n) -> a = b.
Proof.
  intros H. apply Z.bits_inj'. intros n Hn. by apply H.
Qed.

Lemma land_sub p w : (Z.land p w =? w) = true <-> sub w p.
Proof.
  rewrite Z.eqb_eq. split.
  - intros E n Hn Hw. rewrite <- E, Z.land_spec in Hw. by apply andb_true_iff in Hw as [? _].
  - intros H. apply bits_eq. intros n Hn. rewrite Z.land_spec.
    destruct (Z.testbit w n) eqn:E; [by rewrite (H n Hn E)|by rewrite andb_false_r].
Qed.

Lemma land_none p w : (Z.land p w =? 0) = true <->
  forall n, 0 <= n -> Z.testbit p n = true -> Z.testbit w n = true -> False.
Proof.
  rewrite Z.eqb_eq. split.
  - intros E n Hn Hp Hw. assert (Z.testbit (Z.land p w) n = true) as Hl by by rewrite Z.land_spec, Hp, Hw.
    by rewrite E, Z.bits_0 in Hl.
  - intros H. apply bits_eq. intros n Hn. rewrite Z.land_spec, Z.bits_0.
    destruct (Z.testbit p n) eqn:E1, (Z.testbit w n) eqn:E2; try done. by destruct (H n Hn E1 E2).
Qed.

(** ** [check_pattern] *)

Definition is_and (w : waiter) : Prop := Z.land (gpr5 w) 0xf = SYS_EVENT_FLAG_WAIT_AND.
Definition is_or (w : waiter) : Prop := Z.land (gpr5 w) 0xf = SYS_EVENT_FLAG_WAIT_OR.

Lemma mode_cases w : check_mode (gpr5 w) = true -> is_and w \/ is_or w.
Proof. unfold check_mode, is_and, is_or. lia. Qed.

Definition sat (pat : Z) (w : waiter) : bool := satisfied pat (gpr4 w) (gpr5 w).

Lemma sat_and pat w : is_and w -> (sat pat w = true <-> sub (gpr4 w) pat).
Proof.
  intros H. unfold sat, satisfied. rewrite H. cbn [Z.eqb Pos.eqb andb orb SYS_EVENT_FLAG_WAIT_AND
    SYS_EVENT_FLAG_WAIT_OR]. rewrite <- land_sub. by destruct (_ =? _).
Qed.

Lemma sat_or pat w : is_or w ->
  (sat pat w = false <-> forall n, 0 <= n -> Z.testbit pat n = true -> Z.testbit (gpr4 w) n = true -> False).
Proof.
  intros H. unfold sat, satisfied. rewrite H. cbn [Z.eqb Pos.eqb andb orb SYS_EVENT_FLAG_WAIT_AND
    SYS_EVENT_FLAG_WAIT_OR]. rewrite negb_false_iff. apply land_none.
Qed.

(** Fewer bits satisfy fewer conditions. *)
Lemma sat_mono x p w : check_mode (gpr5 w) = true -> sub x p -> sat p w = false -> sat x w = false.
Proof.
  intros Hm Hs Hp. destruct (mode_cases w Hm) as [Ha|Ho].
  - apply not_true_iff_false. rewrite sat_and by done. intros Hx.
    apply not_true_iff_false in Hp. rewrite sat_and in Hp by done. apply Hp. by apply (sub_trans _ x).
  - rewrite sat_or in * by done. intros n Hn Hx. apply Hp; auto.
Qed.

Lemma cleared_sub pat w : sub (cleared pat (gpr4 w) (gpr5 w)) pat.
Proof.
  unfold cleared. destruct (_ =? _); [|destruct (_ =? _)].
  - intros n Hn. rewrite Z.ldiff_spec. by intros [? _]%andb_true_iff.
  - intros n Hn. by rewrite Z.bits_0.
  - apply sub_refl.
Qed.

(** What is left after the bits [m] were cleared; clearing is the same on any pattern. *)
Lemma cleared_ldiff m w : exists m', forall v,
  cleared (Z.ldiff v m) (gpr4 w) (gpr5 w) = Z.ldiff v m'.
Proof.
  destruct (Z.ldiff (gpr5 w) 0xf =? SYS_EVENT_FLAG_WAIT_CLEAR) eqn:E1;
    [|destruct (Z.ldiff (gpr5 w) 0xf =? SYS_EVENT_FLAG_WAIT_CLEAR_ALL) eqn:E2].
  - exists (Z.lor m (gpr4 w)). intros v. unfold cleared. rewrite E1. apply bits_eq. intros n Hn.
    rewrite !Z.ldiff_spec, Z.lor_spec. by destruct (Z.testbit v n), (Z.testbit m n), (Z.testbit (gpr4 w) n).
  - exists (-1). intros v. unfold cleared. rewrite E1, E2. apply bits_eq. intros n Hn.
    rewrite Z.bits_0, Z.ldiff_spec, Z.bits_m1 by done. by rewrite andb_false_r.
  - exists m. intros v. unfold cleared. by rewrite E1, E2.
Qed.

(** A waiting thread whose condition does not hold now. *)
Definition waits_for (pat : Z) (w : waiter) : Prop := check_mode (gpr5 w) = true /\ sat pat w = false.

Lemma waits_for_sub x p w : sub x p -> waits_for p w -> waits_for x w.
Proof. intros Hs [Hm Hp]. split; [done|by eapply sat_mono]. Qed.

(** Nothing satisfies it on the empty pattern. *)
Lemma waits_for_zero p w : waits_for p w -> sat 0 w = false.
Proof. intros [Hm Hp]. apply (sat_mono 0 p); auto. intros n Hn. by rewrite Z.bits_0. Qed.

(** Accesses without the mutex only clear bits. *)
Lemma fast_op_sub f p : sub (fast_op f p) p.
Proof.
  destruct f as [m|b m]; cbn [fast_op].
  - intros n Hn. rewrite Z.land_spec. by intros [? _]%andb_true_iff.
  - unfold check_pattern. destruct (satisfied _ _ _); cbn [snd]; [|apply sub_refl].
    apply (cleared_sub p (W 0 b m 0 false)).
Qed.

Lemma fast_ops_sub fs p : sub (fast_ops fs p) p.
Proof.
  unfold fast_ops. revert p. induction fs as [|f fs IH]; intros p; [apply sub_refl|]. cbn [foldl].
  eapply sub_trans; [apply IH|apply fast_op_sub].
Qed.

(** ** The atomic reference *)

(** The threads in the given order see the pattern one after the other: the final pattern and the
    threads whose condition held. *)
Fixpoint process (v : Z) (ws : list waiter) : Z * list tid :=
  match ws with
  | [] => (v, [])
  | w :: ws =>
      let r := check_pattern v (gpr4 w) (gpr5 w) in
      let r' := process r.2 ws in
      (r'.1, if r.1 then w_tid w :: r'.2 else r'.2)
  end.

(** The loop of [set] over the threads in the order of the visits. *)
Fixpoint walk (bitptn : Z) (ws : list waiter) (a : attempt) : attempt :=
  match ws with
  | [] => a
  | w :: ws => let r := visit bitptn w a in if r.2 then r.1 else walk bitptn ws r.1
  end.

Lemma process_zero ws : (forall w, w ∈ ws -> sat 0 w = false) -> process 0 ws = (0, []).
Proof.
  induction ws as [|w ws IH]; intros H; [done|]. cbn [process].
  assert (sat 0 w = false) as Hw by (apply H; set_solver). unfold check_pattern. fold (sat 0 w).
  rewrite Hw. cbn [fst snd]. rewrite IH; [done|]. intros w' Hw'. apply H. set_solver.
Qed.

Section Walk.
Context (bitptn pat x : Z).
Hypothesis Hsub : sub x pat.
Notation b := bitptn.

(** The bits outside [m] that [set] sees, and those that are there. *)
Definition seen (m : Z) : Z := Z.ldiff (Z.lor pat b) m.
Definition real (m : Z) : Z := Z.ldiff (Z.lor x b) m.

Lemma real_sub m : sub (real m) (seen m).
Proof.
  intros n Hn. unfold real, seen. rewrite !Z.ldiff_spec, !Z.lor_spec.
  destruct (Z.testbit x n) eqn:E; [rewrite (Hsub n Hn E)|]; cbn; [done|].
  by destruct (Z.testbit pat n), (Z.testbit b n).
Qed.

(** [x] and the snapshot agree on the bits of a mask. *)
Definition agree (m : Z) : Prop := Z.land (Z.lxor x pat) (Z.ldiff m b) = 0.

Lemma agree_bit m n : agree m -> 0 <= n -> Z.testbit m n = true -> Z.testbit b n = false ->
  Z.testbit pat n = true -> Z.testbit x n = true.
Proof.
  intros Ha Hn Hm Hb Hp. assert (Z.testbit (Z.land (Z.lxor x pat) (Z.ldiff m b)) n = false) as E
    by by rewrite Ha, Z.bits_0.
  rewrite Z.land_spec, Z.lxor_spec, Z.ldiff_spec, Hm, Hb, Hp in E. by destruct (Z.testbit x n).
Qed.

Lemma agree_lor m m' : agree (Z.lor m m') -> agree m.
Proof.
  unfold agree. intros H. apply bits_eq. intros n Hn.
  assert (Z.testbit (Z.land (Z.lxor x pat) (Z.ldiff (Z.lor m m') b)) n = false) as E
    by by rewrite H, Z.bits_0.
  rewrite Z.land_spec, Z.ldiff_spec, Z.lor_spec in *. rewrite Z.bits_0.
  by destruct (Z.testbit (Z.lxor x pat) n), (Z.testbit m n), (Z.testbit b n), (Z.testbit m' n).
Qed.

(** A thread is awakened on the snapshot if and only if it would be on the real pattern, provided the
    bits it depends on have not changed. *)
Lemma decision m w : waits_for pat w ->
  (sat (seen m) w = true -> agree (dependant_mask_or b (seen m) w)) ->
  sat (real m) w = sat (seen m) w.
Proof.
  intros [Hmode Hp] Ha. destruct (sat (seen m) w) eqn:E; [|by apply (sat_mono _ (seen m)), E; auto using real_sub].
  specialize (Ha eq_refl). destruct (mode_cases w Hmode) as [Hand|Hor].
  - rewrite sat_and in * by done. intros n Hn Hw. pose proof (E n Hn Hw) as Hs.
    unfold dependant_mask_or in Ha. rewrite Hand in Ha. change (_ =? SYS_EVENT_FLAG_WAIT_OR) with false in Ha.
    cbn [orb] in Ha. unfold real, seen in *. rewrite Z.ldiff_spec, Z.lor_spec in *.
    apply andb_true_iff in Hs as [Hs1 Hs2]. rewrite Hs2, andb_true_r.
    destruct (Z.testbit b n) eqn:Hb; [by rewrite orb_true_r|]. rewrite orb_false_r in *.
    destruct (Z.eqb_spec (Z.land (Z.land b (gpr4 w)) (Z.ldiff (Z.lor pat b) m)) (gpr4 w)) as [E2|E2].
    + rewrite <- E2, !Z.land_spec, Hb in Hw. done.
    + by apply (agree_bit (gpr4 w)).
  - apply not_false_iff_true. rewrite sat_or by done. intros Hx.
    apply not_false_iff_true in E. apply E. rewrite sat_or in * by done. intros n Hn Hs Hw.
    apply (Hx n Hn); [|done]. unfold real, seen in *. rewrite Z.ldiff_spec, Z.lor_spec in *.
    apply andb_true_iff in Hs as [Hs1 ->]. rewrite andb_true_r.
    destruct (Z.testbit pat n) eqn:Hpn; [by destruct (Hp n Hn Hpn)|].
    cbn in Hs1. rewrite Hs1. by rewrite orb_true_r.
Qed.

Lemma agree_comm m m' : agree (Z.lor m m') -> agree m'.
Proof. rewrite Z.lor_comm. apply agree_lor. Qed.

Lemma walk_mask ws : forall a, exists m, dependant_mask (walk b ws a) = Z.lor (dependant_mask a) m.
Proof.
  induction ws as [|w ws IH]; intros a; cbn [walk]; [exists 0; by rewrite Z.lor_0_r|].
  unfold visit, check_pattern. destruct (satisfied _ _ _); cbn [fst snd].
  - destruct (_ =? 0); [by eexists|]. destruct (IH (At (cleared (to_write a) (gpr4 w) (gpr5 w))
      (Z.lor (dependant_mask a) (dependant_mask_or b (to_write a) w)) (count a + 1)
      (upd (w_tid w) CELL_OK (r3 a)) (upd (w_tid w) (to_write a) (r6 a)))) as [m E].
    rewrite E. cbn [dependant_mask]. rewrite <- Z.lor_assoc. by eexists.
  - destruct (IH (At (to_write a) (dependant_mask a) (count a) (upd (w_tid w) NONE (r3 a))
      (upd (w_tid w) (to_write a) (r6 a)))) as [m E]. rewrite E. by eexists.
Qed.

Lemma real_zero m : seen m = 0 -> real m = 0.
Proof.
  intros E. apply bits_eq. intros n Hn. rewrite Z.bits_0. apply not_true_iff_false. intros Hr.
  pose proof (real_sub m n Hn Hr) as Hs. by rewrite E, Z.bits_0 in Hs.
Qed.

(** The walk on the snapshot wakes the threads of the reference on the real pattern. *)
Lemma walk_process ws : forall a m, to_write a = seen m -> NoDup (map w_tid ws) ->
  (forall w, w ∈ ws -> waits_for pat w) -> (forall w, w ∈ ws -> r3 a (w_tid w) <> CELL_OK) ->
  agree (dependant_mask (walk b ws a)) ->
  exists m', to_write (walk b ws a) = seen m' /\ (process (real m) ws).1 = real m' /\
    forall t, r3 (walk b ws a) t = CELL_OK <-> r3 a t = CELL_OK \/ t ∈ (process (real m) ws).2.
Proof.
  induction ws as [|w ws IH]; intros a m Hw Hn Hwt H3 Ha; cbn [walk process] in *.
  { exists m. cbn. split_and!; auto. intros t. set_solver. }
  apply NoDup_cons in Hn as [Hnw Hn].
  assert (forall u, u ∈ ws -> w_tid u <> w_tid w) as Hne.
  { intros u Hu E. apply Hnw. rewrite <- E. by apply list_elem_of_fmap_2. }
  assert (waits_for pat w) as Hwp by (apply Hwt; set_solver).
  assert (forall u, u ∈ ws -> waits_for pat u) as Hwt' by (intros; apply Hwt; set_solver).
  unfold visit, check_pattern in *. rewrite Hw in *.
  fold (sat (seen m) w) in *. fold (sat (real m) w). destruct (sat (seen m) w) eqn:E; cbn [fst snd] in *.
  - assert (agree (dependant_mask_or b (seen m) w)) as Hag.
    { destruct (_ =? 0); [by apply agree_comm in Ha|].
      destruct (walk_mask ws (At (cleared (seen m) (gpr4 w) (gpr5 w))
        (Z.lor (dependant_mask a) (dependant_mask_or b (seen m) w)) (count a + 1)
        (upd (w_tid w) CELL_OK (r3 a)) (upd (w_tid w) (seen m) (r6 a)))) as [k Ek].
      rewrite Ek in Ha. apply agree_lor in Ha. cbn [dependant_mask] in Ha. by apply agree_comm in Ha. }
    rewrite (decision m w Hwp ltac:(done)), E. cbn [fst snd].
    destruct (cleared_ldiff m w) as [m1 Hm1].
    assert (cleared (seen m) (gpr4 w) (gpr5 w) = seen m1) as Hs1 by apply Hm1.
    assert (cleared (real m) (gpr4 w) (gpr5 w) = real m1) as Hr1 by apply Hm1.
    rewrite Hs1 in *. rewrite Hr1. destruct (Z.eqb_spec (seen m1) 0) as [E0|E0].
    + exists m1. cbn [to_write r3]. rewrite (real_zero m1 E0), process_zero
        by (intros u Hu; by eapply waits_for_zero, Hwt'). cbn [fst snd]. split_and!; auto.
      intros t. destruct (decide (t = w_tid w)) as [->|Ht]; [rewrite upd_eq; set_solver|].
      rewrite upd_ne by done. set_solver.
    + match type of Ha with agree (dependant_mask (walk _ _ ?a')) =>
        destruct (IH a' m1) as (m' & H1 & H2 & H4) end; [done|done|done| |exact Ha|].
      { intros u Hu. cbn [r3]. rewrite upd_ne by by apply Hne. apply H3. set_solver. }
      exists m'. split_and!; auto. intros t. rewrite H4. cbn [r3].
      destruct (decide (t = w_tid w)) as [->|Ht]; [rewrite upd_eq; set_solver|].
      rewrite upd_ne by done. set_solver.
  - rewrite (decision m w Hwp) by congruence. rewrite E. cbn [fst snd].
    match type of Ha with agree (dependant_mask (walk _ _ ?a')) =>
      destruct (IH a' m) as (m' & H1 & H2 & H4) end; [done|done|done| |exact Ha|].
    { intros u Hu. cbn [r3]. rewrite upd_ne by by apply Hne. apply H3. set_solver. }
    exists m'. split_and!; auto. intros t. rewrite H4. cbn [r3].
    destruct (decide (t = w_tid w)) as [->|Ht]; [rewrite upd_eq|by rewrite upd_ne].
    assert (r3 a (w_tid w) <> CELL_OK) by (apply H3; set_solver).
    split; [intros [[=]|?]; auto|]. intros [?|?]; [done|auto].
Qed.

End Walk.
