(* ===== verification/Lv2EventFlagSpec.v ===== *)
(** Properties of the lv2 event flags ([Lv2EventFlag]): the order of the visits of
    [sys_event_flag_set], the atomicity of its commit, and the invariant of the flag. *)

From Stdlib Require Import ZArith Lia Bool Sorted.
From stdpp Require Import base tactics option list numbers gmap.
From S2P Require Import Prelude Lv2Queue Lv2Base Lv2EventFlag.
Import EventFlag.
Local Open Scope Z_scope.

(** ** The order of the visits *)

Section Visits.
Context (c : const).

(** The threads [get_next] returns one after the other. *)
Fixpoint visits (fuel : nat) (l : list waiter) (gpr7 : tid -> Z) : list waiter :=
  match fuel with
  | O => []
  | S fuel =>
      match get_next c gpr7 l smax None with
      | None => []
      | Some w => w :: visits fuel l (upd (w_tid w) 1 gpr7)
      end
  end.

Lemma visit_loop_walk bitptn fuel l : forall gpr7 a,
  visit_loop c bitptn fuel l gpr7 a = walk bitptn (visits fuel l gpr7) a.
Proof.
  induction fuel as [|fuel IH]; intros g a; cbn [visit_loop visits]; [done|].
  destruct (get_next _ _ _ _ _) as [w|]; [|done]. cbn [walk]. destruct (visit bitptn w a).2; [done|].
  apply IH.
Qed.

(** [u] does not come before [w]: [w] has the better priority, or the same and waits longer. *)
Definition yields (u w : waiter) (older : bool) : Prop :=
  if protocol c =? SYS_SYNC_PRIORITY then (if older then w_prio w < w_prio u else w_prio w <= w_prio u)
  else older = false.

(** The thread chosen among the unmarked ones of the queue (newest first). *)
Definition chosen (gpr7 : tid -> Z) (l : list waiter) (w : waiter) : Prop :=
  exists l1 l2, l = l1 ++ w :: l2 /\ gpr7 (w_tid w) = 0 /\
    (forall u, u ∈ l1 -> gpr7 (w_tid u) = 0 -> yields u w false) /\
    (forall u, u ∈ l2 -> gpr7 (w_tid u) = 0 -> yields u w true).

(** [get_next] with a candidate in hand. *)
Lemma get_next_some g l : forall w0,
  exists w, get_next c g l (w_prio w0) (Some w0) = Some w /\
    ((w = w0 /\ forall u, u ∈ l -> g (w_tid u) = 0 -> yields u w0 true) \/
     (chosen g l w /\ yields w0 w false)).
Proof.
  induction l as [|v l IH]; intros w0; cbn [get_next].
  { exists w0. split; [done|]. left. split; [done|set_solver]. }
  destruct (Z.eqb_spec (g (w_tid v)) 0) as [Hg|Hg]; cbn [andb].
  - destruct (negb (protocol c =? SYS_SYNC_PRIORITY) || (w_prio v <=? w_prio w0)) eqn:E.
    + destruct (IH v) as (w & -> & [[-> H]|[(l1 & l2 & -> & H1 & H2 & H3) H4]]); (eexists; split; [done|]; right).
      * split; [|unfold yields; destruct (_ =? _); cbn in E; [lia|done]].
        exists [], l. split; [done|]. split; [done|]. split; [set_solver|done].
      * split.
        -- exists (v :: l1), l2. split; [done|]. split; [done|]. split; [|done].
           intros u [->|Hu]%elem_of_cons Hu0; [done|auto].
        -- unfold yields in *. destruct (_ =? _); cbn in E; [lia|done].
    + destruct (IH w0) as (w & -> & [[-> H]|[(l1 & l2 & -> & H1 & H2 & H3) H4]]); (eexists; split; [done|]).
      * left. split; [done|]. intros u [->|Hu]%elem_of_cons Hu0; [|auto].
        unfold yields. destruct (_ =? _); cbn in E; [lia|done].
      * right. split; [|done]. exists (v :: l1), l2. split; [done|]. split; [done|]. split; [|done].
        intros u [->|Hu]%elem_of_cons Hu0; [|auto].
        unfold yields in *. destruct (_ =? _); cbn in E; [lia|done].
  - destruct (IH w0) as (w & -> & [[-> H]|[(l1 & l2 & -> & H1 & H2 & H3) H4]]); (eexists; split; [done|]).
    + left. split; [done|]. intros u [->|Hu]%elem_of_cons Hu0; [done|auto].
    + right. split; [|done]. exists (v :: l1), l2. split; [done|]. split; [done|]. split; [|done].
      intros u [->|Hu]%elem_of_cons Hu0; [done|auto].
Qed.

Lemma get_next_spec g l : (forall u, u ∈ l -> w_prio u <= smax) ->
  match get_next c g l smax None with
  | None => forall u, u ∈ l -> g (w_tid u) <> 0
  | Some w => chosen g l w
  end.
Proof.
  induction l as [|v l IH]; intros Hp; cbn [get_next]; [set_solver|].
  destruct (Z.eqb_spec (g (w_tid v)) 0) as [Hg|Hg]; cbn [andb].
  - replace (negb (protocol c =? SYS_SYNC_PRIORITY) || (w_prio v <=? smax)) with true
      by (pose proof (Hp v ltac:(set_solver)); lia).
    destruct (get_next_some g l v) as (w & -> & [[-> H]|[(l1 & l2 & -> & H1 & H2 & H3) H4]]).
    + exists [], l. split; [done|]. split; [done|]. split; [set_solver|done].
    + exists (v :: l1), l2. split; [done|]. split; [done|]. split; [|done].
      intros u [->|Hu]%elem_of_cons Hu0; [done|auto].
  - specialize (IH ltac:(set_solver)). destruct (get_next c g l smax None) as [w|].
    + destruct IH as (l1 & l2 & -> & H1 & H2 & H3).
      exists (v :: l1), l2. split; [done|]. split; [done|]. split; [|done].
      intros u [->|Hu]%elem_of_cons Hu0; [done|auto].
    + intros u [->|Hu]%elem_of_cons; auto.
Qed.

(** [w] is served before [u]. *)
Definition served_before (l : list waiter) (w u : waiter) : Prop :=
  exists l1 l2, l = l1 ++ w :: l2 /\ (u ∈ l1 /\ yields u w false \/ u ∈ l2 /\ yields u w true).

Definition unmarked (g : tid -> Z) (l : list waiter) : list waiter := filter (fun w => g (w_tid w) = 0) l.

Lemma unmarked_ext g g' l : (forall w, w ∈ l -> g' (w_tid w) = g (w_tid w)) ->
  unmarked g' l = unmarked g l.
Proof.
  unfold unmarked. induction l as [|w l IH]; intros H; [done|]. rewrite !filter_cons.
  rewrite (H w) by set_solver. rewrite IH by set_solver. done.
Qed.

Lemma unmarked_upd g l1 w l2 : NoDup (map w_tid (l1 ++ w :: l2)) -> g (w_tid w) = 0 ->
  unmarked g (l1 ++ w :: l2) = unmarked g l1 ++ w :: unmarked g l2 /\
  unmarked (upd (w_tid w) 1 g) (l1 ++ w :: l2) = unmarked g l1 ++ unmarked g l2.
Proof.
  intros Hn Hg. rewrite map_app in Hn. apply NoDup_app in Hn as (_ & H1 & [H2 _]%NoDup_cons).
  rewrite <- (unmarked_ext g (upd (w_tid w) 1 g) l1), <- (unmarked_ext g (upd (w_tid w) 1 g) l2).
  - unfold unmarked. rewrite !filter_app, !filter_cons, upd_eq.
    rewrite decide_True, decide_False by done. split; [|done].
    f_equal; [|f_equal]; apply unmarked_ext; intros u Hu; symmetry; apply upd_ne; intros E.
    + apply (H1 (w_tid u)); [by apply list_elem_of_fmap_2|rewrite E; set_solver].
    + apply H2. rewrite <- E. by apply list_elem_of_fmap_2.
  - intros u Hu. apply upd_ne. intros E. apply H2. rewrite <- E. by apply list_elem_of_fmap_2.
  - intros u Hu. apply upd_ne. intros E.
    apply (H1 (w_tid u)); [by apply list_elem_of_fmap_2|rewrite E; set_solver].
Qed.

(** Every unmarked thread is visited once, in the order of the protocol. *)
Lemma visits_spec l : NoDup (map w_tid l) -> (forall u, u ∈ l -> w_prio u <= smax) ->
  forall fuel g, (length (unmarked g l) <= fuel)%nat ->
  visits fuel l g ≡ₚ unmarked g l /\ StronglySorted (served_before l) (visits fuel l g).
Proof.
  intros Hn Hp. induction fuel as [|fuel IH]; intros g Hf; cbn [visits].
  { destruct (unmarked g l); [split; [done|constructor]|simpl in Hf; lia]. }
  pose proof (get_next_spec g l Hp) as Hs. destruct (get_next c g l smax None) as [w|].
  - destruct Hs as (l1 & l2 & El & Hg & H1 & H2). rewrite El in Hn, Hf.
    destruct (unmarked_upd g l1 w l2 Hn Hg) as [E1 E2]. rewrite <- El in *. rewrite E1 in Hf |- *.
    rewrite length_app in Hf. simpl in Hf.
    destruct (IH (upd (w_tid w) 1 g)) as [Hperm Hsort]; [rewrite E2, length_app; lia|].
    rewrite E2 in Hperm. split; [rewrite Hperm; apply Permutation_middle|].
    constructor; [done|]. apply list.Forall_forall. intros u Hu. rewrite Hperm in Hu.
    exists l1, l2. split; [done|]. apply elem_of_app in Hu as [Hu|Hu];
      apply list_elem_of_filter in Hu as [Hu0 Hu]; auto.
  - assert (unmarked g l = []) as ->; [|split; [done|constructor]].
    destruct (unmarked g l) as [|u r] eqn:E; [done|]. assert (u ∈ unmarked g l) as Hu by (rewrite E; set_solver).
    apply list_elem_of_filter in Hu as [Hu0 Hu]. by destruct (Hs u Hu).
Qed.

End Visits.

(** ** The commit *)

(** A commit on the unchanged pattern succeeds. *)
Lemma commit_same b pat a : commit b pat pat a <> None.
Proof. unfold commit. by rewrite Z.lxor_nilpotent. Qed.

(** The committed pattern is what is left of the real one. *)
Lemma commit_real b pat x a v m : sub x pat -> to_write a = seen b pat m -> commit b pat x a = Some v ->
  v = real b x m.
Proof.
  intros Hs Hw. unfold commit. destruct (negb _); [done|]. intros [= <-]. rewrite Hw.
  apply bits_eq. intros n Hn. unfold seen, real. rewrite !Z.ldiff_spec, !Z.lor_spec.
  destruct (Z.testbit x n) eqn:E; [rewrite (Hs n Hn E)|]; cbn;
    by destruct (Z.testbit pat n), (Z.testbit b n), (Z.testbit m n).
Qed.

Lemma commit_agree b pat x a v : commit b pat x a = Some v ->
  Z.land (Z.lxor x pat) (dependant_mask a) = 0.
Proof. unfold commit. destruct (Z.eqb_spec (Z.land (Z.lxor x pat) (dependant_mask a)) 0); done. Qed.

(** Nothing outside the bits to write is committed. *)
Lemma commit_sub b pat x a v : sub x pat -> sub (to_write a) (Z.lor pat b) -> commit b pat x a = Some v ->
  sub v (to_write a).
Proof.
  intros Hs Hw. unfold commit. destruct (negb _); [done|]. intros [= <-] n Hn.
  rewrite !Z.ldiff_spec, !Z.lor_spec. intros H.
  destruct (Z.testbit x n) eqn:E; [rewrite (Hs n Hn E) in H|]; cbn in H;
    by destruct (Z.testbit pat n), (Z.testbit b n), (Z.testbit (to_write a) n).
Qed.

(** ** The threads that are not awakened *)

Lemma walk_other b ws t : forall a, t ∉ map w_tid ws -> r3 (walk b ws a) t = r3 a t.
Proof.
  induction ws as [|w ws IH]; intros a Ht; cbn [walk]; [done|]. cbn in Ht.
  apply not_elem_of_cons in Ht as [Hne Ht]. unfold visit.
  destruct (check_pattern _ _ _) as [[] v]; cbn [fst snd].
  - destruct (v =? 0); [|rewrite IH by done]; cbn [r3]; by apply upd_ne.
  - rewrite IH by done. cbn [r3]. by apply upd_ne.
Qed.

Lemma walk_rest b pat ws : NoDup (map w_tid ws) -> (forall w, w ∈ ws -> waits_for pat w) -> forall a,
  sub (to_write (walk b ws a)) (to_write a) /\
  (forall w, w ∈ ws -> r3 (walk b ws a) (w_tid w) <> CELL_OK -> sat (to_write (walk b ws a)) w = false) /\
  count a <= count (walk b ws a) /\
  (count (walk b ws a) = count a -> forall w, w ∈ ws -> r3 (walk b ws a) (w_tid w) = NONE).
Proof.
  induction ws as [|w ws IH]; intros Hn Hwt a; cbn [walk].
  { split_and!; [apply sub_refl|set_solver|lia|set_solver]. }
  apply NoDup_cons in Hn as [Hnw Hn]. assert (waits_for pat w) as [Hm Hw] by (apply Hwt; set_solver).
  assert (forall u, u ∈ ws -> waits_for pat u) as Hwt' by (intros; apply Hwt; set_solver).
  unfold visit, check_pattern. fold (sat (to_write a) w). destruct (sat (to_write a) w) eqn:E; cbn [fst snd].
  - destruct (Z.eqb_spec (cleared (to_write a) (gpr4 w) (gpr5 w)) 0) as [E0|E0].
    + cbn [to_write r3 count]. split_and!; [apply cleared_sub| |lia|lia]. intros u Hu Hr.
      rewrite E0. apply (waits_for_zero pat). apply Hwt, Hu.
    + match goal with |- context [walk b ws ?a'] => destruct (IH Hn Hwt' a') as (H1 & H2 & H3 & H4);
        pose proof (walk_other b ws (w_tid w) a' Hnw) as H5 end. cbn [to_write r3 count] in *.
      rewrite upd_eq in H5. split_and!; [|intros u Hu Hr|lia|lia].
      * eapply sub_trans; [exact H1|apply cleared_sub].
      * apply elem_of_cons in Hu as [->|Hu]; [done|auto].
  - match goal with |- context [walk b ws ?a'] => destruct (IH Hn Hwt' a') as (H1 & H2 & H3 & H4);
      pose proof (walk_other b ws (w_tid w) a' Hnw) as H5 end. cbn [to_write r3 count] in *.
    rewrite upd_eq in H5. split_and!; [done|intros u Hu Hr|lia|intros Hc u Hu].
    + apply elem_of_cons in Hu as [->|Hu]; [|auto]. by apply (sat_mono _ (to_write a)).
    + apply elem_of_cons in Hu as [->|Hu]; [done|auto].
Qed.

(** ** The invariant *)

(** The queue: each thread once, its condition not met on [pat]. *)
Definition queue_ok (pat : Z) (l : list waiter) : Prop :=
  NoDup (map w_tid l) /\ (forall w, w ∈ l -> w_prio w <= smax) /\ (forall w, w ∈ l -> waits_for pat w).

Definition flag_ok (f : flag) : Prop :=
  queue_ok (pattern f) (sq f) /\ forall w, w ∈ sq f -> gpr3 f (w_tid w) <> CELL_OK.

(** The order in which [set] visits the threads of the queue. *)
Definition order (c : const) (l : list waiter) : list waiter := visits c (S (length l)) l (fun _ => 0).

Lemma order_spec c pat l : queue_ok pat l -> order c l ≡ₚ l /\ StronglySorted (served_before c l) (order c l).
Proof.
  intros (Hn & Hp & _).
  assert (unmarked (fun _ => 0) l = l) as E.
  { unfold unmarked. clear. induction l as [|w l IH]; [done|]. rewrite filter_cons, decide_True by done.
    by rewrite IH. }
  destruct (visits_spec c l Hn Hp (S (length l)) (fun _ => 0)) as [H1 H2]; [rewrite E; lia|].
  by rewrite E in H1.
Qed.

Lemma order_ok c pat l : queue_ok pat l ->
  NoDup (map w_tid (order c l)) /\ (forall w, w ∈ order c l <-> w ∈ l).
Proof.
  intros H. destruct (order_spec c pat l H) as [Hp _]. destruct H as (Hn & _). split.
  - by rewrite Hp.
  - intros w. by rewrite Hp.
Qed.

Lemma queue_ok_sub x p l : sub x p -> queue_ok p l -> queue_ok x l.
Proof. intros Hs (H1 & H2 & H3). split_and!; auto. intros w Hw. by eapply waits_for_sub, H3. Qed.

Lemma attempt_walk c b pat f :
  let a := walk b (order c (sq f)) (At (Z.lor pat b) 0 0 (gpr3 f) (gpr6 f)) in
  attempt_on c b pat f = At (to_write a) (Z.ldiff (dependant_mask a) b) (count a) (r3 a) (r6 a).
Proof. unfold attempt_on. by rewrite visit_loop_walk. Qed.

Lemma seen_zero b pat : seen b pat 0 = Z.lor pat b.
Proof. apply Z.ldiff_0_r. Qed.

(** What a committed attempt leaves. *)
Lemma attempt_rest c b pat x f v : queue_ok pat (sq f) -> sub x pat ->
  let a := attempt_on c b pat f in commit b pat x a = Some v ->
  (forall w, w ∈ sq f -> r3 a (w_tid w) <> CELL_OK -> waits_for v w) /\
  (count a = 0 -> forall w, w ∈ sq f -> r3 a (w_tid w) <> CELL_OK).
Proof.
  intros Hq Hs a Hc. destruct (order_ok c pat (sq f) Hq) as [Hn Hin].
  pose proof (attempt_walk c b pat f) as Ea. fold a in Ea.
  destruct (walk_rest b pat (order c (sq f)) Hn (fun w Hw => proj2 (proj2 Hq) w (proj1 (Hin w) Hw))
    (At (Z.lor pat b) 0 0 (gpr3 f) (gpr6 f))) as (H1 & H2 & _ & H4).
  rewrite Ea in Hc |- *. cbn [r3 count to_write] in *. split.
  - intros w Hw Hr. apply Hin in Hw as Hw'. destruct (proj2 (proj2 Hq) w Hw) as [Hm _]. split; [done|].
    apply commit_sub in Hc; [|done|exact H1]. by apply (sat_mono _ _ w Hm Hc), H2.
  - intros Hz w Hw. apply Hin in Hw. by rewrite (H4 Hz w Hw).
Qed.

Lemma set_loop_ok c b between : forall pat f, queue_ok pat (sq f) ->
  let r := set_loop c b between pat f in
  sq r.1 = sq f /\
  (forall w, w ∈ sq f -> gpr3 r.1 (w_tid w) <> CELL_OK -> waits_for (pattern r.1) w) /\
  (r.2 = 0 -> forall w, w ∈ sq f -> gpr3 r.1 (w_tid w) <> CELL_OK).
Proof.
  induction between as [|fs between IH]; intros pat f Hq; cbn [set_loop].
  - destruct (commit b pat pat _) as [v|] eqn:Hc; [|by apply commit_same in Hc].
    destruct (attempt_rest c b pat pat f v Hq (sub_refl _) Hc). done.
  - pose proof (fast_ops_sub fs pat) as Hs.
    destruct (commit b pat (fast_ops fs pat) _) as [v|] eqn:Hc.
    + destruct (attempt_rest c b pat _ f v Hq Hs Hc). done.
    + apply (IH (fast_ops fs pat) (Flag _ (sq f) _ _)). by apply (queue_ok_sub _ pat).
Qed.

Lemma filter_elem (P : waiter -> bool) l w : w ∈ List.filter P l <-> w ∈ l /\ P w = true.
Proof. rewrite !list_elem_of_In. apply filter_In. Qed.

Lemma filter_nodup (P : waiter -> bool) l : NoDup (map w_tid l) -> NoDup (map w_tid (List.filter P l)).
Proof.
  induction l as [|w l IH]; cbn; [done|]. intros [Hw Hn]%NoDup_cons.
  destruct (P w); [|by apply IH]. cbn. constructor; [|by apply IH].
  intros Hin. apply Hw. apply list_elem_of_In, in_map_iff in Hin as (u & E & Hu).
  apply list_elem_of_In, in_map_iff. exists u. split; [done|]. by apply filter_In in Hu as [? _].
Qed.

Lemma queue_ok_filter P pat l : queue_ok pat l -> queue_ok pat (List.filter P l).
Proof.
  intros (H1 & H2 & H3). split_and!; [by apply filter_nodup|intros w [Hw _]%filter_elem; auto..].
Qed.

Lemma set_ok c b between f : flag_ok f -> flag_ok (set_locked c b between f).1.
Proof.
  intros [Hq H3]. unfold set_locked.
  destruct (set_loop_ok c b between (pattern f) f Hq) as (E & H1 & H2).
  destruct (Z.eqb_spec (set_loop c b between (pattern f) f).2 0) as [Hz|Hz]; cbn [fst].
  - split; rewrite E; [|by apply H2]. destruct Hq as (Hn & Hp & _). split_and!; auto.
  - split; cbn [pattern sq gpr3]; rewrite E.
    + destruct Hq as (Hn & Hp & _). split_and!; [by apply filter_nodup|intros w [Hw Hk]%filter_elem; auto..].
      apply H1; [done|lia].
    + intros w [Hw Hk]%filter_elem. lia.
Qed.

Lemma filter_ext_elem (P Q : waiter -> bool) l : (forall w, w ∈ l -> P w = Q w) ->
  List.filter P l = List.filter Q l.
Proof.
  induction l as [|w l IH]; intros H; [done|]. cbn. rewrite (H w) by set_solver.
  rewrite IH; [done|]. intros u Hu. apply H. set_solver.
Qed.

Lemma filter_none (P : waiter -> bool) l : (forall w, w ∈ l -> P w = false) -> List.filter P l = [].
Proof.
  induction l as [|w l IH]; intros H; [done|]. cbn. rewrite (H w) by set_solver. apply IH.
  intros u Hu. apply H. set_solver.
Qed.

Lemma filter_every (P : waiter -> bool) l : (forall w, w ∈ l -> P w = true) -> List.filter P l = l.
Proof.
  induction l as [|w l IH]; intros H; [done|]. cbn. rewrite (H w) by set_solver. f_equal. apply IH.
  intros u Hu. apply H. set_solver.
Qed.

(** A committed first attempt has the effect of the reference on the pattern it found. *)
Lemma attempt_exact c b x f v : flag_ok f -> sub x (pattern f) ->
  commit b (pattern f) x (attempt_on c b (pattern f) f) = Some v ->
  let ref := process (Z.lor x b) (order c (sq f)) in
  v = ref.1 /\
  (forall w, w ∈ sq f -> r3 (attempt_on c b (pattern f) f) (w_tid w) = CELL_OK <-> w_tid w ∈ ref.2) /\
  (count (attempt_on c b (pattern f) f) = 0 ->
     forall w, w ∈ sq f -> r3 (attempt_on c b (pattern f) f) (w_tid w) <> CELL_OK).
Proof.
  intros [Hq H3] Hs Hc ref. set (p := pattern f) in *. destruct (order_ok c p (sq f) Hq) as [Hn Hin].
  destruct (attempt_rest c b p x f v Hq Hs Hc) as [_ Hcount].
  pose proof (attempt_walk c b p f) as Ea. cbn zeta in Ea.
  set (a0 := At (Z.lor p b) 0 0 (gpr3 f) (gpr6 f)) in *.
  assert (agree b p x (dependant_mask (walk b (order c (sq f)) a0))) as Hag.
  { unfold agree. apply commit_agree in Hc. by rewrite Ea in Hc. }
  destruct (walk_process b p x Hs (order c (sq f)) a0 0) as (m & Hw & Hr & Hok); auto.
  { symmetry. apply seen_zero. } { intros w Hw. by apply Hq, Hin. } { intros w Hw. by apply H3, Hin. }
  assert (real b x 0 = Z.lor x b) as Er by apply Z.ldiff_0_r. rewrite Er in Hr, Hok. fold ref in Hr, Hok.
  split; [|split; [|done]].
  - rewrite Hr. apply (commit_real b p x (attempt_on c b p f)); [done|by rewrite Ea|done].
  - intros w Hw'. rewrite Ea. cbn [r3]. rewrite Hok. cbn [r3 a0]. specialize (H3 w Hw'). tauto.
Qed.

(** ** Runs of the system calls *)

Inductive op := FastOp (f : fast) | WaitLocked (w : waiter) | SetOp (b : Z) (between : list (list fast))
  | TimeoutOp (t : tid) | StopOp (t : tid) | CancelOp.

Definition op_step (c : const) (o : op) (f : flag) : flag :=
  match o with
  | FastOp a => Flag (fast_op a (pattern f)) (sq f) (gpr3 f) (gpr6 f)
  | WaitLocked w => (wait_locked c w f).2
  | SetOp b between => (set c b between f).2.1
  | TimeoutOp t => timeout t f
  | StopOp t => stop t f
  | CancelOp => (cancel f).2.2
  end.

(** A thread that waits has passed [check_mode], has a 13-bit priority and waits once. *)
Definition op_ok (o : op) (f : flag) : bool :=
  match o with
  | WaitLocked w => check_mode (gpr5 w) && (w_prio w <? 2 ^ 12) &&
                    negb (existsb (fun u => w_tid u =? w_tid w) (sq f))
  | _ => true
  end.

Fixpoint run (c : const) (ops : list op) (f : flag) : option flag :=
  match ops with
  | [] => Some f
  | o :: ops => if op_ok o f then run c ops (op_step c o f) else None
  end.

Definition empty (init : Z) : flag := Flag init [] (fun _ => 0) (fun _ => 0).

Lemma not_queued t l : existsb (fun u => w_tid u =? t) l = false -> t ∉ map w_tid l.
Proof.
  intros E Hin. apply list_elem_of_In, in_map_iff in Hin as (u & Hu & Hin).
  apply not_true_iff_false in E. apply E, existsb_exists. exists u. split; [done|lia].
Qed.

Lemma wait_ok c w f : op_ok (WaitLocked w) f = true -> flag_ok f -> flag_ok (wait_locked c w f).2.
Proof.
  intros Hop [Hq H3]. cbn [op_ok] in Hop. rewrite !andb_true_iff, negb_true_iff in Hop.
  destruct Hop as [[Hm Hp] Hn%not_queued]. unfold wait_locked, check_pattern.
  fold (sat (pattern f) w). destruct (sat (pattern f) w) eqn:E; cbn [fst snd pattern].
  - split; cbn [pattern sq gpr3]; [|done]. apply (queue_ok_sub _ (pattern f)); [apply cleared_sub|done].
  - destruct (_ && _); [done|]. cbn [snd]. split; cbn [pattern sq gpr3].
    + destruct Hq as (H1 & H2 & Hw). split_and!; [by constructor|..]; intros u [->|Hu]%elem_of_cons; auto.
      * unfold smax. lia.
      * by split.
    + intros u [->|Hu]%elem_of_cons; [by rewrite upd_eq|]. rewrite upd_ne; [auto|].
      intros Eu. apply Hn. rewrite <- Eu. by apply list_elem_of_fmap_2.
Qed.

(** Marking a thread changes nothing the flag depends on. *)
Lemma stop_ok t f : flag_ok f -> flag_ok (stop t f).
Proof.
  intros [(Hn & Hp & Hw) H3]. unfold stop.
  set (g := fun w => if w_tid w =? t then W (w_tid w) (gpr4 w) (gpr5 w) (w_prio w) true else w).
  assert (forall w, w_tid (g w) = w_tid w /\ gpr4 (g w) = gpr4 w /\ gpr5 (g w) = gpr5 w /\
    w_prio (g w) = w_prio w) as Hg by (intros w; unfold g; by destruct (_ =? _)).
  assert (forall w, w ∈ map g (sq f) -> exists u, u ∈ sq f /\ w = g u) as Hin.
  { intros w. rewrite list_elem_of_In, in_map_iff. intros (u & <- & Hu%list_elem_of_In). by exists u. }
  split; [split_and!|]; cbn [pattern sq gpr3].
  - rewrite map_map. erewrite map_ext; [exact Hn|]. intros w. apply Hg.
  - intros w (u & Hu & ->)%Hin. destruct (Hg u) as (_ & _ & _ & ->). auto.
  - intros w (u & Hu & ->)%Hin. destruct (Hg u) as (_ & E4 & E5 & _), (Hw u Hu) as [Hm Hs].
    split; [by rewrite E5|]. unfold sat. by rewrite E4, E5.
  - intros w (u & Hu & ->)%Hin. destruct (Hg u) as (-> & _). auto.
Qed.

Lemma op_step_ok c o f : op_ok o f = true -> flag_ok f -> flag_ok (op_step c o f).
Proof.
  intros Hop Hf. destruct o as [a|w|b between|t|t|]; cbn [op_step].
  - destruct Hf as [Hq H3]. split; [|done]. apply (queue_ok_sub _ (pattern f)); [apply fast_op_sub|done].
  - by apply wait_ok.
  - unfold set. destruct (_ =? _); [done|]. destruct (existsb _ _); [done|]. by apply set_ok.
  - destruct Hf as [Hq H3]. unfold timeout. destruct (existsb _ _); [|done].
    split; cbn [pattern sq gpr3]; [by apply queue_ok_filter|].
    intros w [Hw Ht]%filter_elem. rewrite upd_ne by lia. auto.
  - by apply stop_ok.
  - unfold cancel. destruct (existsb _ _); [done|].
    split; [split_and!; [constructor|set_solver..]|set_solver].
Qed.

Lemma flag_run_ok c ops : forall f f', flag_ok f -> run c ops f = Some f' -> flag_ok f'.
Proof.
  induction ops as [|o ops IH]; intros f f' Hf Hr; cbn [run] in Hr; [by injection Hr as <-|].
  destruct (op_ok o f) eqn:E; [|done]. apply (IH (op_step c o f)); [by apply op_step_ok|done].
Qed.

Lemma empty_ok i : flag_ok (empty i).
Proof. split; [split_and!; [constructor|set_solver..]|set_solver]. Qed.

(** ** Properties *)

(** C9: [sys_event_flag_set] is atomic.  If its first commit succeeds, whatever the other threads did
    to the pattern between the snapshot and the commit, the call has exactly the effect of setting
    the bits in the pattern [x] found by the commit and letting the waiting threads test and clear
    it one after the other: the same final pattern, the same threads awakened, the others left in
    the queue.  The order of the tests is a permutation of the queue sorted by the protocol (by
    priority and then by waiting time, or by waiting time only). *)
Theorem set_atomic c b fs rest f v : flag_ok f ->
  let x := fast_ops fs (pattern f) in
  commit b (pattern f) x (attempt_on c b (pattern f) f) = Some v ->
  let r := set_locked c b (fs :: rest) f in
  let ref := process (Z.lor x b) (order c (sq f)) in
  order c (sq f) ≡ₚ sq f /\ StronglySorted (served_before c (sq f)) (order c (sq f)) /\
  pattern r.1 = ref.1 /\
  r.2 = map w_tid (List.filter (fun w => bool_decide (w_tid w ∈ ref.2)) (sq f)) /\
  sq r.1 = List.filter (fun w => negb (bool_decide (w_tid w ∈ ref.2))) (sq f).
Proof.
  intros [Hq H3] x Hc r ref. destruct (order_spec c (pattern f) (sq f) Hq) as [Hperm Hsort].
  split; [done|]. split; [done|]. pose proof (fast_ops_sub fs (pattern f)) as Hs. fold x in Hs.
  destruct (attempt_exact c b x f v (conj Hq H3) Hs Hc) as (Hv & Hr3 & Hcount).
  fold ref in Hv, Hr3, Hcount. subst r. unfold set_locked. cbn [set_loop]. fold x. rewrite Hc.
  cbn [fst snd pattern sq gpr3 gpr6].
  assert (forall w, w ∈ sq f -> (r3 (attempt_on c b (pattern f) f) (w_tid w) =? CELL_OK) =
    bool_decide (w_tid w ∈ ref.2)) as Hb.
  { intros w Hw. apply eq_true_iff_eq. rewrite bool_decide_eq_true, Z.eqb_eq. by apply Hr3. }
  destruct (Z.eqb_spec (count (attempt_on c b (pattern f) f)) 0) as [Hz|Hz]; cbn [fst snd pattern sq].
  - assert (forall w, w ∈ sq f -> bool_decide (w_tid w ∈ ref.2) = false) as Hf.
    { intros w Hw. rewrite bool_decide_eq_false, <- Hr3 by done. by apply Hcount. }
    split; [done|]. rewrite (filter_none _ _ Hf), filter_every; [done|]. intros w Hw. by rewrite Hf.
  - split; [done|]. split; [f_equal|]; apply filter_ext_elem; intros w Hw; by rewrite Hb.
Qed.

(** Three threads: 1 waits for bits 0 and 3, 3 for bits 0 and 1 and clears everything, 2 for bit 1. *)
Definition demo_const : const := Const SYS_SYNC_FIFO SYS_SYNC_WAITER_MULTIPLE.
Definition demo_waits : list op :=
  [WaitLocked (W 1 9 0x11 100 false); WaitLocked (W 3 3 0x21 100 false); WaitLocked (W 2 2 0x02 100 false)].
Definition demo_flag : flag :=
  Flag 8 [W 2 2 0x02 100 false; W 3 3 0x21 100 false; W 1 9 0x11 100 false] (fun _ => NONE) (fun _ => 8).

Lemma demo_flag_ok : flag_ok demo_flag.
Proof.
  split; [split_and!|].
  - repeat constructor; set_solver.
  - intros w Hw. cbn in Hw. repeat (apply elem_of_cons in Hw as [->|Hw]; [vm_compute; congruence|]). set_solver.
  - intros w Hw. cbn in Hw. repeat (apply elem_of_cons in Hw as [->|Hw]; [split; reflexivity|]). set_solver.
  - done.
Qed.

Lemma set_atomic_witness :
  let r := set_locked demo_const 3 [[Clear 0xf]] demo_flag in
  let ref := process 11 (order demo_const (sq demo_flag)) in
  pattern r.1 = ref.1 /\ ref = (2, [1; 2]) /\
  r.2 = map w_tid (List.filter (fun w => bool_decide (w_tid w ∈ ref.2)) (sq demo_flag)).
Proof.
  destruct (set_atomic demo_const 3 [Clear 0xf] [] demo_flag 2 demo_flag_ok) as (_ & _ & H1 & H2 & _);
    [vm_compute; reflexivity|].
  split; [exact H1|]. split; [vm_compute; reflexivity|exact H2].
Defined.

(** C33: the invariant of the event flag.  After any sequence of calls in which each waiting thread passed
    [check_mode], has a 13-bit priority and waits once at a time (with any interference in the
    windows of [set], retries and stops of waiting threads included), no thread is left in the queue although its condition
    holds on the pattern; each thread is queued once, and none of the queued threads has been
    marked as awakened. *)
Theorem event_flag_invariant c i ops f : run c ops (empty i) = Some f ->
  NoDup (map w_tid (sq f)) /\
  forall w, w ∈ sq f -> satisfied (pattern f) (gpr4 w) (gpr5 w) = false /\
    check_mode (gpr5 w) = true /\ gpr3 f (w_tid w) <> CELL_OK.
Proof.
  intros Hr. destruct (flag_run_ok c ops _ f (empty_ok i) Hr) as [(Hn & _ & Hw) H3]. split; [done|].
  intros w Hin. destruct (Hw w Hin). auto.
Qed.

Lemma event_flag_invariant_witness : exists f,
  run demo_const (demo_waits ++ [SetOp 3 [[Clear 7]]]) (empty 8) = Some f /\
  (forall w, w ∈ sq f -> satisfied (pattern f) (gpr4 w) (gpr5 w) = false).
Proof.
  destruct (run demo_const (demo_waits ++ [SetOp 3 [[Clear 7]]]) (empty 8)) as [f|] eqn:E.
  - exists f. split; [reflexivity|].
    destruct (event_flag_invariant demo_const 8 (demo_waits ++ [SetOp 3 [[Clear 7]]]) f E) as [_ H].
    intros w Hw. apply (H w Hw).
  - exfalso. vm_compute in E. discriminate E.
Defined.

(** A repeated attempt of [set] can wake a thread whose condition never held.  Threads 1, 3 and 2
    wait in this order on a flag with bit 3 set; bits 0 and 1 are set, and bit 3 is cleared by
    another thread before the first commit.  The second attempt finds the pattern 0: thread 3 takes
    both bits and clears the flag, which ends the visits; thread 2 keeps the [CELL_OK] of the
    failed first attempt and is awakened too, although the atomic reference on the pattern that
    was found wakes only thread 3. *)
Theorem set_retry_wakes_unsatisfied :
  exists f, run demo_const demo_waits (empty 8) = Some f /\
    (set_locked demo_const 3 [[Clear 7]] f).2 = [2; 3] /\
    pattern (set_locked demo_const 3 [[Clear 7]] f).1 = 0 /\
    process (Z.lor (fast_ops [Clear 7] 8) 3) (order demo_const (sq f)) = (0, [3]).
Proof.
  destruct (run demo_const demo_waits (empty 8)) as [f|] eqn:E; vm_compute in E; [|discriminate E].
  injection E as <-. eexists. split; [reflexivity|]. vm_compute. auto.
Qed.
