(* ===== verification/Lv2Sched.v ===== *)
(** The PPU scheduler (Emu/Cell/lv2/lv2.cpp: [lv2_obj::sleep], [awake], [yield], [set_priority],
    [schedule_all]).

    The run queue [g_ppu] is a linked list through [ppu_thread::next_ppu], sorted by priority; the
    first [ppu_threads] of it execute, the others have [cpu_flag::suspend].  A thread that is
    overtaken is asked to stop ([ack_suspend], counted by [g_pending]), and nobody is started
    before it has stopped.  [g_waiting] holds the timeouts of the threads asleep.

    Module [Sched] transcribes the operations, each of which runs under [lv2_obj::g_mutex]; the
    queue is the pointer store of [Lv2Queue].  The rest of the file shows what the pointer loops do
    to the list of threads: [emplace_thread] is a stable insertion and the exchange of pointers
    of the yield command moves the thread behind its equals. *)

From Stdlib Require Import ZArith Lia Bool Sorted.
From stdpp Require Import base tactics option list numbers gmap.
From S2P Require Import Prelude Lv2Queue.
Import Lv2Queue.
Local Open Scope Z_scope.

Module Sched.

(** The scheduler's variables, and what it uses of the threads; [suspend], [signal] and [notify] are flags of
    [cpu_thread::state]. *)
Record state := St {
  g_ppu : queue; g_pending : Z; g_waiting : list (Z * tid); g_to_sleep : list tid;
  g_scheduler_ready : bool;
  suspend : tid -> bool; signal : tid -> bool; notify : tid -> bool; ack_suspend : tid -> bool;
  cancel_sleep : tid -> Z; info : tid -> thread_info; tag : Z }.

Definition set_queue (q : queue) (s : state) : state :=
  St q (g_pending s) (g_waiting s) (g_to_sleep s) (g_scheduler_ready s) (suspend s) (signal s)
     (notify s) (ack_suspend s) (cancel_sleep s) (info s) (tag s).
Definition set_waiting (w : list (Z * tid)) (s : state) : state :=
  St (g_ppu s) (g_pending s) w (g_to_sleep s) (g_scheduler_ready s) (suspend s) (signal s)
     (notify s) (ack_suspend s) (cancel_sleep s) (info s) (tag s).
Definition set_to_sleep (l : list tid) (s : state) : state :=
  St (g_ppu s) (g_pending s) (g_waiting s) l (g_scheduler_ready s) (suspend s) (signal s)
     (notify s) (ack_suspend s) (cancel_sleep s) (info s) (tag s).
Definition set_flags (sus sig : tid -> bool) (s : state) : state :=
  St (g_ppu s) (g_pending s) (g_waiting s) (g_to_sleep s) (g_scheduler_ready s) sus sig
     (notify s) (ack_suspend s) (cancel_sleep s) (info s) (tag s).
Definition set_notify (f : tid -> bool) (s : state) : state :=
  St (g_ppu s) (g_pending s) (g_waiting s) (g_to_sleep s) (g_scheduler_ready s) (suspend s)
     (signal s) f (ack_suspend s) (cancel_sleep s) (info s) (tag s).
Definition set_ack (ack : tid -> bool) (pending : Z) (s : state) : state :=
  St (g_ppu s) pending (g_waiting s) (g_to_sleep s) (g_scheduler_ready s) (suspend s) (signal s)
     (notify s) ack (cancel_sleep s) (info s) (tag s).
Definition set_cancel (c : tid -> Z) (s : state) : state :=
  St (g_ppu s) (g_pending s) (g_waiting s) (g_to_sleep s) (g_scheduler_ready s) (suspend s)
     (signal s) (notify s) (ack_suspend s) c (info s) (tag s).
Definition set_info (i : tid -> thread_info) (g : Z) (s : state) : state :=
  St (g_ppu s) (g_pending s) (g_waiting s) (g_to_sleep s) (g_scheduler_ready s) (suspend s)
     (signal s) (notify s) (ack_suspend s) (cancel_sleep s) i g.

(** [for (auto target = +g_ppu; target; target = target->next_ppu)]. *)
Definition targets (s : state) : list tid := walk (enough (g_ppu s)) (first (g_ppu s)) (g_ppu s).

(** *** [lv2_obj::sleep_unlocked] *)

(** [start_time + std::min<u64>(timeout, ~start_time)]. *)
Definition wait_until (start_time timeout : Z) : Z :=
  wrap 64 (start_time + Z.min timeout (2 ^ 64 - 1 - start_time)).

(** Insertion in [g_waiting] before the first later deadline. *)
Fixpoint register (until : Z) (t : tid) (w : list (Z * tid)) : list (Z * tid) :=
  match w with
  | [] => [(until, t)]
  | (x, u) :: w' => if until <? x then (until, t) :: w else (x, u) :: register until t w'
  end.

(** [g_to_sleep.erase] of the first occurrence. *)
Fixpoint erase (t : tid) (l : list tid) : list tid :=
  match l with
  | [] => []
  | x :: l => if x =? t then l else x :: erase t l
  end.

(** [None] when [ensure(!timeout || !(val & cpu_flag::notify))] fails. *)
Definition sleep_unlocked (t : tid) (timeout current_time : Z) (s : state) : option (bool * state) :=
  let s := if ack_suspend s t
           then set_ack (upd t false (ack_suspend s)) (wrap 32 (g_pending s - 1)) s else s in
  let return_val := negb (cancel_sleep s t =? 2) in
  let s := set_cancel (upd t 0 (cancel_sleep s)) s in
  if signal s t then Some (false, s)
  else if negb (timeout =? 0) && notify s t then None
  else
    let s := set_flags (upd t true (suspend s)) (signal s) s in
    let r := unqueue true (enough (g_ppu s)) t (g_ppu s) in
    match r.1 with
    | None =>
        if existsb (Z.eqb t) (g_to_sleep s) then Some (true, set_to_sleep (erase t (g_to_sleep s)) s)
        else Some (false, s)
    | Some _ =>
        let s := set_queue r.2 s in
        Some (return_val,
          if timeout =? 0 then s
          else set_waiting (register (wait_until current_time timeout) t (g_waiting s)) s)
    end.

(** *** [lv2_obj::awake_unlocked] *)

Definition read (it : slot) (q : queue) : option tid :=
  match it with First => first q | NextOf t => nodes q !! t end.

(** The loop of [emplace_thread] over [g_ppu]. *)
Fixpoint emplace_loop (fuel : nat) (info : tid -> thread_info) (cpu : tid) (it : slot) (q : queue)
    : bool * queue :=
  match fuel with
  | O => (false, q)
  | S fuel =>
      match read it q with
      | None => (true, assign it (Some cpu) (assign (NextOf cpu) None q))
      | Some next =>
          if next =? cpu then (false, q)
          else if prio (info cpu) <? prio (info next)
          then (true, assign it (Some cpu) (assign (NextOf cpu) (Some next) q))
          else emplace_loop fuel info cpu (NextOf next) q
      end
  end.

(** Removal of the first entry of the thread from [g_waiting]. *)
Fixpoint unregister (t : tid) (w : list (Z * tid)) : list (Z * tid) :=
  match w with
  | [] => []
  | (x, u) :: w => if u =? t then w else (x, u) :: unregister t w
  end.

Definition emplace_thread (cpu : tid) (s : state) : bool * state :=
  let r := emplace_loop (S (enough (g_ppu s))) (info s) cpu First (g_ppu s) in
  if r.1 then (true, set_waiting (unregister cpu (g_waiting s)) (set_queue r.2 s))
  else (false, if cancel_sleep s cpu =? 1 then set_cancel (upd cpu 2 (cancel_sleep s)) s else s).

(** [for (const auto _cpu : g_to_awake)]. *)
Fixpoint emplace_all (g_to_awake : list tid) (changed : bool) (s : state) : bool * state :=
  match g_to_awake with
  | [] => (changed, s)
  | cpu :: l => let r := emplace_thread cpu s in emplace_all l (r.1 || changed) r.2
  end.

(** The inner loop of the yield command: the last thread of the run of equal priorities and its
    position. *)
Fixpoint last_same (fuel : nat) (info : tid -> thread_info) (ppu ppu2 : tid) (i : nat) (q : queue)
    : tid * nat :=
  match fuel with
  | O => (ppu2, i)
  | S fuel =>
      match nodes q !! ppu2 with
      | None => (ppu2, i)
      | Some next =>
          if prio (info next) =? prio (info ppu) then last_same fuel info ppu next (S i) q
          else (ppu2, i)
      end
  end.

(** The yield command; [false] when the function returns [false] at once. *)
Fixpoint yield_loop (fuel : nat) (ppu_threads : nat) (info : tid -> thread_info) (cpu : tid)
    (ppu_next : slot) (i : nat) (q : queue) : bool * queue :=
  match fuel with
  | O => (false, q)
  | S fuel' =>
      match read ppu_next q with
      | None => (false, q)
      | Some ppu =>
          if ppu =? cpu then
            match nodes q !! ppu with
            | None => (false, q)
            | Some ppu2 =>
                if negb (prio (info ppu2) =? prio (info ppu)) then (false, q)
                else
                  let z := last_same fuel info ppu ppu2 (S i) q in
                  let old2 := nodes q !! z.1 in
                  let q := assign (NextOf z.1) (Some ppu) q in
                  let old1 := nodes q !! ppu in
                  let q := assign (NextOf ppu) old2 q in
                  (negb (z.2 <? ppu_threads)%nat, assign ppu_next old1 q)
            end
          else yield_loop fuel' ppu_threads info cpu (NextOf ppu) (S i) q
      end
  end.

(** "Suspend threads if necessary".  [ensure(!target->state.test_and_set(cpu_flag::suspend))] follows the test of the
    same flag, which is only set with [g_mutex] locked. *)
Fixpoint suspend_loop (thread_count i : nat) (l : list tid) (s : state) : state :=
  match l with
  | [] => s
  | target :: l =>
      suspend_loop thread_count (S i) l
        (if (thread_count <=? i)%nat && negb (suspend s target) then
           set_flags (upd target true (suspend s)) (signal s)
             (set_ack (upd target true (ack_suspend s)) (wrap 32 (g_pending s + 1)) s)
         else s)
  end.

(** The end of [awake_unlocked]; [None] when [ensure(g_pending)] fails. *)
Definition settle (ppu_threads : nat) (current : option tid) (s : state) : option state :=
  let s := suspend_loop ppu_threads 0 (targets s) s in
  match current with
  | None => Some s
  | Some c =>
      if ack_suspend s c then
        if g_pending s =? 0 then None
        else Some (set_ack (upd c false (ack_suspend s)) (wrap 32 (g_pending s - 1)) s)
      else Some s
  end.

(** The arguments of [awake_unlocked]: [{}], [(cpu, enqueue_cmd)], [(cpu, yield_cmd)], [(cpu, prio)]. *)
Inductive cmd := EnqueueList | Enqueue (cpu : tid) | YieldCmd (cpu : tid) | SetPrio (cpu : tid) (p : Z).

Definition awake_unlocked (ppu_threads : nat) (current : option tid) (c : cmd)
    (g_to_awake : list tid) (s : state) : option state :=
  match c with
  | EnqueueList => settle ppu_threads current (emplace_all g_to_awake false s).2
  | Enqueue cpu => settle ppu_threads current (emplace_thread cpu s).2
  | YieldCmd cpu =>
      let r := yield_loop (S (enough (g_ppu s))) ppu_threads (info s) cpu First 0 (g_ppu s) in
      let s := set_queue r.2 s in
      if r.1 then settle ppu_threads current (emplace_all g_to_awake true s).2 else Some s
  | SetPrio cpu p =>
      let old_prio := prio (info s cpu) in
      if (old_prio =? p) && bool_decide (current = Some cpu) then
        let r := set_prio p false false (tag s) (info s cpu) in
        Some (set_info (upd cpu r.1 (info s)) r.2 s)
      else
        let u := unqueue true (enough (g_ppu s)) cpu (g_ppu s) in
        match u.1 with
        | None =>
            let r := set_prio p (p <? old_prio) (old_prio <? p) (tag s) (info s cpu) in
            Some (set_info (upd cpu r.1 (info s)) r.2 s)
        | Some _ =>
            let r := set_prio p false false (tag s) (info s cpu) in
            let s := set_info (upd cpu r.1 (info s)) r.2 (set_queue u.2 s) in
            settle ppu_threads current (emplace_thread cpu s).2
        end
  end.

(** *** [lv2_obj::schedule_all] *)

(** "Wake up threads". *)
Fixpoint wake_loop (l : list tid) (s : state) : state :=
  match l with
  | [] => s
  | target :: l =>
      wake_loop l (if suspend s target
                   then set_flags (upd target false (suspend s)) (upd target true (signal s)) s else s)
  end.

(** "Check registered timeouts": the entries that are left, and the threads notified, which are those
    other than the current one; [None] when [ensure(!target->state.test_and_set(cpu_flag::notify))] fails. *)
Fixpoint expire (current : option tid) (current_time : Z) (w : list (Z * tid)) (ntf : tid -> bool)
    : option (list (Z * tid) * (tid -> bool)) :=
  match w with
  | [] => Some ([], ntf)
  | (x, target) :: w' =>
      if x <=? current_time then
        if bool_decide (current = Some target) then expire current current_time w' ntf
        else if ntf target then None
        else expire current current_time w' (upd target true ntf)
      else Some (w, ntf)
  end.

Definition schedule_all (ppu_threads : nat) (current : option tid) (current_time : Z) (s : state) : option state :=
  let s := if (g_pending s =? 0) && g_scheduler_ready s
           then wake_loop (take ppu_threads (targets s)) s else s in
  r ← expire current current_time (g_waiting s) (notify s);
  Some (set_notify r.2 (set_waiting r.1 s)).

(** *** The functions other code calls *)

Definition sleep (ppu_threads : nat) (current : option tid) (t : tid) (timeout current_time : Z)
    (g_to_awake : list tid) (s : state) : option state :=
  r ← sleep_unlocked t timeout current_time s;
  s ← (if bool_decide (g_to_awake = []) then Some r.2
       else awake_unlocked ppu_threads current EnqueueList g_to_awake r.2);
  schedule_all ppu_threads current current_time s.

Definition awake (ppu_threads : nat) (current : option tid) (c : cmd) (g_to_awake : list tid)
    (current_time : Z) (s : state) : option state :=
  s ← awake_unlocked ppu_threads current c g_to_awake s;
  schedule_all ppu_threads current current_time s.

Definition yield (ppu_threads : nat) (current : option tid) (t : tid) (g_to_awake : list tid)
    (current_time : Z) (s : state) : option state :=
  match nodes (g_ppu s) !! t with
  | None => Some s
  | Some _ => awake ppu_threads current (YieldCmd t) g_to_awake current_time s
  end.

(** [None] when [ensure(prio + 512u < 3712)] fails. *)
Definition set_priority (ppu_threads : nat) (current : option tid) (t : tid) (p : Z)
    (g_to_awake : list tid) (current_time : Z) (s : state) : option state :=
  if wrap 32 (p + 512) <? 3712 then awake ppu_threads current (SetPrio t p) g_to_awake current_time s
  else None.

Definition make_scheduler_ready (ppu_threads : nat) (current : option tid) (g_to_awake : list tid)
    (current_time : Z) (s : state) : option state :=
  let s := St (g_ppu s) (g_pending s) (g_waiting s) (g_to_sleep s) true (suspend s) (signal s)
              (notify s) (ack_suspend s) (cancel_sleep s) (info s) (tag s) in
  awake ppu_threads current EnqueueList g_to_awake current_time s.

(** What happens to the scheduler; [Ack] is [ppu_thread::cpu_sleep], called by a thread that finds
    its [cpu_flag::suspend] (nothing is appended to [g_to_awake] before a single awake, a yield or a
    change of priority); [Resume] is a thread's [test_and_reset(cpu_flag::signal)]; [CheckState] is a thread's
    [check_state], which turns off [cpu_flag::notify]; [Cancel] is [ppu.cancel_sleep = 1]. *)
Inductive op :=
  | Sleep (current : option tid) (t : tid) (timeout current_time : Z) (g_to_awake : list tid)
  | AwakeAll (current : option tid) (g_to_awake : list tid) (current_time : Z)
  | Awake (current : option tid) (t : tid) (current_time : Z)
  | Yield (current : option tid) (t : tid) (current_time : Z)
  | SetPriority (current : option tid) (t : tid) (p : Z) (current_time : Z)
  | Ready (current : option tid) (g_to_awake : list tid) (current_time : Z)
  | Ack (t : tid) (current_time : Z) | Resume (t : tid) | CheckState (t : tid) | Cancel (t : tid)
  | FutureSleep (t : tid).

Definition step (n : nat) (o : op) (s : state) : option state :=
  match o with
  | Sleep cur t timeout now l => sleep n cur t timeout now l s
  | AwakeAll cur l now => awake n cur EnqueueList l now s
  | Awake cur t now => awake n cur (Enqueue t) [] now s
  | Yield cur t now => yield n cur t [] now s
  | SetPriority cur t p now => set_priority n cur t p [] now s
  | Ready cur l now => make_scheduler_ready n cur l now s
  | Ack t now => awake n (Some t) (Enqueue t) [] now s
  | Resume t => Some (set_flags (suspend s) (upd t false (signal s)) s)
  | CheckState t => Some (set_notify (upd t false (notify s)) s)
  | Cancel t => Some (set_cancel (upd t 1 (cancel_sleep s)) s)
  | FutureSleep t => Some (set_to_sleep (g_to_sleep s ++ [t]) s)
  end.

Fixpoint run (n : nat) (os : list op) (s : state) : option state :=
  match os with
  | [] => Some s
  | o :: os => match step n o s with Some s => run n os s | None => None end
  end.

(** After [lv2_obj::cleanup]; threads are created with [cpu_flag::suspend]. *)
Definition init (i : tid -> thread_info) : state :=
  St (Q None ∅) 0 [] [] false (fun _ => true) (fun _ => false) (fun _ => false) (fun _ => false) (fun _ => 0) i 0.

(** [lv2_obj::ppu_state]: [idle], [joiner] and [interrupt_thread_executing] are the thread's. *)
Inductive ppu_join_status := Joinable | Detached | Zombie | Exited | JoinedBy (t : tid).
Inductive ppu_thread_status := IDLE | RUNNABLE (pos : nat) | ONPROC (pos : nat) | SLEEP | STOP
  | ZOMBIE | DELETED.

Fixpoint position (t : tid) (i : nat) (l : list tid) : option nat :=
  match l with
  | [] => None
  | x :: l => if x =? t then Some i else position t (S i) l
  end.

Definition ppu_state (ppu_threads : nat) (idle : bool) (joiner : ppu_join_status)
    (interrupt_thread_executing : bool) (t : tid) (s : state) : ppu_thread_status :=
  if idle then IDLE
  else
    match joiner with
    | Zombie => ZOMBIE
    | Exited => DELETED
    | _ =>
        match position t 0 (targets s) with
        | None => if negb interrupt_thread_executing then STOP else SLEEP
        | Some pos => if (ppu_threads <=? pos)%nat then RUNNABLE pos else ONPROC pos
        end
    end.

End Sched.
Import Sched.

(** ** The run queue as a list *)

(** Sorted by priority. *)
Definition by_prio (info : tid -> thread_info) : list tid -> Prop :=
  StronglySorted (fun x y => prio (info x) <= prio (info y)).

(** Stable insertion: behind the threads of the same priority. *)
Fixpoint insert_prio (info : tid -> thread_info) (cpu : tid) (l : list tid) : list tid :=
  match l with
  | [] => [cpu]
  | x :: l' => if prio (info cpu) <? prio (info x) then cpu :: l else x :: insert_prio info cpu l'
  end.

(** Moved behind the threads of the same priority. *)
Definition requeue (info : tid -> thread_info) (cpu : tid) (l : list tid) : list tid :=
  insert_prio info cpu (list_remove_id cpu l).

Lemma insert_perm info cpu l : insert_prio info cpu l ≡ₚ cpu :: l.
Proof.
  induction l as [|x l IH]; cbn [insert_prio]; [done|]. destruct (_ <? _); [done|].
  rewrite IH. constructor.
Qed.

Lemma remove_id_perm x l : NoDup l -> x ∈ l -> x :: list_remove_id x l ≡ₚ l.
Proof.
  intros Hn (l1 & l2 & ->)%list_elem_of_split. rewrite remove_id_split by done.
  apply Permutation_middle.
Qed.

Lemma requeue_perm info x l : NoDup l -> x ∈ l -> requeue info x l ≡ₚ l.
Proof. intros Hn Hx. unfold requeue. rewrite insert_perm. by apply remove_id_perm. Qed.

Lemma insert_by_prio info cpu l : by_prio info l -> by_prio info (insert_prio info cpu l).
Proof.
  unfold by_prio. induction 1 as [|x l Hs IH Hf]; cbn [insert_prio]; [repeat constructor|].
  destruct (_ <? _) eqn:E.
  - constructor; [by constructor|]. constructor; [lia|]. eapply Forall_impl; [exact Hf|]. cbn. lia.
  - constructor; [done|]. rewrite (insert_perm info cpu l). constructor; [lia|done].
Qed.

Lemma remove_by_prio info x l : by_prio info l -> by_prio info (list_remove_id x l).
Proof.
  unfold by_prio, list_remove_id. induction 1 as [|y l Hs IH Hf]; [constructor|].
  rewrite filter_cons. destruct (decide _); [|done]. constructor; [done|].
  rewrite list.Forall_forall in *. intros z [_ Hz]%list_elem_of_filter. by apply Hf.
Qed.

Lemma by_prio_ext info info' l : (forall y, y ∈ l -> prio (info' y) = prio (info y)) ->
  by_prio info l -> by_prio info' l.
Proof.
  unfold by_prio. intros He. induction 1 as [|y l Hs IH Hf]; [constructor|]. constructor.
  - apply IH. set_solver.
  - rewrite list.Forall_forall in *. intros z Hz. rewrite !He by set_solver. by apply Hf.
Qed.

Lemma by_prio_app info l1 x l2 : by_prio info (l1 ++ x :: l2) ->
  (forall y, y ∈ l1 -> prio (info y) <= prio (info x)) /\
  (forall y, y ∈ l2 -> prio (info x) <= prio (info y)).
Proof.
  unfold by_prio. induction l1 as [|z l1 IH]; cbn [app]; intros [Hs Hf]%StronglySorted_inv;
    rewrite list.Forall_forall in Hf.
  - split; [set_solver|exact Hf].
  - destruct (IH Hs) as [H1 H2]. split; [|done].
    intros y [->|Hy]%elem_of_cons; [apply Hf; set_solver|auto].
Qed.

(** ** The pointer loops *)

Lemma read_slot q pre l : is_queue q (pre ++ l) -> read (slot_of pre) q = head l.
Proof.
  intros H. unfold slot_of. destruct pre as [|p pre _] using rev_ind; cbn [last].
  - unfold is_queue in H. destruct l; [exact H|]. by apply seg_head in H.
  - rewrite last_snoc. rewrite <- app_assoc in H. cbn [app] in H. cbn [read].
    rewrite (seg_next _ _ _ _ _ H). by destruct l.
Qed.

(** Linking a new node between [pre] and [l]. *)
Lemma link_spec q pre l x : is_queue q (pre ++ l) -> x ∉ pre ++ l ->
  is_queue (assign (slot_of pre) (Some x) (assign (NextOf x) (head l) q)) (pre ++ x :: l).
Proof.
  intros H Hx. pose proof (seg_nodup _ _ _ H) as Hn. apply NoDup_app in Hn as (Hn1 & Hd & _).
  apply seg_app in H as (m & H1 & H2).
  assert (m = head l) as -> by (destruct l; [exact H2|by apply seg_head in H2]).
  set (q1 := assign (NextOf x) (head l) q).
  assert (seg (nodes q1) (first q1) pre (head l)) as H1'.
  { eapply seg_frame; [|exact H1]. intros y Hy. cbn. rewrite lookup_set_next.
    destruct (decide _); [set_solver|done]. }
  destruct (assign_slot pre (Some x) q1 _ Hn1 H1') as [Ha Hf].
  apply seg_app. exists (Some x). split; [exact Ha|]. split; [done|].
  rewrite Hf by set_solver. cbn [q1 assign nodes]. rewrite lookup_set_next, decide_True by done.
  eapply seg_frame; [|exact H2]. intros y Hy. rewrite Hf by set_solver. cbn [q1 assign nodes].
  rewrite lookup_set_next, decide_False by set_solver. done.
Qed.

Lemma emplace_loop_spec fuel info x pre l q : is_queue q (pre ++ l) -> by_prio info (pre ++ l) ->
  x ∉ pre -> (length l < fuel)%nat ->
  if decide (x ∈ l) then emplace_loop fuel info x (slot_of pre) q = (false, q)
  else exists q', emplace_loop fuel info x (slot_of pre) q = (true, q') /\
    is_queue q' (pre ++ insert_prio info x l).
Proof.
  revert pre fuel. induction l as [|y l IH]; intros pre fuel H Hs Hx Hf;
    (destruct fuel as [|fuel]; [lia|]); cbn [emplace_loop]; rewrite (read_slot q pre _ H); cbn [head].
  { rewrite decide_False by set_solver. eexists. split; [reflexivity|]. cbn [insert_prio].
    apply (link_spec q pre []); set_solver. }
  destruct (Z.eqb_spec y x) as [->|Hne]; [by rewrite decide_True by set_solver|].
  cbn [insert_prio]. destruct (prio (info x) <? prio (info y)) eqn:E.
  - assert (x ∉ y :: l) as Hl.
    { intros [->|Hin]%elem_of_cons; [done|]. apply by_prio_app in Hs as [_ Hs].
      specialize (Hs x Hin). lia. }
    rewrite decide_False by done. eexists. split; [reflexivity|].
    apply (link_spec q pre (y :: l)); set_solver.
  - specialize (IH (pre ++ [y]) fuel). rewrite slot_of_snoc, <- !app_assoc in IH. cbn [app] in IH.
    specialize (IH H Hs). simpl in Hf.
    destruct (decide (x ∈ l)) as [Hl|Hl].
    + rewrite decide_True by (by apply elem_of_cons; right). apply IH; [set_solver|lia].
    + rewrite decide_False by (intros [?|?]%elem_of_cons; congruence).
      destruct IH as (q' & -> & Hq); [set_solver|lia|]. by eexists.
Qed.

(** The exchange of forward pointers: [a] moves behind [g] and [z]. *)
Lemma exchange_spec q pre a g z post : is_queue q (pre ++ a :: g ++ z :: post) ->
  let q1 := assign (NextOf z) (Some a) q in
  let q2 := assign (NextOf a) (nodes q !! z) q1 in
  is_queue (assign (slot_of pre) (nodes q1 !! a) q2) (pre ++ g ++ z :: a :: post).
Proof.
  intros H q1 q2. pose proof (seg_nodup _ _ _ H) as Hn.
  assert (nodes q !! z = head post) as Ez.
  { rewrite (seg_next _ (first q) (pre ++ a :: g) z post); [by destruct post|]. by rewrite <- app_assoc. }
  assert (nodes q !! a = head (g ++ [z])) as Ea.
  { rewrite (seg_next _ _ pre a (g ++ z :: post) H). by destruct g. }
  apply NoDup_app in Hn as (Hn1 & Hd & [Ha Hn2]%NoDup_cons).
  apply NoDup_app in Hn2 as (Hng & Hdg & [Hz Hnp]%NoDup_cons).
  assert (a <> z) as Haz by set_solver.
  assert (forall y, y <> a -> y <> z -> nodes q2 !! y = nodes q !! y) as Hfr.
  { intros y Hy1 Hy2. cbn. by rewrite !lookup_set_next, !decide_False. }
  assert (nodes q2 !! z = Some a) as Hz2.
  { cbn. by rewrite !lookup_set_next, decide_False, decide_True by done. }
  assert (nodes q2 !! a = head post) as Ha2 by (cbn; by rewrite lookup_set_next, decide_True).
  assert (nodes q1 !! a = head (g ++ [z])) as -> by (cbn; by rewrite lookup_set_next, decide_False).
  apply seg_app in H as (m & H1 & [-> H2]). apply seg_app in H2 as (m2 & H2 & [-> H3]).
  assert (seg (nodes q2) (first q2) pre (Some a)) as H1'.
  { eapply seg_frame; [|exact H1]. intros y Hy. apply Hfr; set_solver. }
  destruct (assign_slot pre (head (g ++ [z])) q2 _ Hn1 H1') as [Hp Hf].
  set (q3 := assign (slot_of pre) (head (g ++ [z])) q2) in *.
  apply seg_app. eexists. split; [exact Hp|]. rewrite <- Ea.
  apply seg_app. exists (Some z). split.
  { eapply seg_frame; [|exact H2]. intros y Hy. rewrite Hf by set_solver. apply Hfr; set_solver. }
  split; [done|]. rewrite Hf by set_solver. rewrite Hz2. split; [done|].
  rewrite Hf by set_solver. rewrite Ha2, <- Ez.
  eapply seg_frame; [|exact H3]. intros y Hy. rewrite Hf by set_solver. apply Hfr; set_solver.
Qed.

(** ** The yield command *)

Lemma last_same_spec fuel info q pre a p g post l1 : 
  is_queue q (l1 ++ p :: g ++ post) -> (forall y, y ∈ g -> prio (info y) = prio (info a)) ->
  match post with [] => True | y :: _ => prio (info y) <> prio (info a) end ->
  (length g < fuel)%nat ->
  last_same fuel info a p pre q = (default p (last g), (pre + length g)%nat).
Proof.
  revert fuel pre p l1. induction g as [|y g IH]; intros fuel pre p l1 H Hg Hp Hf;
    (destruct fuel as [|fuel]; [lia|]); cbn [last_same]; rewrite (seg_next _ _ _ _ _ H); cbn [app].
  - rewrite Nat.add_0_r. destruct post as [|y post]; [done|].
    by rewrite (proj2 (Z.eqb_neq _ _) Hp).
  - rewrite (proj2 (Z.eqb_eq _ _)) by (apply Hg; set_solver).
    rewrite (IH fuel (S pre) y (l1 ++ [p])); [|by rewrite <- app_assoc|set_solver|done|simpl in Hf; lia].
    rewrite last_cons. cbn [length]. f_equal; [by destruct (last g)|lia].
Qed.

(** The threads of the priority of [a] at the front of [l]. *)
Fixpoint equals (info : tid -> thread_info) (a : tid) (l : list tid) : list tid * list tid :=
  match l with
  | [] => ([], [])
  | y :: l' => if prio (info y) =? prio (info a)
               then let r := equals info a l' in (y :: r.1, r.2) else ([], l)
  end.

Lemma equals_spec info a l : let r := equals info a l in
  l = r.1 ++ r.2 /\
  (forall y, y ∈ r.1 -> prio (info y) = prio (info a)) /\
  match r.2 with [] => True | y :: _ => prio (info y) <> prio (info a) end.
Proof.
  induction l as [|y l IH]; cbn [equals fst snd]; [set_solver|].
  destruct (Z.eqb_spec (prio (info y)) (prio (info a))) as [E|E]; cbn [fst snd app].
  - destruct IH as (E1 & H1 & H2). split_and!; [by rewrite <- E1|set_solver|done].
  - split_and!; [done|set_solver|done].
Qed.

(** In a sorted queue, moving a thread behind its equals is moving it over [equals]. *)
Lemma requeue_equals info pre a l : NoDup (pre ++ a :: l) -> by_prio info (pre ++ a :: l) ->
  requeue info a (pre ++ a :: l) = pre ++ (equals info a l).1 ++ a :: (equals info a l).2.
Proof.
  intros Hn Hs. unfold requeue. rewrite remove_id_split by done.
  apply by_prio_app in Hs as [H1 H2]. clear Hn.
  induction pre as [|y pre IH]; cbn [app insert_prio].
  - clear H1. induction l as [|y l IH]; cbn [insert_prio equals]; [done|].
    destruct (Z.eqb_spec (prio (info y)) (prio (info a))) as [E|E].
    + rewrite (proj2 (Z.ltb_ge _ _)) by lia. cbn [fst snd app]. f_equal. apply IH. set_solver.
    + specialize (H2 y). rewrite (proj2 (Z.ltb_lt _ _)); [done|].
      pose proof (H2 ltac:(set_solver)). lia.
  - rewrite (proj2 (Z.ltb_ge _ _)) by (apply H1; set_solver). f_equal. apply IH. set_solver.
Qed.

Lemma snoc_last {A} (y : A) g : exists g0, y :: g = g0 ++ [default y (last g)].
Proof. destruct g as [|z g _] using rev_ind; [by exists []|]. rewrite last_snoc. by exists (y :: g). Qed.

Lemma take_perm_middle {A} n (pre l1 l2 post : list A) : l1 ≡ₚ l2 ->
  (length pre + length l1 <= n)%nat -> take n (pre ++ l1 ++ post) ≡ₚ take n (pre ++ l2 ++ post).
Proof.
  intros H Hn. pose proof (Permutation_length H) as Hl.
  rewrite !(take_app_ge pre), !take_app_ge by lia. rewrite Hl. by rewrite H.
Qed.

(** What the yield command does: the queue becomes [requeue], and when the function returns early the
    threads among the first [n] are the same. *)
Lemma yield_loop_spec fuel n info x pre l q : is_queue q (pre ++ l) -> by_prio info (pre ++ l) ->
  x ∉ pre -> (length l < fuel)%nat ->
  let r := yield_loop fuel n info x (slot_of pre) (length pre) q in
  let l' := if decide (x ∈ l) then requeue info x (pre ++ l) else pre ++ l in
  is_queue r.2 l' /\ (r.1 = false -> take n l' ≡ₚ take n (pre ++ l)).
Proof.
  revert pre fuel. induction l as [|y l IH]; intros pre fuel H Hs Hx Hf;
    (destruct fuel as [|fuel]; [lia|]); cbn [yield_loop]; rewrite (read_slot q pre _ H); cbn [head].
  { rewrite decide_False by set_solver. done. }
  destruct (Z.eqb_spec y x) as [->|Hne].
  2:{ specialize (IH (pre ++ [y]) fuel). rewrite slot_of_snoc, <- !app_assoc in IH. cbn [app] in IH.
      specialize (IH H Hs). rewrite length_app, Nat.add_1_r in IH. simpl in Hf.
      destruct (decide (x ∈ l)) as [Hl|Hl].
      - rewrite decide_True by (by apply elem_of_cons; right). apply IH; [set_solver|lia].
      - rewrite decide_False by (intros [?|?]%elem_of_cons; congruence). apply IH; [set_solver|lia]. }
  rewrite decide_True by set_solver. rewrite (seg_next _ _ pre x l H).
  pose proof (seg_nodup _ _ _ H) as Hn. rewrite requeue_equals by done.
  destruct (equals_spec info x l) as (El & He & Hp).
  destruct l as [|y l]; [done|].
  destruct (Z.eqb_spec (prio (info y)) (prio (info x))) as [E|E].
  2:{ cbn [negb fst snd equals]. by rewrite (proj2 (Z.eqb_neq _ _) E). }
  cbn [negb]. cbn [equals] in *. rewrite (proj2 (Z.eqb_eq _ _) E) in *. cbn [fst snd] in *.
  set (g := (equals info x l).1) in *. set (post := (equals info x l).2) in *.
  cbn [app] in El. injection El as El. rewrite El in H.
  rewrite (last_same_spec (S fuel) info q (S (length pre)) x y g post (pre ++ [x])).
  2:{ by rewrite <- app_assoc. } 2:{ set_solver. } 2:{ done. }
  2:{ simpl in Hf. rewrite El, length_app in Hf. lia. }
  cbn [fst snd]. rewrite El. clearbody g post. clear El He Hp IH Hs Hn Hf.
  destruct (snoc_last y g) as [g0 Eg]. set (z := default y (last g)) in *.
  pose proof (f_equal length Eg) as Hlen. rewrite length_app in Hlen. simpl in Hlen.
  change (y :: g ++ post) with ((y :: g) ++ post) in *. rewrite Eg in *. rewrite <- app_assoc in H.
  split.
  - pose proof (exchange_spec q pre x g0 z post H) as Hx'. by rewrite <- app_assoc.
  - intros Hb%negb_false_iff%Nat.ltb_lt.
    replace ((g0 ++ [z]) ++ x :: post) with (((g0 ++ [z]) ++ [x]) ++ post) by by rewrite <- app_assoc.
    change (x :: (g0 ++ [z]) ++ post) with ((x :: g0 ++ [z]) ++ post).
    apply take_perm_middle; [by rewrite Permutation_app_comm|]. rewrite !length_app. simpl. lia.
Qed.
