(* ===== verification/Lv2SchedSpec.v ===== *)
(** Correctness of the PPU scheduler of [Lv2Sched].

    [inv] is the scheduler's invariant: the run queue is sorted and duplicate free, only threads
    among its first [ppu_threads] are allowed to execute, [g_pending] counts the threads that were
    asked to stop and have not, at most [ppu_threads] threads execute, and the timeouts are
    sorted and belong to threads asleep.  [spec] is the run queue as a client sees it: a list and
    the priorities, an awakened thread goes behind everyone of its priority. *)

From Stdlib Require Import ZArith Lia Bool Sorted.
From stdpp Require Import base tactics option list numbers gmap.
From S2P Require Import Prelude Lv2Queue Lv2Sched.
Import Lv2Queue Sched.
Local Open Scope Z_scope.

(** ** Counting *)

Definition count (f : tid -> bool) (l : list tid) : nat := length (List.filter f l).

Lemma count_cons f x l : count f (x :: l) = (Nat.b2n (f x) + count f l)%nat.
Proof. unfold count. cbn. by destruct (f x). Qed.

Lemma count_app f l1 l2 : count f (l1 ++ l2) = (count f l1 + count f l2)%nat.
Proof. unfold count. by rewrite List.filter_app, length_app. Qed.

Lemma count_perm f l l' : l ≡ₚ l' -> count f l = count f l'.
Proof. induction 1; rewrite ?count_cons; lia. Qed.

Lemma count_ext f g l : (forall y, y ∈ l -> f y = g y) -> count f l = count g l.
Proof.
  induction l as [|x l IH]; intros H; [done|]. rewrite !count_cons, (H x) by set_solver.
  rewrite IH; [done|]. set_solver.
Qed.

Lemma count_le f g l : (forall y, y ∈ l -> f y = true -> g y = true) -> (count f l <= count g l)%nat.
Proof.
  induction l as [|x l IH]; intros H; [done|]. rewrite !count_cons.
  assert (Nat.b2n (f x) <= Nat.b2n (g x))%nat.
  { specialize (H x ltac:(set_solver)). destruct (f x), (g x); simpl; naive_solver lia. }
  enough (count f l <= count g l)%nat by lia. apply IH. set_solver.
Qed.

Lemma count_none f l : (forall y, y ∈ l -> f y = false) -> count f l = 0%nat.
Proof.
  induction l as [|x l IH]; intros H; [done|]. rewrite count_cons, (H x) by set_solver.
  apply IH. set_solver.
Qed.

Lemma count_zero f l y : count f l = 0%nat -> y ∈ l -> f y = false.
Proof.
  induction l as [|x l IH]; intros H Hy; [set_solver|]. rewrite count_cons in H.
  apply elem_of_cons in Hy as [->|Hy]; [destruct (f x); [simpl in H; lia|done]|]. apply IH; [lia|done].
Qed.

Lemma count_disjoint f g h l : (forall y, y ∈ l -> h y = f y || g y) ->
  (forall y, y ∈ l -> f y = true -> g y = false) -> count h l = (count f l + count g l)%nat.
Proof.
  induction l as [|x l IH]; intros H1 H2; [done|]. rewrite !count_cons, (H1 x) by set_solver.
  rewrite IH by set_solver. specialize (H2 x ltac:(set_solver)).
  destruct (f x), (g x); simpl; lia.
Qed.

Lemma count_length f l : (count f l <= length l)%nat.
Proof. induction l as [|x l IH]; [done|]. rewrite count_cons. destruct (f x); simpl; lia. Qed.

Lemma count_remove f x l : NoDup l -> x ∈ l ->
  count f l = (Nat.b2n (f x) + count f (list_remove_id x l))%nat.
Proof. intros Hn Hx. rewrite <- count_cons. by apply count_perm; rewrite remove_id_perm. Qed.

Lemma count_clear f x l : NoDup l -> x ∈ l -> f x = true -> count f l = S (count (upd x false f) l).
Proof.
  intros Hn Hx Hf. rewrite (count_remove f x l), (count_remove (upd x false f) x l) by done.
  rewrite Hf, upd_eq. cbn. f_equal. apply count_ext. intros y [_ Hy]%elem_of_remove_id.
  by rewrite upd_ne.
Qed.

(** ** The timeouts *)

Definition deadlines_sorted : list (Z * tid) -> Prop := StronglySorted (fun a b => a.1 <= b.1).

Lemma register_perm u t w : register u t w ≡ₚ (u, t) :: w.
Proof.
  induction w as [|[x y] w IH]; cbn [register]; [done|]. destruct (_ <? _); [done|].
  rewrite IH. constructor.
Qed.

Lemma register_sorted u t w : deadlines_sorted w -> deadlines_sorted (register u t w).
Proof.
  unfold deadlines_sorted. induction 1 as [|[x y] w Hs IH Hf]; cbn [register]; [repeat constructor|].
  destruct (_ <? _) eqn:E.
  - constructor; [by constructor|]. constructor; [cbn; lia|]. eapply Forall_impl; [exact Hf|].
    cbn. lia.
  - constructor; [done|]. rewrite register_perm. constructor; [cbn; lia|done].
Qed.

Lemma unregister_sublist t w : unregister t w `sublist_of` w.
Proof.
  induction w as [|[x y] w IH]; cbn [unregister]; [constructor|].
  destruct (_ =? _); [by apply sublist_cons|by apply sublist_skip].
Qed.

Lemma unregister_notin t w : NoDup (map snd w) -> t ∉ map snd (unregister t w).
Proof.
  induction w as [|[x y] w IH]; cbn [unregister map]; [set_solver|]. intros [Hy Hn]%NoDup_cons.
  destruct (Z.eqb_spec y t) as [->|]; [done|]. cbn. specialize (IH Hn). set_solver.
Qed.

Lemma unregister_id t w : t ∉ map snd w -> unregister t w = w.
Proof.
  induction w as [|[x y] w IH]; cbn [unregister map snd]; [done|]. intros Hn.
  destruct (Z.eqb_spec y t) as [->|]; [set_solver|]. f_equal. apply IH. set_solver.
Qed.

(** The threads with a timeout are not notified, as there is one timeout per thread. *)
Lemma expire_ok cur now w ntf : NoDup (map snd w) -> (forall t, t ∈ map snd w -> ntf t = false) ->
  exists w' ntf', expire cur now w ntf = Some (w', ntf') /\ w' `sublist_of` w /\
    forall t, t ∈ map snd w' -> ntf' t = false.
Proof.
  revert ntf. induction w as [|[x y] w IH]; intros ntf Hn Hf; cbn [expire]; [by eexists _, _|].
  cbn [map snd] in Hn, Hf. apply NoDup_cons in Hn as [Hy Hn].
  destruct (_ <=? _); [|by eexists _, _]. destruct (bool_decide _).
  - destruct (IH ntf Hn) as (w' & f' & E & Hs & Hf'); [set_solver|]. eexists _, _. split; [exact E|].
    split; [by apply sublist_cons|done].
  - rewrite Hf by set_solver. destruct (IH (upd y true ntf) Hn) as (w' & f' & E & Hs & Hf').
    { intros t Ht. rewrite upd_ne; [set_solver|]. by intros ->. }
    eexists _, _. split; [exact E|]. split; [by apply sublist_cons|done].
Qed.

(** Sorted, one entry per thread, and only for threads asleep. *)
Definition timeouts_ok (w : list (Z * tid)) (l : list tid) : Prop :=
  deadlines_sorted w /\ NoDup (map snd w) /\ (forall t, t ∈ map snd w -> t ∉ l).

Lemma sorted_sublist w w' : w' `sublist_of` w -> deadlines_sorted w -> deadlines_sorted w'.
Proof.
  unfold deadlines_sorted. induction 1 as [|x w' w H IH|x w' w H IH]; [done| |];
    intros [Hs Hf]%StronglySorted_inv; [|auto].
  constructor; [auto|]. rewrite list.Forall_forall in *. intros y Hy. apply Hf.
  by eapply sublist_subseteq.
Qed.

Lemma timeouts_sublist w w' l l' : w' `sublist_of` w ->
  (forall t, t ∈ map snd w' -> t ∈ l' -> t ∈ l) -> timeouts_ok w l -> timeouts_ok w' l'.
Proof.
  intros Hw Hl (Hs & Hn & Ha).
  assert (map snd w' `sublist_of` map snd w) as Hm by by (clear - Hw; induction Hw; constructor).
  split; [by eapply sorted_sublist|]. split; [by eapply sublist_NoDup|].
  intros t Ht Hin. eapply Ha; [by eapply sublist_subseteq|]. by apply Hl.
Qed.

Lemma timeouts_wake t w l l' : timeouts_ok w l -> l' ≡ₚ t :: l -> timeouts_ok (unregister t w) l'.
Proof.
  intros H Hl. eapply timeouts_sublist; [apply unregister_sublist| |exact H].
  intros u Hu. rewrite Hl. intros [->|]%elem_of_cons; [|done].
  by destruct (unregister_notin t w (proj1 (proj2 H))).
Qed.

Lemma timeouts_sleep u t w l : timeouts_ok w l -> t ∈ l ->
  timeouts_ok (register u t w) (list_remove_id t l).
Proof.
  intros (Hs & Hn & Ha) Ht.
  assert (map snd (register u t w) ≡ₚ t :: map snd w) as Hp by by rewrite register_perm.
  split; [by apply register_sorted|]. rewrite Hp. split.
  - constructor; [|done]. intros Hin. by apply (Ha t).
  - intros v. rewrite Hp, elem_of_remove_id. intros [->|Hv]%elem_of_cons [Hl Hne]; [done|].
    by apply (Ha v).
Qed.

(** ** The invariant *)

(** A thread executes: it may, or it was asked to stop and has not answered. *)
Definition runs (s : state) (t : tid) : bool := negb (suspend s t) || ack_suspend s t.

(** What holds at every point of an operation; [l] is the run queue. *)
Record core (n : nat) (s : state) (l : list tid) : Prop := {
  c_queue : is_queue (g_ppu s) l;
  c_sorted : by_prio (info s) l;
  c_prio t : sgn 13 (prio (info s t)) = prio (info s t);
  c_run t : suspend s t = false -> t ∈ l;
  c_ack t : ack_suspend s t = true -> suspend s t = true /\ t ∈ l;
  c_pending : g_pending s = Z.of_nat (count (ack_suspend s) l);
  c_hw : (count (runs s) l <= n)%nat;
  c_waiting : timeouts_ok (g_waiting s) l;
  c_notify t : t ∈ map snd (g_waiting s) -> notify s t = false
}.

(** Between operations only the first [n] threads may execute. *)
Definition inv (n : nat) (s : state) (l : list tid) : Prop :=
  core n s l /\ (forall t, suspend s t = false -> t ∈ take n l).

(** Once nobody is asked to stop, these threads do execute. *)
Definition dispatched (n : nat) (s : state) (l : list tid) : Prop :=
  g_pending s = 0 -> g_scheduler_ready s = true -> forall t, suspend s t = false <-> t ∈ take n l.

Lemma take_remove (y t : tid) l m : y ∈ take m l -> y <> t -> y ∈ take m (list_remove_id t l).
Proof.
  unfold list_remove_id. revert m. induction l as [|x l IH]; intros m; [by rewrite take_nil; set_solver|].
  destruct m as [|m]; [set_solver|]. cbn [take]. rewrite filter_cons, elem_of_cons. intros [->|Hy] Hne.
  - rewrite decide_True by done. set_solver.
  - destruct (decide _); cbn [take]; [rewrite elem_of_cons; right; auto|].
    assert (forall k : list tid, take m k ⊆ take (S m) k) as Hk.
    { intros k. pose proof (subseteq_take m (take (S m) k)) as Hs.
      by rewrite take_take, Nat.min_l in Hs by lia. }
    apply Hk. auto.
Qed.

Section Operations.
Context (n : nat).

Lemma core_nodup s l : core n s l -> NoDup l.
Proof. intros H. eapply seg_nodup, c_queue, H. Qed.

Lemma core_targets s l : core n s l -> targets s = l.
Proof. intros H. apply walk_spec, queue_fuel; apply (c_queue _ _ _ H). Qed.

(** [g_pending] and the threads that may execute share the [n] places. *)
Lemma core_pending s l : core n s l ->
  (count (ack_suspend s) l + count (fun t => negb (suspend s t)) l <= n)%nat.
Proof.
  intros H. etrans; [|exact (c_hw _ _ _ H)]. apply Nat.eq_le_incl. symmetry. apply count_disjoint.
  - intros y _. unfold runs. apply orb_comm.
  - intros y _ Ha. by rewrite (proj1 (c_ack _ _ _ H y Ha)).
Qed.

Hypothesis Hn : Z.of_nat n < 2 ^ 32.

(** Clearing [ack_suspend]. *)
Lemma core_clear_ack t s l : core n s l -> ack_suspend s t = true ->
  g_pending s <> 0 /\
  core n (set_ack (upd t false (ack_suspend s)) (wrap 32 (g_pending s - 1)) s) l.
Proof.
  intros H Ha. destruct (c_ack _ _ _ H t Ha) as [Hs Ht].
  pose proof (count_clear _ t l (core_nodup _ _ H) Ht Ha) as Hc.
  pose proof (core_pending _ _ H) as Hb. pose proof (c_pending _ _ _ H) as Hp.
  split; [lia|]. destruct H as [Hq Hso Hpr Hr Hk _ Hhw Hw Hnt].
  constructor; cbn [set_ack g_ppu info suspend ack_suspend g_pending g_waiting]; auto.
  - intros y. destruct (decide (y = t)) as [->|]; [by rewrite upd_eq|]. rewrite upd_ne by done. auto.
  - rewrite wrap_small by (split; lia). lia.
  - etrans; [|exact Hhw]. apply count_le. intros y _. unfold runs. cbn.
    destruct (decide (y = t)) as [->|]; [rewrite upd_eq|rewrite upd_ne by done]; [|done].
    rewrite orb_false_r, Ha, orb_true_r. done.
Qed.

(** The flags [core] does not mention. *)
Lemma core_cancel s l c : core n s l -> core n (set_cancel c s) l.
Proof. intros []. by constructor. Qed.

Lemma core_to_sleep s l x : core n s l -> core n (set_to_sleep x s) l.
Proof. intros []. by constructor. Qed.

Lemma core_signal s l f : core n s l -> core n (set_flags (suspend s) f s) l.
Proof. intros []. by constructor. Qed.

(** A thread leaves the queue. *)
Lemma core_remove t q w s l : core n s l -> ack_suspend s t = false ->
  is_queue q (list_remove_id t l) -> timeouts_ok w (list_remove_id t l) ->
  (forall u, u ∈ map snd w -> notify s u = false) ->
  core n (set_waiting w (set_queue q (set_flags (upd t true (suspend s)) (signal s) s)))
    (list_remove_id t l).
Proof.
  intros H Ha Hq Hw Hnt. pose proof (core_nodup _ _ H) as Hnd.
  destruct H as [_ Hso Hpr Hr Hk Hp Hhw _ _].
  constructor; cbn [set_waiting set_queue set_flags g_ppu info suspend ack_suspend g_pending g_waiting];
    auto.
  - by apply remove_by_prio.
  - intros y. rewrite elem_of_remove_id. destruct (decide (y = t)) as [->|]; [by rewrite upd_eq|].
    rewrite upd_ne by done. auto.
  - intros y Hy. rewrite elem_of_remove_id. destruct (decide (y = t)) as [->|]; [congruence|].
    rewrite upd_ne by done. naive_solver.
  - rewrite Hp. f_equal. destruct (decide (t ∈ l)) as [Ht|Ht]; [|by rewrite remove_id_notin].
    by rewrite (count_remove _ t l), Ha.
  - etrans; [|exact Hhw]. transitivity (count (runs s) (list_remove_id t l)).
    + apply Nat.eq_le_incl, count_ext. intros y [_ Hy]%elem_of_remove_id. unfold runs. cbn.
      by rewrite upd_ne.
    + destruct (decide (t ∈ l)) as [Ht|Ht]; [|by rewrite remove_id_notin].
      rewrite (count_remove _ t l) by done. lia.
Qed.

(** A thread that is asleep enters the queue. *)
Lemma core_insert t q s l l' : core n s l -> t ∉ l -> l' ≡ₚ t :: l -> is_queue q l' ->
  by_prio (info s) l' -> core n (set_waiting (unregister t (g_waiting s)) (set_queue q s)) l'.
Proof.
  intros H Ht Hl Hq Hs. destruct H as [_ Hso Hpr Hr Hk Hp Hhw Hw Hnt].
  assert (suspend s t = true) as Hst by (destruct (suspend s t) eqn:E; [done|]; by destruct Ht; apply Hr).
  assert (ack_suspend s t = false) as Hat.
  { destruct (ack_suspend s t) eqn:E; [|done]. by destruct Ht; apply Hk. }
  constructor; cbn [set_waiting set_queue g_ppu info suspend ack_suspend g_pending g_waiting]; auto.
  - intros y Hy. rewrite Hl. apply elem_of_cons. auto.
  - intros y Hy. rewrite Hl, elem_of_cons. naive_solver.
  - by rewrite (count_perm _ _ _ Hl), count_cons, Hat.
  - rewrite (count_perm _ _ _ Hl), count_cons. unfold runs at 1. cbn. by rewrite Hst, Hat.
  - by eapply timeouts_wake.
  - intros u Hu. apply Hnt. eapply sublist_subseteq; [|exact Hu]. apply fmap_sublist, unregister_sublist.
Qed.

(** The queue is reordered and priorities change. *)
Lemma core_reorder q i g s l l' : core n s l -> l' ≡ₚ l -> is_queue q l' -> by_prio i l' ->
  (forall t, sgn 13 (prio (i t)) = prio (i t)) -> core n (set_info i g (set_queue q s)) l'.
Proof.
  intros [_ _ _ Hr Hk Hp Hhw Hw Hnt] Hl Hq Hs Hi.
  constructor; cbn [set_info set_queue g_ppu info suspend ack_suspend g_pending g_waiting]; auto.
  - intros y Hy. rewrite Hl. auto.
  - intros y Hy. rewrite Hl. auto.
  - by rewrite (count_perm _ _ _ Hl).
  - by rewrite (count_perm _ _ _ Hl).
  - eapply timeouts_sublist; [done| |exact Hw]. intros t _. by rewrite Hl.
Qed.

(** ** [sleep_unlocked] *)

Lemma sleep_clear t s l : core n s l ->
  exists s', (if ack_suspend s t
              then set_ack (upd t false (ack_suspend s)) (wrap 32 (g_pending s - 1)) s else s) = s' /\
    core n s' l /\ ack_suspend s' t = false /\ suspend s' = suspend s /\ signal s' = signal s /\
    info s' = info s /\ g_scheduler_ready s' = g_scheduler_ready s /\ notify s' = notify s.
Proof.
  intros H. destruct (ack_suspend s t) eqn:E; eexists; (split; [reflexivity|]); [|done].
  split; [by apply core_clear_ack|]. split; [apply upd_eq|done].
Qed.

(** What [sleep] asks of its caller: a thread that sleeps with a timeout has answered the notification of the previous
    one. *)
Definition may_sleep (t : tid) (timeout : Z) (s : state) : bool :=
  signal s t || (timeout =? 0) || negb (notify s t).

Lemma sleep_unlocked_core t timeout now s l : core n s l -> may_sleep t timeout s = true ->
  exists b s', sleep_unlocked t timeout now s = Some (b, s') /\
  core n s' (if signal s t then l else list_remove_id t l) /\
  suspend s' = (if signal s t then suspend s else upd t true (suspend s)) /\
  signal s' = signal s /\ info s' = info s /\ g_scheduler_ready s' = g_scheduler_ready s.
Proof.
  intros H Hok. unfold sleep_unlocked, may_sleep in *.
  destruct (sleep_clear t s l H) as (s1 & -> & H1 & Ha & Es & Eg & Ei & Er & En).
  clear H. cbn [signal notify set_cancel]. rewrite <- Es, <- Ei, <- Er, <- Eg. rewrite <- Eg, <- En in Hok.
  clear Es Eg Ei Er En s.
  destruct (signal s1 t) eqn:Esig; [eexists _, _; split; [reflexivity|]; split; [by apply core_cancel|done]|].
  cbn [orb] in Hok. replace (negb (timeout =? 0) && notify s1 t) with false
    by (destruct (timeout =? 0), (notify s1 t); done).
  cbn [set_flags set_cancel g_ppu].
  pose proof (unqueue_spec true _ t _ _ (c_queue _ _ _ H1) (queue_fuel _ _ (c_queue _ _ _ H1))) as Hu.
  pose proof (c_waiting _ _ _ H1) as Hw. pose proof (c_notify _ _ _ H1) as Hnt.
  destruct (decide (t ∈ l)) as [Ht|Ht].
  - destruct Hu as (q' & -> & Hq & _). cbn [fst snd]. eexists _, _. split; [reflexivity|].
    split; [|by destruct (timeout =? 0)]. destruct (timeout =? 0).
    + refine (core_cancel _ _ (upd t 0 (cancel_sleep s1)) (core_remove t q' (g_waiting s1) s1 l H1 Ha Hq _ Hnt)).
      eapply timeouts_sublist; [done| |exact Hw]. intros u _ [? _]%elem_of_remove_id. done.
    + refine (core_cancel _ _ (upd t 0 (cancel_sleep s1)) (core_remove t q'
        (register (wait_until now timeout) t (g_waiting s1)) s1 l H1 Ha Hq _ _)).
      * by apply timeouts_sleep.
      * intros u. rewrite register_perm. intros [->|Hin]%elem_of_cons; [|by apply Hnt].
        by apply negb_true_iff in Hok.
  - rewrite Hu. cbn [fst snd].
    assert (core n (set_cancel (upd t 0 (cancel_sleep s1)) (set_waiting (g_waiting s1) (set_queue (g_ppu s1)
      (set_flags (upd t true (suspend s1)) (signal s1) s1)))) (list_remove_id t l)) as Hc.
    { apply core_cancel, core_remove; rewrite ?remove_id_notin; auto. apply H1. }
    destruct (existsb _ _); (eexists _, _; split; [reflexivity|split; [|done]]);
      [exact (core_to_sleep _ _ _ Hc)|exact Hc].
Qed.

(** ** [emplace_thread] *)

Definition wake (i : tid -> thread_info) (l : list tid) (t : tid) : list tid :=
  if decide (t ∈ l) then l else insert_prio i t l.

Lemma wake_incl i l t y : y ∈ l -> y ∈ wake i l t.
Proof. unfold wake. intros Hy. destruct (decide _); [done|]. rewrite insert_perm. set_solver. Qed.

(** The fields the queue operations leave alone. *)
Definition same_flags (s s' : state) : Prop :=
  suspend s' = suspend s /\ signal s' = signal s /\ ack_suspend s' = ack_suspend s /\
  info s' = info s /\ g_scheduler_ready s' = g_scheduler_ready s /\ g_pending s' = g_pending s.

Lemma emplace_thread_core t s l : core n s l ->
  let s' := (emplace_thread t s).2 in core n s' (wake (info s) l t) /\ same_flags s s'.
Proof.
  intros H. unfold emplace_thread, wake. pose proof (c_queue _ _ _ H) as Hq.
  pose proof (emplace_loop_spec (S (enough (g_ppu s))) (info s) t [] l (g_ppu s) Hq (c_sorted _ _ _ H)
    ltac:(set_solver)) as He.
  change (slot_of []) with First in He. specialize (He ltac:(pose proof (queue_fuel _ _ Hq); lia)).
  destruct (decide (t ∈ l)) as [Ht|Ht].
  - rewrite He. cbn [fst snd]. destruct (_ =? 1); (split; [|done]); [by apply core_cancel|done].
  - destruct He as (q' & -> & Hq'). cbn [fst snd]. split; [|done].
    eapply core_insert; [exact H|done|apply insert_perm|exact Hq'|]. by apply insert_by_prio, H.
Qed.

Lemma emplace_all_core ts b s l : core n s l ->
  let s' := (emplace_all ts b s).2 in core n s' (foldl (wake (info s)) l ts) /\ same_flags s s'.
Proof.
  revert b s l. induction ts as [|t ts IH]; intros b s l H; cbn [emplace_all foldl]; [done|].
  destruct (emplace_thread_core t s l H) as (H1 & E1).
  destruct (IH ((emplace_thread t s).1 || b) _ _ H1) as (H2 & E2).
  assert (info (emplace_thread t s).2 = info s) as Ei by apply E1. rewrite Ei in H2.
  split; [exact H2|]. destruct E1 as (?&?&?&?&?&?), E2 as (?&?&?&?&?&?). by split_and!; etrans.
Qed.

(** ** "Suspend threads if necessary" *)

Lemma decide_cons_ne (t x : tid) l : t <> x -> bool_decide (t ∈ x :: l) = bool_decide (t ∈ l).
Proof. intros H. apply bool_decide_ext. rewrite elem_of_cons. tauto. Qed.

Lemma suspend_loop_spec i l s : NoDup l -> 0 <= g_pending s ->
  let d := drop (n - i) l in
  let s' := suspend_loop n i l s in
  g_pending s + Z.of_nat (count (fun t => negb (suspend s t)) d) < 2 ^ 32 ->
  g_pending s' = g_pending s + Z.of_nat (count (fun t => negb (suspend s t)) d) /\
  (forall t, suspend s' t = suspend s t || bool_decide (t ∈ d)) /\
  (forall t, ack_suspend s' t = ack_suspend s t || (bool_decide (t ∈ d) && negb (suspend s t))) /\
  g_ppu s' = g_ppu s /\ g_waiting s' = g_waiting s /\ info s' = info s /\ signal s' = signal s /\
  g_scheduler_ready s' = g_scheduler_ready s /\ notify s' = notify s.
Proof.
  cbv zeta. revert i s. induction l as [|x l IH]; intros i s Hnd H0; cbn [suspend_loop].
  { rewrite drop_nil. intros _. split_and!; try done; [cbn; lia|..]; intros t;
      rewrite bool_decide_false by set_solver; by rewrite ?orb_false_r. }
  apply NoDup_cons in Hnd as [Hx Hnd]. destruct (Nat.leb_spec n i) as [Hi|Hi]; cbn [andb].
  2:{ replace (n - i)%nat with (S (n - S i)) in * by lia. cbn [drop]. intros Hb.
      apply (IH (S i) s Hnd H0 Hb). }
  replace (n - i)%nat with 0%nat in * by lia. change (drop 0 (x :: l)) with (x :: l). specialize (IH (S i)).
  replace (n - S i)%nat with 0%nat in IH by lia. change (drop 0 l) with l in IH.
  rewrite count_cons. destruct (suspend s x) eqn:Ex; cbn [negb Nat.b2n] in *; intros Hb.
  - destruct (IH s Hnd H0) as (H1 & H2 & H3 & H4); [lia|]. split; [lia|]. split; [|split; [|exact H4]].
    + intros t. rewrite H2. destruct (decide (t = x)) as [->|]; [by rewrite Ex|].
      by rewrite decide_cons_ne.
    + intros t. rewrite H3. destruct (decide (t = x)) as [->|]; [by rewrite Ex, !andb_false_r|].
      by rewrite decide_cons_ne.
  - set (s1 := set_flags _ _ _).
    assert (g_pending s1 = g_pending s + 1) as E1.
    { cbn. rewrite wrap_small; [done|]. split; lia. }
    assert (count (fun t => negb (suspend s1 t)) l = count (fun t => negb (suspend s t)) l) as E2.
    { apply count_ext. intros y Hy. cbn. rewrite upd_ne; [done|]. by intros ->. }
    destruct (IH s1 Hnd) as (H1 & H2 & H3 & H4); [lia|lia|]. split; [lia|].
    split; [|split; [|exact H4]].
    + intros t. rewrite H2. cbn. destruct (decide (t = x)) as [->|].
      * by rewrite upd_eq, Ex, (bool_decide_true (x ∈ x :: l)) by left.
      * by rewrite upd_ne, decide_cons_ne.
    + intros t. rewrite H3. cbn. destruct (decide (t = x)) as [->|].
      * by rewrite !upd_eq, Ex, (bool_decide_true (x ∈ x :: l)), orb_true_r by left.
      * by rewrite !upd_ne, decide_cons_ne.
Qed.

Lemma take_drop_disjoint (t : tid) l : NoDup l -> t ∈ take n l -> t ∉ drop n l.
Proof. rewrite <- (take_drop n l) at 1. intros (_ & Hd & _)%NoDup_app. apply Hd. Qed.

Lemma take_or_drop (t : tid) l : t ∈ l -> t ∈ take n l \/ t ∈ drop n l.
Proof. rewrite <- (take_drop n l) at 1. by rewrite elem_of_app. Qed.

Lemma suspend_loop_inv s l : core n s l ->
  let s' := suspend_loop n 0 l s in
  inv n s' l /\ info s' = info s /\ g_scheduler_ready s' = g_scheduler_ready s.
Proof.
  intros H. pose proof (core_nodup _ _ H) as Hnd.
  pose proof (core_pending _ _ H) as Hb. pose proof (c_pending _ _ _ H) as Hp.
  assert (forall f, count f l = count f (take n l) + count f (drop n l))%nat as Hc
    by (intros f; by rewrite <- count_app, take_drop).
  rewrite (Hc (fun t => negb (suspend s t))) in Hb.
  destruct (suspend_loop_spec 0 l s Hnd) as (H1 & H2 & H3 & Eq & Ew & Ei & Eg & Er & En).
  { lia. } { rewrite Nat.sub_0_r. lia. }
  rewrite Nat.sub_0_r in *. cbv zeta. set (s1 := suspend_loop n 0 l s) in *. split; [|done].
  assert (forall t, suspend s1 t = false -> suspend s t = false /\ t ∉ drop n l) as Hsus.
  { intros t. rewrite H2. intros [? ?%bool_decide_eq_false]%orb_false_iff. done. }
  split; [|intros t [Ht Hd]%Hsus; by destruct (take_or_drop t l (c_run _ _ _ H t Ht))].
  constructor; rewrite ?Eq, ?Ei, ?Ew, ?En; try apply H.
  - intros t [Ht _]%Hsus. by apply H.
  - intros t. rewrite H3, H2. intros [Ha|[Hd%bool_decide_eq_true _]%andb_true_iff]%orb_true_iff.
    + destruct (c_ack _ _ _ H t Ha) as [-> ?]. done.
    + rewrite bool_decide_true, orb_true_r by done. split; [done|]. by eapply subseteq_drop.
  - rewrite H1, Hp, Hc, (Hc (ack_suspend s1)).
    rewrite (count_ext (ack_suspend s1) (ack_suspend s) (take n l)).
    2:{ intros y Hy. rewrite H3, bool_decide_false by (by apply take_drop_disjoint).
        apply orb_false_r. }
    rewrite (count_disjoint (ack_suspend s) (fun t => negb (suspend s t)) (ack_suspend s1) (drop n l)).
    + lia.
    + intros y Hy. by rewrite H3, bool_decide_true.
    + intros y _ Ha. by rewrite (proj1 (c_ack _ _ _ H y Ha)).
  - rewrite (count_ext (runs s1) (runs s)); [apply H|]. intros y _. unfold runs. rewrite H2, H3.
    pose proof (c_ack _ _ _ H y) as Ha. destruct (suspend s y), (ack_suspend s y), (bool_decide _);
      try done; by destruct Ha.
Qed.

Lemma settle_core cur s l : core n s l ->
  exists s', settle n cur s = Some s' /\ inv n s' l /\ info s' = info s /\
    g_scheduler_ready s' = g_scheduler_ready s.
Proof.
  intros H. unfold settle. rewrite (core_targets _ _ H).
  destruct (suspend_loop_inv s l H) as ([Hc1 Hr1] & E1 & E2). set (s1 := suspend_loop n 0 l s) in *.
  destruct cur as [c|]; [destruct (ack_suspend s1 c) eqn:Ea|].
  - destruct (core_clear_ack c s1 l Hc1 Ea) as [Hz Hc2]. rewrite (proj2 (Z.eqb_neq _ _) Hz).
    eexists. split; [reflexivity|]. by split.
  - by exists s1.
  - by exists s1.
Qed.

(** ** [schedule_all] *)

Lemma wake_loop_spec l s : let s' := wake_loop l s in
  (forall t, suspend s' t = suspend s t && negb (bool_decide (t ∈ l))) /\
  g_ppu s' = g_ppu s /\ g_waiting s' = g_waiting s /\ info s' = info s /\
  ack_suspend s' = ack_suspend s /\ g_pending s' = g_pending s /\
  g_scheduler_ready s' = g_scheduler_ready s /\ notify s' = notify s.
Proof.
  cbv zeta. revert s. induction l as [|x l IH]; intros s; cbn [wake_loop].
  { split; [|done]. intros t. rewrite bool_decide_false by set_solver. by rewrite andb_true_r. }
  destruct (suspend s x) eqn:Ex.
  - destruct (IH (set_flags (upd x false (suspend s)) (upd x true (signal s)) s)) as [H E].
    split; [|exact E]. intros t. rewrite H. cbn. destruct (decide (t = x)) as [->|].
    + by rewrite upd_eq, (bool_decide_true (x ∈ x :: l)), andb_false_r by left.
    + by rewrite upd_ne, decide_cons_ne.
  - destruct (IH s) as [H E]. split; [|exact E]. intros t. rewrite H.
    destruct (decide (t = x)) as [->|]; [by rewrite Ex|]. by rewrite decide_cons_ne.
Qed.

Lemma core_expire cur now s l : inv n s l -> dispatched n s l ->
  exists r, expire cur now (g_waiting s) (notify s) = Some r /\
    let s' := set_notify r.2 (set_waiting r.1 s) in inv n s' l /\ dispatched n s' l.
Proof.
  intros [[Hq Hso Hpr Hru Hk Hp Hhw Hw Hnt] Hr] Hd.
  destruct (expire_ok cur now (g_waiting s) (notify s) (proj1 (proj2 Hw)) Hnt) as (w' & f' & E & Hs & Hf).
  exists (w', f'). split; [exact E|]. split; [|exact Hd]. split; [|exact Hr].
  constructor; auto. cbn. eapply timeouts_sublist; [exact Hs| |done]. done.
Qed.

Lemma schedule_all_inv cur now s l : inv n s l ->
  exists s', schedule_all n cur now s = Some s' /\
  inv n s' l /\ dispatched n s' l /\ info s' = info s /\ g_scheduler_ready s' = g_scheduler_ready s /\
  g_pending s' = g_pending s /\ ack_suspend s' = ack_suspend s.
Proof.
  intros H. unfold schedule_all. rewrite (core_targets s l) by apply H.
  destruct ((g_pending s =? 0) && g_scheduler_ready s) eqn:E.
  2:{ destruct (core_expire cur now s l H) as (r & -> & Hi & Hd); [intros Hp Hg; by rewrite Hp, Hg in E|].
      by eexists. }
  apply andb_true_iff in E as [Hp%Z.eqb_eq Hg].
  destruct (wake_loop_spec (take n l) s) as (Hs & Eq & Ew & Ei & Ea & Ep & Er & En).
  set (s1 := wake_loop (take n l) s) in *. destruct H as [H Hr].
  assert (forall t, suspend s1 t = false <-> t ∈ take n l) as Ht.
  { intros t. rewrite Hs, andb_false_iff, negb_false_iff, bool_decide_eq_true. naive_solver. }
  assert (forall t, ack_suspend s t = false) as Hack.
  { intros t. destruct (ack_suspend s t) eqn:E; [|done]. destruct (c_ack _ _ _ H t E) as [_ Hl].
    rewrite (c_pending _ _ _ H) in Hp. by rewrite (count_zero _ l t) in E by (done || lia). }
  assert (inv n s1 l) as Hi.
  { split; [|naive_solver]. constructor; rewrite ?Eq, ?Ei, ?Ew, ?Ea, ?Ep, ?En; try apply H.
    - intros t Hx%Ht. by eapply subseteq_take.
    - intros t. by rewrite Hack.
    - rewrite <- (take_drop n l), count_app.
      rewrite (count_none (runs s1) (drop n l)), Nat.add_0_r.
      + etrans; [apply count_length|]. rewrite length_take. lia.
      + intros t Hd. unfold runs. rewrite Ea, Hack, orb_false_r. apply negb_false_iff.
        destruct (suspend s1 t) eqn:E; [done|]. apply Ht in E.
        by destruct (take_drop_disjoint t l (core_nodup _ _ H) E). }
  destruct (core_expire cur now s1 l Hi) as (r & -> & Hi' & Hd'); [by intros _ _|].
  eexists. split; [reflexivity|]. split; [exact Hi'|]. split; [exact Hd'|]. done.
Qed.

(** ** [awake_unlocked] *)

Lemma enqueue_inv cur t ts s l : inv n s l ->
  exists s', awake_unlocked n cur (Enqueue t) ts s = Some s' /\ inv n s' (wake (info s) l t) /\
    info s' = info s /\ g_scheduler_ready s' = g_scheduler_ready s.
Proof.
  intros [H _]. destruct (emplace_thread_core t s l H) as [H1 E].
  destruct (settle_core cur _ _ H1) as (s' & Hs & Hi & E1 & E2).
  exists s'. split; [exact Hs|]. split; [exact Hi|]. rewrite E1, E2. by destruct E as (?&?&?&?&?&?).
Qed.

Lemma enqueue_list_inv cur ts s l : core n s l ->
  exists s', awake_unlocked n cur EnqueueList ts s = Some s' /\
    inv n s' (foldl (wake (info s)) l ts) /\ info s' = info s /\
    g_scheduler_ready s' = g_scheduler_ready s.
Proof.
  intros H. destruct (emplace_all_core ts false s l H) as [H1 E].
  destruct (settle_core cur _ _ H1) as (s' & Hs & Hi & E1 & E2).
  exists s'. split; [exact Hs|]. split; [exact Hi|]. rewrite E1, E2. by destruct E as (?&?&?&?&?&?).
Qed.

Lemma core_queue q s l l' : core n s l -> l' ≡ₚ l -> is_queue q l' -> by_prio (info s) l' ->
  core n (set_queue q s) l'.
Proof. intros H Hl Hq Hs. exact (core_reorder q (info s) (tag s) s l l' H Hl Hq Hs (c_prio _ _ _ H)). Qed.

Definition yielded (i : tid -> thread_info) (t : tid) (l : list tid) : list tid :=
  if decide (t ∈ l) then requeue i t l else l.

Lemma yielded_perm i t l : NoDup l -> yielded i t l ≡ₚ l.
Proof. unfold yielded. intros. destruct (decide _); [by apply requeue_perm|done]. Qed.

Lemma yielded_by_prio i t l : by_prio i l -> by_prio i (yielded i t l).
Proof. unfold yielded. intros. destruct (decide _); [by apply insert_by_prio, remove_by_prio|done]. Qed.

Lemma yield_inv cur t s l : inv n s l ->
  exists s', awake_unlocked n cur (YieldCmd t) [] s = Some s' /\ inv n s' (yielded (info s) t l) /\
    info s' = info s /\ g_scheduler_ready s' = g_scheduler_ready s.
Proof.
  intros [H Hr]. cbn [awake_unlocked emplace_all snd]. pose proof (c_queue _ _ _ H) as Hq.
  pose proof (yield_loop_spec (S (enough (g_ppu s))) n (info s) t [] l (g_ppu s) Hq (c_sorted _ _ _ H)
    ltac:(set_solver)) as Hy.
  change (slot_of []) with First in Hy. specialize (Hy ltac:(pose proof (queue_fuel _ _ Hq); lia)).
  cbn [app length] in Hy. fold (yielded (info s) t l) in Hy. cbv zeta in Hy. destruct Hy as [Hq' Ht].
  pose proof (core_queue _ s l _ H (yielded_perm (info s) t l (core_nodup _ _ H)) Hq'
    (yielded_by_prio _ t _ (c_sorted _ _ _ H))) as Hc.
  destruct (yield_loop _ _ _ _ _ _ _) as [[] q']; cbn [fst snd] in *.
  - destruct (settle_core cur _ _ Hc) as (s' & Hs & Hi & E). by exists s'.
  - eexists. split; [reflexivity|]. split; [|done]. split; [exact Hc|].
    intros y Hy. rewrite (Ht eq_refl). by apply Hr.
Qed.

Lemma prio_upd (i : tid -> thread_info) t r p y : prio r = p ->
  prio (upd t r i y) = upd t p (fun y => prio (i y)) y.
Proof. intros <-. unfold upd. by destruct (_ =? _). Qed.

Lemma upd_same_prio (i : tid -> thread_info) t r l : (t ∈ l -> prio r = prio (i t)) -> by_prio i l ->
  by_prio (upd t r i) l.
Proof.
  intros H. apply by_prio_ext. intros y Hy. destruct (decide (y = t)) as [->|].
  - rewrite upd_eq. auto.
  - by rewrite upd_ne.
Qed.

Lemma upd_prio_ok (i : tid -> thread_info) t r : sgn 13 (prio r) = prio r ->
  (forall y, sgn 13 (prio (i y)) = prio (i y)) ->
  forall y, sgn 13 (prio (upd t r i y)) = prio (upd t r i y).
Proof. intros Hr Hi y. unfold upd. by destruct (_ =? _). Qed.

(** Only the record of a thread outside the queue changes, or its priority does not. *)
Lemma inv_info t r g s l : inv n s l -> sgn 13 (prio r) = prio r ->
  (t ∈ l -> prio r = prio (info s t)) -> inv n (set_info (upd t r (info s)) g s) l.
Proof.
  intros [H Hr] Hp Ht. split; [|exact Hr].
  apply (core_reorder (g_ppu s) (upd t r (info s)) g s l l H); [done|apply H| |].
  - apply upd_same_prio; [done|apply H].
  - apply upd_prio_ok; [done|apply H].
Qed.

(** A queued thread gets another priority. *)
Lemma move_core t r g s l : core n s l -> t ∈ l -> sgn 13 (prio r) = prio r ->
  let i := upd t r (info s) in
  let s1 := set_info i g (set_queue (unqueue true (enough (g_ppu s)) t (g_ppu s)).2 s) in
  core n (emplace_thread t s1).2 (requeue i t l) /\ info (emplace_thread t s1).2 = i /\
  g_scheduler_ready (emplace_thread t s1).2 = g_scheduler_ready s.
Proof.
  intros H Ht Hr i. pose proof (c_queue _ _ _ H) as Hq. pose proof (core_nodup _ _ H) as Hnd.
  pose proof (unqueue_spec true _ t _ _ Hq (queue_fuel _ _ Hq)) as Hu.
  rewrite decide_True in Hu by done. destruct Hu as (q' & -> & Hq' & _). cbn [snd].
  assert (t ∉ list_remove_id t l) as Hnt by (rewrite elem_of_remove_id; tauto).
  assert (by_prio i (list_remove_id t l)) as Hs.
  { apply upd_same_prio; [done|]. apply remove_by_prio, H. }
  unfold emplace_thread. cbn [set_info set_queue g_ppu Sched.info].
  pose proof (emplace_loop_spec (S (enough q')) i t [] _ q' Hq' Hs ltac:(set_solver)) as He.
  specialize (He ltac:(pose proof (queue_fuel _ _ Hq'); lia)). rewrite decide_False in He by done.
  change (slot_of []) with First in He. destruct He as (q2 & -> & Hq2). cbn [fst snd app] in *.
  split; [|done]. cbn [set_info set_queue g_waiting].
  rewrite unregister_id by (intros Hw; by apply (c_waiting _ _ _ H) in Hw).
  apply (core_reorder q2 i g s l (requeue i t l) H); [by apply requeue_perm|done| |].
  - by apply insert_by_prio.
  - apply upd_prio_ok; [done|apply H].
Qed.

Lemma set_prio_inv cur t p s l : inv n s l -> sgn 13 p = p ->
  exists s', awake_unlocked n cur (SetPrio t p) [] s = Some s' /\
    (forall y, prio (info s' y) = upd t p (fun y => prio (info s y)) y) /\
    inv n s' (if (prio (info s t) =? p) && bool_decide (cur = Some t) then l
              else yielded (info s') t l) /\
    g_scheduler_ready s' = g_scheduler_ready s.
Proof.
  intros H Hp. cbn [awake_unlocked].
  destruct ((prio (info s t) =? p) && bool_decide (cur = Some t)) eqn:E.
  { apply andb_true_iff in E as [E%Z.eqb_eq _]. eexists. split; [reflexivity|].
    split; [by intros y; apply prio_upd|]. split; [|done].
    apply inv_info; cbn; [done|by rewrite Hp|by rewrite Hp]. }
  pose proof (c_queue _ _ _ (proj1 H)) as Hq.
  pose proof (unqueue_spec true _ t _ _ Hq (queue_fuel _ _ Hq)) as Hu. unfold yielded.
  destruct (decide (t ∈ l)) as [Ht|Ht].
  - destruct Hu as (q' & Eu & _). rewrite Eu. cbn [fst]. rewrite <- Eu.
    set (r := set_prio p false false (tag s) (info s t)).
    destruct (move_core t r.1 r.2 s l (proj1 H) Ht) as (Hc & Ei & Er); [cbn; by rewrite Hp|].
    destruct (settle_core cur _ _ Hc) as (s' & Hs & Hi & E1 & E2). exists s'. split; [exact Hs|].
    rewrite E1, Ei, E2, Er. split; [by intros y; apply prio_upd|]. done.
  - rewrite Hu. cbn [fst]. eexists. split; [reflexivity|].
    split; [by intros y; apply prio_upd|]. split; [|done].
    apply inv_info; cbn; [done|by rewrite Hp|done].
Qed.
End Operations.

(** ** The run queue as its clients see it *)

(** The threads that want to execute, and the priorities. *)
Record spec := Spec { ready : list tid; base : tid -> Z }.

(** Behind everyone of the same or a better priority, ahead of everyone else. *)
Definition place (p : tid -> Z) (t : tid) (l : list tid) : list tid :=
  filter (fun y => p y <= p t) l ++ t :: filter (fun y => p t < p y) l.

Inductive qop := QSleep (t : tid) | QWake (t : tid) | QYield (t : tid) | QPrio (t : tid) (p : Z).

Definition spec_step (a : spec) (o : qop) : spec :=
  match o with
  | QSleep t => Spec (list_remove_id t (ready a)) (base a)
  | QWake t => if decide (t ∈ ready a) then a else Spec (place (base a) t (ready a)) (base a)
  | QYield t =>
      if decide (t ∈ ready a) then Spec (place (base a) t (list_remove_id t (ready a))) (base a) else a
  | QPrio t p =>
      let base' := upd t p (base a) in
      Spec (if decide (t ∈ ready a) then place base' t (list_remove_id t (ready a)) else ready a) base'
  end.

(** What an operation means for the run queue. *)
Definition emits (o : op) (s : state) : list qop :=
  match o with
  | Sleep _ t _ _ l => (if signal s t then [] else [QSleep t]) ++ map QWake l
  | AwakeAll _ l _ | Ready _ l _ => map QWake l
  | Awake _ t _ | Ack t _ => [QWake t]
  | Yield _ t _ => [QYield t]
  | SetPriority cur t p _ =>
      if (prio (info s t) =? p) && bool_decide (cur = Some t) then [] else [QPrio t p]
  | Resume _ | CheckState _ | Cancel _ | FutureSleep _ => []
  end.

(** The operations of a run, in order. *)
Fixpoint trace (n : nat) (os : list op) (s : state) : list qop :=
  match os with
  | [] => []
  | o :: os => emits o s ++ match step n o s with Some s' => trace n os s' | None => [] end
  end.

(** The argument of [set_priority] is an [s32]. *)
Definition op_ok (o : op) : Prop :=
  match o with SetPriority _ _ p _ => - 2 ^ 31 <= p < 2 ^ 31 | _ => True end.

(** What the scheduler asks of its callers, in the state in which they call it: a priority in range, and no
    unanswered notification when going to sleep with a timeout. *)
Definition caller_ok (o : op) (s : state) : bool :=
  match o with
  | Sleep _ t timeout _ _ => may_sleep t timeout s
  | SetPriority _ _ p _ => (-512 <=? p) && (p <? 3200)
  | _ => true
  end.

(** Along a run. *)
Fixpoint callers_ok (n : nat) (os : list op) (s : state) : bool :=
  match os with
  | [] => true
  | o :: os => caller_ok o s && match step n o s with Some s => callers_ok n os s | None => true end
  end.

Lemma keep_all (P : tid -> Prop) `{!forall y, Decision (P y)} (l : list tid) :
  (forall y, y ∈ l -> P y) -> filter P l = l.
Proof.
  induction l as [|y l IH]; intros Hl; [done|]. rewrite filter_cons, decide_True by (apply Hl; set_solver).
  f_equal. apply IH. set_solver.
Qed.

Lemma keep_none (P : tid -> Prop) `{!forall y, Decision (P y)} (l : list tid) :
  (forall y, y ∈ l -> ~ P y) -> filter P l = [].
Proof.
  induction l as [|y l IH]; intros Hl; [done|]. rewrite filter_cons, decide_False by (apply Hl; set_solver).
  apply IH. set_solver.
Qed.

Lemma place_insert info p t l : (forall y, prio (info y) = p y) -> by_prio info l ->
  insert_prio info t l = place p t l.
Proof.
  intros Hp. unfold place. induction 1 as [|x l Hs IH Hf]; [done|]. cbn [insert_prio].
  rewrite !Hp, !filter_cons. destruct (Z.ltb_spec (p t) (p x)).
  - rewrite decide_False by lia. rewrite decide_True by lia. rewrite list.Forall_forall in Hf.
    assert (forall y, y ∈ l -> p t < p y) as Hy by (intros y Hy%Hf; rewrite !Hp in Hy; lia).
    assert (filter (fun y => p y <= p t) l = []) as ->.
    { apply keep_none. intros y Hin%Hy. lia. }
    by rewrite keep_all.
  - rewrite decide_True by lia. rewrite decide_False by lia. by rewrite IH.
Qed.

(** The spec state of a run queue. *)
Definition agrees (s : state) (a : spec) : Prop := forall y, prio (info s y) = base a y.

Section Step.
Context (n : nat) (Hn : Z.of_nat n < 2 ^ 32).

Lemma wake_spec a i t : (forall y, prio (i y) = base a y) -> by_prio i (ready a) ->
  Spec (wake i (ready a) t) (base a) = spec_step a (QWake t).
Proof.
  intros Hb Hs. unfold wake. cbn [spec_step]. destruct (decide _); [by destruct a|].
  by rewrite (place_insert i (base a)).
Qed.

Lemma wake_by_prio i l t : by_prio i l -> by_prio i (wake i l t).
Proof. unfold wake. destruct (decide _); [done|]. apply insert_by_prio. Qed.

Lemma wakes_spec a i ts : (forall y, prio (i y) = base a y) -> by_prio i (ready a) ->
  Spec (foldl (wake i) (ready a) ts) (base a) = foldl spec_step a (map QWake ts).
Proof.
  revert a. induction ts as [|t ts IH]; intros a Hb Hs; cbn [foldl map]; [by destruct a|].
  rewrite <- (wake_spec a i t Hb Hs). rewrite <- IH; [done|done|]. cbn. by apply wake_by_prio.
Qed.

Lemma yielded_spec a i t : (forall y, prio (i y) = base a y) -> by_prio i (ready a) ->
  Spec (yielded i t (ready a)) (base a) = spec_step a (QYield t).
Proof.
  intros Hb Hs. unfold yielded. cbn [spec_step]. destruct (decide _); [|by destruct a].
  unfold requeue. rewrite (place_insert i (base a)); [done|done|]. by apply remove_by_prio.
Qed.

(** A step of the implementation: no [ensure] fails, the invariant is kept, the first threads
    execute, the queue moves as specified. *)
Definition step_good (o : op) (s : state) (a : spec) : Prop :=
  exists s', step n o s = Some s' /\
    let a' := foldl spec_step a (emits o s) in
    inv n s' (ready a') /\ agrees s' a' /\ dispatched n s' (ready a').

(** [schedule_all] ends every operation. *)
Lemma finish_step o cur now s a (r : option state) s1 :
  step n o s = (s' ← r; schedule_all n cur now s') -> r = Some s1 ->
  let a' := foldl spec_step a (emits o s) in
  inv n s1 (ready a') -> agrees s1 a' -> step_good o s a.
Proof.
  intros Es -> a' Hi Ha. destruct (schedule_all_inv n Hn cur now s1 _ Hi) as (s2 & E2 & H1 & H2 & Ei & _).
  exists s2. split; [by rewrite Es|]. split; [exact H1|]. split; [|exact H2].
  intros y. by rewrite Ei.
Qed.

Lemma sleep_good cur t timeout now ts s a : inv n s (ready a) -> agrees s a -> may_sleep t timeout s = true ->
  step_good (Sleep cur t timeout now ts) s a.
Proof.
  intros [H Hr] Ha Hok.
  destruct (sleep_unlocked_core n Hn t timeout now s _ H Hok) as (b & s1 & E1 & H1 & Es & _ & Ei & _).
  set (a1 := foldl spec_step a (if signal s t then [] else [QSleep t])).
  assert (core n s1 (ready a1) /\ base a1 = base a) as [Hc Hb]
    by (unfold a1; destruct (signal s t); by split).
  assert (forall y, suspend s1 y = false -> y ∈ take n (ready a1)) as Hr1.
  { unfold a1. rewrite Es. destruct (signal s t); [exact Hr|]. intros y Hy. cbn.
    destruct (decide (y = t)) as [->|]; [by rewrite upd_eq in Hy|]. rewrite upd_ne in Hy by done.
    apply take_remove; auto. }
  assert (agrees s1 a1) as Ha1 by (intros y; by rewrite Ei, Hb).
  assert (foldl spec_step a (emits (Sleep cur t timeout now ts) s) =
    Spec (foldl (wake (info s1)) (ready a1) ts) (base a1)) as Ea.
  { cbn [emits]. rewrite foldl_app. fold a1. symmetry. apply wakes_spec; [exact Ha1|apply Hc]. }
  destruct (decide (ts = [])) as [->|Hts].
  - eapply (finish_step _ cur now s a (Some s1)); [|reflexivity|rewrite Ea..]; [|by split|exact Ha1].
    cbn [step]. unfold sleep. by rewrite E1.
  - destruct (enqueue_list_inv n Hn cur ts s1 _ Hc) as (s2 & E2 & Hi & Ei2 & _).
    eapply (finish_step _ cur now s a (Some s2)); [|reflexivity|rewrite Ea..]; [|exact Hi|].
    + cbn [step]. unfold sleep. rewrite E1. cbn [mbind option_bind snd]. rewrite bool_decide_false by done.
      by rewrite E2.
    + intros y. rewrite Ei2. apply Ha1.
Qed.

Lemma awake_all_good cur ts now s s0 o a : inv n s (ready a) -> agrees s a ->
  step n o s0 = awake n cur EnqueueList ts now s -> emits o s0 = map QWake ts -> step_good o s0 a.
Proof.
  intros [H Hr] Ha Es Ee. destruct (enqueue_list_inv n Hn cur ts s _ H) as (s2 & E2 & Hi & Ei2 & _).
  eapply (finish_step _ cur now s0 a _ s2 Es E2); rewrite Ee, <- (wakes_spec a (info s)).
  all: try exact Ha. all: try apply H. all: try exact Hi. intros y. rewrite Ei2. apply Ha.
Qed.

Lemma awake_good cur t now s o a : inv n s (ready a) -> agrees s a ->
  step n o s = awake n cur (Enqueue t) [] now s -> emits o s = [QWake t] -> step_good o s a.
Proof.
  intros H Ha Es Ee. destruct (enqueue_inv n Hn cur t [] s _ H) as (s2 & E2 & Hi & Ei2 & _).
  eapply (finish_step _ cur now s a _ s2 Es E2); rewrite Ee; cbn [foldl]; rewrite <- (wake_spec a (info s)).
  all: try exact Ha. all: try apply H. all: try exact Hi. intros y. rewrite Ei2. apply Ha.
Qed.

(** A thread without successor is the last of the queue, or not in it. *)
Lemma yield_last i t q l : is_queue q l -> nodes q !! t = None -> by_prio i l -> yielded i t l = l.
Proof.
  intros Hq Hnone Hs. unfold yielded. destruct (decide (t ∈ l)) as [Ht|]; [|done].
  pose proof (seg_nodup _ _ _ Hq) as Hnd. apply list_elem_of_split in Ht as (l1 & l2 & ->).
  rewrite (seg_next _ _ _ _ _ Hq) in Hnone. destruct l2; [|done]. by rewrite requeue_equals.
Qed.

Lemma yield_good cur t now s a : inv n s (ready a) -> agrees s a -> dispatched n s (ready a) ->
  step_good (Yield cur t now) s a.
Proof.
  intros H Ha Hd.
  assert (foldl spec_step a (emits (Yield cur t now) s) = Spec (yielded (info s) t (ready a)) (base a))
    as Ea by (symmetry; apply yielded_spec; [exact Ha|apply H]).
  destruct (nodes (g_ppu s) !! t) as [u|] eqn:E.
  - destruct (yield_inv n Hn cur t s _ H) as (s2 & E2 & Hi & Ei2 & _).
    eapply (finish_step _ cur now s a (Some s2)); [|reflexivity|rewrite Ea..]; [|exact Hi|].
    + cbn [step]. unfold yield, awake. by rewrite E, E2.
    + intros y. rewrite Ei2. apply Ha.
  - exists s. rewrite Ea. rewrite (yield_last _ t (g_ppu s)) by (done || apply H).
    split; [cbn [step]; unfold yield; by rewrite E|]. done.
Qed.

Lemma set_priority_good cur t p now s a : inv n s (ready a) -> agrees s a -> -512 <= p < 3200 ->
  step_good (SetPriority cur t p now) s a.
Proof.
  intros H Ha Hp. assert (sgn 13 p = p) as Hp13 by (apply sgn_small; split; lia).
  destruct (set_prio_inv n Hn cur t p s _ H Hp13) as (s2 & E2 & Hpr & Hi & _).
  assert (step n (SetPriority cur t p now) s = (s' ← Some s2; schedule_all n cur now s')) as Es.
  { cbn [step]. unfold set_priority, awake. rewrite E2, wrap_small by (split; lia).
    by rewrite (proj2 (Z.ltb_lt _ _)) by lia. }
  assert (forall y, prio (info s2 y) = upd t p (base a) y) as Hpr'.
  { intros y. rewrite Hpr. destruct (decide (y = t)) as [->|]; [by rewrite !upd_eq|].
    rewrite !upd_ne by done. apply Ha. }
  eapply (finish_step _ cur now s a _ s2 Es eq_refl); cbn [emits];
    destruct ((prio (info s t) =? p) && bool_decide (cur = Some t)) eqn:Eb; cbn [foldl].
  - exact Hi.
  - replace (ready _) with (yielded (info s2) t (ready a)); [exact Hi|].
    cbn [spec_step ready]. unfold yielded. destruct (decide _) as [Ht|]; [|done].
    apply place_insert; [exact Hpr'|]. eapply by_prio_ext; [|by apply remove_by_prio, H].
    intros y [_ Hy]%elem_of_remove_id. by rewrite Hpr, upd_ne.
  - apply andb_true_iff in Eb as [<-%Z.eqb_eq _]. intros y. rewrite Hpr.
    destruct (decide (y = t)) as [->|]; [rewrite upd_eq|rewrite upd_ne by done]; apply Ha.
  - exact Hpr'.
Qed.

Lemma step_ok o s a : inv n s (ready a) -> agrees s a -> dispatched n s (ready a) ->
  caller_ok o s = true -> step_good o s a.
Proof.
  intros H Ha Hd Ho. destruct o as [cur t timeout now l|cur l now|cur t now|cur t now|cur t p now|cur l now
    |t now|t|t|t|t].
  - by apply sleep_good.
  - by apply (awake_all_good cur l now s).
  - by apply (awake_good cur t now).
  - by apply yield_good.
  - apply set_priority_good; [done|done|]. cbn [caller_ok] in Ho. lia.
  - eapply (awake_all_good cur l now); [| |reflexivity|done]; [|exact Ha].
    destruct H as [[] ?]. by split; [constructor|].
  - by apply (awake_good (Some t) t now).
  - eexists. split; [reflexivity|]. cbn [emits foldl]. split; [|by split].
    split; [|apply H]. apply core_signal, H.
  - eexists. split; [reflexivity|]. cbn [emits foldl]. split; [|by split].
    split; [|apply H]. destruct H as [[] ?]. constructor; auto. cbn. intros u Hu.
    destruct (decide (u = t)) as [->|]; [by rewrite upd_eq|rewrite upd_ne by done; auto].
  - eexists. split; [reflexivity|]. cbn [emits foldl]. split; [|by split].
    split; [|apply H]. apply core_cancel, H.
  - eexists. split; [reflexivity|]. cbn [emits foldl]. split; [|by split].
    split; [|apply H]. apply core_to_sleep, H.
Qed.

Lemma run_good os s a : inv n s (ready a) -> agrees s a -> dispatched n s (ready a) ->
  callers_ok n os s = true ->
  exists s', run n os s = Some s' /\
    let a' := foldl spec_step a (trace n os s) in
    inv n s' (ready a') /\ agrees s' a' /\ dispatched n s' (ready a').
Proof.
  revert s a. induction os as [|o os IH]; intros s a H Ha Hd Ho; cbn [run trace callers_ok] in *.
  { by exists s. }
  apply andb_true_iff in Ho as [Ho1 Ho2].
  destruct (step_ok o s a H Ha Hd Ho1) as (s1 & E1 & H1 & Ha1 & Hd1). rewrite E1, foldl_app in *.
  exact (IH s1 _ H1 Ha1 Hd1 Ho2).
Qed.

(** The calls of a run that does not fail were right. *)
Lemma step_caller o s s' : op_ok o -> step n o s = Some s' -> caller_ok o s = true.
Proof using Type.
  clear Hn. destruct o; cbn [op_ok step caller_ok]; intros Ho E; try done.
  - unfold sleep in E. destruct (sleep_unlocked t timeout current_time s) as [r|] eqn:Er; [|discriminate E].
    unfold sleep_unlocked in Er. unfold may_sleep. destruct (ack_suspend s t); cbn in Er;
      destruct (signal s t), (timeout =? 0), (notify s t); try done.
  - unfold set_priority in E. destruct (Z.ltb_spec (wrap 32 (p + 512)) 3712) as [Hlt|]; [|discriminate E].
    apply andb_true_iff. unfold wrap in Hlt. Z.to_euclidean_division_equations. lia.
Qed.

Lemma run_callers os s s' : Forall op_ok os -> run n os s = Some s' -> callers_ok n os s = true.
Proof using Type.
  clear Hn. revert s. induction os as [|o os IH]; intros s Ho E; [done|]. inversion_clear Ho as [|? ? Ho1 Ho2].
  cbn [run callers_ok] in *. destruct (step n o s) as [s1|] eqn:E1; [|discriminate E].
  rewrite (step_caller o s s1 Ho1 E1). by apply IH.
Qed.

Lemma init_good i : (forall t, sgn 13 (prio (i t)) = prio (i t)) ->
  let a := Spec [] (fun t => prio (i t)) in
  inv n (init i) (ready a) /\ agrees (init i) a /\ dispatched n (init i) (ready a).
Proof.
  intros Hi. cbn. split; [|split; [done|]].
  - split; [|done]. constructor; cbn; try done; [constructor|lia|].
    split; [constructor|]. split; [constructor|set_solver].
  - intros _ Hr. done.
Qed.

(** ** Threads that stop *)

Lemma settle_acks cur s l s' : inv n s l -> settle n cur s = Some s' ->
  forall t, ack_suspend s' t = ack_suspend s t && negb (bool_decide (cur = Some t)).
Proof.
  intros [H Hr]. unfold settle. rewrite (core_targets _ _ _ H). pose proof (core_nodup _ _ _ H) as Hnd.
  pose proof (core_pending _ _ _ H) as Hb. pose proof (c_pending _ _ _ H) as Hp.
  assert (count (fun t => negb (suspend s t)) (drop n l) = 0%nat) as Hz.
  { apply count_none. intros y Hy. apply negb_false_iff. destruct (suspend s y) eqn:E; [done|].
    by destruct (take_drop_disjoint n y l Hnd (Hr y E)). }
  destruct (suspend_loop_spec n Hn 0 l s Hnd) as (_ & _ & H3 & _); [lia|rewrite Nat.sub_0_r, Hz; lia|].
  rewrite Nat.sub_0_r in H3. set (s1 := suspend_loop n 0 l s) in *.
  assert (forall t, ack_suspend s1 t = ack_suspend s t) as Ha.
  { intros t. rewrite H3. destruct (bool_decide (t ∈ drop n l)) eqn:E; [|apply orb_false_r].
    apply bool_decide_eq_true in E. rewrite (count_zero (fun t => negb (suspend s t)) _ t Hz E).
    apply orb_false_r. }
  destruct cur as [c|]; [destruct (ack_suspend s1 c) eqn:Ec; [destruct (_ =? 0); [done|]|]|];
    intros [= <-] t; cbn [ack_suspend set_ack]; rewrite <- ?Ha.
  - destruct (decide (t = c)) as [->|]; [by rewrite upd_eq, bool_decide_true, andb_false_r|].
    by rewrite upd_ne, bool_decide_false, andb_true_r by congruence.
  - destruct (decide (t = c)) as [->|]; [by rewrite Ec|].
    by rewrite bool_decide_false, andb_true_r by congruence.
  - by rewrite bool_decide_false, andb_true_r.
Qed.

Lemma ack_step t now s l : inv n s l -> ack_suspend s t = true ->
  exists s', step n (Ack t now) s = Some s' /\ inv n s' l /\ dispatched n s' l /\
    (forall y, ack_suspend s' y = ack_suspend s y && negb (bool_decide (Some t = Some y))) /\
    info s' = info s /\ g_scheduler_ready s' = g_scheduler_ready s.
Proof.
  intros H Ht. destruct (c_ack _ _ _ (proj1 H) t Ht) as [_ Hl].
  assert (wake (info s) l t = l) as Ew by (unfold wake; by rewrite decide_True).
  destruct (emplace_thread_core n Hn t s l (proj1 H)) as [H1 E]. rewrite Ew in H1.
  set (s1 := (emplace_thread t s).2) in *. destruct E as (Es & _ & Ea & Ei & Er & _).
  assert (inv n s1 l) as Hi1 by (split; [done|rewrite Es; apply H]).
  destruct (settle_core n Hn (Some t) s1 l H1) as (s2 & E2 & Hi2 & Ei2 & Er2).
  destruct (schedule_all_inv n Hn (Some t) now s2 l Hi2) as (s3 & E3 & H3 & Hd3 & Ei3 & Er3 & _ & Ea3).
  exists s3. split.
  { cbn [step]. unfold awake. cbn [awake_unlocked]. fold s1. by rewrite E2. }
  split; [exact H3|]. split; [exact Hd3|]. split; [|split; congruence].
  intros y. rewrite Ea3, (settle_acks (Some t) s1 l s2 Hi1 E2), Ea. done.
Qed.

Lemma acks_run now l as_ s : inv n s l -> NoDup as_ -> (forall t, ack_suspend s t = true <-> t ∈ as_) ->
  dispatched n s l ->
  exists s', run n (map (fun t => Ack t now) as_) s = Some s' /\ inv n s' l /\ dispatched n s' l /\
    g_pending s' = 0 /\ info s' = info s /\ g_scheduler_ready s' = g_scheduler_ready s.
Proof.
  revert s. induction as_ as [|t as_ IH]; intros s H Hnd Ha Hd; cbn [map run].
  { exists s. split; [done|]. split; [done|]. split; [done|]. split; [|done].
    rewrite (c_pending _ _ _ (proj1 H)), count_none; [done|]. intros y _.
    destruct (ack_suspend s y) eqn:E; [|done]. apply Ha in E. set_solver. }
  apply NoDup_cons in Hnd as [Ht Hnd].
  destruct (ack_step t now s l H) as (s1 & -> & H1 & Hd1 & Ha1 & Ei & Er); [apply Ha; set_solver|].
  destruct (IH s1 H1 Hnd) as (s' & E' & H' & Hd' & Hp' & Ei' & Er'); [|done|].
  - intros y. rewrite Ha1, andb_true_iff, negb_true_iff, bool_decide_eq_false, Ha. set_solver.
  - exists s'. by rewrite <- Ei, <- Er.
Qed.

Lemma position_take t l : forall i m,
  t ∈ take m l <-> exists pos, position t i l = Some pos /\ (pos < i + m)%nat.
Proof.
  induction l as [|x l IH]; intros i m; cbn [position]; [rewrite take_nil; set_solver|].
  assert (forall j l pos, position t j l = Some pos -> (j <= pos)%nat) as Hge.
  { clear. intros j l. revert j. induction l as [|x l IH]; intros j pos; cbn [position]; [done|].
    destruct (x =? t); [intros [= ->]; lia|]. intros H%IH. lia. }
  destruct m as [|m]; cbn [take].
  { split; [set_solver|]. intros (pos & Hp & Hlt). destruct (x =? t); [injection Hp; lia|].
    apply Hge in Hp. lia. }
  rewrite elem_of_cons. destruct (Z.eqb_spec x t) as [->|Hne].
  - split; [|by left]. intros _. exists i. split; [done|lia].
  - rewrite (IH (S i) m). rewrite <- Nat.add_succ_comm. naive_solver.
Qed.

Lemma onproc_iff s l b t : core n s l ->
  (exists pos, ppu_state n false Joinable b t s = ONPROC pos) <-> t ∈ take n l.
Proof.
  intros H. rewrite (position_take t l 0 n). unfold ppu_state. rewrite (core_targets _ _ _ H).
  destruct (position t 0 l) as [pos|]; [|destruct b; naive_solver].
  destruct (Nat.leb_spec n pos); split; intros (x & Hx); [done|naive_solver lia| |by eexists].
  exists pos. split; [done|lia].
Qed.

End Step.

(** ** The properties *)

(** Every thread's priority is a 13-bit number, as the field of [ppu_prio_t] is. *)
Definition prio_ok (i : tid -> thread_info) : Prop := forall t, sgn 13 (prio (i t)) = prio (i t).

Definition started (i : tid -> thread_info) : spec := Spec [] (fun t => prio (i t)).

(** C8: For every sequence of sleeps, awakenings, yields, priority changes and acknowledgements, by
    any threads, with 13-bit priorities at the start, on fewer than 2^32 hardware threads, in which the callers do what the scheduler asks of
    them (priorities between -512 and 3199, and no thread goes to sleep with a timeout while the notification of an
    earlier timeout is unanswered), no [ensure] of the scheduler fails: a thread asked to stop is counted in
    [g_pending] when it answers, and a thread whose timeout expires has not been notified before.
    And afterwards: the run queue is a
    duplicate-free linked list sorted by priority; only threads among its first
    [ppu_threads] are not suspended; a thread that was asked to stop is suspended and queued, and
    [g_pending] is the number of these threads, without wrapping around; at most [ppu_threads]
    threads execute, those asked to stop included; the timeouts are sorted by deadline, belong
    to threads outside the run queue that are not notified, and no thread has two. *)
Theorem sched_invariant n i os : Z.of_nat n < 2 ^ 32 -> prio_ok i -> callers_ok n os (init i) = true ->
  exists s l, run n os (init i) = Some s /\ inv n s l.
Proof.
  intros Hn Hi Ho. destruct (init_good n Hn i Hi) as (H & Ha & Hd).
  destruct (run_good n Hn os _ _ H Ha Hd Ho) as (s & E & Hs & _). by eexists s, _.
Qed.

(** C18: The pointer manipulations of the scheduler implement the run queue as a list: after any run in
    which no [ensure] fails (see the invariant of the scheduler), from 13-bit priorities and on fewer than 2^32 hardware threads,
    the linked list [g_ppu] holds the threads in the order given by the sleeps, wake-ups, yields and
    priority changes of the run, where a thread that is awakened, yields or gets another
    priority is placed behind all threads of the same or a better priority and ahead of all others,
    and waking a queued thread or a yield of a thread alone at its priority changes nothing. *)
Theorem run_queue_refines n i os s : Z.of_nat n < 2 ^ 32 -> prio_ok i -> Forall op_ok os ->
  run n os (init i) = Some s ->
  let a := foldl spec_step (started i) (trace n os (init i)) in
  targets s = ready a /\ forall t, prio (info s t) = base a t.
Proof.
  intros Hn Hi Ho Er. destruct (init_good n Hn i Hi) as (H & Ha & Hd).
  destruct (run_good n Hn os _ _ H Ha Hd (run_callers n _ _ _ Ho Er)) as (s' & E & Hs & Hag & _).
  rewrite Er in E. injection E as <-. split; [|exact Hag]. apply (core_targets n), Hs.
Qed.

(** C17: After any run of a started scheduler in which no [ensure] fails (see the invariant of the scheduler), from 13-bit
    priorities and on fewer than 2^32 hardware threads, once the threads that were asked to stop have done so
    (each calls [cpu_sleep]), no request is pending, the run queue is the same, and the threads that
    execute are exactly those that [ppu_state] reports as ONPROC, which are the first
    [ppu_threads] of the queue; none of them has a lower priority than a thread left waiting
    in the queue. *)
Theorem sched_dispatch n i os s now : Z.of_nat n < 2 ^ 32 -> prio_ok i -> Forall op_ok os ->
  run n os (init i) = Some s -> g_scheduler_ready s = true ->
  exists s', run n (map (fun t => Ack t now) (List.filter (ack_suspend s) (targets s))) s = Some s' /\
    g_pending s' = 0 /\ targets s' = targets s /\
    (forall t, runs s' t = true <-> t ∈ take n (targets s)) /\
    (forall t b, runs s' t = true <-> exists pos, ppu_state n false Joinable b t s' = ONPROC pos) /\
    (forall t u, runs s' t = true -> u ∈ targets s -> runs s' u = false ->
       prio (info s' t) <= prio (info s' u)).
Proof.
  intros Hn Hi Ho Er Hg. destruct (init_good n Hn i Hi) as (H & Ha & Hd).
  destruct (run_good n Hn os _ _ H Ha Hd (run_callers n _ _ _ Ho Er)) as (s0 & E & Hs & _ & Hds).
  rewrite Er in E. injection E as <-. clear H Ha Hd. set (l := ready _) in *.
  rewrite (core_targets n s l (proj1 Hs)).
  destruct (acks_run n Hn now l (List.filter (ack_suspend s) l) s Hs) as (s' & E' & Hs' & Hd' & Hp & Ei & Eg).
  { apply NoDup_ListNoDup, List.NoDup_filter, NoDup_ListNoDup, (core_nodup n s l), Hs. }
  { intros t. rewrite list_elem_of_In, filter_In, <- list_elem_of_In. split; [|tauto].
    intros Hk. split; [by apply (c_ack _ _ _ (proj1 Hs))|done]. }
  { exact Hds. }
  specialize (Hd' Hp ltac:(congruence)).
  assert (forall t, runs s' t = true <-> t ∈ take n l) as Hruns.
  { intros t. rewrite <- Hd'. unfold runs. rewrite orb_true_iff, negb_true_iff.
    split; [|by left]. intros [?|Hk]; [done|]. destruct (c_ack _ _ _ (proj1 Hs') t Hk) as [_ Hl].
    rewrite (c_pending _ _ _ (proj1 Hs')) in Hp. by rewrite (count_zero _ l t) in Hk by (done || lia). }
  exists s'. split; [exact E'|]. split; [exact Hp|]. split; [apply (core_targets n), Hs'|].
  split; [exact Hruns|]. split; [intros t b; rewrite Hruns; symmetry; apply (onproc_iff n Hn), Hs'|].
  intros t u Ht%Hruns Hu Hf. destruct (take_or_drop n u l Hu) as [Hu'%Hruns|Hu']; [congruence|].
  pose proof (c_sorted _ _ _ (proj1 Hs')) as Hso. rewrite <- (take_drop n l) in Hso.
  apply list_elem_of_split in Hu' as (l1 & l2 & El). rewrite El, app_assoc in Hso.
  apply by_prio_app in Hso as [Hle _]. apply Hle, elem_of_app. by left.
Qed.

(** A run on two hardware threads: thread 3 overtakes thread 2, then sleeps with a timeout. *)
Definition demo_info (t : tid) : thread_info := Info (if t =? 2 then 20 else 10) 0 false false.

Definition demo_ops : list op :=
  [Ready None [1; 2] 5; Resume 1; Resume 2; Awake (Some 1) 3 6; Yield (Some 1) 1 7;
   SetPriority (Some 1) 2 5 8; Sleep (Some 3) 3 100 9 []].

Lemma demo_info_ok : prio_ok demo_info.
Proof. intros t. unfold demo_info. cbn. by destruct (t =? 2). Qed.

Lemma demo_ops_ok : Forall op_ok demo_ops.
Proof. repeat constructor; cbn; lia. Qed.

(** Then the timeout expires and thread 3 is notified; it runs again, answers, and sleeps again. *)
Definition demo_timeout : list op :=
  demo_ops ++ [Ack 2 10; AwakeAll (Some 1) [] 200; Awake (Some 3) 3 201; Resume 3; CheckState 3; Sleep (Some 3) 3 50 202 []].

Lemma sched_invariant_witness : exists s l, run 2 demo_timeout (init demo_info) = Some s /\ inv 2 s l.
Proof. apply sched_invariant; [vm_compute; reflexivity|exact demo_info_ok|vm_compute; reflexivity]. Defined.

Lemma run_queue_refines_witness : exists s, run 2 demo_ops (init demo_info) = Some s /\
  targets s = ready (foldl spec_step (started demo_info)
    [QWake 1; QWake 2; QWake 3; QYield 1; QPrio 2 5; QSleep 3]).
Proof.
  destruct (run 2 demo_ops (init demo_info)) as [s|] eqn:E; [|vm_compute in E; discriminate].
  exists s. split; [reflexivity|].
  exact (proj1 (run_queue_refines 2 demo_info demo_ops s ltac:(vm_compute; reflexivity) demo_info_ok
    demo_ops_ok E)).
Defined.

Lemma sched_dispatch_witness : exists s s', run 2 demo_ops (init demo_info) = Some s /\
  List.filter (ack_suspend s) (targets s) = [2] /\ run 2 [Ack 2 10] s = Some s' /\
  (forall t, runs s' t = true <-> t ∈ [2; 1]).
Proof.
  destruct (run 2 demo_ops (init demo_info)) as [s|] eqn:E; [|vm_compute in E; discriminate].
  assert (List.filter (ack_suspend s) (targets s) = [2] /\ targets s = [2; 1] /\
    g_scheduler_ready s = true) as (Ea & El & Eg).
  { vm_compute in E. injection E as <-. vm_compute. by split_and!. }
  destruct (sched_dispatch 2 demo_info demo_ops s 10 ltac:(vm_compute; reflexivity) demo_info_ok
    demo_ops_ok E Eg) as (s' & Es & _ & _ & Hr & _).
  rewrite El in Hr. rewrite Ea in Es. cbn [map] in Es. exists s, s'.
  split; [reflexivity|]. split; [exact Ea|]. split; [exact Es|exact Hr].
Defined.
