(* ===== verification/Lv2Rwlock.v ===== *)
(** Reader-writer locks of the lv2 kernel (Emu/Cell/lv2/sys_rwlock.h and .cpp).

    The lock is one signed number [owner]: [0] when free, [-2k] for [k] readers, twice the id of the
    writer otherwise; the lowest bit says that threads may be waiting in [rq] or [wq], which keeps
    everybody off the lock-free paths.  [Rwlock.step] is the interleaving semantics of the system
    calls for any number of threads: one step per access to [owner] or to the object's mutex; what is
    done to the queues and to sleeping threads next to an access to [owner], under the mutex,
    belongs to that step. *)

From Stdlib Require Import ZArith Lia Bool.
From stdpp Require Import base tactics option list numbers gmap sets.
From S2P Require Import Prelude Lv2Queue Lv2Base.
Import Lv2Queue.Lv2Queue.
Local Open Scope Z_scope.

Module Rwlock.

(** Where a thread is; [R*] in [rlock], [U*] in [runlock], [W*] in [wlock], [X*] in [wunlock]. *)
Inductive kind := Reader | Writer.

Inductive pc :=
  | Idle
  | RCas (v timeout : Z)           (* a value without writer and waiters was read *)
  | RLock (timeout : Z) | RFetch (timeout : Z)
  | UCas (v : Z) | ULock | UFetch
  | UHand                          (* the last reader left, writers wait *)
  | WCas (timeout : Z) | WLock (timeout : Z) | WFetch (timeout : Z)
  | TryCas                         (* trywlock read 0 *)
  | XCas | XLock | XHand
  | Queued (k : kind) (timeout : Z)   (* asleep in a queue, before the guard is released *)
  | Sleeping (k : kind) (timeout : Z)
  | RTimeRead | RTimeWait
  | TimeLock (k : kind) | TimeUnqueue (k : kind)
  | WTimeWake | WTimeClear         (* the last waiting writer has left *)
  | StopLock (k : kind) | StopScan (k : kind) | StopRelease (k : kind) (r : result)
  | Release (k : kind) (r : result)  (* the call ends when the guard is released *)
  | UnlockRelease (r : result)
  | Done (r : result) | Stopped (k : kind) (r : result)
  | Failed.                        (* an [ensure] did not hold *)

Inductive event :=
  | CallRlock (timeout : Z) | CallTryrlock | CallRunlock
  | CallWlock (timeout : Z) | CallTrywlock | CallWunlock
  | Step | Timeout | Stop | Prio (sleeping : bool) (p : Z).

(** [lv2_rwlock] and the threads. *)
Record state (T : Type) := St {
  owner : Z; rq : T; wq : T; mutex : option tid;
  pcs : tid -> pc; run : tid -> run_state; info : tid -> thread_info; tag : Z }.
Arguments St {T} _ _ _ _ _ _ _ _.
Arguments owner {T} _.
Arguments rq {T} _.
Arguments wq {T} _.
Arguments mutex {T} _.
Arguments pcs {T} _.
Arguments run {T} _.
Arguments info {T} _.
Arguments tag {T} _.

Section Step.
Context {T : Type} `{!WaitQueue T} (protocol : Z).

Definition goto (t : tid) (p : pc) (s : state T) : state T :=
  St (owner s) (rq s) (wq s) (mutex s) (upd t p (pcs s)) (run s) (info s) (tag s).
Definition set_owner (v : Z) (s : state T) : state T :=
  St v (rq s) (wq s) (mutex s) (pcs s) (run s) (info s) (tag s).
Definition set_rq (q : T) (s : state T) : state T :=
  St (owner s) q (wq s) (mutex s) (pcs s) (run s) (info s) (tag s).
Definition set_wq (q : T) (s : state T) : state T :=
  St (owner s) (rq s) q (mutex s) (pcs s) (run s) (info s) (tag s).
Definition set_mutex (m : option tid) (s : state T) : state T :=
  St (owner s) (rq s) (wq s) m (pcs s) (run s) (info s) (tag s).
Definition set_run (r : tid -> run_state) (s : state T) : state T :=
  St (owner s) (rq s) (wq s) (mutex s) (pcs s) r (info s) (tag s).
Definition set_info (i : tid -> thread_info) (g : Z) (s : state T) : state T :=
  St (owner s) (rq s) (wq s) (mutex s) (pcs s) (run s) i g.

Definition lock (t : tid) (p : pc) (s : state T) : option (state T) :=
  match mutex s with
  | None => Some (goto t p (set_mutex (Some t) s))
  | Some _ => None
  end.
Definition unlock (t : tid) (p : pc) (s : state T) : option (state T) :=
  Some (goto t p (set_mutex None s)).

(** [val <= 0 && !(val & 1)]. *)
Definition readable (v : Z) : bool := (v <=? 0) && negb (Z.odd v).

(** [ppu.id << 1] in 32 bits. *)
Definition id2 (t : tid) : Z := wrap 32 (Z.shiftl t 1).

(** [rwlock.sleep(ppu, timeout)] and the record of [emplace]. *)
Definition suspend (t : tid) (s : state T) : state T :=
  let g := wrap 64 (tag s + 1) in
  set_info (upd t (enqueue_order g (info s t)) (info s)) g (set_run (upd t Suspended (run s)) s).

(** [cpu->id << 1 | !!rwlock->wq | !!rwlock->rq]. *)
Definition handed (x : tid) (w r : T) : Z :=
  Z.lor (Z.lor (id2 x) (b2z (negb (wq_null w)))) (b2z (negb (wq_null r))).

(** [while (auto cpu = rwlock->schedule<ppu_thread>(rwlock->rq, SYS_SYNC_FIFO))]: the threads taken
    off, in order; [None] when the loop does not end within [fuel] turns. *)
Fixpoint pop_all (fuel : nat) (i : tid -> thread_info) (q : T) : option (list tid * T) :=
  match fuel with
  | O => None
  | S fuel =>
      let r := wq_schedule i SYS_SYNC_FIFO q in
      match r.1 with
      | None => Some ([], r.2)
      | Some cpu =>
          match pop_all fuel i r.2 with
          | Some (l, q) => Some (cpu :: l, q)
          | None => None
          end
      end
  end.

Definition pop_fuel (q : T) : nat := S (length (wq_list q)).

(** [sys_rwlock_rlock]. *)
Definition rlock_step (t : tid) (p : pc) (s : state T) : option (state T) :=
  match p with
  | RCas v timeout =>
      if owner s =? v then Some (goto t (Done (Ret CELL_OK)) (set_owner (sgn 64 (v - 2)) s))
      else Some (goto t (RLock timeout) s)
  | RLock timeout => lock t (RFetch timeout) s
  | RFetch timeout =>
      if readable (owner s)
      then Some (goto t (Release Reader (Ret CELL_OK)) (set_owner (sgn 64 (owner s - 2)) s))
      else Some (goto t (Queued Reader timeout)
             (set_rq (wq_emplace t (rq s)) (suspend t (set_owner (Z.lor (owner s) 1) s))))
  | RTimeRead => Some (goto t (if wq_null (rq s) then RTimeWait else TimeLock Reader) s)
  | RTimeWait =>
      (* rwlock->mutex.lock_unlock() *)
      match mutex s with None => Some (goto t (Done (Ret CELL_OK)) s) | Some _ => None end
  | TimeUnqueue Reader =>
      let r := wq_unqueue t (rq s) in
      Some (goto t (Release Reader (Ret (match r.1 with Some _ => CELL_ETIMEDOUT | None => CELL_OK end)))
             (set_rq r.2 s))
  | _ => None
  end.

(** [sys_rwlock_runlock]. *)
Definition runlock_step (t : tid) (p : pc) (s : state T) : option (state T) :=
  match p with
  | UCas v =>
      if owner s =? v then Some (goto t (Done (Ret CELL_OK)) (set_owner (sgn 64 (v + 2)) s))
      else Some (goto t ULock s)
  | ULock => lock t UFetch s
  | UFetch =>
      let old := owner s in
      let s' := if old <? -1 then set_owner (sgn 64 (old + 2)) s else s in
      Some (goto t (if 0 <=? old then UnlockRelease (Ret CELL_EPERM)
                    else if old =? -1 then UHand else UnlockRelease (Ret CELL_OK)) s')
  | UHand =>
      let r := wq_schedule (info s) protocol (wq s) in
      match r.1 with
      | Some cpu =>
          if again (info s cpu) then Some (goto t (UnlockRelease Again) s)
          else Some (goto t (UnlockRelease (Ret CELL_OK))
                 (set_run (awake_all [cpu] (run s)) (set_wq r.2 (set_owner (handed cpu r.2 (rq s)) s))))
      | None =>
          Some (goto t (if wq_null (rq s) then UnlockRelease (Ret CELL_OK) else Failed) (set_owner 0 s))
      end
  | _ => None
  end.

(** [sys_rwlock_wlock] and [sys_rwlock_trywlock]. *)
Definition wlock_step (t : tid) (p : pc) (s : state T) : option (state T) :=
  match p with
  | WCas timeout =>
      if owner s =? 0 then Some (goto t (Done (Ret CELL_OK)) (set_owner (id2 t) s))
      else Some (goto t (WLock timeout) s)
  | WLock timeout => lock t (WFetch timeout) s
  | WFetch timeout =>
      let old := owner s in
      if old =? 0 then Some (goto t (Release Writer (Ret CELL_OK)) (set_owner (id2 t) s))
      else
        let s' := set_wq (wq_emplace t (wq s)) (suspend t (set_owner (Z.lor old 1) s)) in
        Some (goto t (if Z.shiftr old 1 =? t then Release Writer (Ret CELL_EDEADLK) else Queued Writer timeout) s')
  | TryCas =>
      let old := owner s in
      Some (goto t (Done (Ret (if old =? 0 then CELL_OK
                               else if Z.shiftr old 1 =? t then CELL_EDEADLK else CELL_EBUSY)))
             (if old =? 0 then set_owner (id2 t) s else s))
  | TimeUnqueue Writer =>
      let r := wq_unqueue t (wq s) in
      match r.1 with
      | None => Some (goto t (Release Writer (Ret CELL_OK)) (set_wq r.2 s))
      | Some _ =>
          Some (goto t (if negb (wq_null (rq s)) && wq_null r.2 && (owner s <? 0) then WTimeWake
                        else if wq_null (rq s) && wq_null r.2 then WTimeClear
                        else Release Writer (Ret CELL_ETIMEDOUT)) (set_wq r.2 s))
      end
  | WTimeWake =>
      match pop_all (pop_fuel (rq s)) (info s) (rq s) with
      | None => None
      | Some (l, q) =>
          let v := Z.land (sgn 64 (owner s - 2 * Z.of_nat (length l))) (-2) in
          Some (goto t (Release Writer (Ret CELL_ETIMEDOUT))
                 (set_run (awake_all l (run s)) (set_rq q (set_owner v s))))
      end
  | WTimeClear => Some (goto t (Release Writer (Ret CELL_ETIMEDOUT)) (set_owner (Z.land (owner s) (-2)) s))
  | _ => None
  end.

(** [sys_rwlock_wunlock]: the value that was there before, when it is not the thread's own. *)
Definition wunlock_result (t : tid) (ret : Z) : pc :=
  if negb (Z.shiftr ret 1 =? t) then Done (Ret CELL_EPERM)
  else if Z.odd ret then XLock else Done (Ret CELL_OK).

Definition wunlock_step (t : tid) (p : pc) (s : state T) : option (state T) :=
  match p with
  | XCas =>
      let old := owner s in
      Some (goto t (wunlock_result t old) (if old =? id2 t then set_owner 0 s else s))
  | XLock => lock t XHand s
  | XHand =>
      let r := wq_schedule (info s) protocol (wq s) in
      match r.1 with
      | Some cpu =>
          if again (info s cpu) then Some (goto t (UnlockRelease Again) s)
          else Some (goto t (UnlockRelease (Ret CELL_OK))
                 (set_run (awake_all [cpu] (run s)) (set_wq r.2 (set_owner (handed cpu r.2 (rq s)) s))))
      | None =>
          if negb (wq_null (rq s)) then
            if existsb (fun cpu => again (info s cpu)) (wq_list (rq s))
            then Some (goto t (UnlockRelease Again) s)
            else
              match pop_all (pop_fuel (rq s)) (info s) (rq s) with
              | None => None
              | Some (l, q) =>
                  Some (goto t (UnlockRelease (Ret CELL_OK))
                    (set_run (awake_all l (run s))
                       (set_rq q (set_owner (sgn 64 (-2 * Z.of_nat (length l))) s))))
              end
          else Some (goto t (UnlockRelease (Ret CELL_OK)) (set_owner 0 s))
      end
  | _ => None
  end.

(** What the waiting loops of [rlock] and [wlock] share. *)
Definition wait_step (t : tid) (p : pc) (s : state T) : option (state T) :=
  match p with
  | Queued k timeout => unlock t (Sleeping k timeout) s
  | Release _ r | UnlockRelease r => unlock t (Done r) s
  | Sleeping _ _ =>
      match run s t with
      | Signaled => Some (goto t (Done (Ret CELL_OK)) (set_run (upd t Running (run s)) s))
      | _ => None
      end
  | TimeLock k => lock t (TimeUnqueue k) s
  | StopLock k => lock t (StopScan k) s
  | StopScan k =>
      if bool_decide (t ∈ wq_list (match k with Reader => rq s | Writer => wq s end)) then
        let i := info s t in
        Some (goto t (StopRelease k Again)
          (set_info (upd t (Info (prio i) (order i) (preserve_bit i) true) (info s)) (tag s) s))
      else Some (goto t (StopRelease k (Ret CELL_OK)) s)
  | StopRelease k r => unlock t (Stopped k r) s
  | Done (Ret _) => Some (goto t Idle s)
  | _ => None
  end.

(** One step of thread [t]; [None] when it is not possible now. *)
Definition step (t : tid) (e : event) (s : state T) : option (state T) :=
  match e, pcs s t with
  | CallRlock timeout, Idle =>
      Some (goto t (if readable (owner s) then RCas (owner s) timeout else RLock timeout) s)
  | CallTryrlock, Idle =>
      if readable (owner s)
      then Some (goto t (Done (Ret CELL_OK)) (set_owner (sgn 64 (owner s - 2)) s))
      else Some (goto t (Done (Ret CELL_EBUSY)) s)
  | CallRunlock, Idle =>
      Some (goto t (if (owner s <? 0) && negb (Z.odd (owner s)) then UCas (owner s) else ULock) s)
  | CallWlock timeout, Idle =>
      Some (goto t (if owner s =? 0 then WCas timeout
                    else if Z.shiftr (owner s) 1 =? t then Done (Ret CELL_EDEADLK)
                    else WLock timeout) s)
  | CallTrywlock, Idle =>
      Some (goto t (if owner s =? 0 then TryCas
                    else Done (Ret (if Z.shiftr (owner s) 1 =? t then CELL_EDEADLK else CELL_EBUSY))) s)
  | CallWunlock, Idle =>
      Some (goto t (if owner s =? id2 t then XCas else wunlock_result t (owner s)) s)
  | Step, p =>
      match p with
      | RCas _ _ | RLock _ | RFetch _ | RTimeRead | RTimeWait | TimeUnqueue Reader => rlock_step t p s
      | UCas _ | ULock | UFetch | UHand => runlock_step t p s
      | WCas _ | WLock _ | WFetch _ | TryCas | TimeUnqueue Writer | WTimeWake | WTimeClear =>
          wlock_step t p s
      | XCas | XLock | XHand => wunlock_step t p s
      | _ => wait_step t p s
      end
  | Timeout, Sleeping k timeout =>
      (* wait_timeout returned true; check_state runs the thread and resets the signal *)
      if timeout =? 0 then None
      else Some (goto t (match k with Reader => RTimeRead | Writer => TimeLock Writer end)
             (set_run (upd t Running (run s)) s))
  | Stop, Sleeping k _ => Some (goto t (StopLock k) s)
  | Prio sleeping p, _ =>
      let r := change_prio sleeping p (tag s) (info s t) in
      Some (set_info (upd t r.1 (info s)) r.2 s)
  | _, _ => None
  end.

(** The object as [sys_rwlock_create] makes it, nobody in a call. *)
Definition init (i : tid -> thread_info) : state T :=
  St 0 wq_empty wq_empty None (fun _ => Idle) (fun _ => Running) i 0.

(** The parameter checks of [sys_rwlock_create]; [None] when they pass. *)
Definition create_check (rw_lock_id attr : Z) (protocol : Z) : option Z :=
  if (rw_lock_id =? 0) || (attr =? 0) then Some CELL_EFAULT
  else if negb (protocol =? SYS_SYNC_FIFO) && negb (protocol =? SYS_SYNC_PRIORITY)
  then Some CELL_EINVAL
  else None.

(** The check of [sys_rwlock_destroy]. *)
Definition destroy_check (s : state T) : option Z :=
  if negb (owner s =? 0) then Some CELL_EBUSY else None.

End Step.

(** ** The abstract lock *)

(** A number of readers, a writer, and the threads that wait to read and to write. *)
Record spec := Spec { readers : Z; writer : option tid; rwait : list tid; wwait : list tid }.

Inductive label :=
  | Tau
  | ReadTake (t : tid) | ReadBlock (t : tid) | ReadBusy (t : tid) | ReadGiveUp (t : tid)
  | ReadDrop (t : tid) | ReadPerm (t : tid)
  | LastDrop (t x : tid)           (* the last reader hands the lock to the writer x *)
  | WriteTake (t : tid) | WriteBlock (t : tid) | WriteBusy (t : tid) | WriteDead (t : tid)
  | WriteGiveUp (t : tid) | WriteDrop (t : tid) | WritePerm (t : tid)
  | WriteHand (t x : tid)          (* a writer hands the lock to the writer x *)
  | WriteAdmit (t : tid) (l : list tid)  (* a writer hands the lock to all waiting readers *)
  | Admit (l : list tid).          (* the waiting readers join the readers *)

Definition free (a : spec) : Prop := readers a = 0 /\ writer a = None.

(** The queue is looked at with the threads' records [i]. *)
Inductive spec_step (protocol : Z) (i : tid -> thread_info) : spec -> label -> spec -> Prop :=
  | S_tau a : spec_step protocol i a Tau a
  | S_read_take t n : 0 <= n ->
      spec_step protocol i (Spec n None [] []) (ReadTake t) (Spec (n + 1) None [] [])
  | S_read_block t n w lr lw : t ∉ lr -> t ∉ lw -> w <> None \/ lw <> [] ->
      spec_step protocol i (Spec n w lr lw) (ReadBlock t) (Spec n w (t :: lr) lw)
  | S_read_busy t a : ~ free a -> spec_step protocol i a (ReadBusy t) a
  | S_read_give_up t n w lr lw : t ∈ lr ->
      spec_step protocol i (Spec n w lr lw) (ReadGiveUp t) (Spec n w (list_remove_id t lr) lw)
  | S_read_drop t n lr lw : 0 < n -> n <> 1 \/ lr = [] /\ lw = [] ->
      spec_step protocol i (Spec n None lr lw) (ReadDrop t) (Spec (n - 1) None lr lw)
  | S_read_perm t a : readers a = 0 -> spec_step protocol i a (ReadPerm t) a
  | S_last_drop t x lr lw : pick i protocol lw = Some x ->
      spec_step protocol i (Spec 1 None lr lw) (LastDrop t x)
        (Spec 0 (Some x) lr (list_remove_id x lw))
  | S_write_take t : spec_step protocol i (Spec 0 None [] []) (WriteTake t) (Spec 0 (Some t) [] [])
  | S_write_block t a : ~ free a -> writer a <> Some t -> t ∉ rwait a -> t ∉ wwait a ->
      spec_step protocol i a (WriteBlock t) (Spec (readers a) (writer a) (rwait a) (t :: wwait a))
  | S_write_busy t a : ~ free a -> writer a <> Some t -> spec_step protocol i a (WriteBusy t) a
  | S_write_dead t a : writer a = Some t -> spec_step protocol i a (WriteDead t) a
  | S_write_give_up t n w lr lw : t ∈ lw ->
      spec_step protocol i (Spec n w lr lw) (WriteGiveUp t) (Spec n w lr (list_remove_id t lw))
  | S_write_drop t : spec_step protocol i (Spec 0 (Some t) [] []) (WriteDrop t) (Spec 0 None [] [])
  | S_write_perm t a : writer a <> Some t -> spec_step protocol i a (WritePerm t) a
  | S_write_hand t x lr lw : pick i protocol lw = Some x ->
      spec_step protocol i (Spec 0 (Some t) lr lw) (WriteHand t x)
        (Spec 0 (Some x) lr (list_remove_id x lw))
  | S_write_admit t lr : lr <> [] ->
      spec_step protocol i (Spec 0 (Some t) lr []) (WriteAdmit t lr)
        (Spec (Z.of_nat (length lr)) None [] [])
  | S_admit n lr : 0 < n -> lr <> [] ->
      spec_step protocol i (Spec n None lr []) (Admit lr) (Spec (n + Z.of_nat (length lr)) None [] []).

(** What [owner] says. *)
Definition readers_of (o : Z) : Z := if o <? 0 then (1 - o) / 2 else 0.
Definition writer_of (o : Z) : option tid := if 0 <? o then Some (o / 2) else None.

Definition abs {T} (s : state T) (lr lw : list tid) : spec :=
  Spec (readers_of (owner s)) (writer_of (owner s)) lr lw.

(** The abstract action of a step. *)
Definition emits {T} `{!WaitQueue T} (protocol : Z) (t : tid) (e : event) (s : state T) : label :=
  let o := owner s in
  match e, pcs s t with
  | CallTryrlock, Idle => if readable o then ReadTake t else ReadBusy t
  | CallWlock _, Idle =>
      if negb (o =? 0) && (Z.shiftr o 1 =? t) then WriteDead t else Tau
  | CallTrywlock, Idle =>
      if o =? 0 then Tau else if Z.shiftr o 1 =? t then WriteDead t else WriteBusy t
  | CallWunlock, Idle => if Z.shiftr o 1 =? t then Tau else WritePerm t
  | Step, RCas v _ => if o =? v then ReadTake t else Tau
  | Step, RFetch _ => if readable o then ReadTake t else ReadBlock t
  | Step, TimeUnqueue Reader =>
      match (wq_unqueue t (rq s)).1 with Some _ => ReadGiveUp t | None => Tau end
  | Step, UCas v => if o =? v then ReadDrop t else Tau
  | Step, UFetch => if 0 <=? o then ReadPerm t else if o =? -1 then Tau else ReadDrop t
  | Step, UHand =>
      match (wq_schedule (info s) protocol (wq s)).1 with
      | Some x => if again (info s x) then Tau else LastDrop t x
      | None => Tau
      end
  | Step, WCas _ => if o =? 0 then WriteTake t else Tau
  | Step, WFetch _ => if o =? 0 then WriteTake t else WriteBlock t
  | Step, TryCas =>
      if o =? 0 then WriteTake t else if Z.shiftr o 1 =? t then WriteDead t else WriteBusy t
  | Step, TimeUnqueue Writer =>
      match (wq_unqueue t (wq s)).1 with Some _ => WriteGiveUp t | None => Tau end
  | Step, WTimeWake => Admit (wq_list (rq s))
  | Step, XCas => if o =? id2 t then WriteDrop t else Tau
  | Step, XHand =>
      match (wq_schedule (info s) protocol (wq s)).1 with
      | Some x => if again (info s x) then Tau else WriteHand t x
      | None =>
          if wq_null (rq s) then WriteDrop t
          else if existsb (fun cpu => again (info s cpu)) (wq_list (rq s)) then Tau
          else WriteAdmit t (wq_list (rq s))
      end
  | _, _ => Tau
  end.

(** ** The invariant *)

(** The points between locking and unlocking the object's mutex. *)
Definition holds (p : pc) : bool :=
  match p with
  | RFetch _ | UFetch | UHand | WFetch _ | XHand | Queued _ _ | TimeUnqueue _ | WTimeWake
  | WTimeClear | StopScan _ | StopRelease _ _ | Release _ _ | UnlockRelease _ => true
  | _ => false
  end.

(** The point of the thread that owns the mutex. *)
Definition holder {T} (s : state T) : pc :=
  match mutex s with Some t => pcs s t | None => Idle end.

(** [owner] is of thread [t]. *)
Definition own (o : Z) (t : tid) : Prop := 0 < o /\ o / 2 = t.

(** The state of a thread: running or not, [again] set, in [rq], in [wq], owner. *)
Definition tok (p : pc) (r : run_state) (a : bool) (inr inw ow : Prop) : Prop :=
  match p with
  | Idle | RLock _ | RFetch _ | ULock | UFetch | UHand | TryCas | RTimeWait | WTimeWake
  | WTimeClear | Release _ _ | UnlockRelease _ | Done _ => r = Running /\ ~ inr /\ ~ inw
  | RCas v _ => (v <= 0 /\ v mod 2 = 0) /\ r = Running /\ ~ inr /\ ~ inw
  | UCas v => (v < 0 /\ v mod 2 = 0) /\ r = Running /\ ~ inr /\ ~ inw
  | WCas _ | WLock _ | WFetch _ => ~ ow /\ r = Running /\ ~ inr /\ ~ inw
  | XCas | XLock | XHand => ow /\ r = Running /\ ~ inr /\ ~ inw
  | Queued Reader _ => r = Suspended /\ inr /\ ~ inw
  | Queued Writer _ => r = Suspended /\ inw /\ ~ inr
  | Sleeping Reader _ => ~ inw /\ (inr -> r = Suspended) /\ (~ inr -> r = Signaled)
  | Sleeping Writer _ => ~ inr /\ (inw -> r = Suspended) /\ (~ inw -> r = Signaled /\ ow)
  | RTimeRead | TimeLock Reader | TimeUnqueue Reader => r = Running /\ ~ inw
  | TimeLock Writer | TimeUnqueue Writer => r = Running /\ ~ inr /\ (~ inw -> ow)
  | StopLock Reader | StopScan Reader => ~ inw
  | StopLock Writer | StopScan Writer => ~ inr /\ (~ inw -> ow)
  | StopRelease _ Again | Stopped _ Again => a = true /\ (inr /\ ~ inw \/ inw /\ ~ inr)
  | StopRelease _ (Ret _) | Stopped _ (Ret _) => ~ inr /\ ~ inw
  | Failed => False
  end.

(** How [owner] and the queues fit together: the wait bit is only clear when nobody waits, and
    readers only wait while a writer holds the lock or waits.  The second part does not hold while
    the last waiting writer leaves. *)
Definition shape (h : pc) (o : Z) (lr lw : list tid) : Prop :=
  o <> 1 /\ (o mod 2 = 0 -> lr = [] /\ lw = []) /\
  match h with
  | UHand => o = -1 /\ lw <> []
  | WTimeWake => o < 0 /\ o mod 2 = 1 /\ lw = [] /\ lr <> []
  | WTimeClear => o mod 2 = 1 /\ lw = [] /\ lr = []
  | _ => o < 0 -> o mod 2 = 1 -> lw <> []
  end.

(** At most [m] readers. *)
Record inv {T} `{!WaitQueue T} (threads : gset tid) (m : Z) (s : state T) (lr lw : list tid) := {
  inv_rq : wq_ok (rq s) lr;
  inv_wq : wq_ok (wq s) lw;
  inv_mutex : forall t, holds (pcs s t) = true <-> mutex s = Some t;
  inv_shape : shape (holder s) (owner s) lr lw;
  inv_bound : - 2 * m <= owner s < 2 ^ 32;
  inv_threads : forall t, t ∈ lr \/ t ∈ lw -> t ∈ threads;
  inv_tok : forall t,
    tok (pcs s t) (run s t) (again (info s t)) (t ∈ lr) (t ∈ lw) (own (owner s) t)
}.

End Rwlock.
Import Rwlock.

(** ** Arithmetic of [owner] *)

(** [lia] with halves and remainders. *)
Ltac half := Z.to_euclidean_division_equations; lia.

Lemma even_mod v : Z.even v = (v mod 2 =? 0).
Proof. rewrite Zmod_even. by destruct (Z.even v). Qed.

Lemma readable_iff v : readable v = true <-> v <= 0 /\ v mod 2 = 0.
Proof.
  unfold readable. rewrite <- Z.negb_even, negb_involutive, even_mod.
  rewrite andb_true_iff, Z.leb_le, Z.eqb_eq. done.
Qed.

Lemma land_wait_bit v : Z.land v (-2) = v - v mod 2.
Proof.
  change (-2) with (Z.lnot (Z.ones 1)). rewrite <- Z.ldiff_land, Z.ldiff_ones_r by lia.
  rewrite Z.shiftl_mul_pow2, Z.shiftr_div_pow2 by lia. change (2 ^ 1) with 2.
  half.
Qed.

Lemma lor_wait_bit v : Z.lor v 1 = v + 1 - v mod 2.
Proof.
  assert (Z.lor v 1 = Z.lnot (Z.land (Z.lnot v) (-2))) as ->.
  { change (-2) with (Z.lnot 1). by rewrite <- Z.lnot_lor, Z.lnot_involutive. }
  rewrite land_wait_bit. unfold Z.lnot. half.
Qed.

Lemma shiftr_half v : Z.shiftr v 1 = v / 2.
Proof. by rewrite Z.shiftr_div_pow2. Qed.

Lemma id2_ok t : 0 < t < 2 ^ 31 -> id2 t = 2 * t.
Proof.
  intros H. unfold id2. rewrite Z.shiftl_mul_pow2 by lia. change (2 ^ 1) with 2.
  rewrite wrap_small by (split; lia). lia.
Qed.

Lemma sgn64_ok v : - 2 ^ 63 <= v < 2 ^ 63 -> sgn 64 v = v.
Proof. intros H. apply sgn_small; [lia|]. split; lia. Qed.

(** The wait bit after a hand-over. *)
Lemma handed_ok {T} `{!WaitQueue T} x (w r : T) lw lr : 0 < x < 2 ^ 31 -> wq_ok w lw -> wq_ok r lr ->
  handed x w r = 2 * x + (if bool_decide (lw = [] /\ lr = []) then 0 else 1).
Proof.
  intros Hx Hw Hr. unfold handed. rewrite id2_ok, (wq_null_ok _ _ Hw), (wq_null_ok _ _ Hr) by done.
  pose proof (lor_wait_bit (2 * x)) as E. replace ((2 * x) mod 2) with 0 in E by half.
  destruct lw, lr; cbn; rewrite ?Z.lor_0_r; try (by rewrite Z.add_0_r).
  - rewrite E. lia.
  - rewrite E. lia.
  - rewrite <- Z.lor_assoc, Z.lor_diag, E. lia.
Qed.

(** ** Emptying a queue *)

Section PopAll.
Context {T : Type} `{!WaitQueue T} (i : tid -> thread_info).

Lemma pop_all_sound fuel : forall q l l' q', wq_ok q l -> pop_all fuel i q = Some (l', q') ->
  l' ≡ₚ l /\ wq_ok q' [] /\ forall x, x ∈ l -> again (i x) = false.
Proof.
  induction fuel as [|fuel IH]; intros q l l' q' Hq He; cbn [pop_all] in He; [done|].
  destruct (wq_schedule_ok i SYS_SYNC_FIFO q l Hq) as [Hu Hq']. rewrite Hu in He.
  unfold after_pick in Hq'. destruct (pick i SYS_SYNC_FIFO l) as [x|] eqn:Hp.
  2: { injection He as <- <-. destruct l; [|done]. split_and!; [done|done|set_solver]. }
  destruct (pop_all fuel i _) as [[l1 q1]|] eqn:E1; [|done]. injection He as <- <-.
  pose proof (pick_in _ _ _ _ Hp) as Hx. destruct (again (i x)) eqn:Ha.
  - destruct (IH _ _ _ _ Hq' E1) as (_ & _ & Hall). by rewrite (Hall x Hx) in Ha.
  - destruct (IH _ _ _ _ Hq' E1) as (Hl & Hq1 & Hall). split_and!; [|done|].
    + rewrite Hl. apply list_elem_of_split in Hx as (a & b & ->).
      rewrite remove_id_split by by eapply wq_ok_nodup. apply Permutation_middle.
    + intros y Hy. destruct (decide (y = x)) as [->|]; [done|]. apply Hall, elem_of_remove_id. done.
Qed.

Lemma pop_all_total fuel : forall q l, wq_ok q l -> (forall x, x ∈ l -> again (i x) = false) ->
  (length l < fuel)%nat -> is_Some (pop_all fuel i q).
Proof.
  induction fuel as [|fuel IH]; intros q l Hq Hall Hf; [lia|]. cbn [pop_all].
  destruct (wq_schedule_ok i SYS_SYNC_FIFO q l Hq) as [Hu Hq']. rewrite Hu.
  unfold after_pick in Hq'. destruct (pick i SYS_SYNC_FIFO l) as [x|] eqn:Hp; [|by eexists].
  pose proof (pick_in _ _ _ _ Hp) as Hx. rewrite (Hall x Hx) in Hq'.
  pose proof (remove_id_length x l (wq_ok_nodup _ _ Hq) Hx) as Hlen.
  destruct (IH _ _ Hq') as [[l1 q1] ->]; [|lia|by eexists].
  intros y [Hy _]%elem_of_remove_id. by apply Hall.
Qed.

(** A queued thread that is being stopped keeps the loop going for ever. *)
Lemma pop_all_diverges fuel q l x : wq_ok q l -> x ∈ l -> again (i x) = true ->
  pop_all fuel i q = None.
Proof.
  intros Hq Hx Ha. destruct (pop_all fuel i q) as [[l' q']|] eqn:E; [|done].
  destruct (pop_all_sound _ _ _ _ _ Hq E) as (_ & _ & Hall). by rewrite Hall in Ha.
Qed.
End PopAll.

(** ** The invariant is preserved *)

(** What [shape] distinguishes of the holder. *)
Definition leaving (p : pc) : bool :=
  match p with UHand | WTimeWake | WTimeClear => true | _ => false end.

Lemma shape_plain h h' o lr lw : leaving h = false -> leaving h' = false ->
  shape h o lr lw -> shape h' o lr lw.
Proof. unfold shape. by destruct h, h'. Qed.

(** Nobody is in the middle of a hand-over while the wait bit is clear. *)
Lemma shape_even h o o' lr lw : o mod 2 = 0 -> o' mod 2 = 0 ->
  shape h o lr lw -> shape h o' lr lw /\ lr = [] /\ lw = [].
Proof.
  intros E E'. unfold shape. rewrite E, E'.
  intros (_ & Hl & Hh). destruct (Hl eq_refl) as [-> ->].
  split; [|done]. split; [intros ->; done|]. split; [done|]. destruct h; naive_solver.
Qed.

(** [owner] and the abstract lock. *)
Lemma writer_own o t : writer_of o = Some t <-> own o t.
Proof. unfold writer_of, own. destruct (Z.ltb_spec 0 o); naive_solver lia. Qed.

Lemma own_shiftr o t : 0 < t -> (Z.shiftr o 1 =? t) = true <-> own o t.
Proof. intros Ht. rewrite shiftr_half, Z.eqb_eq. unfold own. half. Qed.

Lemma own_double t : 0 < t -> own (2 * t) t.
Proof. unfold own. half. Qed.

Lemma not_free o lr lw : o <> 0 -> ~ free (Spec (readers_of o) (writer_of o) lr lw).
Proof.
  intros Ho [H1 H2]. cbn in *. unfold readers_of, writer_of in *.
  destruct (Z.ltb_spec 0 o); [done|]. destruct (Z.ltb_spec o 0); [half|lia].
Qed.

Lemma readers_neg o : o <= 0 -> readers_of o = (1 - o) / 2 /\ writer_of o = None.
Proof.
  intros Ho. unfold readers_of, writer_of. replace (0 <? o) with false by lia. split; [|done].
  destruct (Z.ltb_spec o 0); [done|]. by replace o with 0 by lia.
Qed.

Lemma readers_pos o : 0 < o -> readers_of o = 0 /\ writer_of o = Some (o / 2).
Proof.
  intros Ho. unfold readers_of, writer_of. replace (0 <? o) with true by lia.
  by replace (o <? 0) with false by lia.
Qed.

Lemma own_neg o t : o <= 0 -> ~ own o t.
Proof. unfold own. lia. Qed.

Lemma spec_read_take protocol i t o : o <= 0 -> o mod 2 = 0 ->
  spec_step protocol i (Spec (readers_of o) (writer_of o) [] []) (ReadTake t)
    (Spec (readers_of (o - 2)) (writer_of (o - 2)) [] []).
Proof.
  intros Ho He. destruct (readers_neg o Ho) as [-> ->].
  destruct (readers_neg (o - 2)) as [-> ->]; [lia|].
  replace ((1 - (o - 2)) / 2) with ((1 - o) / 2 + 1) by half. constructor. half.
Qed.

Lemma spec_read_drop protocol i t o lr lw : o < 0 -> o mod 2 = 0 /\ lr = [] /\ lw = [] \/ o < -1 /\ o mod 2 = 1 ->
  spec_step protocol i (Spec (readers_of o) (writer_of o) lr lw) (ReadDrop t)
    (Spec (readers_of (o + 2)) (writer_of (o + 2)) lr lw).
Proof.
  intros Ho He. destruct (readers_neg o) as [-> ->]; [lia|].
  destruct (readers_neg (o + 2)) as [-> ->]; [half|].
  replace ((1 - (o + 2)) / 2) with ((1 - o) / 2 - 1) by half.
  constructor; [half|]. destruct He as [(_ & -> & ->)|[H1 H2]]; [by right|left; half].
Qed.

Lemma spec_write_take protocol i t : 0 < t ->
  spec_step protocol i (Spec (readers_of 0) (writer_of 0) [] []) (WriteTake t)
    (Spec (readers_of (2 * t)) (writer_of (2 * t)) [] []).
Proof.
  intros Ht. destruct (readers_pos (2 * t)) as [-> ->]; [lia|].
  replace (2 * t / 2) with t by half. constructor.
Qed.

Lemma spec_write_drop protocol i t o : own o t ->
  spec_step protocol i (Spec (readers_of o) (writer_of o) [] []) (WriteDrop t)
    (Spec (readers_of 0) (writer_of 0) [] []).
Proof. intros [Ho Ht]. destruct (readers_pos o Ho) as [-> ->]. rewrite Ht. constructor. Qed.

(** The wait bit does not matter for who has the lock. *)
Lemma wait_bit_set o : o <> 0 -> readers_of (o + 1 - o mod 2) = readers_of o /\
  writer_of (o + 1 - o mod 2) = writer_of o.
Proof.
  intros Ho. unfold readers_of, writer_of.
  destruct (Z.ltb_spec o 0), (Z.ltb_spec 0 o), (Z.ltb_spec (o + 1 - o mod 2) 0),
    (Z.ltb_spec 0 (o + 1 - o mod 2)); split; try (f_equal; half); half.
Qed.

Lemma wait_bit_clear o : o <> 1 -> readers_of (o - o mod 2) = readers_of o /\
  writer_of (o - o mod 2) = writer_of o.
Proof.
  intros Ho. unfold readers_of, writer_of.
  destruct (Z.ltb_spec o 0), (Z.ltb_spec 0 o), (Z.ltb_spec (o - o mod 2) 0),
    (Z.ltb_spec 0 (o - o mod 2)); split; try (f_equal; half); half.
Qed.

Section Invariant.
Context {T : Type} `{!WaitQueue T} (protocol : Z) (threads : gset tid).
Implicit Types (s : state T) (lr lw : list tid) (t : tid) (p : pc).

Definition holder_after (p0 h p : pc) : pc :=
  if holds p then p else if holds p0 then Idle else h.

Lemma rw_inv_owner m s lr lw t : inv threads m s lr lw -> holds (pcs s t) = true ->
  mutex s = Some t /\ holder s = pcs s t.
Proof. intros Hi Hh. apply (inv_mutex _ _ _ _ _ Hi) in Hh as Hm. unfold holder. by rewrite Hm. Qed.

Lemma rw_inv_step m m' s s' lr lw lr' lw' t p : inv threads m s lr lw -> pcs s' = upd t p (pcs s) ->
  mutex s' = (if holds p then Some t else if holds (pcs s t) then None else mutex s) ->
  (holds p = true -> holds (pcs s t) = true \/ mutex s = None) ->
  wq_ok (rq s') lr' -> wq_ok (wq s') lw' ->
  shape (holder_after (pcs s t) (holder s) p) (owner s') lr' lw' ->
  - 2 * m' <= owner s' < 2 ^ 32 -> (forall x, x ∈ lr' \/ x ∈ lw' -> x ∈ threads) ->
  tok p (run s' t) (again (info s' t)) (t ∈ lr') (t ∈ lw') (own (owner s') t) ->
  (forall y, y <> t ->
     tok (pcs s y) (run s y) (again (info s y)) (y ∈ lr) (y ∈ lw) (own (owner s) y) ->
     tok (pcs s y) (run s' y) (again (info s' y)) (y ∈ lr') (y ∈ lw') (own (owner s') y)) ->
  inv threads m' s' lr' lw'.
Proof.
  intros Hi Hp Hm Hacq Hr Hw Hs Hb Hth Hok Hoth.
  assert (forall x, holds (pcs s' x) = true <-> mutex s' = Some x) as Hmx.
  { intros x. rewrite Hp, Hm. pose proof (inv_mutex _ _ _ _ _ Hi) as H0.
    destruct (decide (x = t)) as [->|Hne].
    - rewrite upd_eq. destruct (holds p); [done|]. destruct (holds (pcs s t)) eqn:E; [done|].
      rewrite <- H0, E. done.
    - rewrite upd_ne by done. rewrite H0. destruct (holds p) eqn:E.
      + destruct (Hacq eq_refl) as [H1%H0|H1]; rewrite H1; split; congruence.
      + destruct (holds (pcs s t)) eqn:E1; [|done]. apply H0 in E1. rewrite E1. split; congruence. }
  constructor; auto.
  - assert (holder s' = holder_after (pcs s t) (holder s) p) as ->; [|done].
    unfold holder, holder_after. rewrite Hm, Hp. destruct (holds p) eqn:E; [by rewrite upd_eq|].
    destruct (holds (pcs s t)) eqn:E1; [done|]. destruct (mutex s) as [o|] eqn:Eo; [|done].
    rewrite upd_ne; [done|]. intros ->. apply (inv_mutex _ _ _ _ _ Hi) in Eo. congruence.
  - intros y. rewrite Hp. destruct (decide (y = t)) as [->|Hne]; [by rewrite upd_eq|].
    rewrite upd_ne by done. apply Hoth; [done|]. apply Hi.
Qed.

(** Readers that a single step can add. *)
Definition grow : Z := Z.of_nat (size threads) + 1.

Definition simulated m s lr lw t e s' : Prop := exists lr' lw',
  inv threads (m + grow) s' lr' lw' /\
  spec_step protocol (info s) (abs s lr lw) (emits protocol t e s) (abs s' lr' lw').

Lemma tok_ext p r a (inr inr' inw inw' ow ow' : Prop) : (inr <-> inr') -> (inw <-> inw') ->
  (ow <-> ow') -> tok p r a inr inw ow -> tok p r a inr' inw' ow'.
Proof.
  intros H1 H2 H3. destruct p as [| | | | | | | | | | | | | | |[]|[]| | |[]|[]| | |[]|[]|? []|? ?|?|?|? []|];
    cbn; tauto.
Qed.

Lemma tok_own p r a inr inw (ow ow' : Prop) : (ow <-> ow') ->
  tok p r a inr inw ow -> tok p r a inr inw ow'.
Proof. by apply tok_ext. Qed.

(** The lock stays as it is. *)
Lemma rw_sim_quiet m s s' lr lw t e p : inv threads m s lr lw -> pcs s' = upd t p (pcs s) ->
  mutex s' = (if holds p then Some t else if holds (pcs s t) then None else mutex s) ->
  (holds p = true -> holds (pcs s t) = true \/ mutex s = None) ->
  rq s' = rq s -> wq s' = wq s -> owner s' = owner s ->
  (forall y, y <> t -> run s' y = run s y /\ again (info s' y) = again (info s y)) ->
  shape (holder_after (pcs s t) (holder s) p) (owner s) lr lw ->
  spec_step protocol (info s) (abs s lr lw) (emits protocol t e s) (abs s lr lw) ->
  tok p (run s' t) (again (info s' t)) (t ∈ lr) (t ∈ lw) (own (owner s) t) ->
  simulated m s lr lw t e s'.
Proof.
  intros Hi Hp Hm Ha Hr Hw Ho Hy Hs He Hok. exists lr, lw. unfold abs at 2. rewrite Ho. split; [|done].
  pose proof (inv_bound _ _ _ _ _ Hi). unfold grow.
  apply (rw_inv_step m _ s s' lr lw lr lw t p); rewrite ?Hr, ?Hw, ?Ho; auto; try apply Hi; [lia|].
  intros y Hne. destruct (Hy y Hne) as [-> ->]. done.
Qed.

(** Entering the next point of a call, by a thread in the mutex or outside of it. *)
Lemma shape_after m s lr lw t p : inv threads m s lr lw -> leaving p = false ->
  leaving (pcs s t) = false -> (holds p = true -> holds (pcs s t) = true \/ mutex s = None) ->
  shape (holder_after (pcs s t) (holder s) p) (owner s) lr lw.
Proof.
  intros Hi Hl Hl0 Ha. pose proof (inv_shape _ _ _ _ _ Hi) as Hs. unfold holder_after.
  destruct (holds (pcs s t)) eqn:E0.
  - destruct (rw_inv_owner m s lr lw t Hi E0) as [_ Hh]. rewrite Hh in Hs.
    destruct (holds p); by apply (shape_plain (pcs s t)).
  - destruct (holds p) eqn:E; [|done]. destruct (Ha eq_refl) as [|Hm]; [done|].
    unfold holder in Hs. rewrite Hm in Hs. by apply (shape_plain Idle).
Qed.

(** [owner] is changed without the mutex. *)
Lemma rw_sim_cas m s s' lr lw t e p : inv threads m s lr lw -> pcs s' = upd t p (pcs s) ->
  holds (pcs s t) = false -> holds p = false -> mutex s' = mutex s -> rq s' = rq s -> wq s' = wq s ->
  run s' = run s -> info s' = info s -> owner s mod 2 = 0 -> owner s' mod 2 = 0 ->
  - 2 * (m + grow) <= owner s' < 2 ^ 32 -> (forall y, y <> t -> own (owner s) y <-> own (owner s') y) ->
  spec_step protocol (info s) (Spec (readers_of (owner s)) (writer_of (owner s)) [] [])
    (emits protocol t e s) (Spec (readers_of (owner s')) (writer_of (owner s')) [] []) ->
  tok p (run s t) (again (info s t)) False False (own (owner s') t) ->
  simulated m s lr lw t e s'.
Proof.
  intros Hi Hp H0 H1 Hm Hr Hw Hrun Hinf E E' Hb Hy He Hok.
  destruct (shape_even (holder s) (owner s) (owner s') lr lw E E' (inv_shape _ _ _ _ _ Hi))
    as (Hs & -> & ->).
  exists [], []. split; [|done].
  apply (rw_inv_step m _ s s' [] [] [] [] t p); unfold holder_after; rewrite ?Hr, ?Hw, ?Hrun, ?Hinf, ?H0, ?H1;
    auto; try apply Hi; try done.
  - eapply tok_ext; [..|exact Hok]; set_solver.
  - intros y Hne. apply tok_own. by apply Hy.
Qed.

(** A thread that is taken off its queue and awakened; it cannot be in the mutex. *)
Lemma tok_woken_writer p r (inr inw ow : Prop) : holds p = false -> inw ->
  tok p r false inr inw ow -> tok p (awaken r) false inr False True.
Proof.
  intros Hh Hin Ht.
  destruct p as [| | | | | | | | | | | | | | |[]|[]| | |[]|[]| | |[]|[]|? []|? ?|?|?|? []|]; try discriminate Hh;
    cbn in *; try tauto; try (destruct Ht as (? & ? & ?); split_and!; tauto);
    try (destruct Ht as (H1 & H2 & H3); rewrite (H2 Hin); by split_and!);
    try (destruct Ht as (-> & H2 & H3); by split_and!); naive_solver.
Qed.

Lemma tok_woken_reader p r (inr inw ow : Prop) : holds p = false -> inr ->
  tok p r false inr inw ow -> tok p (awaken r) false False inw ow.
Proof.
  intros Hh Hin Ht.
  destruct p as [| | | | | | | | | | | | | | |[]|[]| | |[]|[]| | |[]|[]|? []|? ?|?|?|? []|]; try discriminate Hh;
    cbn in *; try tauto; try (destruct Ht as (? & ? & ?); split_and!; tauto);
    try (destruct Ht as (H1 & H2 & H3); rewrite (H2 Hin); by split_and!);
    try (destruct Ht as (-> & H2); by split_and!); naive_solver.
Qed.

(** *** Outside the mutex *)

Hypothesis ids_ok : forall t, t ∈ threads -> 0 < t < 2 ^ 31.
Variable m : Z.
Hypothesis m_ok : 0 <= m < 2 ^ 61.
Hypothesis few : grow < 2 ^ 61.

Lemma owner_range s lr lw : inv threads m s lr lw -> - 2 ^ 62 <= owner s < 2 ^ 32.
Proof. intros Hi. pose proof (inv_bound _ _ _ _ _ Hi). lia. Qed.

(** Discharges the side conditions of the lemmas above once the point of [t] is known. *)
Ltac at_pc Hp := try done; rewrite ?Hp; try done; unfold emits; rewrite ?Hp; try done.

Ltac quiet Hi Hp :=
  eapply rw_sim_quiet;
    [exact Hi|reflexivity| | | | | | |eapply shape_after; [exact Hi|..]| |]; at_pc Hp; auto.

Lemma sim_read_take s lr lw t e p v : inv threads m s lr lw -> holds (pcs s t) = false ->
  holds p = false -> readable v = true -> v = owner s -> emits protocol t e s = ReadTake t ->
  tok p (run s t) (again (info s t)) False False (own (v - 2) t) ->
  simulated m s lr lw t e (goto t p (set_owner (sgn 64 (v - 2)) s)).
Proof.
  intros Hi H0 H1 [Hv Hm]%readable_iff -> He Hok. pose proof (inv_bound _ _ _ _ _ Hi).
  rewrite sgn64_ok by lia. eapply rw_sim_cas; [exact Hi|reflexivity|..]; try done.
  - cbn. half.
  - cbn. unfold grow. lia.
  - intros y _. cbn. split; intros []%own_neg; lia.
  - rewrite He. by apply spec_read_take.
Qed.

Lemma sim_read_drop s lr lw t e p v : inv threads m s lr lw -> holds (pcs s t) = false ->
  holds p = false -> v < 0 -> v mod 2 = 0 -> v = owner s -> emits protocol t e s = ReadDrop t ->
  tok p (run s t) (again (info s t)) False False (own (v + 2) t) ->
  simulated m s lr lw t e (goto t p (set_owner (sgn 64 (v + 2)) s)).
Proof.
  intros Hi H0 H1 Hv Hm -> He Hok. pose proof (inv_bound _ _ _ _ _ Hi).
  rewrite sgn64_ok by lia. eapply rw_sim_cas; [exact Hi|reflexivity|..]; try done.
  - cbn. half.
  - cbn. unfold grow. half.
  - intros y _. cbn. split; intros []%own_neg; half.
  - rewrite He. apply spec_read_drop; auto.
Qed.

Lemma sim_write_take s lr lw t e p : inv threads m s lr lw -> t ∈ threads -> holds (pcs s t) = false ->
  holds p = false -> owner s = 0 -> emits protocol t e s = WriteTake t ->
  tok p (run s t) (again (info s t)) False False (own (2 * t) t) ->
  simulated m s lr lw t e (goto t p (set_owner (id2 t) s)).
Proof.
  intros Hi Hth H0 H1 Hv He Hok. pose proof (ids_ok t Hth). rewrite id2_ok by done.
  eapply rw_sim_cas; [exact Hi|reflexivity|..]; try done; cbn.
  - by rewrite Hv.
  - half.
  - unfold grow. lia.
  - intros y Hy. rewrite Hv. unfold own. half.
  - rewrite He, Hv. apply spec_write_take. lia.
Qed.

Lemma sim_write_drop s lr lw t e p : inv threads m s lr lw -> t ∈ threads -> holds (pcs s t) = false ->
  holds p = false -> owner s = id2 t -> emits protocol t e s = WriteDrop t ->
  tok p (run s t) (again (info s t)) False False (own 0 t) ->
  simulated m s lr lw t e (goto t p (set_owner 0 s)).
Proof.
  intros Hi Hth H0 H1 Hv He Hok. pose proof (ids_ok t Hth). rewrite id2_ok in Hv by done.
  eapply rw_sim_cas; [exact Hi|reflexivity|..]; try done; cbn.
  - rewrite Hv. half.
  - unfold grow. lia.
  - intros y Hy. rewrite Hv. unfold own. half.
  - rewrite He, Hv. apply spec_write_drop, own_double. lia.
Qed.

Lemma rw_sim_call s s' lr lw t e : inv threads m s lr lw -> t ∈ threads -> step protocol t e s = Some s' ->
  match e with CallRlock _ | CallTryrlock | CallRunlock | CallWlock _ | CallTrywlock | CallWunlock => True
  | _ => False end -> simulated m s lr lw t e s'.
Proof.
  intros Hi Hth Hs He. pose proof (inv_tok _ _ _ _ _ Hi t) as Ht. pose proof (ids_ok t Hth) as Hid.
  pose proof (own_shiftr (owner s) t ltac:(lia)) as Hown.
  destruct e; try done; cbn [step] in Hs; destruct (pcs s t) eqn:Hp; try discriminate Hs;
    destruct Ht as (Hr & Hlr & Hlw).
  - injection Hs as <-. destruct (readable (owner s)) eqn:E; quiet Hi Hp; cbn [tok]; try apply S_tau; auto.
    apply readable_iff in E. auto.
  - destruct (readable (owner s)) eqn:E; injection Hs as <-.
    + apply sim_read_take; at_pc Hp; cbn [tok]; auto. by rewrite E.
    + quiet Hi Hp; cbn [tok]; auto. rewrite E. constructor. apply not_free. intros E0. by rewrite E0 in E.
  - injection Hs as <-. destruct (_ && _) eqn:E; quiet Hi Hp; cbn [tok]; try apply S_tau; auto.
    rewrite <- Z.negb_even, negb_involutive, even_mod in E. split; [lia|auto].
  - injection Hs as <-. destruct (Z.eqb_spec (owner s) 0) as [E|E].
    + quiet Hi Hp; cbn [tok]; rewrite ?E; try apply S_tau. split; [by apply own_neg|auto].
    + destruct (Z.shiftr (owner s) 1 =? t) eqn:E1; quiet Hi Hp; cbn [tok];
        rewrite ?E1, ?(proj2 (Z.eqb_neq _ _) E); cbn; auto.
      * constructor. apply writer_own. tauto.
      * apply S_tau.
      * split; [|auto]. rewrite <- Hown. done.
  - injection Hs as <-. destruct (Z.eqb_spec (owner s) 0) as [E|E].
    + quiet Hi Hp; cbn [tok]; rewrite ?E; try apply S_tau; auto.
    + quiet Hi Hp; cbn [tok]; rewrite ?(proj2 (Z.eqb_neq _ _) E); cbn; auto.
      destruct (Z.shiftr (owner s) 1 =? t) eqn:E1; constructor; [by apply writer_own, Hown|by apply not_free|].
      cbn. rewrite writer_own, <- Hown. done.
  - injection Hs as <-. rewrite id2_ok by done. unfold wunlock_result.
    destruct (Z.shiftr (owner s) 1 =? t) eqn:E1; cbn [negb].
    + assert (own (owner s) t) as Ho by tauto. destruct (Z.eqb_spec (owner s) (2 * t)) as [E|E].
      * quiet Hi Hp; cbn [tok]; rewrite ?E1; try apply S_tau; auto.
      * rewrite <- Z.negb_even, even_mod. destruct Ho as [Ho1 Ho2].
        replace (owner s mod 2 =? 0) with false by half. cbn [negb].
        quiet Hi Hp; cbn [tok]; rewrite ?E1; try apply S_tau; auto.
    + assert (owner s <> 2 * t) as E.
      { intros E. rewrite E in Hown. assert (false = true) by (apply Hown, own_double; lia). done. }
      rewrite (proj2 (Z.eqb_neq _ _) E). quiet Hi Hp; cbn [tok]; rewrite ?E1; auto.
      constructor. cbn. rewrite writer_own, <- Hown. done.
Qed.

Lemma again_change_prio sl v t s y :
  again (upd t (change_prio sl v (tag s) (info s t)).1 (info s) y) = again (info s y).
Proof.
  destruct (decide (y = t)) as [->|]; [|by rewrite upd_ne]. rewrite upd_eq.
  unfold change_prio, set_prio. by destruct sl.
Qed.

Lemma sim_prio s lr lw t sl v : inv threads m s lr lw ->
  let r := change_prio sl v (tag s) (info s t) in
  simulated m s lr lw t (Prio sl v) (set_info (upd t r.1 (info s)) r.2 s).
Proof.
  intros Hi r. exists lr, lw. split; [|constructor]. pose proof (inv_bound _ _ _ _ _ Hi).
  constructor; try apply Hi; cbn; unfold grow; [lia|]. intros y.
  unfold r. rewrite again_change_prio. apply Hi.
Qed.

Lemma rw_sim_events s s' lr lw t e : inv threads m s lr lw -> step protocol t e s = Some s' ->
  match e with Timeout | Stop | Prio _ _ => True | _ => False end -> simulated m s lr lw t e s'.
Proof.
  intros Hi Hs He. pose proof (inv_tok _ _ _ _ _ Hi t) as Ht. destruct e; try done; cbn [step] in Hs.
  - destruct (pcs s t) eqn:Hp; try discriminate Hs. destruct (_ =? _); [done|]. injection Hs as <-.
    destruct k; quiet Hi Hp; try apply S_tau; cbn in *; rewrite ?upd_eq; try tauto;
      try (intros y Hy; by rewrite upd_ne).
  - destruct (pcs s t) eqn:Hp; try discriminate Hs. injection Hs as <-.
    destruct k; quiet Hi Hp; try apply S_tau; cbn in *; tauto.
  - destruct (pcs s t); injection Hs as <-; by apply sim_prio.
Qed.

Lemma rw_sim_wait s s' lr lw t : inv threads m s lr lw -> wait_step t (pcs s t) s = Some s' ->
  emits protocol t Step s = Tau -> simulated m s lr lw t Step s'.
Proof.
  intros Hi Hs He. pose proof (inv_tok _ _ _ _ _ Hi t) as Ht. unfold wait_step, lock, unlock in Hs.
  assert (spec_step protocol (info s) (abs s lr lw) (emits protocol t Step s) (abs s lr lw)) as Htau
    by (rewrite He; constructor).
  pose proof (proj1 (inv_mutex _ _ _ _ _ Hi t)) as Hmx.
  destruct (pcs s t) eqn:Hp; try discriminate Hs; cbn [tok] in Ht.
  - injection Hs as <-. destruct k; quiet Hi Hp; cbn in *; naive_solver.
  - destruct (run s t) eqn:Hr; try discriminate Hs. injection Hs as <-.
    destruct k; quiet Hi Hp; cbn in *; rewrite ?upd_eq;
      try (intros y Hy; by rewrite upd_ne); destruct Ht as (H1 & H2 & _); split_and!; try done;
      intros Hin; by specialize (H2 Hin).
  - destruct (mutex s) eqn:Hm; [done|]. injection Hs as <-. destruct k; quiet Hi Hp.
  - destruct (mutex s) eqn:Hm; [done|]. injection Hs as <-. destruct k; quiet Hi Hp.
  - rewrite (wq_list_ok _ (match k with Reader => lr | Writer => lw end)) in Hs by (destruct k; apply Hi).
    destruct (bool_decide_reflect (t ∈ match k with Reader => lr | Writer => lw end)) as [Hin|Hin];
      injection Hs as <-; destruct k; quiet Hi Hp; try apply S_tau; cbn; rewrite ?upd_eq; cbn; try tauto;
      first [by apply Hmx | intros y Hy; by rewrite upd_ne].
  - injection Hs as <-. destruct r; quiet Hi Hp.
  - injection Hs as <-. quiet Hi Hp.
  - injection Hs as <-. quiet Hi Hp.
  - destruct r; [|done]. injection Hs as <-. quiet Hi Hp.
Qed.

(** The steps of the calls outside the mutex, and those that lock it. *)
Lemma sim_outside s s' lr lw t : inv threads m s lr lw -> t ∈ threads ->
  step protocol t Step s = Some s' ->
  match pcs s t with
  | RCas _ _ | RLock _ | RTimeRead | RTimeWait | UCas _ | ULock | WCas _ | WLock _ | TryCas
  | XCas | XLock => True | _ => False
  end -> simulated m s lr lw t Step s'.
Proof.
  intros Hi Hth Hs Hpc. pose proof (inv_tok _ _ _ _ _ Hi t) as Ht. pose proof (ids_ok t Hth) as Hid.
  pose proof (own_shiftr (owner s) t ltac:(lia)) as Hown. cbn [step] in Hs.
  destruct (pcs s t) eqn:Hp; try done; cbn [rlock_step runlock_step wlock_step wunlock_step] in Hs;
    unfold lock in Hs; cbn [tok] in Ht.
  - destruct (Z.eqb_spec (owner s) v) as [E|E]; injection Hs as <-.
    + apply sim_read_take; at_pc Hp; cbn [tok]; auto; try tauto.
      * apply readable_iff. tauto.
      * by rewrite E, Z.eqb_refl.
    + quiet Hi Hp; [|cbn; tauto]. rewrite (proj2 (Z.eqb_neq _ _) E). constructor.
  - destruct (mutex s) eqn:Hm; [done|]. injection Hs as <-. quiet Hi Hp. constructor.
  - destruct Ht as ((Hv & Hv2) & Ht). destruct (Z.eqb_spec (owner s) v) as [E|E]; injection Hs as <-.
    + apply sim_read_drop; at_pc Hp; cbn [tok]; auto; try tauto. by rewrite E, Z.eqb_refl.
    + quiet Hi Hp. rewrite (proj2 (Z.eqb_neq _ _) E). constructor.
  - destruct (mutex s) eqn:Hm; [done|]. injection Hs as <-. quiet Hi Hp. constructor.
  - destruct (Z.eqb_spec (owner s) 0) as [E|E]; injection Hs as <-.
    + apply sim_write_take; at_pc Hp; cbn [tok]; try tauto. by rewrite E.
    + quiet Hi Hp. rewrite (proj2 (Z.eqb_neq _ _) E). constructor.
  - destruct (mutex s) eqn:Hm; [done|]. injection Hs as <-. quiet Hi Hp. constructor.
  - destruct (Z.eqb_spec (owner s) 0) as [E|E]; injection Hs as <-.
    + apply sim_write_take; at_pc Hp; cbn [tok]; try tauto. by rewrite E.
    + quiet Hi Hp. rewrite (proj2 (Z.eqb_neq _ _) E).
      destruct (Z.shiftr (owner s) 1 =? t); constructor; [by apply writer_own, Hown|by apply not_free|].
      cbn. rewrite writer_own, <- Hown. done.
  - destruct Ht as (Ho & Ht). injection Hs as <-. unfold wunlock_result.
    rewrite (proj2 Hown Ho). cbn [negb]. destruct (Z.eqb_spec (owner s) (id2 t)) as [E|E].
    + rewrite E. pose proof E as E'. rewrite id2_ok in E' by done.
      replace (Z.odd (id2 t)) with false
        by (rewrite id2_ok by done; by rewrite Z.odd_mul).
      apply sim_write_drop; at_pc Hp; cbn [tok]; try tauto. by rewrite E, Z.eqb_refl.
    + rewrite id2_ok in E by done. rewrite <- Z.negb_even, even_mod.
      destruct Ho as [Ho1 Ho2]. replace (owner s mod 2 =? 0) with false by half. cbn [negb].
      quiet Hi Hp. rewrite id2_ok, (proj2 (Z.eqb_neq _ _) E) by done. constructor.
  - destruct (mutex s) eqn:Hm; [done|]. injection Hs as <-. quiet Hi Hp. constructor.
  - injection Hs as <-. rewrite (wq_null_ok _ lr) by apply Hi.
    destruct (bool_decide_reflect (lr = [])) as [->|E]; quiet Hi Hp; try constructor; cbn; set_solver.
  - destruct (mutex s) eqn:Hm; [done|]. injection Hs as <-. quiet Hi Hp. constructor.
Qed.

(** *** Inside the mutex *)

Lemma rw_sim_own s s' lr lw lr' lw' t p : inv threads m s lr lw -> pcs s' = upd t p (pcs s) ->
  holds (pcs s t) = true -> holds p = true -> mutex s' = mutex s ->
  wq_ok (rq s') lr' -> wq_ok (wq s') lw' -> shape p (owner s') lr' lw' ->
  - 2 * (m + grow) <= owner s' < 2 ^ 32 -> (forall x, x ∈ lr' \/ x ∈ lw' -> x ∈ threads) ->
  tok p (run s' t) (again (info s' t)) (t ∈ lr') (t ∈ lw') (own (owner s') t) ->
  (forall y, y <> t ->
     tok (pcs s y) (run s y) (again (info s y)) (y ∈ lr) (y ∈ lw) (own (owner s) y) ->
     tok (pcs s y) (run s' y) (again (info s' y)) (y ∈ lr') (y ∈ lw') (own (owner s') y)) ->
  spec_step protocol (info s) (abs s lr lw) (emits protocol t Step s) (abs s' lr' lw') ->
  simulated m s lr lw t Step s'.
Proof.
  intros Hi Hp H0 H1 Hm Hr Hw Hs Hb Hth Hok Hoth He. exists lr', lw'. split; [|done].
  destruct (rw_inv_owner m s lr lw t Hi H0) as [Hmt _].
  apply (rw_inv_step m _ s s' lr lw lr' lw' t p); unfold holder_after; rewrite ?H1; auto. congruence.
Qed.

Lemma own_writer o o' y : writer_of o' = writer_of o -> own o y <-> own o' y.
Proof. intros E. by rewrite <- !writer_own, E. Qed.

Lemma sim_rfetch s s' lr lw t timeout : inv threads m s lr lw -> t ∈ threads ->
  pcs s t = RFetch timeout -> rlock_step t (RFetch timeout) s = Some s' ->
  simulated m s lr lw t Step s'.
Proof.
  intros Hi Hth Hp Hs. pose proof (inv_tok _ _ _ _ _ Hi t) as Ht. rewrite Hp in Ht.
  destruct (rw_inv_owner m s lr lw t Hi) as [Hm Hh]; [by rewrite Hp|].
  pose proof (inv_shape _ _ _ _ _ Hi) as Hsh. rewrite Hh, Hp in Hsh.
  pose proof (inv_bound _ _ _ _ _ Hi) as Hb. cbn [rlock_step] in Hs.
  destruct (readable (owner s)) eqn:E; injection Hs as <-.
  - apply readable_iff in E as E'. destruct E' as [Ho He].
    destruct (shape_even _ _ (owner s - 2) lr lw He ltac:(half) Hsh) as (Hsh' & -> & ->).
    rewrite sgn64_ok by lia. eapply (rw_sim_own s _ [] [] [] []); [exact Hi|reflexivity|..]; at_pc Hp;
      try apply Hi; cbn; unfold grow; try lia.
    + intros y _. apply tok_own. split; intros []%own_neg; lia.
    + rewrite E. by apply spec_read_take.
  - assert (owner s <> 0) as Hnz by (intros E0; by rewrite E0 in E).
    destruct (wait_bit_set _ Hnz) as [Er Ew]. rewrite lor_wait_bit. destruct Ht as (Hr & Hlr & Hlw).
    assert (0 < owner s \/ owner s mod 2 = 1) as Hbl.
    { destruct (decide (0 < owner s)); [by left|right].
      destruct (decide (owner s mod 2 = 0)); [|half]. rewrite (proj2 (readable_iff _)) in E by lia. done. }
    eapply (rw_sim_own s _ lr lw (t :: lr) lw); [exact Hi|reflexivity|..]; at_pc Hp; cbn [owner goto set_rq suspend set_owner set_info set_run rq wq run info].
    + apply wq_emplace_ok; [apply Hi|done].
    + apply Hi.
    + destruct Hsh as (H1 & H2 & H3). split; [half|]. split; [half|].
      intros Hneg _. apply H3; half.
    + unfold grow. half.
    + intros x [[->|]%elem_of_cons|]; [done|..]; apply (inv_threads _ _ _ _ _ Hi); auto.
    + rewrite upd_eq. cbn. split; [done|]. split; [set_solver|done].
    + intros y Hy. rewrite !upd_ne by done. apply tok_ext; [set_solver|done|by apply own_writer].
    + rewrite E. unfold abs. cbn [owner goto set_rq suspend set_owner set_info set_run]. rewrite Er, Ew.
      constructor; [done|done|]. destruct Hbl as [Hpos|Hodd].
      * left. by destruct (readers_pos _ Hpos) as [_ ->].
      * destruct (decide (0 < owner s)) as [Hpos|]; [left; by destruct (readers_pos _ Hpos) as [_ ->]|].
        right. destruct Hsh as (_ & _ & Hsh). apply Hsh; lia.
Qed.

Lemma sim_wfetch s s' lr lw t timeout : inv threads m s lr lw -> t ∈ threads ->
  pcs s t = WFetch timeout -> wlock_step t (WFetch timeout) s = Some s' ->
  simulated m s lr lw t Step s'.
Proof.
  intros Hi Hth Hp Hs. pose proof (inv_tok _ _ _ _ _ Hi t) as Ht. rewrite Hp in Ht.
  destruct (rw_inv_owner m s lr lw t Hi) as [Hm Hh]; [by rewrite Hp|].
  pose proof (inv_shape _ _ _ _ _ Hi) as Hsh. rewrite Hh, Hp in Hsh. pose proof (ids_ok t Hth) as Hid.
  pose proof (inv_bound _ _ _ _ _ Hi) as Hb. cbn [wlock_step] in Hs. destruct Ht as (Hno & Hr & Hlr & Hlw).
  destruct (Z.eqb_spec (owner s) 0) as [E|E]; injection Hs as <-.
  - destruct (shape_even _ (owner s) (2 * t) lr lw ltac:(by rewrite E) ltac:(half) Hsh) as (Hsh' & -> & ->).
    rewrite id2_ok by done. eapply (rw_sim_own s _ [] [] [] []); [exact Hi|reflexivity|..]; at_pc Hp;
      try apply Hi; cbn [owner goto set_owner]; unfold grow; try lia.
    + intros y Hy. apply tok_own. rewrite E. unfold own. half.
    + unfold abs. rewrite E. apply spec_write_take. lia.
  - destruct (wait_bit_set _ E) as [Er Ew]. rewrite lor_wait_bit.
    assert ((Z.shiftr (owner s) 1 =? t) = false) as ->.
    { apply not_true_is_false. rewrite own_shiftr by lia. done. }
    eapply (rw_sim_own s _ lr lw lr (t :: lw)); [exact Hi|reflexivity|..]; at_pc Hp; cbn [owner goto set_wq suspend set_owner set_info set_run rq wq run info].
    + apply Hi.
    + apply wq_emplace_ok; [apply Hi|done].
    + split; [destruct Hsh; half|]. split; [half|done].
    + unfold grow. half.
    + intros x [|[->|]%elem_of_cons]; [|done|]; apply (inv_threads _ _ _ _ _ Hi); auto.
    + rewrite upd_eq. cbn. split; [done|]. split; [set_solver|done].
    + intros y Hy. rewrite !upd_ne by done. apply tok_ext; [done|set_solver|by apply own_writer].
    + rewrite (proj2 (Z.eqb_neq _ _) E). unfold abs at 2. cbn [owner goto set_wq suspend set_owner set_info set_run].
      rewrite Er, Ew. apply (S_write_block _ _ t (abs s lr lw)); [by apply not_free| |done|done].
      cbn. by rewrite writer_own.
Qed.

Lemma sim_ufetch s s' lr lw t : inv threads m s lr lw -> pcs s t = UFetch ->
  runlock_step protocol t UFetch s = Some s' -> simulated m s lr lw t Step s'.
Proof.
  intros Hi Hp Hs. pose proof (inv_tok _ _ _ _ _ Hi t) as Ht. rewrite Hp in Ht.
  destruct (rw_inv_owner m s lr lw t Hi) as [Hm Hh]; [by rewrite Hp|].
  pose proof (inv_shape _ _ _ _ _ Hi) as Hsh. rewrite Hh, Hp in Hsh.
  pose proof (inv_bound _ _ _ _ _ Hi) as Hb. cbn [runlock_step] in Hs. injection Hs as <-.
  destruct (Z.leb_spec 0 (owner s)) as [E|E]; [|destruct (Z.eqb_spec (owner s) (-1)) as [E1|E1]].
  - replace (owner s <? -1) with false by lia. quiet Hi Hp.
    replace (0 <=? owner s) with true by lia. constructor. cbn. unfold readers_of.
    by replace (owner s <? 0) with false by lia.
  - replace (owner s <? -1) with false by lia.
    eapply (rw_sim_own s _ lr lw lr lw); [exact Hi|reflexivity|..]; at_pc Hp; try apply Hi; auto.
    + cbn [owner goto]. destruct Hsh as (H1 & H2 & H3). split; [done|]. split; [done|].
      split; [done|]. apply H3; rewrite ?E1; done.
    + cbn [owner goto]. unfold grow. lia.
    + rewrite E1. constructor.
  - replace (owner s <? -1) with true by lia. rewrite sgn64_ok by lia.
    eapply (rw_sim_own s _ lr lw lr lw); [exact Hi|reflexivity|..]; at_pc Hp; try apply Hi; auto;
      cbn [owner goto set_owner].
    + destruct Hsh as (H1 & H2 & H3). split; [lia|]. split; [intros; apply H2; half|].
      intros _ Hodd. apply H3; half.
    + unfold grow. half.
    + intros y _. apply tok_own. split; intros []%own_neg; lia.
    + replace (0 <=? owner s) with false by lia. rewrite (proj2 (Z.eqb_neq _ _) E1).
      apply spec_read_drop; [done|]. destruct (decide (owner s mod 2 = 0)) as [E2|E2].
      * left. destruct Hsh as (_ & H2 & _). destruct (H2 E2) as [-> ->]. done.
      * right. half.
Qed.

Lemma sim_time_reader s s' lr lw t : inv threads m s lr lw -> pcs s t = TimeUnqueue Reader ->
  rlock_step t (TimeUnqueue Reader) s = Some s' -> simulated m s lr lw t Step s'.
Proof.
  intros Hi Hp Hs. pose proof (inv_tok _ _ _ _ _ Hi t) as Ht. rewrite Hp in Ht.
  destruct (rw_inv_owner m s lr lw t Hi) as [Hm Hh]; [by rewrite Hp|].
  pose proof (inv_shape _ _ _ _ _ Hi) as Hsh. rewrite Hh, Hp in Hsh.
  pose proof (inv_bound _ _ _ _ _ Hi) as Hb. cbn [rlock_step] in Hs. injection Hs as <-.
  destruct (wq_unqueue_ok t _ _ (inv_rq _ _ _ _ _ Hi)) as [Hu Hq].
  eapply (rw_sim_own s _ lr lw (list_remove_id t lr) lw); [exact Hi|reflexivity|..]; at_pc Hp;
    try apply Hi; auto; cbn [owner goto set_rq].
  - destruct Hsh as (H1 & H2 & H3). split; [done|]. split; [|done].
    intros E. by destruct (H2 E) as [-> ->].
  - unfold grow. lia.
  - intros x [Hx%remove_id_sub|Hx]; apply (inv_threads _ _ _ _ _ Hi); auto.
  - cbn in *. rewrite elem_of_remove_id. tauto.
  - intros y Hy. apply tok_ext; [|done|done]. rewrite elem_of_remove_id. tauto.
  - rewrite Hu. destruct (decide (t ∈ lr)) as [Hl|Hl].
    + by constructor.
    + rewrite remove_id_notin by done. constructor.
Qed.

Lemma sim_time_writer s s' lr lw t : inv threads m s lr lw -> pcs s t = TimeUnqueue Writer ->
  wlock_step t (TimeUnqueue Writer) s = Some s' -> simulated m s lr lw t Step s'.
Proof.
  intros Hi Hp Hs. pose proof (inv_tok _ _ _ _ _ Hi t) as Ht. rewrite Hp in Ht.
  destruct (rw_inv_owner m s lr lw t Hi) as [Hm Hh]; [by rewrite Hp|].
  pose proof (inv_shape _ _ _ _ _ Hi) as Hsh. rewrite Hh, Hp in Hsh. destruct Hsh as (H1 & H2 & H3).
  pose proof (inv_bound _ _ _ _ _ Hi) as Hb. cbn [wlock_step] in Hs.
  destruct (wq_unqueue_ok t _ _ (inv_wq _ _ _ _ _ Hi)) as [Hu Hq]. rewrite Hu in Hs.
  rewrite (wq_null_ok _ _ Hq), (wq_null_ok _ _ (inv_rq _ _ _ _ _ Hi)) in Hs.
  set (lw' := list_remove_id t lw) in *. destruct (decide (t ∈ lw)) as [Hl|Hl].
  2: { injection Hs as <-. unfold lw' in Hq. rewrite remove_id_notin in Hq by done.
    eapply (rw_sim_own s _ lr lw lr lw); [exact Hi|reflexivity|..]; at_pc Hp; try apply Hi; auto.
    - cbn [owner goto set_wq]. unfold grow. lia.
    - cbn in *. tauto.
    - rewrite Hu. constructor. }
  assert (owner s mod 2 = 1) as Hodd.
  { destruct (decide (owner s mod 2 = 0)) as [E|E]; [|half]. destruct (H2 E) as [_ E']. set_solver. }
  assert (forall p, s' = goto t p (set_wq (wq_unqueue t (wq s)).2 s) -> holds p = true ->
    shape p (owner s) lr lw' -> tok p Running (again (info s t)) False False (own (owner s) t) ->
    simulated m s lr lw t Step s') as Hgo.
  { intros p -> Hhp Hshp Htp. eapply (rw_sim_own s _ lr lw lr lw'); [exact Hi|reflexivity|..]; at_pc Hp;
      try apply Hi; auto; cbn [owner goto set_wq].
    - unfold grow. lia.
    - intros x [Hx|Hx%remove_id_sub]; apply (inv_threads _ _ _ _ _ Hi); auto.
    - cbn in *. destruct Ht as (-> & Hlr & _). eapply tok_ext; [..|exact Htp]; [tauto| |done].
      unfold lw'. rewrite elem_of_remove_id. tauto.
    - intros y Hy. apply tok_ext; [done| |done]. unfold lw'. rewrite elem_of_remove_id. tauto.
    - rewrite Hu. by constructor. }
  destruct (bool_decide_reflect (lr = [])) as [Er|Er], (bool_decide_reflect (lw' = [])) as [Ew|Ew],
    (Z.ltb_spec (owner s) 0) as [Eo|Eo]; cbn in Hs; injection Hs as Hs; apply (Hgo _ (eq_sym Hs));
    try done; repeat split; try done; try lia.
Qed.

Lemma sim_time_clear s s' lr lw t : inv threads m s lr lw -> pcs s t = WTimeClear ->
  wlock_step t WTimeClear s = Some s' -> simulated m s lr lw t Step s'.
Proof.
  intros Hi Hp Hs. pose proof (inv_tok _ _ _ _ _ Hi t) as Ht. rewrite Hp in Ht.
  destruct (rw_inv_owner m s lr lw t Hi) as [Hm Hh]; [by rewrite Hp|].
  pose proof (inv_shape _ _ _ _ _ Hi) as Hsh. rewrite Hh, Hp in Hsh. destruct Hsh as (H1 & _ & H3 & -> & ->).
  pose proof (inv_bound _ _ _ _ _ Hi) as Hb. cbn [wlock_step] in Hs. injection Hs as <-.
  rewrite land_wait_bit. destruct (wait_bit_clear _ H1) as [Er Ew].
  eapply (rw_sim_own s _ [] [] [] []); [exact Hi|reflexivity|..]; at_pc Hp; try apply Hi; auto;
    cbn [owner goto set_owner].
  - split; [half|]. split; [done|half].
  - unfold grow. half.
  - intros y _. apply tok_own. by apply own_writer.
  - unfold abs. cbn [owner goto set_owner]. rewrite Er, Ew. constructor.
Qed.

(** Only [t] is in the mutex. *)
Lemma others_outside s lr lw t y : inv threads m s lr lw -> holds (pcs s t) = true -> y <> t ->
  holds (pcs s y) = false.
Proof.
  intros Hi Ht Hy. apply not_true_is_false. intros Hh.
  apply (inv_mutex _ _ _ _ _ Hi) in Ht, Hh. congruence.
Qed.

(** The lock is handed to the writer [x]: by the last reader, or by a writer. *)
Lemma sim_hand s lr lw t x r : inv threads m s lr lw -> holds (pcs s t) = true ->
  run s t = Running -> t ∉ lr -> t ∉ lw -> (forall y, y <> t -> ~ own (owner s) y) ->
  wq_schedule (info s) protocol (wq s) = (Some x, r) -> again (info s x) = false ->
  (pick (info s) protocol lw = Some x ->
   spec_step protocol (info s) (abs s lr lw) (emits protocol t Step s)
     (Spec 0 (Some x) lr (list_remove_id x lw))) ->
  simulated m s lr lw t Step
    (goto t (UnlockRelease (Ret CELL_OK))
       (set_run (awake_all [x] (run s)) (set_wq r (set_owner (handed x r (rq s)) s)))).
Proof.
  intros Hi H0 Hr Hlr Hlw Hno Hsch Ha He.
  destruct (wq_schedule_ok (info s) protocol _ _ (inv_wq _ _ _ _ _ Hi)) as [Hu Hq].
  unfold after_pick in Hq. rewrite Hsch in Hu, Hq. cbn in Hu, Hq. rewrite <- Hu, Ha in Hq.
  specialize (He (eq_sym Hu)). pose proof (pick_in _ _ _ _ (eq_sym Hu)) as Hx.
  assert (x ∈ threads) as Hxt by (apply (inv_threads _ _ _ _ _ Hi); auto).
  assert (x <> t) as Hne by (intros ->; done). pose proof (ids_ok x Hxt) as Hid.
  pose proof (handed_ok x r (rq s) _ lr Hid Hq (inv_rq _ _ _ _ _ Hi)) as Eh.
  pose proof (inv_bound _ _ _ _ _ Hi) as Hb.
  eapply (rw_sim_own s _ lr lw lr (list_remove_id x lw)); [exact Hi|reflexivity|..]; try done;
    try apply Hi; cbn [owner goto set_run set_wq set_owner run info]; rewrite ?Eh.
  - destruct (bool_decide_reflect (list_remove_id x lw = [] /\ lr = [])) as [[-> ->]|E].
    + split; [lia|]. split; [done|lia].
    + split; [lia|]. split; [half|lia].
  - unfold grow. destruct (bool_decide _); lia.
  - intros y [Hy|Hy%remove_id_sub]; apply (inv_threads _ _ _ _ _ Hi); auto.
  - rewrite awake_all_notin by set_solver. cbn. rewrite elem_of_remove_id. tauto.
  - intros y Hy Htok. destruct (decide (y = x)) as [->|Hyx].
    + rewrite awake_all_in by set_solver. rewrite Ha in *.
      apply (tok_woken_writer _ _ _ _ _ (others_outside s lr lw t x Hi H0 Hy) Hx) in Htok.
      eapply tok_ext; [..|exact Htok]; [done|rewrite elem_of_remove_id; tauto|].
      split; [|done]. intros _. unfold own. destruct (bool_decide _); half.
    + rewrite awake_all_notin by set_solver. eapply tok_ext; [..|exact Htok]; [done|..].
      * rewrite elem_of_remove_id. tauto.
      * split; [by intros ?%Hno|]. intros [_ H2]. destruct (bool_decide _); exfalso; half.
  - unfold abs in *. cbn [owner goto set_run set_wq set_owner]. rewrite ?Eh.
    destruct (readers_pos (2 * x + (if bool_decide (list_remove_id x lw = [] /\ lr = []) then 0 else 1)))
      as [-> ->]; [destruct (bool_decide _); lia|].
    replace ((2 * x + _) / 2) with x by (destruct (bool_decide _); half). done.
Qed.

Lemma sim_uhand s s' lr lw t : inv threads m s lr lw -> pcs s t = UHand ->
  runlock_step protocol t UHand s = Some s' -> simulated m s lr lw t Step s'.
Proof.
  intros Hi Hp Hs. pose proof (inv_tok _ _ _ _ _ Hi t) as Ht. rewrite Hp in Ht.
  destruct (rw_inv_owner m s lr lw t Hi) as [Hm Hh]; [by rewrite Hp|].
  pose proof (inv_shape _ _ _ _ _ Hi) as Hsh. rewrite Hh, Hp in Hsh. destruct Hsh as (H1 & H2 & E1 & H3).
  destruct (wq_schedule_ok (info s) protocol _ _ (inv_wq _ _ _ _ _ Hi)) as [Hu _].
  cbn [runlock_step] in Hs. destruct (wq_schedule (info s) protocol (wq s)) as [[x|] r] eqn:Hsch; cbn in Hs, Hu.
  2: { by destruct lw. }
  destruct (again (info s x)) eqn:Ha; injection Hs as <-.
  - eapply rw_sim_quiet; [exact Hi|reflexivity|..]; at_pc Hp; auto.
    + unfold holder_after. cbn. split; [done|]. by split.
    + rewrite Hsch. cbn. rewrite Ha. constructor.
  - destruct Ht as (Hr & Hlr & Hlw). apply sim_hand; at_pc Hp; auto.
    + intros y _. apply own_neg. lia.
    + intros Hpick. rewrite Hsch. cbn. rewrite Ha. unfold abs. rewrite E1. by apply S_last_drop.
Qed.

Lemma queue_size s lr lw : inv threads m s lr lw -> Z.of_nat (length lr) < grow.
Proof.
  intros Hi. pose proof (wq_ok_nodup _ _ (inv_rq _ _ _ _ _ Hi)) as Hn. unfold grow.
  assert (length lr <= size threads)%nat; [|lia].
  rewrite <- (size_list_to_set (C := gset tid) lr Hn). apply subseteq_size.
  intros x Hx%elem_of_list_to_set. apply (inv_threads _ _ _ _ _ Hi). auto.
Qed.

(** All waiting readers are let in. *)
Lemma sim_admit s lr t p l q v : inv threads m s lr [] -> holds (pcs s t) = true -> holds p = true ->
  leaving p = false -> tok p Running (again (info s t)) False False False ->
  run s t = Running -> t ∉ lr -> (forall y, y <> t -> ~ own (owner s) y) ->
  pop_all (pop_fuel (rq s)) (info s) (rq s) = Some (l, q) ->
  v <= 0 -> v mod 2 = 0 -> - 2 * (m + grow) <= v ->
  spec_step protocol (info s) (abs s lr []) (emits protocol t Step s) (Spec ((1 - v) / 2) None [] []) ->
  simulated m s lr [] t Step
    (goto t p (set_run (awake_all l (run s)) (set_rq q (set_owner v s)))).
Proof.
  intros Hi H0 H1 Hlv Hok Hr Hlr Hno Hpop Hv He Hb Hsp.
  destruct (pop_all_sound _ _ _ _ _ _ (inv_rq _ _ _ _ _ Hi) Hpop) as (Hl & Hq & Ha).
  eapply (rw_sim_own s _ lr [] [] []); [exact Hi|reflexivity|..]; try done; try apply Hi;
    cbn [owner goto set_run set_rq set_owner run info].
  - split; [half|]. split; [done|]. destruct p; try done; half.
  - lia.
  - set_solver.
  - rewrite awake_all_notin by (by rewrite Hl). rewrite Hr.
    eapply tok_ext; [..|exact Hok]; [set_solver|set_solver|]. split; [done|by intros []%own_neg].
  - intros y Hy Htok. destruct (decide (y ∈ lr)) as [Hyl|Hyl].
    + rewrite awake_all_in by (by rewrite Hl). rewrite (Ha y Hyl) in *.
      apply (tok_woken_reader _ _ _ _ _ (others_outside s lr [] t y Hi H0 Hy) Hyl) in Htok.
      eapply tok_ext; [..|exact Htok]; [set_solver|done|].
      split; [by intros ?%Hno|by intros []%own_neg].
    + rewrite awake_all_notin by (by rewrite Hl). eapply tok_ext; [..|exact Htok]; [set_solver|done|].
      split; [by intros ?%Hno|by intros []%own_neg].
  - unfold abs at 2. cbn [owner goto set_run set_rq set_owner].
    destruct (readers_neg v Hv) as [-> ->]. done.
Qed.

Lemma sim_time_wake s s' lr lw t : inv threads m s lr lw -> pcs s t = WTimeWake ->
  wlock_step t WTimeWake s = Some s' -> simulated m s lr lw t Step s'.
Proof.
  intros Hi Hp Hs. pose proof (inv_tok _ _ _ _ _ Hi t) as Ht. rewrite Hp in Ht.
  destruct (rw_inv_owner m s lr lw t Hi) as [Hm Hh]; [by rewrite Hp|].
  pose proof (inv_shape _ _ _ _ _ Hi) as Hsh. rewrite Hh, Hp in Hsh.
  destruct Hsh as (_ & _ & Hneg & Hodd & -> & Hne).
  pose proof (inv_bound _ _ _ _ _ Hi) as Hb. pose proof (queue_size _ _ _ Hi) as Hsz.
  cbn [wlock_step] in Hs. destruct (pop_all _ _ _) as [[l q]|] eqn:Hpop; [|done]. injection Hs as <-.
  destruct (pop_all_sound _ _ _ _ _ _ (inv_rq _ _ _ _ _ Hi) Hpop) as (Hl & _ & _).
  rewrite (Permutation_length Hl), land_wait_bit.
  assert (Z.of_nat (length lr) < 2 ^ 61) as Hlen.
  { pose proof (Hsz). pose proof few. lia. }
  rewrite sgn64_ok by lia. destruct Ht as (Hr & Hlr & _).
  apply sim_admit; at_pc Hp; auto; try half.
  - by split_and!; try intros [].
  - intros y _. apply own_neg. lia.
  - unfold abs. destruct (readers_neg (owner s)) as [-> ->]; [lia|].
    replace ((1 - (_ - _)) / 2) with ((1 - owner s) / 2 + Z.of_nat (length lr)) by half.
    rewrite (wq_list_ok _ _ (inv_rq _ _ _ _ _ Hi)). constructor; [half|done].
Qed.

Lemma sim_xhand s s' lr lw t : inv threads m s lr lw -> t ∈ threads -> pcs s t = XHand ->
  wunlock_step protocol t XHand s = Some s' -> simulated m s lr lw t Step s'.
Proof.
  intros Hi Hth Hp Hs. pose proof (inv_tok _ _ _ _ _ Hi t) as Ht. rewrite Hp in Ht.
  destruct (rw_inv_owner m s lr lw t Hi) as [Hm Hh]; [by rewrite Hp|].
  pose proof (inv_shape _ _ _ _ _ Hi) as Hsh. rewrite Hh, Hp in Hsh.
  destruct Ht as (Ho & Hr & Hlr & Hlw). pose proof (inv_bound _ _ _ _ _ Hi) as Hb.
  destruct (readers_pos (owner s) (proj1 Ho)) as [Er Ew].
  assert (forall y, y <> t -> ~ own (owner s) y) as Hno.
  { intros y Hy [_ H]. destruct Ho as [_ H']. congruence. }
  destruct (wq_schedule_ok (info s) protocol _ _ (inv_wq _ _ _ _ _ Hi)) as [Hu _].
  cbn [wunlock_step] in Hs.
  destruct (wq_schedule (info s) protocol (wq s)) as [[x|] r] eqn:Hsch; cbn [fst snd] in Hs, Hu.
  - destruct (again (info s x)) eqn:Ha; injection Hs as <-.
    + quiet Hi Hp. rewrite Hsch. cbn. rewrite Ha. constructor.
    + apply sim_hand; at_pc Hp; auto.
      intros Hpick. rewrite Hsch. cbn. rewrite Ha. unfold abs. rewrite Er, Ew, (proj2 Ho).
      by apply S_write_hand.
  - assert (lw = []) as -> by by destruct lw.
    rewrite (wq_null_ok _ _ (inv_rq _ _ _ _ _ Hi)), (wq_list_ok _ _ (inv_rq _ _ _ _ _ Hi)) in Hs.
    assert (emits protocol t Step s = if bool_decide (lr = []) then WriteDrop t
      else if existsb (fun cpu => again (info s cpu)) lr then Tau else WriteAdmit t lr) as Hem.
    { unfold emits. rewrite Hp, Hsch. cbn.
      by rewrite (wq_null_ok _ _ (inv_rq _ _ _ _ _ Hi)), (wq_list_ok _ _ (inv_rq _ _ _ _ _ Hi)). }
    destruct (bool_decide_reflect (lr = [])) as [->|Hne]; cbn [negb] in Hs.
    + injection Hs as <-. eapply (rw_sim_own s _ [] [] [] []); [exact Hi|reflexivity|..]; at_pc Hp;
        try apply Hi; cbn [owner goto set_owner]; unfold grow; try lia.
      * intros y Hy. apply tok_own. split; [by intros ?%Hno|by intros []%own_neg].
      * rewrite Hsch. cbn. rewrite (wq_null_ok _ _ (inv_rq _ _ _ _ _ Hi)).
        by apply spec_write_drop.
    + destruct (existsb _ lr) eqn:Hex; [injection Hs as <-; quiet Hi Hp|].
      { unfold emits in Hem. rewrite Hp in Hem. rewrite Hem. constructor. }
      destruct (pop_all _ _ _) as [[l q]|] eqn:Hpop; [|done]. injection Hs as <-.
      destruct (pop_all_sound _ _ _ _ _ _ (inv_rq _ _ _ _ _ Hi) Hpop) as (Hl & _ & _).
      rewrite (Permutation_length Hl). pose proof (queue_size _ _ _ Hi). pose proof few.
      rewrite sgn64_ok by lia. apply sim_admit; rewrite ?Hp; try done; try half.
      { by split_and!; try intros []. }
      rewrite Hem. unfold abs. rewrite Er, Ew, (proj2 Ho).
      replace ((1 - _) / 2) with (Z.of_nat (length lr)) by half. by constructor.
Qed.

(** Every step of every thread. *)
Lemma rw_sim_step s s' lr lw t e : inv threads m s lr lw -> t ∈ threads ->
  step protocol t e s = Some s' -> simulated m s lr lw t e s'.
Proof.
  intros Hi Hth Hs. destruct e; try (by apply rw_sim_call); try (by apply rw_sim_events).
  destruct (pcs s t) as [| | | | | | | | | | | | | | | | | | | |[]| | | | | | | | | |] eqn:Hp;
    try (apply sim_outside; auto; by rewrite Hp);
    cbn [step] in Hs; rewrite Hp in Hs;
    first [ by apply (sim_ufetch s s' lr lw t) | by apply (sim_uhand s s' lr lw t)
          | by eapply sim_rfetch | by eapply sim_wfetch | by apply (sim_xhand s s' lr lw t)
          | by apply sim_time_reader | by apply sim_time_writer | by apply sim_time_wake
          | by apply sim_time_clear
          | rewrite <- Hp in Hs; apply rw_sim_wait; [done|done|]; unfold emits; by rewrite Hp ].
Qed.

End Invariant.
