(* ===== verification/Lv2RwlockSpec.v ===== *)
(** Properties of the lv2 reader-writer lock ([Lv2Rwlock]): runs of the system calls of any number of
    threads, their traces of abstract actions, and the theorems on them. *)

From Stdlib Require Import ZArith Lia Bool.
From stdpp Require Import base tactics option list numbers gmap sets.
From S2P Require Import Prelude Lv2Queue Lv2Base Lv2Rwlock.
Import Lv2Queue.Lv2Queue Rwlock.
Local Open Scope Z_scope.

(** ** Runs *)

#[export] Instance kind_eq_dec : EqDecision kind.
Proof. solve_decision. Defined.

(** A lock call gives [CELL_OK] to its caller in this step: it has the lock as a reader or as the
    writer. *)
Definition lock_returns (e : event) (p p' : pc) : option kind :=
  match p' with
  | Done (Ret code) | Stopped _ (Ret code) =>
      if code =? CELL_OK then
        match e, p with
        | CallTryrlock, Idle | Step, (RCas _ _ | RTimeWait) => Some Reader
        | Step, (WCas _ | TryCas) => Some Writer
        | Step, (Release k _ | StopRelease k _ | Sleeping k _) => Some k
        | _, _ => None
        end
      else None
  | _ => None
  end.

(** The code a system call gives to its caller in this step. *)
Definition reply (e : event) (p' : pc) : option Z :=
  match e, p' with
  | Prio _ _, _ => None
  | _, (Done (Ret code) | Stopped _ (Ret code)) => Some code
  | _, _ => None
  end.

(** A step in a run: its thread, the thread records at that time, the abstract action, the call that
    returned with the lock, and the code that was returned. *)
Record entry := Entry {
  by_thread : tid; at_info : tid -> thread_info; action : label; returned : option (tid * kind);
  replied : option Z }.

Fixpoint exec {T} `{!WaitQueue T} (protocol : Z) (evs : list (tid * event)) (s : state T)
    : option (list entry * state T) :=
  match evs with
  | [] => Some ([], s)
  | (t, e) :: evs =>
      s' ← step protocol t e s;
      r ← exec protocol evs s';
      Some (Entry t (info s) (emits protocol t e s)
              (k ← lock_returns e (pcs s t) (pcs s' t); Some (t, k)) (reply e (pcs s' t)) :: r.1, r.2)
  end.

Inductive spec_run (protocol : Z) : spec -> list entry -> spec -> Prop :=
  | spec_run_nil a : spec_run protocol a [] a
  | spec_run_cons a b d x tr : spec_step protocol (at_info x) a (action x) b ->
      spec_run protocol b tr d -> spec_run protocol a (x :: tr) d.

(** The answer that an abstract action decides for thread [y]. *)
Definition verdict (lb : label) (y : tid) : option Z :=
  match lb with
  | Tau | ReadBlock _ | WriteBlock _ => None
  | ReadTake t | ReadDrop t | WriteTake t | WriteDrop t => only_to t (Some CELL_OK) y
  | ReadBusy t | WriteBusy t => only_to t (Some CELL_EBUSY) y
  | ReadPerm t | WritePerm t => only_to t (Some CELL_EPERM) y
  | WriteDead t => only_to t (Some CELL_EDEADLK) y
  | ReadGiveUp t | WriteGiveUp t => only_to t (Some CELL_ETIMEDOUT) y
  | LastDrop t x | WriteHand t x => if y =? t then Some CELL_OK else only_to x (Some CELL_OK) y
  | WriteAdmit t l => if (y =? t) || bool_decide (y ∈ l) then Some CELL_OK else None
  | Admit l => if bool_decide (y ∈ l) then Some CELL_OK else None
  end.

(** A run as thread [y] sees it: answers decided and codes returned. *)
Definition seen_by (y : tid) (tr : list entry) : list (option Z * option Z) :=
  map (fun x => (verdict (action x) y, only_to (by_thread x) (replied x) y)) tr.

(** The answer of a thread's current call that is decided and not returned yet. *)
Definition owed (p : pc) (inr inw : bool) : option Z :=
  match p with
  | Sleeping k _ | TimeLock k | TimeUnqueue k | StopLock k | StopScan k =>
      if match k with Reader => inr | Writer => inw end then None else Some CELL_OK
  | RTimeRead => if inr then None else Some CELL_OK
  | RTimeWait => Some CELL_OK
  | WTimeWake | WTimeClear => Some CELL_ETIMEDOUT
  | Release _ (Ret code) | StopRelease _ (Ret code) | UnlockRelease (Ret code) => Some code
  | _ => None
  end.

Definition owes {T} `{!WaitQueue T} (s : state T) (y : tid) : option Z :=
  owed (pcs s y) (bool_decide (y ∈ wq_list (rq s))) (bool_decide (y ∈ wq_list (wq s))).

(** ** Who gets the lock and who gives it up *)

Definition one (P : Prop) `{Decision P} : Z := if decide P then 1 else 0.
Arguments one _ {_} : simpl never.

(** Thread [y] gets the lock, as a reader or as the writer. *)
Definition granted (k : kind) (y : tid) (lb : label) : Z :=
  match k, lb with
  | Reader, ReadTake t => one (y = t)
  | Reader, (WriteAdmit _ l | Admit l) => one (y ∈ l)
  | Writer, (WriteTake t | LastDrop _ t | WriteHand _ t) => one (y = t)
  | _, _ => 0
  end.

Definition readers_in (lb : label) : Z :=
  match lb with
  | ReadTake _ => 1
  | WriteAdmit _ l | Admit l => Z.of_nat (length l)
  | _ => 0
  end.
Definition readers_out (lb : label) : Z :=
  match lb with ReadDrop _ | LastDrop _ _ => 1 | _ => 0 end.
Definition writer_out (y : tid) (lb : label) : Z :=
  match lb with WriteDrop t | WriteHand t _ | WriteAdmit t _ => one (y = t) | _ => 0 end.

Definition sum (f : label -> Z) (tr : list entry) : Z := foldr (fun x z => f (action x) + z) 0 tr.
Definition returns (k : kind) (y : tid) (tr : list entry) : Z :=
  foldr (fun x z => one (returned x = Some (y, k)) + z) 0 tr.

(** The lock was given to the thread for the call it is in, which has not returned yet. *)
Definition in_flight (k : kind) (p : pc) (inr inw : bool) : Z :=
  match p with
  | Release k' (Ret code) | StopRelease k' (Ret code) =>
      if bool_decide (k = k') && (code =? CELL_OK) then 1 else 0
  | Sleeping k' _ | TimeLock k' | TimeUnqueue k' | StopLock k' | StopScan k' =>
      if bool_decide (k = k') && negb (match k with Reader => inr | Writer => inw end) then 1 else 0
  | RTimeRead => if bool_decide (k = Reader) && negb inr then 1 else 0
  | RTimeWait => if bool_decide (k = Reader) then 1 else 0
  | _ => 0
  end.

Definition flight {T} `{!WaitQueue T} (k : kind) (s : state T) (y : tid) : Z :=
  in_flight k (pcs s y) (bool_decide (y ∈ wq_list (rq s))) (bool_decide (y ∈ wq_list (wq s))).

Lemma one_true (P : Prop) `{Decision P} : P -> one P = 1.
Proof. intros. unfold one. by rewrite decide_True. Qed.

Lemma one_false (P : Prop) `{Decision P} : ~ P -> one P = 0.
Proof. intros. unfold one. by rewrite decide_False. Qed.

(** ** Counting along abstract runs *)

Lemma readers_run protocol a tr b : spec_run protocol a tr b ->
  readers b = readers a + sum readers_in tr - sum readers_out tr.
Proof.
  induction 1 as [a|a b d x tr Hs Hr IH]; cbn [sum foldr]; [lia|]. unfold sum in *.
  destruct Hs; cbn [readers readers_in readers_out] in *; lia.
Qed.

Lemma writer_run protocol a tr b y : spec_run protocol a tr b ->
  one (writer b = Some y) =
  one (writer a = Some y) + sum (granted Writer y) tr - sum (writer_out y) tr.
Proof.
  induction 1 as [a|a b d x tr Hs Hr IH]; cbn [sum foldr]; [lia|]. unfold sum in *. rewrite IH.
  enough (one (writer b = Some y) =
    one (writer a = Some y) + granted Writer y (action x) - writer_out y (action x)) by lia.
  clear - Hs. destruct Hs; cbn [writer granted writer_out]; unfold one;
    repeat destruct (decide _); try congruence; try lia.
Qed.

(** ** Every grant is returned once *)

(** The thread that is taken off its queue has been given the lock and has not returned yet. *)
Lemma flight_writer k p r (inr inw ow : Prop) b : holds p = false -> inw -> tok p r false inr inw ow ->
  in_flight k p b false = in_flight k p b true + one (k = Writer).
Proof.
  intros Hh Hin Ht.
  destruct p as [| | | | | | | | | | | | | | |[]|[]| | |[]|[]| | |[]|[]|? []|? ?|?|?|? []|];
    try discriminate Hh; cbn in *; try tauto; try (exfalso; naive_solver); by destruct k.
Qed.

Lemma flight_reader k p r (inr inw ow : Prop) b : holds p = false -> inr -> tok p r false inr inw ow ->
  in_flight k p false b = in_flight k p true b + one (k = Reader).
Proof.
  intros Hh Hin Ht.
  destruct p as [| | | | | | | | | | | | | | |[]|[]| | |[]|[]| | |[]|[]|? []|? ?|?|?|? []|];
    try discriminate Hh; cbn in *; try tauto; try (exfalso; naive_solver); by destruct k.
Qed.

Section Balance.
Context {T : Type} `{!WaitQueue T} (protocol : Z) (threads : gset tid) (m : Z).
Implicit Types (s : state T) (t : tid).

Definition ret (k : kind) (o : option kind) : Z := one (o = Some k).

(** Grants in flight and returned before and after a step, for thread [y]. *)
Definition balanced k s s' t e (y : tid) : Prop :=
  flight k s' y + (if decide (y = t) then ret k (lock_returns e (pcs s t) (pcs s' t)) else 0) =
  flight k s y + granted k y (emits protocol t e s).

(** The step only concerns [t]. *)
Lemma rw_balanced_local k s s' t e p y : pcs s' = upd t p (pcs s) ->
  (forall y, y <> t -> (y ∈ wq_list (rq s') <-> y ∈ wq_list (rq s))) ->
  (forall y, y <> t -> (y ∈ wq_list (wq s') <-> y ∈ wq_list (wq s))) ->
  (forall y, y <> t -> granted k y (emits protocol t e s) = 0) ->
  in_flight k p (bool_decide (t ∈ wq_list (rq s'))) (bool_decide (t ∈ wq_list (wq s'))) +
    ret k (lock_returns e (pcs s t) p) = flight k s t + granted k t (emits protocol t e s) ->
  balanced k s s' t e y.
Proof.
  intros Hp Hr Hw Hg He. unfold balanced. rewrite Hp, upd_eq.
  destruct (decide (y = t)) as [->|Hne].
  - unfold flight at 1. by rewrite Hp, upd_eq.
  - rewrite Hg by done. unfold flight. rewrite Hp, upd_ne by done.
    rewrite (bool_decide_ext _ _ (Hr y Hne)), (bool_decide_ext _ _ (Hw y Hne)). lia.
Qed.

(** The common case: the queues are not touched. *)
Lemma rw_balanced_quiet k s s' t e p y : pcs s' = upd t p (pcs s) -> rq s' = rq s -> wq s' = wq s ->
  (forall y, y <> t -> granted k y (emits protocol t e s) = 0) ->
  (forall a b, in_flight k p a b + ret k (lock_returns e (pcs s t) p) =
     in_flight k (pcs s t) a b + granted k t (emits protocol t e s)) ->
  balanced k s s' t e y.
Proof.
  intros Hp Hr Hw Hg He. eapply rw_balanced_local; rewrite ?Hr, ?Hw; eauto.
Qed.

Lemma granted_self k y t lb : match lb with ReadTake x | WriteTake x => x = t
  | WriteAdmit _ _ | Admit _ | LastDrop _ _ | WriteHand _ _ => False | _ => True end ->
  y <> t -> granted k y lb = 0.
Proof. destruct lb, k; cbn; intros H Hne; try done; subst; by apply one_false. Qed.

Lemma one_refl {A} `{EqDecision A} (x : A) : one (x = x) = 1.
Proof. by apply one_true. Qed.

(** The queues are not touched; closes the goal for both kinds of lock. *)
Ltac count := intros; try done; repeat match goal with k : kind |- _ => destruct k end; cbn in *;
  rewrite ?one_refl; done.
Ltac quiet Hp := eapply rw_balanced_quiet; [reflexivity|reflexivity|reflexivity| |];
  unfold emits; rewrite ?Hp; [intros ? ?; eapply granted_self; [|eassumption]|]; cbv zeta.

Lemma rw_balanced_call k s s' t e y : step protocol t e s = Some s' ->
  match e with Step => False | _ => True end -> balanced k s s' t e y.
Proof.
  intros Hs He. destruct e; try done; cbn [step] in Hs;
    try (destruct (pcs s t) eqn:Hp; try discriminate Hs; []).
  - injection Hs as <-. quiet Hp; [done|]. destruct (readable _); count.
  - destruct (readable (owner s)) eqn:E; injection Hs as <-; quiet Hp; rewrite E; count.
  - injection Hs as <-. quiet Hp; [done|]. destruct (_ && _); count.
  - injection Hs as <-. quiet Hp; destruct (owner s =? 0), (Z.shiftr (owner s) 1 =? t); count.
  - injection Hs as <-. quiet Hp; destruct (owner s =? 0), (Z.shiftr (owner s) 1 =? t); count.
  - injection Hs as <-. quiet Hp; destruct (Z.shiftr (owner s) 1 =? t) eqn:E; unfold wunlock_result; rewrite ?E; try done;
      destruct (owner s =? id2 t), (Z.odd (owner s)); count.
  - destruct (_ =? _); [done|]. injection Hs as <-. destruct k0; quiet Hp; count.
  - injection Hs as <-. quiet Hp; count.
  - assert (pcs s' = pcs s /\ rq s' = rq s /\ wq s' = wq s) as (E1 & E2 & E3)
      by (destruct (pcs s t); by injection Hs as <-).
    unfold balanced, flight. rewrite E1, E2, E3.
    replace (lock_returns _ _ _) with (@None kind) by (by destruct (pcs s t) as [| | | | | | | | | | | | | | | | | | | | | | | | | | | |[]|? []|]; cbn; try destruct (_ =? _)).
    destruct (decide (y = t)); count.
Qed.

Section Pre.
Variables (s : state T) (lr lw : list tid) (t : tid).
Hypothesis Hi : inv threads m s lr lw.

Lemma list_rq : wq_list (rq s) = lr.
Proof using Hi. apply wq_list_ok, Hi. Qed.

Lemma list_wq : wq_list (wq s) = lw.
Proof using Hi. apply wq_list_ok, Hi. Qed.

(** Like [quiet], when it matters whether [t] is in a queue. *)
Ltac here Hp := eapply rw_balanced_local; [reflexivity|cbn; tauto|cbn; tauto| |];
  unfold emits, flight; rewrite ?Hp; [intros ? ?; eapply granted_self; [|eassumption]|];
  cbv zeta; cbn [rq wq goto set_run set_info set_mutex]; rewrite ?list_rq, ?list_wq.

Lemma rw_balanced_wait k s' y : wait_step t (pcs s t) s = Some s' ->
  emits protocol t Step s = Tau -> balanced k s s' t Step y.
Proof using Hi.
  intros Hs He. pose proof (inv_tok _ _ _ _ _ Hi t) as Ht. unfold wait_step, lock, unlock in Hs.
  destruct (pcs s t) eqn:Hp; try discriminate Hs; cbn [tok] in Ht.
  - injection Hs as <-. here Hp; [done|].
    destruct k0; [rewrite (bool_decide_true (t ∈ lr)) by tauto|rewrite (bool_decide_true (t ∈ lw)) by tauto];
      count.
  - destruct (run s t) eqn:Hr; try discriminate Hs. injection Hs as <-. here Hp; [done|].
    destruct k0; [rewrite (bool_decide_false (t ∈ lr))|rewrite (bool_decide_false (t ∈ lw))];
      try count; intros Hin; destruct Ht as (_ & Ht & _); by specialize (Ht Hin).
  - destruct (mutex s); [done|]. injection Hs as <-. quiet Hp; count.
  - destruct (mutex s); [done|]. injection Hs as <-. quiet Hp; count.
  - destruct k0; rewrite ?list_rq, ?list_wq in Hs.
    + destruct (bool_decide_reflect (t ∈ lr)); injection Hs as <-; here Hp; try done;
        [rewrite (bool_decide_true (t ∈ lr)) by done|rewrite (bool_decide_false (t ∈ lr)) by done]; count.
    + destruct (bool_decide_reflect (t ∈ lw)); injection Hs as <-; here Hp; try done;
        [rewrite (bool_decide_true (t ∈ lw)) by done|rewrite (bool_decide_false (t ∈ lw)) by done]; count.
  - injection Hs as <-. quiet Hp; [done|]. intros. destruct r as [code|]; [|count]. cbn.
    destruct (code =? CELL_OK); rewrite ?andb_true_r, ?andb_false_r; count.
  - injection Hs as <-. quiet Hp; [done|]. intros. destruct r as [code|]; [|count]. cbn.
    destruct (code =? CELL_OK); rewrite ?andb_true_r, ?andb_false_r; count.
  - injection Hs as <-. quiet Hp; [done|]. intros. destruct r as [code|]; [|count]. cbn.
    destruct (code =? CELL_OK); count.
  - destruct r; [|done]. injection Hs as <-. quiet Hp; count.
Qed.

Lemma rw_balanced_outside k s' y : step protocol t Step s = Some s' ->
  match pcs s t with
  | RCas _ _ | RLock _ | RTimeRead | RTimeWait | UCas _ | ULock | WCas _ | WLock _ | TryCas
  | XCas | XLock | UFetch | WTimeClear => True | _ => False
  end -> balanced k s s' t Step y.
Proof using Hi.
  intros Hs Hpc. cbn [step] in Hs.
  destruct (pcs s t) eqn:Hp; try done; cbn [rlock_step runlock_step wlock_step wunlock_step] in Hs;
    unfold lock in Hs; try (destruct (mutex s); [done|]; injection Hs as <-; quiet Hp; count).
  - destruct (_ =? _) eqn:E; injection Hs as <-; quiet Hp; rewrite E; count.
  - destruct (_ =? _) eqn:E; injection Hs as <-; quiet Hp; rewrite E; count.
  - injection Hs as <-. destruct (_ <? _); quiet Hp; destruct (0 <=? owner s), (owner s =? -1); count.
  - destruct (_ =? _) eqn:E; injection Hs as <-; quiet Hp; rewrite E; count.
  - injection Hs as <-. destruct (owner s =? 0) eqn:E; quiet Hp; rewrite E; try count;
      destruct (Z.shiftr _ _ =? _); count.
  - injection Hs as <-. unfold wunlock_result. destruct (owner s =? id2 t) eqn:E; quiet Hp; rewrite E; try done;
      destruct (Z.shiftr _ _ =? _), (Z.odd _); count.
  - injection Hs as <-. rewrite (wq_null_ok _ _ (inv_rq _ _ _ _ _ Hi)). here Hp; [done|].
    destruct (bool_decide_reflect (lr = [])) as [->|]; [|count].
    rewrite (bool_decide_false (t ∈ [])) by set_solver. count.
  - injection Hs as <-. quiet Hp; count.
Qed.
Lemma rw_balanced_fetch k s' y : step protocol t Step s = Some s' ->
  match pcs s t with RFetch _ | WFetch _ => True | _ => False end -> balanced k s s' t Step y.
Proof using Hi.
  intros Hs Hpc. pose proof (inv_tok _ _ _ _ _ Hi t) as Ht. cbn [step] in Hs.
  destruct (pcs s t) eqn:Hp; try done; cbn [rlock_step wlock_step] in Hs; cbn [tok] in Ht.
  - destruct (readable (owner s)) eqn:E; injection Hs as <-; [quiet Hp; rewrite E; count|].
    assert (wq_list (wq_emplace t (rq s)) = t :: lr) as El
      by (apply wq_list_ok, wq_emplace_ok; [apply Hi|tauto]).
    eapply rw_balanced_local; [reflexivity|cbn; rewrite El, list_rq; set_solver|done|..];
      unfold emits, flight; rewrite ?Hp, E; count.
  - destruct (owner s =? 0) eqn:E; injection Hs as <-; [quiet Hp; rewrite E; count|].
    assert (wq_list (wq_emplace t (wq s)) = t :: lw) as El
      by (apply wq_list_ok, wq_emplace_ok; [apply Hi|tauto]).
    eapply rw_balanced_local; [reflexivity|done|cbn; rewrite El, list_wq; set_solver|..];
      unfold emits, flight; rewrite ?Hp, E; destruct (Z.shiftr (owner s) 1 =? t); count.
Qed.

Lemma rw_balanced_unqueue k s' y : step protocol t Step s = Some s' ->
  match pcs s t with TimeUnqueue _ => True | _ => False end -> balanced k s s' t Step y.
Proof using Hi.
  intros Hs Hpc. cbn [step] in Hs. destruct (pcs s t) as [| | | | | | | | | | | | | | | | | | | |[]| | | | | | | | | |] eqn:Hp;
    try done; cbn [rlock_step wlock_step] in Hs.
  - destruct (wq_unqueue_ok t _ _ (inv_rq _ _ _ _ _ Hi)) as [Hu Hq].
    pose proof (wq_list_ok _ _ Hq) as El. injection Hs as <-.
    eapply rw_balanced_local; [reflexivity|cbn; rewrite El, list_rq; setoid_rewrite elem_of_remove_id; tauto|done|..];
      unfold emits, flight; rewrite ?Hp, Hu, ?list_rq; destruct (decide (t ∈ lr)) as [Hin|Hin]; try count.
    + rewrite (bool_decide_true (t ∈ lr)) by done. count.
    + rewrite (bool_decide_false (t ∈ lr)) by done. count.
  - destruct (wq_unqueue_ok t _ _ (inv_wq _ _ _ _ _ Hi)) as [Hu Hq].
    pose proof (wq_list_ok _ _ Hq) as El. rewrite Hu in Hs.
    assert (forall y, y <> t -> y ∈ list_remove_id t lw <-> y ∈ lw) as Hmem
      by (intros; rewrite elem_of_remove_id; tauto).
    destruct (decide (t ∈ lw)) as [Hin|Hin]; injection Hs as <-;
      (eapply rw_balanced_local; [reflexivity|done|cbn; by rewrite El, list_wq|..]);
      unfold emits, flight; rewrite ?Hp, Hu, ?list_wq; try count.
    + rewrite (bool_decide_true (t ∈ lw)) by done.
      destruct (wq_null (rq s)), (wq_null (wq_unqueue t (wq s)).2), (owner s <? 0); count.
    + rewrite (bool_decide_false (t ∈ lw)) by done. count.
Qed.

(** The writer that is handed the lock is the only one whose balance changes. *)
Lemma rw_balanced_hand k p x r v y : pcs s t = UHand \/ pcs s t = XHand ->
  wq_schedule (info s) protocol (wq s) = (Some x, r) -> again (info s x) = false ->
  emits protocol t Step s = LastDrop t x \/ emits protocol t Step s = WriteHand t x ->
  p = UnlockRelease (Ret CELL_OK) ->
  balanced k s (goto t p (set_run (awake_all [x] (run s)) (set_wq r (set_owner v s)))) t Step y.
Proof using Hi.
  intros Hp Hsch Ha He ->.
  destruct (wq_schedule_ok (info s) protocol _ _ (inv_wq _ _ _ _ _ Hi)) as [Hu Hq].
  unfold after_pick in Hq. rewrite Hsch in Hu, Hq. cbn in Hu, Hq. rewrite <- Hu, Ha in Hq.
  pose proof (pick_in _ _ _ _ (eq_sym Hu)) as Hx. pose proof (wq_list_ok _ _ Hq) as El.
  pose proof (inv_tok _ _ _ _ _ Hi t) as Ht.
  assert (t ∉ lw) as Htl by (destruct Hp as [Hp|Hp]; rewrite Hp in Ht; cbn in Ht; tauto).
  assert (x <> t) as Hxt by (intros ->; done).
  assert (holds (pcs s t) = true) as Hh by (by destruct Hp as [-> | ->]).
  assert (granted k y (emits protocol t Step s) = if decide (y = x) then one (k = Writer) else 0) as Hg.
  { destruct He as [-> | ->], k; cbn; unfold one; repeat destruct (decide _); done. }
  unfold balanced, flight. rewrite Hg. cbn [pcs rq wq goto set_run set_wq set_owner]. rewrite El, list_rq, list_wq.
  rewrite upd_eq. destruct (decide (y = t)) as [->|Hyt].
  - rewrite decide_False, upd_eq by done. by destruct Hp as [-> | ->], k.
  - rewrite upd_ne by done. destruct (decide (y = x)) as [->|Hyx].
    + rewrite (bool_decide_true (x ∈ lw)) by done.
      rewrite (bool_decide_false (x ∈ list_remove_id x lw)) by (rewrite elem_of_remove_id; tauto).
      pose proof (inv_tok _ _ _ _ _ Hi x) as Hok. rewrite Ha in Hok.
      rewrite (flight_writer k _ _ _ _ _ _ (others_outside threads m s lr lw t x Hi Hh Hyt) Hx Hok). lia.
    + rewrite (bool_decide_ext (y ∈ list_remove_id x lw) (y ∈ lw)); [lia|].
      rewrite elem_of_remove_id. tauto.
Qed.

Lemma rw_balanced_admit k p l q v y : holds (pcs s t) = true -> t ∉ lr ->
  (forall k a b, in_flight k (pcs s t) a b = 0) -> (forall k a b, in_flight k p a b = 0) ->
  lock_returns Step (pcs s t) p = None ->
  pop_all (pop_fuel (rq s)) (info s) (rq s) = Some (l, q) ->
  emits protocol t Step s = WriteAdmit t lr \/ emits protocol t Step s = Admit lr ->
  balanced k s (goto t p (set_run (awake_all l (run s)) (set_rq q (set_owner v s)))) t Step y.
Proof using Hi.
  intros Hh Htl Hf Hf' Hret Hpop He.
  destruct (pop_all_sound _ _ _ _ _ _ (inv_rq _ _ _ _ _ Hi) Hpop) as (Hl & Hq & Ha).
  assert (granted k y (emits protocol t Step s) = if decide (y ∈ lr) then one (k = Reader) else 0) as Hg.
  { destruct He as [-> | ->], k; cbn; unfold one; repeat destruct (decide _); done. }
  unfold balanced, flight. rewrite Hg. cbn [pcs rq wq goto set_run set_rq set_owner].
  rewrite (wq_list_ok _ _ Hq), list_rq, list_wq, upd_eq, (bool_decide_false (y ∈ [])) by set_solver.
  destruct (decide (y = t)) as [->|Hyt].
  - rewrite upd_eq, Hf, Hf', Hret, decide_False by done. done.
  - rewrite upd_ne by done. destruct (decide (y ∈ lr)) as [Hy|Hy].
    + rewrite (bool_decide_true (y ∈ lr)) by done.
      pose proof (inv_tok _ _ _ _ _ Hi y) as Hok. rewrite (Ha y Hy) in Hok.
      rewrite (flight_reader k _ _ _ _ _ _ (others_outside threads m s lr lw t y Hi Hh Hyt) Hy Hok). lia.
    + rewrite (bool_decide_false (y ∈ lr)) by done. lia.
Qed.

Lemma rw_balanced_xhand k s' y : pcs s t = XHand -> wunlock_step protocol t XHand s = Some s' ->
  balanced k s s' t Step y.
Proof using Hi.
  intros Hp Hs. pose proof (inv_tok _ _ _ _ _ Hi t) as Ht. rewrite Hp in Ht. cbn [wunlock_step] in Hs.
  assert (emits protocol t Step s = match (wq_schedule (info s) protocol (wq s)).1 with
    | Some x => if again (info s x) then Tau else WriteHand t x
    | None => if wq_null (rq s) then WriteDrop t
        else if existsb (fun cpu => again (info s cpu)) (wq_list (rq s)) then Tau
        else WriteAdmit t (wq_list (rq s)) end) as He by (unfold emits; by rewrite Hp).
  destruct (wq_schedule (info s) protocol (wq s)) as [[x|] r] eqn:Hsch; cbn [fst snd] in Hs, He.
  - destruct (again (info s x)) eqn:Ha; injection Hs as <-; [|by eapply rw_balanced_hand; eauto].
    quiet Hp; rewrite Hsch; cbn [fst]; rewrite Ha; count.
  - destruct (wq_null (rq s)) eqn:Hn; cbn [negb] in Hs.
    { injection Hs as <-. quiet Hp; rewrite Hsch; cbn [fst]; rewrite Hn; count. }
    destruct (existsb _ _) eqn:Hex.
    { injection Hs as <-. quiet Hp; rewrite Hsch; cbn [fst]; rewrite Hn, Hex; count. }
    destruct (pop_all _ _ _) as [[l q]|] eqn:Hpop; [|done]. injection Hs as <-. rewrite list_rq in He.
    apply rw_balanced_admit; rewrite ?Hp; auto; cbn in Ht; tauto.
Qed.

Lemma rw_balanced_step k s' e y : step protocol t e s = Some s' -> balanced k s s' t e y.
Proof using Hi.
  intros Hs. destruct e; try (by apply rw_balanced_call).
  pose proof (inv_tok _ _ _ _ _ Hi t) as Ht.
  destruct (pcs s t) as [| | | | | | | | | | | | | | | | | | | |[]| | | | | | | | | |] eqn:Hp;
    try (apply rw_balanced_outside; [done|by rewrite Hp]);
    try (apply rw_balanced_fetch; [done|by rewrite Hp]);
    try (apply rw_balanced_unqueue; [done|by rewrite Hp]);
    cbn [step] in Hs; rewrite Hp in Hs;
    try (rewrite <- Hp in Hs; apply rw_balanced_wait; [done|]; unfold emits; by rewrite Hp).
  - cbn [runlock_step] in Hs.
    destruct (wq_schedule (info s) protocol (wq s)) as [[x|] r] eqn:Hsch; cbn [fst snd] in Hs.
    + destruct (again (info s x)) eqn:Ha; injection Hs as <-.
      * quiet Hp; rewrite Hsch; cbn [fst]; rewrite Ha; count.
      * eapply rw_balanced_hand; eauto. left. unfold emits. by rewrite Hp, Hsch; cbn; rewrite Ha.
    + injection Hs as <-. quiet Hp; rewrite Hsch; cbn [fst]; destruct (wq_null (rq s)); count.
  - by apply rw_balanced_xhand.
  - cbn [wlock_step] in Hs. destruct (pop_all _ _ _) as [[l q]|] eqn:Hpop; [|done]. injection Hs as <-.
    apply rw_balanced_admit; rewrite ?Hp; auto; [cbn in Ht; tauto|by intros []|].
    right. unfold emits. by rewrite Hp, list_rq.
Qed.
End Pre.

End Balance.

(** ** Every code that is returned was decided *)

(** The thread that is taken off its queue gets its answer decided. *)
Lemma owed_writer p r (inr inw ow : Prop) b : holds p = false -> inw -> tok p r false inr inw ow ->
  owed p b true = None /\ owed p b false = Some CELL_OK.
Proof.
  intros Hh Hin Ht.
  destruct p as [| | | | | | | | | | | | | | |[]|[]| | |[]|[]| | |[]|[]|? []|? ?|?|?|? []|];
    try discriminate Hh; cbn in *; try tauto; exfalso; naive_solver.
Qed.

Lemma owed_reader p r (inr inw ow : Prop) b : holds p = false -> inr -> tok p r false inr inw ow ->
  owed p true b = None /\ owed p false b = Some CELL_OK.
Proof.
  intros Hh Hin Ht.
  destruct p as [| | | | | | | | | | | | | | |[]|[]| | |[]|[]| | |[]|[]|? []|? ?|?|?|? []|];
    try discriminate Hh; cbn in *; try tauto; exfalso; naive_solver.
Qed.

Section Answers.
Context {T : Type} `{!WaitQueue T} (protocol : Z) (threads : gset tid) (m : Z).
Hypothesis ids_ok : forall t, t ∈ threads -> 0 < t < 2 ^ 31.
Variables (s : state T) (lr lw : list tid) (t : tid).
Hypothesis Hi : inv threads m s lr lw.
Hypothesis Hthread : t ∈ threads.

Definition answered s' e (y : tid) : Prop :=
  answer (owes s y) (verdict (emits protocol t e s) y) (only_to t (reply e (pcs s' t)) y) = Some (owes s' y).

(** The step only concerns [t]. *)
Lemma rw_answered_local s' e p y : pcs s' = upd t p (pcs s) ->
  (forall y, y <> t -> (y ∈ wq_list (rq s') <-> y ∈ wq_list (rq s))) ->
  (forall y, y <> t -> (y ∈ wq_list (wq s') <-> y ∈ wq_list (wq s))) ->
  (forall y, y <> t -> verdict (emits protocol t e s) y = None) ->
  answer (owes s t) (verdict (emits protocol t e s) t) (reply e p) =
    Some (owed p (bool_decide (t ∈ wq_list (rq s'))) (bool_decide (t ∈ wq_list (wq s')))) ->
  answered s' e y.
Proof using Type.
  intros Hp Hr Hw Hv He. unfold answered. rewrite Hp, upd_eq. destruct (decide (y = t)) as [->|Hne].
  - unfold owes at 2. by rewrite Hp, upd_eq, only_to_eq.
  - rewrite only_to_ne, Hv by done. unfold owes. rewrite Hp, upd_ne by done.
    by rewrite (bool_decide_ext _ _ (Hr y Hne)), (bool_decide_ext _ _ (Hw y Hne)).
Qed.

Lemma rw_answered_quiet s' e p y : pcs s' = upd t p (pcs s) -> rq s' = rq s -> wq s' = wq s ->
  (forall y, y <> t -> verdict (emits protocol t e s) y = None) ->
  (forall a b, answer (owed (pcs s t) a b) (verdict (emits protocol t e s) t) (reply e p) = Some (owed p a b)) ->
  answered s' e y.
Proof using Type. intros Hp Hr Hw Hv He. eapply rw_answered_local; rewrite ?Hr, ?Hw; eauto. Qed.

Ltac told := intros; cbn [negb andb verdict owed reply]; rewrite ?only_to_eq, ?only_to_ne by done;
  solve [auto with answer | done].
Ltac says Hp := eapply rw_answered_quiet; [reflexivity|reflexivity|reflexivity|..]; unfold emits; rewrite ?Hp; cbv zeta.

Lemma id2_half : id2 t = 2 * t.
Proof using ids_ok Hthread. by apply id2_ok, ids_ok. Qed.

Lemma rw_answered_call s' e y : step protocol t e s = Some s' ->
  match e with Step => False | _ => True end -> answered s' e y.
Proof using ids_ok Hthread.
  intros Hs He. destruct e; try done; cbn [step] in Hs;
    try (destruct (pcs s t) eqn:Hp; try discriminate Hs; []).
  - injection Hs as <-. says Hp; [told|]. destruct (readable _); told.
  - destruct (readable (owner s)) eqn:E; injection Hs as <-; says Hp; rewrite ?E; told.
  - injection Hs as <-. says Hp; [told|]. destruct (_ && _); told.
  - injection Hs as <-. says Hp; destruct (owner s =? 0), (Z.shiftr (owner s) 1 =? t); told.
  - injection Hs as <-. says Hp; destruct (owner s =? 0), (Z.shiftr (owner s) 1 =? t); told.
  - injection Hs as <-. pose proof id2_half as E2. rewrite E2. unfold wunlock_result. rewrite shiftr_half.
    destruct (Z.eqb_spec (owner s) (2 * t)) as [E|E].
    { says Hp; rewrite shiftr_half, E; replace (2 * t / 2 =? t) with true by half; told. }
    says Hp; rewrite shiftr_half; destruct (Z.eqb_spec (owner s / 2) t) as [E'|E']; cbn [negb]; try told.
    rewrite <- Z.negb_even, even_mod. replace (owner s mod 2 =? 0) with false by half. told.
  - destruct (_ =? _); [done|]. injection Hs as <-. destruct k; says Hp; told.
  - injection Hs as <-. says Hp; told.
  - assert (pcs s' = pcs s /\ rq s' = rq s /\ wq s' = wq s) as (E1 & E2 & E3)
      by (destruct (pcs s t); by injection Hs as <-).
    unfold answered, owes, emits, reply, only_to. rewrite E1, E2, E3. by destruct (y =? t).
Qed.

(** Like [says], when it matters whether [t] is in a queue. *)
Ltac here Hp := eapply rw_answered_local; [reflexivity|cbn; tauto|cbn; tauto|..];
  unfold emits, owes; rewrite ?Hp; cbv zeta; cbn [rq wq goto set_run set_info set_mutex];
  rewrite ?(list_rq threads m s lr lw Hi), ?(list_wq threads m s lr lw Hi).

Lemma rw_answered_wait s' y : wait_step t (pcs s t) s = Some s' ->
  emits protocol t Step s = Tau -> answered s' Step y.
Proof using Hi.
  intros Hs He. pose proof (inv_tok _ _ _ _ _ Hi t) as Ht. unfold wait_step, lock, unlock in Hs.
  destruct (pcs s t) eqn:Hp; try discriminate Hs; cbn [tok] in Ht.
  - injection Hs as <-. here Hp; [told|].
    destruct k; [rewrite (bool_decide_true (t ∈ lr)) by tauto|rewrite (bool_decide_true (t ∈ lw)) by tauto]; told.
  - destruct (run s t) eqn:Hr; try discriminate Hs. injection Hs as <-. here Hp; [told|].
    destruct k; [rewrite (bool_decide_false (t ∈ lr))|rewrite (bool_decide_false (t ∈ lw))];
      try told; intros Hin; destruct Ht as (_ & Ht & _); by specialize (Ht Hin).
  - destruct (mutex s); [done|]. injection Hs as <-. says Hp; told.
  - destruct (mutex s); [done|]. injection Hs as <-. says Hp; told.
  - destruct k; rewrite ?(list_rq threads m s lr lw Hi), ?(list_wq threads m s lr lw Hi) in Hs.
    + destruct (bool_decide_reflect (t ∈ lr)); injection Hs as <-; here Hp; try told;
        [rewrite (bool_decide_true (t ∈ lr)) by done|rewrite (bool_decide_false (t ∈ lr)) by done]; told.
    + destruct (bool_decide_reflect (t ∈ lw)); injection Hs as <-; here Hp; try told;
        [rewrite (bool_decide_true (t ∈ lw)) by done|rewrite (bool_decide_false (t ∈ lw)) by done]; told.
  - injection Hs as <-. says Hp; [told|]. destruct r; told.
  - injection Hs as <-. says Hp; [told|]. destruct r; told.
  - injection Hs as <-. says Hp; [told|]. destruct r; told.
  - destruct r; [|done]. injection Hs as <-. says Hp; told.
Qed.

Lemma rw_answered_outside s' y : step protocol t Step s = Some s' ->
  match pcs s t with
  | RCas _ _ | RLock _ | RTimeRead | RTimeWait | UCas _ | ULock | WCas _ | WLock _ | TryCas
  | XCas | XLock | UFetch | WTimeClear => True | _ => False
  end -> answered s' Step y.
Proof using Hi ids_ok Hthread.
  intros Hs Hpc. pose proof (inv_tok _ _ _ _ _ Hi t) as Ht. cbn [step] in Hs.
  destruct (pcs s t) eqn:Hp; try done; cbn [rlock_step runlock_step wlock_step wunlock_step tok] in *;
    unfold lock in Hs; try (destruct (mutex s); [done|]; injection Hs as <-; says Hp; told).
  - destruct (_ =? _) eqn:E; injection Hs as <-; says Hp; rewrite E; told.
  - destruct (_ =? _) eqn:E; injection Hs as <-; says Hp; rewrite E; told.
  - injection Hs as <-. destruct (_ <? _); says Hp; destruct (0 <=? owner s), (owner s =? -1); told.
  - destruct (_ =? _) eqn:E; injection Hs as <-; says Hp; rewrite E; told.
  - injection Hs as <-. destruct (owner s =? 0) eqn:E; says Hp; rewrite E; try told;
      destruct (Z.shiftr _ _ =? _); told.
  - injection Hs as <-. pose proof id2_half as E2. rewrite E2. unfold wunlock_result. rewrite shiftr_half.
    destruct Ht as ([Hpos Ho] & _). rewrite Ho, Z.eqb_refl. cbn [negb].
    rewrite <- Z.negb_even, even_mod.
    destruct (Z.eqb_spec (owner s) (2 * t)) as [E|E]; says Hp; rewrite E2.
    + rewrite E, Z.eqb_refl. told.
    + rewrite E, Z.eqb_refl. replace (2 * t mod 2 =? 0) with true by half. told.
    + apply Z.eqb_neq in E. rewrite E. told.
    + replace (owner s mod 2 =? 0) with false by half. apply Z.eqb_neq in E. rewrite E. told.
  - injection Hs as <-. rewrite (wq_null_ok _ _ (inv_rq _ _ _ _ _ Hi)). here Hp; [told|].
    destruct (bool_decide_reflect (lr = [])) as [->|]; [|told].
    rewrite (bool_decide_false (t ∈ [])) by set_solver. told.
  - injection Hs as <-. says Hp; told.
Qed.

Lemma rw_answered_fetch s' y : step protocol t Step s = Some s' ->
  match pcs s t with RFetch _ | WFetch _ => True | _ => False end -> answered s' Step y.
Proof using Hi ids_ok Hthread.
  intros Hs Hpc. pose proof (inv_tok _ _ _ _ _ Hi t) as Ht. cbn [step] in Hs.
  destruct (pcs s t) eqn:Hp; try done; cbn [rlock_step wlock_step] in Hs; cbn [tok] in Ht.
  - destruct (readable (owner s)) eqn:E; injection Hs as <-; [says Hp; rewrite E; told|].
    assert (wq_list (wq_emplace t (rq s)) = t :: lr) as El
      by (apply wq_list_ok, wq_emplace_ok; [apply Hi|tauto]).
    eapply rw_answered_local; [reflexivity|cbn; rewrite El, (list_rq threads m s lr lw Hi); set_solver|done|..];
      unfold emits, owes; rewrite ?Hp, E; told.
  - destruct (owner s =? 0) eqn:E; injection Hs as <-; [says Hp; rewrite E; told|].
    assert (wq_list (wq_emplace t (wq s)) = t :: lw) as El
      by (apply wq_list_ok, wq_emplace_ok; [apply Hi|tauto]).
    assert (Z.shiftr (owner s) 1 =? t = false) as ->.
    { rewrite shiftr_half. apply Z.eqb_neq. intros Eo. apply (proj1 Ht). split; [|done].
      pose proof (ids_ok t Hthread). half. }
    eapply rw_answered_local; [reflexivity|done|cbn; rewrite El, (list_wq threads m s lr lw Hi); set_solver|..];
      unfold emits, owes; rewrite ?Hp, E; told.
Qed.

Lemma rw_answered_unqueue s' y : step protocol t Step s = Some s' ->
  match pcs s t with TimeUnqueue _ => True | _ => False end -> answered s' Step y.
Proof using Hi.
  intros Hs Hpc. cbn [step] in Hs. destruct (pcs s t) as [| | | | | | | | | | | | | | | | | | | |[]| | | | | | | | | |] eqn:Hp;
    try done; cbn [rlock_step wlock_step] in Hs.
  - destruct (wq_unqueue_ok t _ _ (inv_rq _ _ _ _ _ Hi)) as [Hu Hq].
    pose proof (wq_list_ok _ _ Hq) as El. injection Hs as <-.
    eapply rw_answered_local; [reflexivity|cbn; rewrite El, (list_rq threads m s lr lw Hi); setoid_rewrite elem_of_remove_id; tauto|done|..];
      unfold emits, owes; rewrite ?Hp, Hu, ?(list_rq threads m s lr lw Hi); destruct (decide (t ∈ lr)) as [Hin|Hin]; try told.
    + rewrite (bool_decide_true (t ∈ lr)) by done. told.
    + rewrite (bool_decide_false (t ∈ lr)) by done. told.
  - destruct (wq_unqueue_ok t _ _ (inv_wq _ _ _ _ _ Hi)) as [Hu Hq].
    pose proof (wq_list_ok _ _ Hq) as El. rewrite Hu in Hs.
    assert (forall y, y <> t -> y ∈ list_remove_id t lw <-> y ∈ lw) as Hmem
      by (intros; rewrite elem_of_remove_id; tauto).
    destruct (decide (t ∈ lw)) as [Hin|Hin]; injection Hs as <-;
      (eapply rw_answered_local; [reflexivity|done|cbn; by rewrite El, (list_wq threads m s lr lw Hi)|..]);
      unfold emits, owes; rewrite ?Hp, Hu, ?(list_wq threads m s lr lw Hi), ?decide_True, ?decide_False by done; try told.
    + rewrite (bool_decide_true (t ∈ lw)) by done.
      destruct (wq_null (rq s)), (wq_null (wq_unqueue t (wq s)).2), (owner s <? 0); told.
    + rewrite (bool_decide_false (t ∈ lw)) by done. told.
Qed.

(** The writer that is handed the lock gets its answer decided, too. *)
Lemma rw_answered_hand x r v y : pcs s t = UHand \/ pcs s t = XHand ->
  wq_schedule (info s) protocol (wq s) = (Some x, r) -> again (info s x) = false ->
  emits protocol t Step s = LastDrop t x \/ emits protocol t Step s = WriteHand t x ->
  answered (goto t (UnlockRelease (Ret CELL_OK)) (set_run (awake_all [x] (run s)) (set_wq r (set_owner v s)))) Step y.
Proof using Hi.
  intros Hp Hsch Ha He.
  destruct (wq_schedule_ok (info s) protocol _ _ (inv_wq _ _ _ _ _ Hi)) as [Hu Hq].
  unfold after_pick in Hq. rewrite Hsch in Hu, Hq. cbn in Hu, Hq. rewrite <- Hu, Ha in Hq.
  pose proof (pick_in _ _ _ _ (eq_sym Hu)) as Hx. pose proof (wq_list_ok _ _ Hq) as El.
  pose proof (inv_tok _ _ _ _ _ Hi t) as Ht.
  assert (t ∉ lw) as Htl by (destruct Hp as [Hp|Hp]; rewrite Hp in Ht; cbn in Ht; tauto).
  assert (x <> t) as Hxt by (intros ->; done).
  assert (holds (pcs s t) = true) as Hh by (by destruct Hp as [-> | ->]).
  assert (verdict (emits protocol t Step s) y = if y =? t then Some CELL_OK else only_to x (Some CELL_OK) y)
    as Hv
    by (by destruct He as [-> | ->]).
  unfold answered, owes. rewrite Hv. cbn [pcs rq wq goto set_run set_wq set_owner]. rewrite El, (list_rq threads m s lr lw Hi), (list_wq threads m s lr lw Hi).
  rewrite upd_eq. cbn [reply]. destruct (Z.eqb_spec y t) as [->|Hyt].
  - rewrite upd_eq, only_to_eq. destruct Hp as [-> | ->]; told.
  - rewrite upd_ne, (only_to_ne t) by done. destruct (decide (y = x)) as [->|Hyx].
    + rewrite (bool_decide_true (x ∈ lw)) by done.
      rewrite (bool_decide_false (x ∈ list_remove_id x lw)) by (rewrite elem_of_remove_id; tauto).
      pose proof (inv_tok _ _ _ _ _ Hi x) as Hok. rewrite Ha in Hok.
      destruct (owed_writer _ _ _ _ _ (bool_decide (x ∈ lr)) (others_outside threads m s lr lw t x Hi Hh Hyt) Hx Hok)
        as [-> ->]. told.
    + rewrite (bool_decide_ext (y ∈ list_remove_id x lw) (y ∈ lw)) by (rewrite elem_of_remove_id; tauto). told.
Qed.

Lemma rw_answered_admit p l q v y : holds (pcs s t) = true -> t ∉ lr -> reply Step p = None ->
  pop_all (pop_fuel (rq s)) (info s) (rq s) = Some (l, q) ->
  (forall a a' b, answer (owed (pcs s t) a b) (verdict (emits protocol t Step s) t) None = Some (owed p a' b)) ->
  (forall y, y <> t -> verdict (emits protocol t Step s) y = if bool_decide (y ∈ lr) then Some CELL_OK else None) ->
  answered (goto t p (set_run (awake_all l (run s)) (set_rq q (set_owner v s)))) Step y.
Proof using Hi ids_ok Hthread.
  intros Hh Htl Hret Hpop Hself Hv.
  destruct (pop_all_sound _ _ _ _ _ _ (inv_rq _ _ _ _ _ Hi) Hpop) as (Hl & Hq & Ha).
  unfold answered, owes. cbn [pcs rq wq goto set_run set_rq set_owner].
  rewrite (wq_list_ok _ _ Hq), (list_rq threads m s lr lw Hi), (list_wq threads m s lr lw Hi), upd_eq, Hret.
  destruct (decide (y = t)) as [->|Hyt].
  - rewrite upd_eq, only_to_eq. apply Hself.
  - rewrite upd_ne, only_to_ne, Hv, (bool_decide_false (y ∈ [])) by set_solver.
    destruct (bool_decide_reflect (y ∈ lr)) as [Hy|Hy]; [|told].
    pose proof (inv_tok _ _ _ _ _ Hi y) as Hok. rewrite (Ha y Hy) in Hok.
    destruct (owed_reader _ _ _ _ _ (bool_decide (y ∈ lw)) (others_outside threads m s lr lw t y Hi Hh Hyt) Hy Hok)
      as [-> ->]. told.
Qed.

Lemma rw_answered_xhand s' y : pcs s t = XHand -> wunlock_step protocol t XHand s = Some s' -> answered s' Step y.
Proof using Hi ids_ok Hthread.
  intros Hp Hs. pose proof (inv_tok _ _ _ _ _ Hi t) as Ht. rewrite Hp in Ht. cbn [wunlock_step] in Hs.
  assert (emits protocol t Step s = match (wq_schedule (info s) protocol (wq s)).1 with
    | Some x => if again (info s x) then Tau else WriteHand t x
    | None => if wq_null (rq s) then WriteDrop t
        else if existsb (fun cpu => again (info s cpu)) (wq_list (rq s)) then Tau
        else WriteAdmit t (wq_list (rq s)) end) as He by (unfold emits; by rewrite Hp).
  destruct (wq_schedule (info s) protocol (wq s)) as [[x|] r] eqn:Hsch; cbn [fst snd] in Hs, He.
  - destruct (again (info s x)) eqn:Ha; injection Hs as <-; [|by apply rw_answered_hand; eauto].
    says Hp; rewrite Hsch; cbn [fst]; rewrite Ha; told.
  - destruct (wq_null (rq s)) eqn:Hn; cbn [negb] in Hs.
    { injection Hs as <-. says Hp; rewrite Hsch; cbn [fst]; rewrite Hn; told. }
    destruct (existsb _ _) eqn:Hex.
    { injection Hs as <-. says Hp; rewrite Hsch; cbn [fst]; rewrite Hn, Hex; told. }
    destruct (pop_all _ _ _) as [[l q]|] eqn:Hpop; [|done]. injection Hs as <-. rewrite (list_rq threads m s lr lw Hi) in He.
    apply rw_answered_admit; rewrite ?Hp, ?He; auto; [cbn in Ht; tauto|..]; cbn [verdict].
    + intros. rewrite Z.eqb_refl. told.
    + intros z Hz. apply Z.eqb_neq in Hz. by rewrite Hz.
Qed.

Lemma rw_answered_step s' e y : step protocol t e s = Some s' -> answered s' e y.
Proof using Hi ids_ok Hthread.
  intros Hs. destruct e; try (by apply rw_answered_call).
  pose proof (inv_tok _ _ _ _ _ Hi t) as Ht. pose proof (inv_shape _ _ _ _ _ Hi) as Hsh.
  destruct (pcs s t) as [| | | | | | | | | | | | | | | | | | | |[]| | | | | | | | | |] eqn:Hp;
    try (apply rw_answered_outside; [done|by rewrite Hp]);
    try (apply rw_answered_fetch; [done|by rewrite Hp]);
    try (apply rw_answered_unqueue; [done|by rewrite Hp]);
    cbn [step] in Hs; rewrite Hp in Hs;
    try (rewrite <- Hp in Hs; apply rw_answered_wait; [done|]; unfold emits; by rewrite Hp).
  - cbn [runlock_step] in Hs.
    destruct (wq_schedule_ok (info s) protocol _ _ (inv_wq _ _ _ _ _ Hi)) as [Hu _].
    destruct (wq_schedule (info s) protocol (wq s)) as [[x|] r] eqn:Hsch; cbn [fst snd] in Hs, Hu.
    + destruct (again (info s x)) eqn:Ha; injection Hs as <-.
      * says Hp; rewrite Hsch; cbn [fst]; rewrite Ha; told.
      * eapply rw_answered_hand; eauto. left. unfold emits. by rewrite Hp, Hsch; cbn; rewrite Ha.
    + destruct (rw_inv_owner threads m s lr lw t Hi) as [_ Hh]; [by rewrite Hp|].
      rewrite Hh, Hp in Hsh. destruct Hsh as (_ & _ & _ & Hlw). by destruct lw.
  - by apply rw_answered_xhand.
  - cbn [wlock_step] in Hs. destruct (pop_all _ _ _) as [[l q]|] eqn:Hpop; [|done]. injection Hs as <-.
    assert (emits protocol t Step s = Admit lr) as He by (unfold emits; by rewrite Hp, (list_rq threads m s lr lw Hi)).
    apply rw_answered_admit; rewrite ?Hp, ?He; auto; [cbn in Ht; tauto|].
    intros. cbn [verdict]. rewrite bool_decide_false by (cbn in Ht; tauto). told.
Qed.
End Answers.

(** ** Runs from the initial state *)

Definition by_threads (threads : gset tid) (evs : list (tid * event)) : bool :=
  forallb (fun p => bool_decide (p.1 ∈ threads)) evs.

(** Thread ids fit in 31 bits, and there are not so many steps that 2^61 readers could enter. *)
Definition in_range (threads : gset tid) (evs : list (tid * event)) : Prop :=
  (forall t, t ∈ threads -> 0 < t < 2 ^ 31) /\
  Z.of_nat (S (length evs)) * grow threads < 2 ^ 61.

Section Exec.
Context {T : Type} `{!WaitQueue T} (protocol : Z) (threads : gset tid).
Hypothesis ids_ok : forall t, t ∈ threads -> 0 < t < 2 ^ 31.
Implicit Types (s : state T) (lr lw : list tid).

Lemma rw_inv_init i : inv threads 0 (init i : state T) [] [].
Proof using Type.
  clear ids_ok. constructor; cbn; try done; try apply wq_ok_empty; set_solver.
Qed.

Lemma rw_exec_ok evs : forall m s lr lw tr s', 0 <= m ->
  m + Z.of_nat (S (length evs)) * grow threads < 2 ^ 61 ->
  inv threads m s lr lw -> by_threads threads evs = true -> exec protocol evs s = Some (tr, s') ->
  exists m' lr' lw', inv threads m' s' lr' lw' /\
    spec_run protocol (abs s lr lw) tr (abs s' lr' lw') /\
    (forall k y, flight k s' y + returns k y tr = flight k s y + sum (granted k y) tr) /\
    forall y, answers (seen_by y tr) (owes s y) = Some (owes s' y).
Proof using ids_ok.
  induction evs as [|[t e] evs IH]; intros m s lr lw tr s' Hm Hb Hi Ht He; cbn [exec] in He.
  { injection He as <- <-. exists m, lr, lw. split; [done|]. split; [constructor|]. done. }
  cbn [by_threads forallb fst] in Ht. apply andb_true_iff in Ht as [Ht Hts].
  apply bool_decide_eq_true in Ht. cbn [length] in Hb.
  assert (1 <= grow threads) as Hg by (unfold grow; lia).
  destruct (step protocol t e s) as [s1|] eqn:Hs; [|discriminate He].
  destruct (exec protocol evs s1) as [[tr1 s2]|] eqn:He1; cbn in He; rewrite He1 in He; [|discriminate He].
  injection He as <- <-.
  destruct (rw_sim_step protocol threads ids_ok m ltac:(nia) ltac:(nia) s s1 lr lw t e Hi Ht Hs)
    as (lr1 & lw1 & Hi1 & Hsim).
  destruct (IH (m + grow threads) s1 lr1 lw1 tr1 s2 ltac:(lia) ltac:(lia) Hi1 Hts He1)
    as (m' & lr' & lw' & Hi' & Hrun & Hbal & Hans).
  exists m', lr', lw'. split; [done|]. split; [by econstructor|]. split; [intros k y; specialize (Hbal k y)|intros y].
  2: { cbn [seen_by map answers action by_thread replied].
       rewrite (rw_answered_step protocol threads m ids_ok s lr lw t Hi Ht s1 e y Hs). apply Hans. }
  pose proof (rw_balanced_step protocol threads m s lr lw t Hi k s1 e y Hs) as Hy.
  unfold balanced, sum, returns, ret in *. cbn [foldr action returned].
  assert (one ((k0 ← lock_returns e (pcs s t) (pcs s1 t); Some (t, k0)) = Some (y, k)) =
    if decide (y = t) then one (lock_returns e (pcs s t) (pcs s1 t) = Some k) else 0) as ->; [|lia].
  destruct (lock_returns e (pcs s t) (pcs s1 t)) as [k'|]; cbn; unfold one;
    repeat destruct (decide _); congruence.
Qed.
End Exec.

(** What [rw_exec_ok] gives for a run from the initial state. *)
Lemma rw_run_ok {T} `{!WaitQueue T} protocol threads evs i tr (s : state T) :
  in_range threads evs -> by_threads threads evs = true -> exec protocol evs (init i) = Some (tr, s) ->
  exists m, inv threads m s (wq_list (rq s)) (wq_list (wq s)) /\
    spec_run protocol (Spec 0 None [] []) tr (abs s (wq_list (rq s)) (wq_list (wq s))) /\
    (forall k y, flight k s y + returns k y tr = sum (granted k y) tr) /\
    forall y, answers (seen_by y tr) None = Some (owes s y).
Proof.
  intros [Hids Hb] Ht He.
  destruct (rw_exec_ok protocol threads Hids evs 0 (init i) [] [] tr s) as (m & lr & lw & Hi & Hr & Hf & Ha);
    [lia|lia|apply rw_inv_init|done|done|].
  exists m. rewrite (wq_list_ok _ _ (inv_rq _ _ _ _ _ Hi)), (wq_list_ok _ _ (inv_wq _ _ _ _ _ Hi)).
  split; [done|]. split; [done|]. split; [|exact Ha]. intros k y. specialize (Hf k y).
  unfold flight in Hf at 2. cbn in Hf. lia.
Qed.

(** ** The thread in the mutex *)

(** It is not blocked, unless it is emptying a queue in which a thread is being stopped. *)
Lemma rw_owner_steps {T} `{!WaitQueue T} protocol threads m (s : state T) lr lw t :
  inv threads m s lr lw -> holds (pcs s t) = true ->
  (exists s', step protocol t Step s = Some s') \/
  pcs s t = WTimeWake /\ exists x, x ∈ lr /\ again (info s x) = true.
Proof.
  intros Hi Hh. cbn [step].
  assert (forall x, x ∈ lr -> again (info s x) = true -> existsb (fun c => again (info s c)) lr = true) as Hex.
  { intros x Hx Ha. apply existsb_exists. exists x. by rewrite <- list_elem_of_In. }
  pose proof (wq_list_ok _ _ (inv_rq _ _ _ _ _ Hi)) as El.
  assert (existsb (fun c => again (info s c)) lr = false ->
    is_Some (pop_all (pop_fuel (rq s)) (info s) (rq s))) as Hpop.
  { intros E. eapply pop_all_total; [apply Hi| |unfold pop_fuel; rewrite El; lia].
    intros x Hx. destruct (again (info s x)) eqn:Ha; [|done]. by rewrite (Hex x) in E. }
  destruct (pcs s t) as [| | | | | | | | | | | | | | | | | | | |[]| | | | | | | | | |] eqn:Hp;
    try discriminate Hh; cbn [rlock_step runlock_step wlock_step wunlock_step wait_step];
    try (left; by eexists); try (left; repeat case_match; by eexists).
  - left. destruct (wq_schedule _ _ _).1 as [x|]; [destruct (again _); by eexists|].
    rewrite El. destruct (negb _); [|by eexists]. destruct (existsb _ lr) eqn:E; [by eexists|].
    destruct (Hpop eq_refl) as [[l q] ->]. by eexists.
  - destruct (existsb (fun c => again (info s c)) lr) eqn:E.
    + right. split; [done|]. apply existsb_exists in E as (x & Hx & Ha). exists x.
      by rewrite list_elem_of_In.
    + left. destruct (Hpop eq_refl) as [[l q] ->]. by eexists.
Qed.

(** ** Properties *)

Definition demo_threads : gset tid := {[1; 2; 3; 4]}.
Definition demo_info : tid -> thread_info := fun t => Info (10 - t) 0 false false.

(** Thread 1 reads; 2 wants to write and queues; the reader 3 has to queue behind it; 1 leaves and
    hands the lock to 2; 2 leaves and lets 3 in; 3 leaves; 4 writes. *)
Definition demo_run : list (tid * event) :=
  [(1, CallRlock 0); (1, Step); (1, Step); (2, CallWlock 9); (2, Step); (2, Step); (2, Step);
   (3, CallRlock 0); (3, Step); (3, Step); (3, Step); (1, CallRunlock); (1, Step); (1, Step);
   (1, Step); (1, Step); (2, Step); (2, Step); (2, CallWunlock); (2, Step); (2, Step); (2, Step);
   (3, Step); (3, Step); (3, CallRunlock); (3, Step); (4, CallTrywlock); (4, Step)].

(** The reader 3 is queued behind the writer 2 and is being stopped when 2 times out. *)
Definition stop_run : list (tid * event) :=
  [(1, CallRlock 0); (1, Step); (1, Step); (2, CallWlock 9); (2, Step); (2, Step); (2, Step);
   (3, CallRlock 0); (3, Step); (3, Step); (3, Step); (3, Stop); (3, Step); (3, Step); (3, Step);
   (2, Timeout); (2, Step); (2, Step)].

Lemma demo_range evs : (length evs < 100)%nat -> in_range demo_threads evs.
Proof.
  intros Hl. split.
  - intros t. unfold demo_threads. rewrite !elem_of_union, !elem_of_singleton. clear. lia.
  - assert (grow demo_threads = 5) as -> by (vm_compute; reflexivity). lia.
Qed.

(** C5: the reader-writer lock refines an abstract one.  For thread ids of 31 bits and runs too short for
    2^61 readers to enter (so that the 64-bit [owner] does not overflow), whatever the interleaving of the accesses
    of the threads in the six system calls, with timeouts, stops and priority changes at any
    point, the run performs the abstract actions of its trace, in which a reader enters only when
    there is no writer and nobody waits; a reader only blocks while a writer holds the lock or
    waits for it; a writer enters directly only when the lock is free; the last reader and a
    writer hand the lock to the waiting writer selected by the protocol, and to all waiting readers
    only when no writer waits; a writer that times out as the last one lets the waiting readers
    in.  And every code returned to a thread is the one that the abstract action on its call decided, each being
    returned at most once: [CELL_OK] for a lock that was taken or handed over and for an unlock by a holder,
    [CELL_EBUSY] for a try that finds the lock not free, [CELL_EDEADLK] for a writer that already holds the lock,
    [CELL_EPERM] for an unlock when there is no reader or the caller is not the writer, [CELL_ETIMEDOUT] for leaving a
    queue; an answer that is decided and not returned is that of a call still in progress. *)
Theorem rwlock_refines {T} `{!WaitQueue T} protocol threads evs i tr (s : state T) :
  in_range threads evs -> by_threads threads evs = true -> exec protocol evs (init i) = Some (tr, s) ->
  spec_run protocol (Spec 0 None [] []) tr (abs s (wq_list (rq s)) (wq_list (wq s))) /\
  forall y, answers (seen_by y tr) None = Some (owes s y).
Proof.
  intros Hr Ht He. by destruct (rw_run_ok protocol threads evs i tr s Hr Ht He) as (m & _ & ? & _ & ?).
Qed.

Lemma rwlock_refines_witness : exists tr (s : state queue),
  exec SYS_SYNC_PRIORITY demo_run (init demo_info) = Some (tr, s) /\
  map action (List.filter (fun x => match action x with Tau => false | _ => true end) tr) =
    [ReadTake 1; WriteBlock 2; ReadBlock 3; LastDrop 1 2; WriteAdmit 2 [3]; ReadDrop 3; WriteTake 4] /\
  spec_run SYS_SYNC_PRIORITY (Spec 0 None [] []) tr (abs s (wq_list (rq s)) (wq_list (wq s))).
Proof.
  destruct (exec SYS_SYNC_PRIORITY demo_run (init demo_info : state queue)) as [[tr s]|] eqn:E.
  - exists tr, s. split; [reflexivity|]. split.
    + assert (Some tr = option_map fst
        (exec SYS_SYNC_PRIORITY demo_run (init demo_info : state queue))) as E' by by rewrite E.
      vm_compute in E'. injection E' as ->. reflexivity.
    + apply (rwlock_refines SYS_SYNC_PRIORITY demo_threads demo_run demo_info);
        [apply demo_range; cbn; lia|vm_compute; reflexivity|exact E].
  - exfalso. vm_compute in E. discriminate E.
Defined.

(** C32: exclusion of the reader-writer lock.  In every run, for thread ids of 31 bits and runs too short for
    2^61 readers to enter, the readers let in minus the readers that left are the readers of
    the lock; a thread's write grants minus its releases are 1 for the writer and 0 for all others;
    while there is a writer, every reader that was let in has left; and each thread's [rlock],
    [tryrlock], [wlock] and [trywlock] calls return [CELL_OK] exactly once for each time the lock was
    given to it in that mode, except for one whose call has not returned yet. *)
Theorem rwlock_exclusion {T} `{!WaitQueue T} protocol threads evs i tr (s : state T) :
  in_range threads evs -> by_threads threads evs = true -> exec protocol evs (init i) = Some (tr, s) ->
  sum readers_in tr - sum readers_out tr = readers_of (owner s) /\
  (forall y, sum (granted Writer y) tr - sum (writer_out y) tr = one (writer_of (owner s) = Some y)) /\
  (writer_of (owner s) <> None -> sum readers_in tr = sum readers_out tr) /\
  forall k y, sum (granted k y) tr = returns k y tr + flight k s y.
Proof.
  intros Hr Ht He. destruct (rw_run_ok protocol threads evs i tr s Hr Ht He) as (m & _ & Hs & Hf & _).
  pose proof (readers_run _ _ _ _ Hs) as Hrd. cbn in Hrd. split; [lia|]. split; [|split].
  - intros y. pose proof (writer_run _ _ _ _ y Hs) as Hw. cbn [abs writer] in Hw.
    rewrite (one_false (None = Some y)) in Hw by done. lia.
  - intros Hw. assert (0 < owner s) as Hpos.
    { unfold writer_of in Hw. destruct (Z.ltb_spec 0 (owner s)); done. }
    destruct (readers_pos _ Hpos) as [E _]. lia.
  - intros k y. specialize (Hf k y). lia.
Qed.

Lemma rwlock_exclusion_witness : exists tr (s : state queue),
  exec SYS_SYNC_PRIORITY demo_run (init demo_info) = Some (tr, s) /\
  sum readers_in tr - sum readers_out tr = readers_of (owner s).
Proof.
  destruct (exec SYS_SYNC_PRIORITY demo_run (init demo_info : state queue)) as [[tr s]|] eqn:E.
  - exists tr, s. split; [reflexivity|].
    apply (rwlock_exclusion SYS_SYNC_PRIORITY demo_threads demo_run demo_info tr s);
      [apply demo_range; cbn; lia|vm_compute; reflexivity|exact E].
  - exfalso. vm_compute in E. discriminate E.
Defined.

(** The invariant of the reader-writer lock.  In every state of every run: no [ensure] has failed
    (the last reader that finds no waiting writer finds no waiting reader either); at most one
    thread is inside the mutex; while the wait bit of [owner] is clear nobody waits; and when the
    mutex is free, readers only wait while a writer holds the lock or waits, and a sleeping
    thread is either queued and suspended, or has been taken off the queue and signalled, and
    owns the lock if it is a writer: no wakeup is lost. *)
Theorem rwlock_invariant {T} `{!WaitQueue T} protocol threads evs i tr (s : state T) :
  in_range threads evs -> by_threads threads evs = true -> exec protocol evs (init i) = Some (tr, s) ->
  (forall t, pcs s t <> Failed) /\
  (forall t, holds (pcs s t) = true <-> mutex s = Some t) /\
  (Z.odd (owner s) = false -> wq_list (rq s) = [] /\ wq_list (wq s) = []) /\
  (mutex s = None ->
     (wq_list (rq s) <> [] -> writer_of (owner s) <> None \/ wq_list (wq s) <> []) /\
     forall t k timeout, pcs s t = Sleeping k timeout ->
       if bool_decide (t ∈ wq_list (match k with Reader => rq s | Writer => wq s end))
       then run s t = Suspended
       else run s t = Signaled /\ (k = Writer -> writer_of (owner s) = Some t)).
Proof.
  intros Hr Ht He. destruct (rw_run_ok protocol threads evs i tr s Hr Ht He) as (m & Hi & _).
  set (lr := wq_list (rq s)) in *. set (lw := wq_list (wq s)) in *.
  pose proof (inv_shape _ _ _ _ _ Hi) as (H1 & H2 & H3). split; [|split; [apply Hi|split]].
  - intros t Hp. pose proof (inv_tok _ _ _ _ _ Hi t) as Hok. by rewrite Hp in Hok.
  - rewrite <- Z.negb_even, even_mod. intros E. apply H2. lia.
  - intros Hfree. unfold holder in H3. rewrite Hfree in H3. split.
    + intros Hne. destruct (decide (0 < owner s)) as [Hpos|Hneg].
      { left. by destruct (readers_pos _ Hpos) as [_ ->]. }
      right. apply H3; destruct (decide (owner s mod 2 = 0)) as [E|E]; try (by destruct (H2 E)); half.
    + intros t k timeout Hp. pose proof (inv_tok _ _ _ _ _ Hi t) as Hok. rewrite Hp in Hok.
      destruct k; cbn in Hok; fold lr lw.
      * destruct (bool_decide_reflect (t ∈ lr)); [tauto|]. split; [tauto|done].
      * pose proof (writer_own (owner s) t). destruct (bool_decide_reflect (t ∈ lw)); tauto.
Qed.

Lemma rwlock_invariant_witness : exists tr (s : state queue),
  exec SYS_SYNC_PRIORITY (take 11 demo_run) (init demo_info) = Some (tr, s) /\
  forall t, pcs s t <> Failed.
Proof.
  destruct (exec SYS_SYNC_PRIORITY (take 11 demo_run) (init demo_info : state queue)) as [[tr s]|] eqn:E.
  - exists tr, s. split; [reflexivity|].
    destruct (rwlock_invariant SYS_SYNC_PRIORITY demo_threads (take 11 demo_run) demo_info tr s)
      as (H & _); [apply demo_range; cbn; lia|vm_compute; reflexivity|exact E|exact H].
  - exfalso. vm_compute in E. discriminate E.
Defined.

(** C34: the thread that owns the mutex can always go on.  The only exception is a timed-out writer
    that empties the queue of the readers while one of them is being stopped. *)
Theorem rwlock_mutex_progress {T} `{!WaitQueue T} protocol threads evs i tr (s : state T) t :
  in_range threads evs -> by_threads threads evs = true -> exec protocol evs (init i) = Some (tr, s) ->
  mutex s = Some t ->
  (exists s', step protocol t Step s = Some s') \/
  pcs s t = WTimeWake /\ exists x, x ∈ wq_list (rq s) /\ again (info s x) = true.
Proof.
  intros Hr Ht He Hm. destruct (rw_run_ok protocol threads evs i tr s Hr Ht He) as (m & Hi & _).
  eapply (rw_owner_steps protocol threads m); [exact Hi|]. by apply Hi.
Qed.

Lemma rwlock_mutex_progress_witness : exists tr (s : state queue),
  exec SYS_SYNC_PRIORITY (take 14 demo_run) (init demo_info) = Some (tr, s) /\ mutex s = Some 1 /\
  ((exists s', step SYS_SYNC_PRIORITY 1 Step s = Some s') \/
   pcs s 1 = WTimeWake /\ exists x, x ∈ wq_list (rq s) /\ again (info s x) = true).
Proof.
  destruct (exec SYS_SYNC_PRIORITY (take 14 demo_run) (init demo_info : state queue)) as [[tr s]|] eqn:E.
  - assert (option_map (fun r => mutex r.2)
      (exec SYS_SYNC_PRIORITY (take 14 demo_run) (init demo_info : state queue)) = Some (Some 1)) as E'
      by (vm_compute; reflexivity).
    rewrite E in E'. injection E' as Hm. exists tr, s. split; [reflexivity|]. split; [exact Hm|].
    apply (rwlock_mutex_progress SYS_SYNC_PRIORITY demo_threads (take 14 demo_run) demo_info tr s 1);
      [apply demo_range; cbn; lia|vm_compute; reflexivity|exact E|exact Hm].
  - exfalso. vm_compute in E. discriminate E.
Defined.

(** C39: that exception happens.  A writer times out while the only waiting reader is being stopped:
    [schedule] gives the reader again and again without taking it off the queue, so the loop of
    [sys_rwlock_wlock] that wakes the readers does not end after any number of turns, with the mutex
    locked. *)
Theorem wlock_timeout_diverges : exists tr (s : state queue),
  exec SYS_SYNC_PRIORITY stop_run (init demo_info) = Some (tr, s) /\
  mutex s = Some 2 /\ pcs s 2 = WTimeWake /\
  forall fuel, pop_all fuel (info s) (rq s) = None.
Proof.
  destruct (exec SYS_SYNC_PRIORITY stop_run (init demo_info : state queue)) as [[tr s]|] eqn:E.
  2: { exfalso. vm_compute in E. discriminate E. }
  assert (option_map (fun r => (mutex r.2, pcs r.2 2, wq_list (rq r.2), again (info r.2 3)))
    (exec SYS_SYNC_PRIORITY stop_run (init demo_info : state queue)) =
    Some (Some 2, WTimeWake, [3], true)) as E' by (vm_compute; reflexivity).
  rewrite E in E'. injection E' as Hm Hp Hl Ha. exists tr, s. split_and!; [done..|]. intros fuel.
  destruct (rw_run_ok SYS_SYNC_PRIORITY demo_threads stop_run demo_info tr s) as (m & Hi & _);
    [apply demo_range; cbn; lia|vm_compute; reflexivity|done|].
  change (wq_list (rq s) = [3]) in Hl. rewrite Hl in Hi.
  eapply (pop_all_diverges _ fuel _ _ 3); [apply Hi|by apply list_elem_of_singleton|exact Ha].
Qed.
