(* ===== verification/Simd.v ===== *)
(** 128-bit vectors: [v128] (rpcs3/util/v128.hpp), the vector operations of rpcs3/util/simd.hpp that the SPU
    interpreter uses, and the compiler intrinsics they are written with.

    A [v128] is the 128-bit number [_u]; [lane w i] is element [i] of the arrays [_u8], [_u16], [_u32]
    and [_u64] (element 0 is the least significant, as on the little-endian hosts the emulator runs on).  An
    operation on lanes is [build w f], the vector whose lane [i] is [f i] truncated to [w] bits.  The
    intrinsics [mm_*] are the documented SSE2, SSSE3 and SSE4.1 operations of that name, at any lane width.
    The module [Simd] holds the definitions; the lemmas say what each operation does to lanes and to
    bits. *)

From Stdlib Require Import ZArith Lia Bool.
From stdpp Require Import base tactics option list numbers.
From S2P Require Import Prelude.
Local Open Scope Z_scope.
Local Open Scope word_scope.

Module Simd.

Definition lane (w i v : Z) : Z := wrap w (Z.shiftr v (w * i)).

Fixpoint pack_lanes (w : Z) (l : list Z) : Z :=
  match l with
  | [] => 0
  | x :: l => wrap w x .| Z.shiftl (pack_lanes w l) w
  end.

Definition build (w : Z) (f : Z -> Z) : Z := pack_lanes w (f <$> seqZ 0 (128 / w)).

(** [v._uN[i] = x]. *)
Definition set_lane (w i x v : Z) : Z :=
  build w (fun j => if j =? i then x else lane w j v).

(** ** Intrinsics *)

Definition mm_add (w a b : Z) : Z := build w (fun i => lane w i a + lane w i b).
Definition mm_sub (w a b : Z) : Z := build w (fun i => lane w i a - lane w i b).
Definition mm_cmpgt (w a b : Z) : Z :=
  build w (fun i => if sgn w (lane w i b) <? sgn w (lane w i a) then -1 else 0).
Definition mm_cmpeq (w a b : Z) : Z := build w (fun i => if lane w i a =? lane w i b then -1 else 0).
(** Counts beyond the lane shift everything out, or fill with the sign. *)
Definition mm_slli (w a n : Z) : Z := build w (fun i => Z.shiftl (lane w i a) n).
Definition mm_srli (w a n : Z) : Z := build w (fun i => Z.shiftr (lane w i a) n).
Definition mm_srai (w a n : Z) : Z := build w (fun i => Z.shiftr (sgn w (lane w i a)) n).
Definition mm_min_epu (w a b : Z) : Z := build w (fun i => Z.min (lane w i a) (lane w i b)).
Definition mm_max_epu (w a b : Z) : Z := build w (fun i => Z.max (lane w i a) (lane w i b)).
Definition mm_subs_epu (w a b : Z) : Z := build w (fun i => Z.max 0 (lane w i a - lane w i b)).
Definition mm_avg_epu8 (a b : Z) : Z := build 8 (fun i => Z.shiftr (lane 8 i a + lane 8 i b + 1) 1).
Definition mm_mullo_epi16 (a b : Z) : Z := build 16 (fun i => s16 (lane 16 i a) * s16 (lane 16 i b)).
Definition mm_mulhi_epi16 (a b : Z) : Z :=
  build 16 (fun i => Z.shiftr (s16 (lane 16 i a) * s16 (lane 16 i b)) 16).
Definition mm_mulhi_epu16 (a b : Z) : Z :=
  build 16 (fun i => Z.shiftr (lane 16 i a * lane 16 i b) 16).
Definition mm_madd_epi16 (a b : Z) : Z :=
  build 32 (fun i => s16 (lane 16 (2 * i) a) * s16 (lane 16 (2 * i) b) +
                     s16 (lane 16 (2 * i + 1) a) * s16 (lane 16 (2 * i + 1) b)).
Definition mm_and (a b : Z) : Z := a .& b.
Definition mm_or (a b : Z) : Z := a .| b.
Definition mm_xor (a b : Z) : Z := a .^ b.
Definition mm_andnot (a b : Z) : Z := bnot 128 a .& b.
Definition mm_set1 (w x : Z) : Z := build w (fun _ => x).
(** [_mm_set_epiN]: the highest element first. *)
Definition mm_set (w : Z) (l : list Z) : Z := pack_lanes w (rev l).
Definition mm_shuffle_epi32 (a imm : Z) : Z :=
  build 32 (fun i => lane 32 (Z.shiftr imm (2 * i) .& 3) a).
Definition mm_shufflelo_epi16 (a imm : Z) : Z :=
  build 16 (fun i => if i <? 4 then lane 16 (Z.shiftr imm (2 * i) .& 3) a else lane 16 i a).
Definition mm_shufflehi_epi16 (a imm : Z) : Z :=
  build 16 (fun i => if i <? 4 then lane 16 i a else lane 16 (4 + (Z.shiftr imm (2 * (i - 4)) .& 3)) a).
Definition mm_unpacklo (w a b : Z) : Z :=
  build w (fun i => lane w (i / 2) (if i mod 2 =? 0 then a else b)).
Definition mm_unpackhi (w a b : Z) : Z :=
  build w (fun i => lane w (64 / w + i / 2) (if i mod 2 =? 0 then a else b)).
Definition sat_s8 (x : Z) : Z := Z.max (-128) (Z.min 127 x).
Definition mm_packs_epi16 (a b : Z) : Z :=
  build 8 (fun i => sat_s8 (s16 (if i <? 8 then lane 16 i a else lane 16 (i - 8) b))).
(** Bit [i] of the result is the sign of lane [i]. *)
Definition movemask (w a : Z) : Z :=
  pack_lanes 1 ((fun i => Z.shiftr (lane w i a) (w - 1)) <$> seqZ 0 (128 / w)).
Definition mm_srli_si128 (a n : Z) : Z := Z.shiftr a (8 * n).
Definition mm_slli_si128 (a n : Z) : Z := wrap 128 (Z.shiftl a (8 * n)).
(** [_mm_loadu_si128] at byte [n] of an array of vectors. *)
Definition mm_loadu (buf : list Z) (n : Z) : Z := wrap 128 (Z.shiftr (pack_lanes 128 buf) (8 * n)).
(** SSSE3 byte shuffle; SSE4.1 blend by the sign of each byte. *)
Definition mm_shuffle_epi8 (a c : Z) : Z :=
  build 8 (fun i => let x := lane 8 i c in if Z.testbit x 7 then 0 else lane 8 (x .& 15) a).
Definition mm_blendv_epi8 (a b m : Z) : Z :=
  build 8 (fun i => if Z.testbit (lane 8 i m) 7 then lane 8 i b else lane 8 i a).

(** ** simd.hpp *)

Definition gv_add16 (a b : Z) : Z := mm_add 16 a b.
Definition gv_add32 (a b : Z) : Z := mm_add 32 a b.
Definition gv_sub8 (a b : Z) : Z := mm_sub 8 a b.
Definition gv_sub16 (a b : Z) : Z := mm_sub 16 a b.
Definition gv_sub32 (a b : Z) : Z := mm_sub 32 a b.
Definition gv_maxu8 (a b : Z) : Z := mm_max_epu 8 a b.
Definition gv_minu8 (a b : Z) : Z := mm_min_epu 8 a b.
Definition gv_andn (a b : Z) : Z := mm_andnot a b.

(** The unsigned comparisons have one body per instruction set: with SSE4.1 and without it. *)
Definition gv_gtu8 (a b : Z) : Z := mm_cmpeq 8 (mm_cmpeq 8 a (mm_min_epu 8 a b)) 0.
Definition gv_gtu16 (sse41 : bool) (a b : Z) : Z :=
  if sse41 then mm_cmpeq 16 (mm_cmpeq 16 a (mm_min_epu 16 a b)) 0
  else mm_cmpeq 16 (mm_cmpeq 16 (mm_subs_epu 16 a b) 0) 0.
Definition gv_gtu32 (sse41 : bool) (a b : Z) : Z :=
  if sse41 then mm_cmpeq 32 (mm_cmpeq 32 a (mm_min_epu 32 a b)) 0
  else let sign := mm_set1 32 0x80000000 in mm_cmpgt 32 (mm_xor a sign) (mm_xor b sign).

(** [v128::operator~] is written with [xor]. *)
Definition v_not (a : Z) : Z := mm_xor a (mm_set1 32 (-1)).

(** [v128::from32r], [from32p], [from64]. *)
Definition from32r (x : Z) : Z := pack_lanes 32 [0; 0; 0; x].
Definition from32p (x : Z) : Z := pack_lanes 32 [x; x; x; x].
Definition from64 (x0 x1 : Z) : Z := pack_lanes 64 [x0; x1].

End Simd.
Import Simd.

#[global] Arguments lane : simpl never.
#[global] Arguments build : simpl never.

(** ** Lanes and bits *)

(** The lane widths. *)
Definition width (w : Z) : Prop := w = 8 \/ w = 16 \/ w = 32 \/ w = 64.

Lemma lane_in_u w i v : 0 <= w -> in_u w (lane w i v).
Proof. apply wrap_in_u. Qed.

Lemma pack_lanes_nonneg w l : 0 <= w -> 0 <= pack_lanes w l.
Proof.
  intros Hw. induction l as [|x l IH]; cbn [pack_lanes]; [done|].
  apply Z.lor_nonneg. split; [apply (wrap_in_u w x Hw)|]. by apply Z.shiftl_nonneg.
Qed.

(** Bit [n] of a packed list is bit [n mod w] of element [n / w]. *)
Lemma testbit_pack_lanes w l n : 0 < w -> 0 <= n ->
  Z.testbit (pack_lanes w l) n = Z.testbit (get l (n / w)) (n mod w).
Proof.
  intros Hw. revert n. induction l as [|x l IH]; intros n Hn; cbn [pack_lanes].
  { unfold get. by rewrite Z.testbit_0_l, nth_lookup, lookup_nil, Z.testbit_0_l. }
  rewrite Z.lor_spec, testbit_wrap, testbit_shiftl by lia.
  destruct (Z.ltb_spec n w) as [Hlt|Hge].
  - replace (w <=? n) with false by lia. cbn [andb]. rewrite orb_false_r.
    by rewrite Z.div_small, Z.mod_small by lia.
  - replace (w <=? n) with true by lia. cbn [andb orb]. rewrite IH by lia.
    replace (n / w) with ((n - w) / w + 1)
      by (rewrite <- (Z.div_add (n - w) 1 w) by lia; f_equal; lia).
    replace (n mod w) with ((n - w) mod w)
      by (rewrite <- (Z.mod_add (n - w) 1 w) by lia; f_equal; lia).
    unfold get. pose proof (Z.div_pos (n - w) w ltac:(lia) ltac:(lia)).
    rewrite Z.add_1_r, Z2Nat.inj_succ by lia. done.
Qed.

Lemma pack_lanes_in_u w l : 0 < w -> in_u (w * Z.of_nat (length l)) (pack_lanes w l).
Proof.
  intros Hw. apply in_u_bits; [lia|apply pack_lanes_nonneg; lia|]. intros n Hn.
  rewrite testbit_pack_lanes by lia. unfold get. rewrite nth_overflow; [apply Z.testbit_0_l|].
  pose proof (Z.div_le_lower_bound n w (Z.of_nat (length l)) ltac:(lia) ltac:(lia)). lia.
Qed.

Lemma get_seqZ f k n : 0 <= k < n -> get (f <$> seqZ 0 n) k = f k.
Proof.
  intros Hk. unfold get. rewrite nth_lookup, list_lookup_fmap, lookup_seqZ_lt by lia. cbn. f_equal. lia.
Qed.

Lemma width_facts w : width w -> 0 < w /\ 128 = w * (128 / w).
Proof. by intros [-> | [-> | [-> | ->]]]. Qed.

Lemma build_in_u w f : width w -> in_u 128 (build w f).
Proof.
  intros (Hw & E)%width_facts. unfold build. pose proof (pack_lanes_in_u w (f <$> seqZ 0 (128 / w)) Hw) as H.
  rewrite length_fmap, length_seqZ, Z2Nat.id, <- E in H by lia. done.
Qed.

Lemma testbit_build w f n : width w -> 0 <= n < 128 ->
  Z.testbit (build w f) n = Z.testbit (f (n / w)) (n mod w).
Proof.
  intros (Hw & E)%width_facts Hn. unfold build. rewrite testbit_pack_lanes by lia.
  rewrite get_seqZ; [done|]. split; [apply Z.div_pos; lia|]. apply Z.div_lt_upper_bound; lia.
Qed.

Lemma testbit_lane w i v n : 0 <= w -> 0 <= i -> 0 <= n ->
  Z.testbit (lane w i v) n = (n <? w) && Z.testbit v (n + w * i).
Proof. intros. unfold lane. rewrite testbit_wrap, testbit_shiftr by lia. done. Qed.

Lemma lane_build w f i : width w -> 0 <= i < 128 / w -> lane w i (build w f) = wrap w (f i).
Proof.
  intros Hw Hi. destruct (width_facts w Hw) as (Hp & E).
  apply (bits_inj_u w); [lia|apply lane_in_u; lia|apply wrap_in_u; lia|].
  intros n Hn. rewrite testbit_lane, testbit_wrap by lia. f_equal.
  rewrite testbit_build by (nia || done).
  replace (n + w * i) with (i * w + n) by lia.
  rewrite Z.div_add_l, Z.div_small, Z.add_0_r by lia.
  rewrite Z.add_comm, Z.mod_add, Z.mod_small by lia. done.
Qed.

(** Two vectors are equal when their lanes are. *)
Lemma lane_ext w a b : width w -> in_u 128 a -> in_u 128 b ->
  (forall i, 0 <= i < 128 / w -> lane w i a = lane w i b) -> a = b.
Proof.
  intros Hw Ha Hb H. destruct (width_facts w Hw) as (Hp & E).
  apply (bits_inj_u 128); [lia|done|done|]. intros n Hn.
  assert (0 <= n / w < 128 / w) as Hi
    by (split; [apply Z.div_pos; lia|apply Z.div_lt_upper_bound; lia]).
  pose proof (f_equal (fun x => Z.testbit x (n mod w)) (H _ Hi)) as Hb'. cbn beta in Hb'.
  pose proof (Z.mod_pos_bound n w ltac:(lia)).
  rewrite !testbit_lane in Hb' by lia. replace (n mod w <? w) with true in Hb' by lia.
  replace (n mod w + w * (n / w)) with n in Hb' by (pose proof (Z.div_mod n w); lia). done.
Qed.

(** Side conditions on lane widths and indices. *)
Ltac lane_side :=
  unfold width; change (128 / 8) with 16 in *; change (128 / 16) with 8 in *;
  change (128 / 32) with 4 in *; change (128 / 64) with 2 in *; lia.

#[export] Hint Extern 1 (width _) => unfold width; lia : word.
#[export] Hint Resolve build_in_u : word.
#[export] Hint Extern 1 (in_u _ (lane _ _ _)) => apply lane_in_u; lia : word.

Lemma lane_land w i a b : 0 <= w -> lane w i (a .& b) = lane w i a .& lane w i b.
Proof.
  intros Hw. unfold lane. rewrite Z.shiftr_land. apply Z.bits_inj'. intros n Hn.
  rewrite Z.land_spec, !testbit_wrap, Z.land_spec by lia. by destruct (n <? w).
Qed.

Lemma lane_lor w i a b : 0 <= w -> lane w i (a .| b) = lane w i a .| lane w i b.
Proof.
  intros Hw. unfold lane. rewrite Z.shiftr_lor. apply Z.bits_inj'. intros n Hn.
  rewrite Z.lor_spec, !testbit_wrap, Z.lor_spec by lia. by destruct (n <? w).
Qed.

Lemma lane_lxor w i a b : 0 <= w -> lane w i (a .^ b) = lane w i a .^ lane w i b.
Proof.
  intros Hw. unfold lane. rewrite Z.shiftr_lxor. apply Z.bits_inj'. intros n Hn.
  rewrite Z.lxor_spec, !testbit_wrap, Z.lxor_spec by lia. by destruct (n <? w).
Qed.

Lemma lane_bnot w i a : width w -> 0 <= i < 128 / w -> lane w i (bnot 128 a) = bnot w (lane w i a).
Proof.
  intros Hw Hi. destruct (width_facts w Hw) as (Hp & E).
  apply (bits_inj_u w); [lia|apply lane_in_u; lia|apply bnot_in_u; lia|]. intros n Hn.
  rewrite testbit_lane, !testbit_bnot, testbit_lane by nia. replace (n <? w) with true by lia.
  replace (n + w * i <? 128) with true by nia. done.
Qed.

Lemma lane_0 w i : lane w i 0 = 0.
Proof. unfold lane. rewrite Z.shiftr_0_l. done. Qed.

Lemma lane_pack w l i : 0 < w -> 0 <= i -> lane w i (pack_lanes w l) = wrap w (get l i).
Proof.
  intros Hw Hi. apply (bits_inj_u w); [lia|apply lane_in_u; lia|apply wrap_in_u; lia|].
  intros n Hn. rewrite testbit_lane, testbit_pack_lanes, testbit_wrap by nia.
  replace (n + w * i) with (i * w + n) by lia.
  rewrite Z.div_add_l, Z.div_small, Z.add_0_r by lia.
  rewrite Z.add_comm, Z.mod_add, Z.mod_small by lia. done.
Qed.

(** A lane is made of the two lanes of half its width. *)
Lemma lane_halves w i v : 0 <= w -> 0 <= i ->
  lane (2 * w) i v = lane w (2 * i) v + 2 ^ w * lane w (2 * i + 1) v.
Proof.
  intros Hw Hi. pose proof (lane_in_u w (2 * i) v Hw) as H0.
  assert (lane (2 * w) i v = Z.shiftl (lane w (2 * i + 1) v) w .| lane w (2 * i) v) as ->.
  { apply Z.bits_inj'. intros n Hn. rewrite Z.lor_spec, testbit_shiftl by lia.
    rewrite (testbit_lane (2 * w)), (testbit_lane w (2 * i)) by lia.
    destruct (Z.leb_spec w n) as [Hge|Hlt]; cbn [andb orb].
    - rewrite testbit_lane by lia. replace (n <? w) with false by lia. cbn [andb]. rewrite orb_false_r.
      replace (n - w + w * (2 * i + 1)) with (n + 2 * w * i) by lia.
      destruct (Z.ltb_spec n (2 * w)), (Z.ltb_spec (n - w) w); done || lia.
    - replace (n <? w) with true by lia. replace (n <? 2 * w) with true by lia. cbn [andb].
      f_equal. lia. }
  rewrite lor_shiftl_add by done. lia.
Qed.

Lemma lane_16_of_8 i v : 0 <= i -> lane 16 i v = lane 8 (2 * i) v + 256 * lane 8 (2 * i + 1) v.
Proof. apply (lane_halves 8). lia. Qed.
Lemma lane_32_of_16 i v : 0 <= i -> lane 32 i v = lane 16 (2 * i) v + 65536 * lane 16 (2 * i + 1) v.
Proof. apply (lane_halves 16). lia. Qed.
Lemma lane_64_of_32 i v : 0 <= i ->
  lane 64 i v = lane 32 (2 * i) v + 4294967296 * lane 32 (2 * i + 1) v.
Proof. apply (lane_halves 32). lia. Qed.

Lemma v_not_bnot a : in_u 128 a -> v_not a = bnot 128 a.
Proof.
  intros Ha. apply (bits_inj_u 128); [lia| |auto with word|].
  { unfold v_not, mm_xor. apply lxor_in_u; [lia|done|]. apply build_in_u. auto with word. }
  intros n Hn. unfold v_not, mm_xor, mm_set1.
  rewrite Z.lxor_spec, testbit_build, testbit_bnot by (auto with word; lia).
  rewrite Z.bits_m1 by (apply Z.mod_pos_bound; lia). replace (n <? 128) with true by lia.
  by destruct (Z.testbit a n).
Qed.

Lemma from32p_set1 x : from32p x = mm_set1 32 x.
Proof. done. Qed.

(** ** Comparisons *)

Lemma sgn_mask w (b : bool) : 0 < w -> wrap w (if b then -1 else 0) = if b then 2 ^ w - 1 else 0.
Proof.
  intros Hw. pose proof (pow2_pos w ltac:(lia)). destruct b; [|by apply Z.mod_0_l; lia].
  unfold wrap. replace (-1) with (2 ^ w - 1 + -1 * 2 ^ w) by lia. rewrite Z.mod_add by lia.
  apply Z.mod_small. lia.
Qed.

(** The vector whose lanes are all ones where [c] holds and 0 elsewhere. *)
Definition mask_of (w : Z) (c : Z -> bool) : Z := build w (fun i => if c i then -1 else 0).

Lemma mask_of_ext w c c' : width w -> (forall i, 0 <= i < 128 / w -> c i = c' i) ->
  mask_of w c = mask_of w c'.
Proof.
  intros Hw H. apply (lane_ext w); [done|by apply build_in_u..|]. intros i Hi. unfold mask_of.
  rewrite !lane_build by done. by rewrite H.
Qed.

Lemma cmpeq_mask w a b : mm_cmpeq w a b = mask_of w (fun i => lane w i a =? lane w i b).
Proof. done. Qed.

Lemma cmpeq_mask_zero w c : width w -> mm_cmpeq w (mask_of w c) 0 = mask_of w (fun i => negb (c i)).
Proof.
  intros Hw. rewrite cmpeq_mask. apply mask_of_ext; [done|]. intros i Hi. unfold mask_of.
  destruct (width_facts w Hw) as (Hp & _). rewrite lane_build, lane_0, sgn_mask by done.
  pose proof (Z.pow_gt_1 2 w ltac:(lia)) as [H _]. specialize (H Hp).
  destruct (c i); [|done]. cbn. lia.
Qed.

Lemma lxor_sign w z : 0 < w -> in_u w z ->
  z .^ 2 ^ (w - 1) = if 2 ^ (w - 1) <=? z then z - 2 ^ (w - 1) else z + 2 ^ (w - 1).
Proof.
  intros Hw Hz. pose proof (pow2_half w Hw) as E. pose proof (pow2_pos (w - 1) ltac:(lia)).
  unfold in_u in Hz.
  assert (forall y, 0 <= y < 2 ^ (w - 1) -> y + 2 ^ (w - 1) = y .^ 2 ^ (w - 1)) as Hadd.
  { intros y Hy. apply Z.add_nocarry_lxor, Z.bits_inj'. intros n Hn.
    rewrite Z.land_spec, Z.pow2_bits_eqb, Z.bits_0 by lia.
    destruct (Z.eqb_spec (w - 1) n) as [<-|]; [|apply andb_false_r].
    by rewrite (testbit_high (w - 1) y) by (unfold in_u; lia). }
  destruct (Z.leb_spec (2 ^ (w - 1)) z); [|by rewrite Hadd by lia].
  replace z with (z - 2 ^ (w - 1) + 2 ^ (w - 1)) at 1 by lia.
  rewrite Hadd, Z.lxor_assoc, Z.lxor_nilpotent, Z.lxor_0_r by lia. done.
Qed.

Lemma flip_sign w x y : 0 < w -> in_u w x -> in_u w y ->
  (sgn w (x .^ 2 ^ (w - 1)) <? sgn w (y .^ 2 ^ (w - 1))) = (x <? y).
Proof.
  intros Hw Hx Hy. pose proof (pow2_half w Hw) as E. pose proof (pow2_pos (w - 1) ltac:(lia)).
  assert (forall z, in_u w z -> sgn w (z .^ 2 ^ (w - 1)) = z - 2 ^ (w - 1)) as Hz.
  { intros z Hz. rewrite lxor_sign by done. unfold in_u in Hz.
    destruct (Z.leb_spec (2 ^ (w - 1)) z).
    - rewrite sgn_small; [done|lia|]. split; lia.
    - rewrite sgn_unsigned; [|lia|split; lia].
      replace (2 ^ (w - 1) <=? z + 2 ^ (w - 1)) with true by lia. cbn. lia. }
  rewrite !Hz by done. lia.
Qed.

(** Every body of the unsigned comparisons computes the unsigned comparison of the lanes. *)
Lemma gtu_min w a b : width w ->
  mm_cmpeq w (mm_cmpeq w a (mm_min_epu w a b)) 0 = mask_of w (fun i => lane w i b <? lane w i a).
Proof.
  intros Hw. rewrite (cmpeq_mask w a), cmpeq_mask_zero by done. apply mask_of_ext; [done|].
  intros i Hi. destruct (width_facts w Hw) as (Hp & _).
  pose proof (lane_in_u w i a ltac:(lia)) as Ha. pose proof (lane_in_u w i b ltac:(lia)) as Hb.
  unfold mm_min_epu. rewrite lane_build by done. unfold in_u in *. rewrite wrap_small by (unfold in_u; lia).
  destruct (Z.eqb_spec (lane w i a) (Z.min (lane w i a) (lane w i b))); cbn; lia.
Qed.

Lemma gv_gtu8_mask a b : gv_gtu8 a b = mask_of 8 (fun i => lane 8 i b <? lane 8 i a).
Proof. apply gtu_min. auto with word. Qed.

Lemma gv_gtu16_mask sse41 a b : gv_gtu16 sse41 a b = mask_of 16 (fun i => lane 16 i b <? lane 16 i a).
Proof.
  unfold gv_gtu16. destruct sse41; [apply gtu_min; auto with word|].
  rewrite (cmpeq_mask 16 (mm_subs_epu 16 a b)), cmpeq_mask_zero by auto with word.
  apply mask_of_ext; [auto with word|]. intros i Hi. unfold mm_subs_epu.
  rewrite lane_build, lane_0 by auto with word.
  pose proof (lane_in_u 16 i a ltac:(lia)) as Ha. pose proof (lane_in_u 16 i b ltac:(lia)) as Hb.
  unfold in_u in *. rewrite wrap_small by (unfold in_u; lia). destruct (Z.eqb_spec (Z.max 0 (lane 16 i a - lane 16 i b)) 0); cbn; lia.
Qed.

Lemma gv_gtu32_mask sse41 a b : gv_gtu32 sse41 a b = mask_of 32 (fun i => lane 32 i b <? lane 32 i a).
Proof.
  unfold gv_gtu32. destruct sse41; [apply gtu_min; auto with word|]. cbv zeta. unfold mm_cmpgt.
  apply mask_of_ext; [auto with word|]. intros i Hi. unfold mm_xor, mm_set1.
  rewrite !lane_lxor, lane_build by (auto with word; lia).
  change (wrap 32 0x80000000) with (2 ^ (32 - 1)). apply flip_sign; auto with word.
Qed.

(** ** Shifts of whole vectors *)

(** Reading a vector at byte [n] of a buffer that holds [a] above, below or between copies of itself. *)
Lemma loadu_shl a n : in_u 128 a -> 0 <= n <= 32 ->
  mm_loadu [0; 0; a] (32 - n) = wrap 128 (Z.shiftl a (8 * n)).
Proof.
  intros Ha Hn. unfold mm_loadu. cbn [pack_lanes]. rewrite Z.shiftl_0_l, Z.lor_0_r, (wrap_small 128 a) by done.
  change (wrap 128 0) with 0. rewrite !Z.lor_0_l, Z.shiftl_shiftl by lia.
  rewrite Z.shiftr_shiftl_l by lia. do 2 f_equal. lia.
Qed.

Lemma loadu_shr a n : in_u 128 a -> 0 <= n -> mm_loadu [a; 0; 0] n = Z.shiftr a (8 * n).
Proof.
  intros Ha Hn. unfold mm_loadu. cbn [pack_lanes]. change (wrap 128 0) with 0.
  repeat (rewrite Z.shiftl_0_l || rewrite Z.lor_0_r). rewrite (wrap_small 128 a) by done.
  apply wrap_small, shiftr_in_u; [lia|lia|done].
Qed.

Lemma loadu_rot a n : in_u 128 a -> 0 <= n <= 16 -> mm_loadu [a; a] (16 - n) = rotl 128 a (8 * n).
Proof.
  intros Ha Hn. unfold mm_loadu, rotl. cbn [pack_lanes].
  rewrite Z.shiftl_0_l, Z.lor_0_r, (wrap_small 128 a) by done.
  rewrite Z.shiftr_lor, Z.shiftr_shiftl_l, Z.lor_comm by lia. do 3 f_equal; lia.
Qed.

(** The 64-bit shifts with the bits that cross the middle. *)
Lemma halves_bit i : 0 <= i < 128 -> exists q m, i = 64 * q + m /\ 0 <= m < 64 /\ (q = 0 \/ q = 1) /\ i / 64 = q /\ i mod 64 = m.
Proof.
  intros Hi. exists (i / 64), (i mod 64). Z.to_euclidean_division_equations; lia.
Qed.

Ltac halves :=
  intros Ha Hn; apply (bits_inj_u 128);
  [lia|apply lor_in_u; [lia|apply build_in_u; unfold width; lia..]|auto with word|];
  intros i Hi; unfold mm_or, mm_slli, mm_srli, mm_slli_si128, mm_srli_si128;
  rewrite Z.lor_spec, !testbit_build by (unfold width; lia);
  destruct (halves_bit i Hi) as (q & m & E & Hm & Hq & -> & ->);
  rewrite ?testbit_shiftl, ?testbit_shiftr by lia.

Lemma shl_64 a n : in_u 128 a -> 0 <= n < 8 ->
  mm_or (mm_slli 64 a n) (mm_srli 64 (mm_slli_si128 a 8) (64 - n)) = wrap 128 (Z.shiftl a n).
Proof.
  halves. rewrite testbit_wrap, testbit_shiftl by lia.
  rewrite (testbit_lane 64 q (wrap 128 _)) by lia. autorewrite with bits.
  destruct (Z.leb_spec n m).
  - rewrite testbit_lane by lia. case_cmp; cbn [andb orb]; rewrite ?orb_false_r; f_equal; lia.
  - case_cmp; cbn [andb orb]; rewrite ?(Z.testbit_neg_r a) by lia; f_equal; lia || done.
Qed.

Lemma shr_64 a n : in_u 128 a -> 0 <= n < 8 ->
  mm_or (mm_srli 64 a n) (mm_slli 64 (mm_srli_si128 a 8) (64 - n)) = Z.shiftr a n.
Proof.
  intros Ha' Hn'. pose proof (shiftr_in_u 128 a n ltac:(lia) ltac:(lia) Ha'). revert Ha' Hn'. halves.
  rewrite !(testbit_lane 64 q a) by lia.
  destruct (Z.leb_spec (64 - n) m).
  - rewrite testbit_lane, testbit_shiftr by lia. case_cmp; cbn [andb orb]; f_equal; lia.
  - case_cmp; cbn [andb orb]; rewrite orb_false_r; f_equal; lia.
Qed.

(** [_mm_shuffle_epi32(a, 0x4E)] swaps the halves. *)
Lemma swap_halves a : mm_shuffle_epi32 a 0x4E = build 64 (fun i => lane 64 (1 - i) a).
Proof.
  apply (bits_inj_u 128); [lia|apply build_in_u; unfold width; lia..|]. intros i Hi.
  unfold mm_shuffle_epi32. rewrite !testbit_build by (unfold width; lia).
  assert (exists q, i / 32 = q /\ (q = 0 \/ q = 1 \/ q = 2 \/ q = 3)) as (q & Eq & Hq)
    by (exists (i / 32); Z.to_euclidean_division_equations; lia).
  pose proof (Z.div_mod i 32 ltac:(lia)). pose proof (Z.mod_pos_bound i 32 ltac:(lia)).
  rewrite Eq in *. destruct (halves_bit i Hi) as (p & m & E & Hm & Hp & -> & ->).
  destruct Hq as [-> | [-> | [-> | ->]]];
    match goal with |- context [lane 32 ?x a] => let y := eval vm_compute in x in change x with y end;
    rewrite !testbit_lane by lia; case_cmp; cbn [andb]; f_equal; lia.
Qed.

Lemma rot_64 a n : in_u 128 a -> 0 <= n < 8 ->
  mm_or (mm_slli 64 a n) (mm_srli 64 (mm_shuffle_epi32 a 0x4E) (64 - n)) = rotl 128 a n.
Proof.
  rewrite swap_halves. unfold rotl. halves. rewrite testbit_wrap, Z.lor_spec, testbit_shiftl, testbit_shiftr by lia.
  assert (0 <= q < 128 / 64) as Hq' by (change (128 / 64) with 2; lia).
  rewrite lane_build by (unfold width; lia). rewrite testbit_wrap, (testbit_lane 64 (1 - q)) by lia.
  destruct (Z.leb_spec n m).
  - rewrite testbit_lane by lia. replace (Z.testbit a (i + (128 - n))) with false
      by (symmetry; apply (testbit_high 128); (done || lia)).
    case_cmp; cbn [andb orb]; rewrite ?orb_false_r; f_equal; lia.
  - case_cmp; cbn [andb orb]; rewrite ?(Z.testbit_neg_r a) by lia; try (f_equal; lia).
    rewrite (testbit_high 128 a (i + (128 - n))) by (done || lia). rewrite orb_false_r. f_equal. lia.
Qed.
