(* ===== verification/SpuOpcodes.v ===== *)
(** SPU instruction words: rpcs3/Emu/Cell/SPUOpcodes.h.

    [spu_field] lists the members of [union spu_opcode_t], read with the accessors of BitField.  [instructions]
    is the initializer list of [spu_decoder]; [spu_table] fills the 2048 entries by the same writes and
    [decode] looks an instruction word up.  [decode_ref] compares the leading bits of the
    instruction word with each row; [spu_decode_eq_ref] shows that the table computes it and that no two rows
    claim the same word. *)

From Stdlib Require Import ZArith Lia Bool.
From stdpp Require Import base tactics option list numbers gmap.
From S2P Require Import Prelude BitField.
Import BitField.
Local Open Scope Z_scope.
Local Open Scope word_scope.

Module SpuOp.

(** ** Fields of [spu_opcode_t] *)

Inductive spu_field : Set :=
| rt | rc | ra | rb | rt4 | f_e | f_d | de | f_c | r0h | roh | i7 | si7 | i8 | si10 | i16 | si16 | i18.

Definition field_desc (f : spu_field) : bf :=
  match f with
  | rt => Bf 32 false 0 7
  | rc => Bf 32 false 0 7
  | ra => Bf 32 false 7 7
  | rb => Bf 32 false 14 7
  | rt4 => Bf 32 false 21 7
  | f_e => Bf 32 false 18 1
  | f_d => Bf 32 false 19 1
  | de => Bf 32 false 18 2
  | f_c => Bf 32 false 20 1
  | r0h => Bf 32 true 23 2
  | roh => Bf 32 true 14 2
  | i7 => Bf 32 false 14 7
  | si7 => Bf 32 true 14 7
  | i8 => Bf 32 false 14 8
  | si10 => Bf 32 true 14 10
  | i16 => Bf 32 false 7 16
  | si16 => Bf 32 true 7 16
  | i18 => Bf 32 false 7 18
  end.

Definition op_get (f : spu_field) (op : Z) : Z := extract (field_desc f) op.

Definition spu_branch_target (pc imm : Z) : Z := u32 (pc + u32 (Z.shiftl imm 2)) .& 0x3fffc.
Definition spu_ls_target (pc imm : Z) : Z := u32 (pc + u32 (Z.shiftl imm 2)) .& 0x3fff0.
Definition spu_decode (inst : Z) : Z := Z.shiftr inst 21.

Definition duplicate_si10 (op : Z) : Z :=
  let _16 := u16 (s16 (op_get si10 op)) in u32 (Z.shiftl _16 16) .| _16.
Definition duplicate_duplicate_si10 (op : Z) : Z :=
  let _8 := u8 (op_get si10 op .& 0xff) in
  u32 (Z.shiftl _8 24) .| u32 (Z.shiftl _8 16) .| u32 (Z.shiftl _8 8) .| _8.

(** ** Decoder *)

Inductive itype : Set :=
| UNK | STOP | LNOP | SYNC | DSYNC | MFSPR | RDCH | RCHCNT | SF | OR | BG | SFH | NOR | ABSDB
| ROT | ROTM | ROTMA | SHL | ROTH | ROTHM | ROTMAH | SHLH | ROTI | ROTMI | ROTMAI | SHLI
| ROTHI | ROTHMI | ROTMAHI | SHLHI | A | AND | CG | AH | NAND | AVGB | MTSPR | WRCH | BIZ
| BINZ | BIHZ | BIHNZ | STOPD | STQX | BI | BISL | IRET | BISLED | HBR | GB | GBH | GBB | FSM
| FSMH | FSMB | FREST | FRSQEST | LQX | ROTQBYBI | ROTQMBYBI | SHLQBYBI | CBX | CHX | CWX | CDX
| ROTQBI | ROTQMBI | SHLQBI | ROTQBY | ROTQMBY | SHLQBY | ORX | CBD | CHD | CWD | CDD | ROTQBII
| ROTQMBII | SHLQBII | ROTQBYI | ROTQMBYI | SHLQBYI | NOP | CGT | XOR | CGTH | EQV | CGTB
| SUMB | HGT | CLZ | XSWD | XSHW | CNTB | XSBH | CLGT | ANDC | FCGT | DFCGT | FA | FS | FM
| CLGTH | ORC | FCMGT | DFCMGT | DFA | DFS | DFM | CLGTB | HLGT | DFMA | DFMS | DFNMS | DFNMA
| CEQ | MPYHHU | ADDX | SFX | CGX | BGX | MPYHHA | MPYHHAU | FSCRRD | FESD | FRDS | FSCRWR
| DFTSV | FCEQ | DFCEQ | MPY | MPYH | MPYHH | MPYS | CEQH | FCMEQ | DFCMEQ | MPYU | CEQB | FI
| HEQ | CFLTS | CFLTU | CSFLT | CUFLT | BRZ | STQA | BRNZ | BRHZ | BRHNZ | STQR | BRA | LQA
| BRASL | BR | FSMBI | BRSL | LQR | IL | ILHU | ILH | IOHL | ORI | ORHI | ORBI | SFI | SFHI
| ANDI | ANDHI | ANDBI | AI | AHI | STQD | LQD | XORI | XORHI | XORBI | CGTI | CGTHI | CGTBI
| HGTI | CLGTI | CLGTHI | CLGTBI | HLGTI | MPYI | MPYUI | CEQI | CEQHI | CEQBI | HEQI | HBRA
| HBRR | ILA | SELB | SHUFB | MPYA | FNMS | FMA | FMS.

(** Magnitude (the row stands for [2 ^ magn] table entries), value, instruction. *)
Definition instructions : list (Z * Z * itype) :=
  [(0, 0x0, STOP); (0, 0x1, LNOP); (0, 0x2, SYNC); (0, 0x3, DSYNC); (0, 0xc, MFSPR);
   (0, 0xd, RDCH); (0, 0xf, RCHCNT); (0, 0x40, SF); (0, 0x41, OR); (0, 0x42, BG);
   (0, 0x48, SFH); (0, 0x49, NOR); (0, 0x53, ABSDB); (0, 0x58, ROT); (0, 0x59, ROTM);
   (0, 0x5a, ROTMA); (0, 0x5b, SHL); (0, 0x5c, ROTH); (0, 0x5d, ROTHM); (0, 0x5e, ROTMAH);
   (0, 0x5f, SHLH); (0, 0x78, ROTI); (0, 0x79, ROTMI); (0, 0x7a, ROTMAI); (0, 0x7b, SHLI);
   (0, 0x7c, ROTHI); (0, 0x7d, ROTHMI); (0, 0x7e, ROTMAHI); (0, 0x7f, SHLHI); (0, 0xc0, A);
   (0, 0xc1, AND); (0, 0xc2, CG); (0, 0xc8, AH); (0, 0xc9, NAND); (0, 0xd3, AVGB);
   (0, 0x10c, MTSPR); (0, 0x10d, WRCH); (0, 0x128, BIZ); (0, 0x129, BINZ); (0, 0x12a, BIHZ);
   (0, 0x12b, BIHNZ); (0, 0x140, STOPD); (0, 0x144, STQX); (0, 0x1a8, BI); (0, 0x1a9, BISL);
   (0, 0x1aa, IRET); (0, 0x1ab, BISLED); (0, 0x1ac, HBR); (0, 0x1b0, GB); (0, 0x1b1, GBH);
   (0, 0x1b2, GBB); (0, 0x1b4, FSM); (0, 0x1b5, FSMH); (0, 0x1b6, FSMB); (0, 0x1b8, FREST);
   (0, 0x1b9, FRSQEST); (0, 0x1c4, LQX); (0, 0x1cc, ROTQBYBI); (0, 0x1cd, ROTQMBYBI);
   (0, 0x1cf, SHLQBYBI); (0, 0x1d4, CBX); (0, 0x1d5, CHX); (0, 0x1d6, CWX); (0, 0x1d7, CDX);
   (0, 0x1d8, ROTQBI); (0, 0x1d9, ROTQMBI); (0, 0x1db, SHLQBI); (0, 0x1dc, ROTQBY);
   (0, 0x1dd, ROTQMBY); (0, 0x1df, SHLQBY); (0, 0x1f0, ORX); (0, 0x1f4, CBD); (0, 0x1f5, CHD);
   (0, 0x1f6, CWD); (0, 0x1f7, CDD); (0, 0x1f8, ROTQBII); (0, 0x1f9, ROTQMBII);
   (0, 0x1fb, SHLQBII); (0, 0x1fc, ROTQBYI); (0, 0x1fd, ROTQMBYI); (0, 0x1ff, SHLQBYI);
   (0, 0x201, NOP); (0, 0x240, CGT); (0, 0x241, XOR); (0, 0x248, CGTH); (0, 0x249, EQV);
   (0, 0x250, CGTB); (0, 0x253, SUMB); (0, 0x258, HGT); (0, 0x2a5, CLZ); (0, 0x2a6, XSWD);
   (0, 0x2ae, XSHW); (0, 0x2b4, CNTB); (0, 0x2b6, XSBH); (0, 0x2c0, CLGT); (0, 0x2c1, ANDC);
   (0, 0x2c2, FCGT); (0, 0x2c3, DFCGT); (0, 0x2c4, FA); (0, 0x2c5, FS); (0, 0x2c6, FM);
   (0, 0x2c8, CLGTH); (0, 0x2c9, ORC); (0, 0x2ca, FCMGT); (0, 0x2cb, DFCMGT); (0, 0x2cc, DFA);
   (0, 0x2cd, DFS); (0, 0x2ce, DFM); (0, 0x2d0, CLGTB); (0, 0x2d8, HLGT); (0, 0x35c, DFMA);
   (0, 0x35d, DFMS); (0, 0x35e, DFNMS); (0, 0x35f, DFNMA); (0, 0x3c0, CEQ); (0, 0x3ce, MPYHHU);
   (0, 0x340, ADDX); (0, 0x341, SFX); (0, 0x342, CGX); (0, 0x343, BGX); (0, 0x346, MPYHHA);
   (0, 0x34e, MPYHHAU); (0, 0x398, FSCRRD); (0, 0x3b8, FESD); (0, 0x3b9, FRDS);
   (0, 0x3ba, FSCRWR); (0, 0x3bf, DFTSV); (0, 0x3c2, FCEQ); (0, 0x3c3, DFCEQ); (0, 0x3c4, MPY);
   (0, 0x3c5, MPYH); (0, 0x3c6, MPYHH); (0, 0x3c7, MPYS); (0, 0x3c8, CEQH); (0, 0x3ca, FCMEQ);
   (0, 0x3cb, DFCMEQ); (0, 0x3cc, MPYU); (0, 0x3d0, CEQB); (0, 0x3d4, FI); (0, 0x3d8, HEQ);
   (1, 0x1d8, CFLTS); (1, 0x1d9, CFLTU); (1, 0x1da, CSFLT); (1, 0x1db, CUFLT); (2, 0x40, BRZ);
   (2, 0x41, STQA); (2, 0x42, BRNZ); (2, 0x44, BRHZ); (2, 0x46, BRHNZ); (2, 0x47, STQR);
   (2, 0x60, BRA); (2, 0x61, LQA); (2, 0x62, BRASL); (2, 0x64, BR); (2, 0x65, FSMBI);
   (2, 0x66, BRSL); (2, 0x67, LQR); (2, 0x81, IL); (2, 0x82, ILHU); (2, 0x83, ILH);
   (2, 0xc1, IOHL); (3, 0x4, ORI); (3, 0x5, ORHI); (3, 0x6, ORBI); (3, 0xc, SFI);
   (3, 0xd, SFHI); (3, 0x14, ANDI); (3, 0x15, ANDHI); (3, 0x16, ANDBI); (3, 0x1c, AI);
   (3, 0x1d, AHI); (3, 0x24, STQD); (3, 0x34, LQD); (3, 0x44, XORI); (3, 0x45, XORHI);
   (3, 0x46, XORBI); (3, 0x4c, CGTI); (3, 0x4d, CGTHI); (3, 0x4e, CGTBI); (3, 0x4f, HGTI);
   (3, 0x5c, CLGTI); (3, 0x5d, CLGTHI); (3, 0x5e, CLGTBI); (3, 0x5f, HLGTI); (3, 0x74, MPYI);
   (3, 0x75, MPYUI); (3, 0x7c, CEQI); (3, 0x7d, CEQHI); (3, 0x7e, CEQBI); (3, 0x7f, HEQI);
   (4, 0x8, HBRA); (4, 0x9, HBRR); (4, 0x21, ILA); (7, 0x8, SELB); (7, 0xb, SHUFB);
   (7, 0xc, MPYA); (7, 0xd, FNMS); (7, 0xe, FMA); (7, 0xf, FMS)].

(** The initial fill and the two loops of the constructor; the table as a finite map. *)
Definition fill_row (table : gmap Z itype) (row : Z * Z * itype) : gmap Z itype :=
  let '(magn, value, pointer) := row in
  foldl (fun table i => <[Z.shiftl value magn .| i := pointer]> table) table (seqZ 0 (2 ^ magn)).

Definition spu_table : gmap Z itype :=
  foldl fill_row (list_to_map ((fun i => (i, UNK)) <$> seqZ 0 2048)) instructions.

Definition decode (inst : Z) : itype := default UNK (spu_table !! spu_decode inst).

(** ** Reference decoding *)

(** A row with magnitude [m] fixes the leading [11 - m] bits of the word. *)
Definition row_matches (inst : Z) (row : Z * Z * itype) : bool :=
  let '(magn, value, _) := row in Z.shiftr inst (21 + magn) =? value.

Definition matching (inst : Z) : list (Z * Z * itype) :=
  filter (fun row => row_matches inst row = true) instructions.

Definition decode_ref (inst : Z) : itype :=
  match matching inst with
  | [(_, _, i)] => i
  | _ => UNK
  end.

End SpuOp.
Import SpuOp.

Lemma fmap_seqZ_inj {A} (f g : Z -> A) n k :
  f <$> seqZ 0 n = g <$> seqZ 0 n -> 0 <= k < n -> f k = g k.
Proof.
  intros E Hk. apply (f_equal (lookup (Z.to_nat k))) in E.
  rewrite !list_lookup_fmap, lookup_seqZ_lt in E by lia. injection E as E.
  by rewrite Z2Nat.id, Z.add_0_l in E by lia.
Qed.

(** The table and the reference at the 2048 values of the leading bits. *)
Lemma table_check :
  (fun k => default UNK (spu_table !! k)) <$> seqZ 0 2048 =
  (fun k => decode_ref (Z.shiftl k 21)) <$> seqZ 0 2048.
Proof. vm_compute. reflexivity. Qed.

Lemma matching_check :
  forallb (fun k => Nat.leb (length (matching (Z.shiftl k 21))) 1) (seqZ 0 2048) = true.
Proof. vm_compute. reflexivity. Qed.

Lemma in_seqZ k n : 0 <= k < n -> k ∈ seqZ 0 n.
Proof. intros. rewrite elem_of_seqZ. lia. Qed.

Lemma magn_nonneg row : row ∈ instructions -> 0 <= row.1.1.
Proof.
  intros Hrow. assert (forallb (fun r => 0 <=? r.1.1) instructions = true) as H by done.
  rewrite forallb_forall in H. specialize (H row). rewrite list_elem_of_In in Hrow. apply Z.leb_le. auto.
Qed.

(** Only the leading 11 bits matter. *)
Lemma row_matches_high inst row : 0 <= row.1.1 ->
  row_matches inst row = row_matches (Z.shiftl (spu_decode inst) 21) row.
Proof.
  destruct row as [[m v] i]. cbn [row_matches fst]. intros Hm. unfold spu_decode.
  rewrite <- !(Z.shiftr_shiftr _ 21 m) by lia. by rewrite Z.shiftr_shiftl_l, Z.shiftl_0_r by lia.
Qed.

Lemma matching_high inst : matching inst = matching (Z.shiftl (spu_decode inst) 21).
Proof.
  unfold matching. generalize magn_nonneg. induction instructions as [|row l IH]; intros H; [done|].
  rewrite !filter_cons, IH, <- row_matches_high by (intros; apply H; set_solver). done.
Qed.

Lemma spu_decode_range inst : in_u 32 inst -> 0 <= spu_decode inst < 2048.
Proof.
  unfold in_u, spu_decode. intros. rewrite Z.shiftr_div_pow2 by lia.
  split; [apply Z.div_pos; lia|]. apply Z.div_lt_upper_bound; lia.
Qed.

Lemma decode_ref_high inst : decode_ref inst = decode_ref (Z.shiftl (spu_decode inst) 21).
Proof. unfold decode_ref. by rewrite matching_high. Qed.

Lemma decode_eq inst : in_u 32 inst -> decode inst = decode_ref inst.
Proof.
  intros H%spu_decode_range. rewrite decode_ref_high.
  exact (fmap_seqZ_inj _ _ _ _ table_check H).
Qed.

Lemma matching_unique inst : in_u 32 inst -> (length (matching inst) <= 1)%nat.
Proof.
  intros Hk%spu_decode_range. pose proof matching_check as E. rewrite forallb_forall in E.
  specialize (E (spu_decode inst)). rewrite matching_high. apply Nat.leb_le, E, list_elem_of_In, in_seqZ. done.
Qed.

(** A word whose leading bits are those of a row is decoded to its instruction. *)
Lemma decode_row inst magn value i : in_u 32 inst -> (magn, value, i) ∈ instructions ->
  Z.shiftr inst (21 + magn) = value -> decode inst = i.
Proof.
  intros H Hrow E. rewrite decode_eq by done. unfold decode_ref.
  assert ((magn, value, i) ∈ matching inst) as Hin.
  { apply list_elem_of_filter. split; [|done]. by apply Z.eqb_eq. }
  pose proof (matching_unique inst H) as Hl. destruct (matching inst) as [|[[m v] j] [|? ?]].
  - by apply elem_of_nil in Hin.
  - apply list_elem_of_singleton in Hin. congruence.
  - cbn in Hl. lia.
Qed.

(** C29: the lookup table of [spu_decoder], built by writing the rows of the initializer list one over the
    other, decodes every 32-bit word to the instruction of the row whose leading bits the word has, and to
    [UNK] when there is none; no word matches two rows, so the order of the list does not matter. *)
Theorem spu_decode_eq_ref inst (H : in_u 32 inst) :
  decode inst = decode_ref inst /\ (length (matching inst) <= 1)%nat.
Proof. split; [by apply decode_eq|by apply matching_unique]. Qed.

Lemma spu_decode_eq_ref_witness : decode 0x18008101 = A.
Proof.
  destruct (spu_decode_eq_ref 0x18008101) as [E _]; [unfold in_u; lia|]. rewrite E. reflexivity.
Defined.

(** Proofs about programs go through [decode_row]. *)
#[global] Opaque spu_table.
