(* ===== verification/SpuInterp.v ===== *)
(** The SPU interpreter: rpcs3/Emu/Cell/SPUInterpreter.cpp and the parts of SPUThread.h, SPUThread.cpp and
    SPUCommonRecompiler.cpp it runs with.

    [spu_thread] holds the members of [class spu_thread] the handlers use: the 128 vector registers, the
    program counter, the 256 KiB local storage, and what interrupts need.  A handler is a function of the
    thread and the instruction word with the name it has in the source; it returns an [outcome]: [Ret b] when
    the handler returns [b] (the loop adds 4 to [pc] when it is [true]), or the way it leaves the model.
    Loops that write one lane at a time into [gpr[op.rt]], which may be one of the operands, are loops here too.
    [interp] dispatches on the decoded instruction and [old_interpreter] is the loop that fetches from local
    storage.

    Not modelled: the channel instructions ([RDCH], [WRCH], [RCHCNT], [BISLED], [STOP], [STOPD]), which talk
    to other threads, the floating-point instructions and their estimate tables, [do_mfc] and
    [check_state]; reaching one of them is an outcome of its own. *)

From Stdlib Require Import ZArith Lia Bool.
From stdpp Require Import base tactics option list numbers.
From S2P Require Import Prelude BitField Simd SpuOpcodes.
Import BitField Simd SpuOp.
Local Open Scope Z_scope.
Local Open Scope word_scope.

Module Spu.

(** ** State *)

Inductive spu_decoder_type : Set := _static | dynamic | asmjit | llvm.

Record spu_thread := Spu_thread {
  gpr : list Z;              (* v128 gpr[128] *)
  pc : Z;                    (* u32 *)
  ls : Z -> Z;               (* u8 ls[SPU_LS_SIZE] *)
  srr0 : Z;                  (* u32 *)
  interrupts_enabled : bool;
  ch_events : Z;             (* u64 ch_events.all *)
  state : Z;                 (* bs_t<cpu_flag> *)
  spu_decoder : spu_decoder_type   (* g_cfg.core.spu_decoder *)
}.

Definition with_gpr (s : spu_thread) (v : list Z) : spu_thread :=
  Spu_thread v (pc s) (ls s) (srr0 s) (interrupts_enabled s) (ch_events s) (state s) (spu_decoder s).
Definition with_pc (s : spu_thread) (v : Z) : spu_thread :=
  Spu_thread (gpr s) v (ls s) (srr0 s) (interrupts_enabled s) (ch_events s) (state s) (spu_decoder s).
Definition with_ls (s : spu_thread) (v : Z -> Z) : spu_thread :=
  Spu_thread (gpr s) (pc s) v (srr0 s) (interrupts_enabled s) (ch_events s) (state s) (spu_decoder s).
Definition with_srr0 (s : spu_thread) (v : Z) : spu_thread :=
  Spu_thread (gpr s) (pc s) (ls s) v (interrupts_enabled s) (ch_events s) (state s) (spu_decoder s).
Definition with_interrupts (s : spu_thread) (v : bool) : spu_thread :=
  Spu_thread (gpr s) (pc s) (ls s) (srr0 s) v (ch_events s) (state s) (spu_decoder s).
Definition with_state (s : spu_thread) (v : Z) : spu_thread :=
  Spu_thread (gpr s) (pc s) (ls s) (srr0 s) (interrupts_enabled s) (ch_events s) v (spu_decoder s).

(** How a handler (or an iteration of the loop) ends. *)
Inductive outcome :=
| Ret (advance : bool) (s : spu_thread)
| Throw (s : spu_thread)                  (* fmt::throw_exception *)
| Halt (s : spu_thread)                   (* spu_thread::halt, which does not return *)
| Do_mfc (s : spu_thread)                 (* spu_thread::do_mfc, after which the handler returns false *)
| Check_state (s : spu_thread)            (* spu_thread::check_state *)
| Fault (s : spu_thread)                  (* instruction fetch outside the mapped local storage *)
| Unmodelled (i : itype) (s : spu_thread).

(** [spu.gpr[op.f]], and the assignment to it that ends most handlers. *)
Definition r (s : spu_thread) (f : spu_field) (op : Z) : Z := get (gpr s) (op_get f op).
Definition set_r (s : spu_thread) (f : spu_field) (op v : Z) : spu_thread :=
  with_gpr s (set (gpr s) (op_get f op) v).
Definition put (s : spu_thread) (f : spu_field) (op v : Z) : outcome := Ret true (set_r s f op v).

(** [spu.gpr[op.f]._uN[i] = x], and a loop over [i < n]. *)
Definition set_elem (w : Z) (s : spu_thread) (f : spu_field) (op i x : Z) : spu_thread :=
  set_r s f op (set_lane w i x (r s f op)).
Definition for_lanes (n : Z) (body : Z -> spu_thread -> spu_thread) (s : spu_thread) : spu_thread :=
  foldl (fun s i => body i s) s (seqZ 0 n).

(** ** Local storage *)

Definition SPU_LS_SIZE : Z := 0x40000.

(** [_ref<v128>(lsa)] and [_ref<u32>(lsa)]: big endian. *)
Definition ref_v128 (s : spu_thread) (lsa : Z) : Z :=
  build 8 (fun i => ls s (lsa mod SPU_LS_SIZE + 15 - i)).
Definition set_ref_v128 (s : spu_thread) (lsa v : Z) : spu_thread :=
  let a := lsa mod SPU_LS_SIZE in
  with_ls s (fun k => if (a <=? k) && (k <? a + 16) then lane 8 (a + 15 - k) v else ls s k).
Definition be32 (m : Z -> Z) (a : Z) : Z := pack_lanes 8 [m (a + 3); m (a + 2); m (a + 1); m a].
Definition ref_u32 (s : spu_thread) (lsa : Z) : Z := be32 (ls s) (lsa mod SPU_LS_SIZE).

(** ** Interrupts *)

Definition ch_count (ev : Z) : Z := extract (Bf 64 false 31 1) ev.
Definition ch_mask (ev : Z) : Z := extract (Bf 64 false 32 32) ev.

Definition SPU_EVENT_LR : Z := 0x400.
Definition SPU_EVENT_S1 : Z := 0x200.
Definition SPU_EVENT_S2 : Z := 0x100.
Definition SPU_EVENT_TM : Z := 0x20.
Definition SPU_EVENT_SN : Z := 0x2.
Definition SPU_EVENT_IMPLEMENTED : Z :=
  SPU_EVENT_LR .| SPU_EVENT_TM .| SPU_EVENT_SN .| SPU_EVENT_S1 .| SPU_EVENT_S2.
Definition SPU_EVENT_INTR_BUSY_CHECK : Z := SPU_EVENT_IMPLEMENTED .& bnot 32 SPU_EVENT_SN.

(** [cpu_flag::pending]. *)
Definition pending : Z := 2 ^ 10.

(** [spu_thread::set_interrupt_status]; [None] when it throws. *)
Definition thread_set_interrupt_status (s : spu_thread) (enable : bool) : option spu_thread :=
  if enable && negb (ch_mask (ch_events s) .& SPU_EVENT_INTR_BUSY_CHECK =? 0) then
    match spu_decoder s with
    | _static | dynamic =>
        let s := if state s .& pending =? 0 then with_state s (state s .| pending) else s in
        Some (with_interrupts s enable)
    | _ => None
    end
  else Some (with_interrupts s enable).

(** [spu_thread::check_mfc_interrupts]: the flag is cleared only when an event is pending. *)
Definition check_mfc_interrupts (s : spu_thread) (next_pc : Z) : bool * spu_thread :=
  if negb (ch_count (ch_events s) =? 0) && interrupts_enabled s then
    let s := with_srr0 (with_interrupts s false) next_pc in
    let br := ref_u32 s 0 in
    (true, with_pc s (if br .& 0xfd80007f =? 0x30000000 then Z.shiftr br 5 .& 0x3fffc else 0))
  else (false, s).

(** [spu_interpreter::set_interrupt_status], the last call of the handlers that use it before they
    return [false]. *)
Definition set_interrupt_status (s : spu_thread) (op : Z) : outcome :=
  let e := negb (op_get f_e op =? 0) in
  let d := negb (op_get f_d op =? 0) in
  match (if e then if d then None else thread_set_interrupt_status s true
         else if d then thread_set_interrupt_status s false else Some s) with
  | None => Throw s
  | Some s =>
      let '(taken, s) := check_mfc_interrupts s (pc s) in
      if taken && negb (state s .& pending =? 0) then Do_mfc s else Ret false s
  end.

(** ** Control and special registers *)

Definition UNK (s : spu_thread) (op : Z) : outcome := Ret false s.
Definition LNOP (s : spu_thread) (op : Z) : outcome := Ret true s.
Definition SYNC (s : spu_thread) (op : Z) : outcome := Ret true s.
Definition DSYNC (s : spu_thread) (op : Z) : outcome := Ret true s.
Definition MFSPR (s : spu_thread) (op : Z) : outcome := put s rt op 0.
Definition MTSPR (s : spu_thread) (op : Z) : outcome := Ret true s.
Definition NOP (s : spu_thread) (op : Z) : outcome := Ret true s.
Definition HBR (s : spu_thread) (op : Z) : outcome := Ret true s.
Definition HBRA (s : spu_thread) (op : Z) : outcome := Ret true s.
Definition HBRR (s : spu_thread) (op : Z) : outcome := Ret true s.
Definition FSCRRD (s : spu_thread) (op : Z) : outcome := put s rt op 0.
Definition FSCRWR (s : spu_thread) (op : Z) : outcome := Ret true s.
(** [DFCGT], [DFCMGT], [DFTSV], [DFCEQ] and [DFCMEQ] only log. *)
Definition DFCGT (s : spu_thread) (op : Z) : outcome := Ret false s.
Definition DFCMGT (s : spu_thread) (op : Z) : outcome := Ret false s.
Definition DFTSV (s : spu_thread) (op : Z) : outcome := Ret false s.
Definition DFCEQ (s : spu_thread) (op : Z) : outcome := Ret false s.
Definition DFCMEQ (s : spu_thread) (op : Z) : outcome := Ret false s.

(** ** Addition, subtraction, logic *)

Definition SF (s : spu_thread) (op : Z) : outcome := put s rt op (gv_sub32 (r s rb op) (r s ra op)).
Definition OR (s : spu_thread) (op : Z) : outcome := put s rt op (r s ra op .| r s rb op).
Definition BG (sse41 : bool) (s : spu_thread) (op : Z) : outcome :=
  put s rt op (mm_add 32 (gv_gtu32 sse41 (r s ra op) (r s rb op)) (mm_set1 32 1)).
Definition SFH (s : spu_thread) (op : Z) : outcome := put s rt op (gv_sub16 (r s rb op) (r s ra op)).
Definition NOR (s : spu_thread) (op : Z) : outcome := put s rt op (v_not (r s ra op .| r s rb op)).
Definition ABSDB (s : spu_thread) (op : Z) : outcome :=
  let a := r s ra op in
  let b := r s rb op in
  put s rt op (gv_sub8 (gv_maxu8 a b) (gv_minu8 a b)).
Definition A (s : spu_thread) (op : Z) : outcome := put s rt op (gv_add32 (r s ra op) (r s rb op)).
Definition AND (s : spu_thread) (op : Z) : outcome := put s rt op (r s ra op .& r s rb op).
Definition CG (s : spu_thread) (op : Z) : outcome :=
  let a := mm_xor (r s ra op) (mm_set1 32 0x7fffffff) in
  let b := mm_xor (r s rb op) (mm_set1 32 0x80000000) in
  put s rt op (mm_srli 32 (mm_cmpgt 32 b a) 31).
Definition AH (s : spu_thread) (op : Z) : outcome := put s rt op (gv_add16 (r s ra op) (r s rb op)).
Definition NAND (s : spu_thread) (op : Z) : outcome := put s rt op (v_not (r s ra op .& r s rb op)).
Definition AVGB (s : spu_thread) (op : Z) : outcome := put s rt op (mm_avg_epu8 (r s ra op) (r s rb op)).
Definition XOR (s : spu_thread) (op : Z) : outcome := put s rt op (r s ra op .^ r s rb op).
Definition EQV (s : spu_thread) (op : Z) : outcome := put s rt op (v_not (r s ra op .^ r s rb op)).
Definition ANDC (s : spu_thread) (op : Z) : outcome := put s rt op (gv_andn (r s rb op) (r s ra op)).
Definition ORC (s : spu_thread) (op : Z) : outcome := put s rt op (r s ra op .| v_not (r s rb op)).
Definition ORX (s : spu_thread) (op : Z) : outcome :=
  put s rt op (from32r (lane 32 0 (r s ra op) .| lane 32 1 (r s ra op) .|
                        lane 32 2 (r s ra op) .| lane 32 3 (r s ra op))).
Definition ADDX (s : spu_thread) (op : Z) : outcome :=
  put s rt op (gv_add32 (gv_add32 (r s ra op) (r s rb op)) (r s rt op .& from32p 1)).
Definition SFX (s : spu_thread) (op : Z) : outcome :=
  put s rt op (gv_sub32 (gv_sub32 (r s rb op) (r s ra op)) (gv_andn (r s rt op) (from32p 1))).
Definition CGX (s : spu_thread) (op : Z) : outcome :=
  Ret true (for_lanes 4 (fun i s =>
    let carry := lane 32 i (r s rt op) .& 1 in
    set_elem 32 s rt op i
      (Z.shiftr (u64 (carry + lane 32 i (r s ra op) + lane 32 i (r s rb op))) 32)) s).
Definition BGX (s : spu_thread) (op : Z) : outcome :=
  Ret true (for_lanes 4 (fun i s =>
    let result := s64 (lane 32 i (r s rb op) - lane 32 i (r s ra op) - (1 - (lane 32 i (r s rt op) .& 1))) in
    set_elem 32 s rt op i (b2z (0 <=? result))) s).
Definition SELB (s : spu_thread) (op : Z) : outcome :=
  put s rt4 op ((r s rc op .& r s rb op) .| gv_andn (r s rc op) (r s ra op)).

(** Immediate forms. *)
Definition IL (s : spu_thread) (op : Z) : outcome := put s rt op (mm_set1 32 (op_get si16 op)).
Definition ILHU (s : spu_thread) (op : Z) : outcome := put s rt op (mm_set1 32 (Z.shiftl (op_get i16 op) 16)).
Definition ILH (s : spu_thread) (op : Z) : outcome := put s rt op (mm_set1 16 (op_get i16 op)).
Definition IOHL (s : spu_thread) (op : Z) : outcome :=
  put s rt op (mm_or (r s rt op) (mm_set1 32 (op_get i16 op))).
Definition ILA (s : spu_thread) (op : Z) : outcome := put s rt op (mm_set1 32 (op_get i18 op)).
Definition ORI (s : spu_thread) (op : Z) : outcome :=
  put s rt op (mm_or (r s ra op) (mm_set1 32 (op_get si10 op))).
Definition ORHI (s : spu_thread) (op : Z) : outcome :=
  put s rt op (mm_or (r s ra op) (mm_set1 16 (op_get si10 op))).
Definition ORBI (s : spu_thread) (op : Z) : outcome :=
  put s rt op (mm_or (r s ra op) (mm_set1 8 (op_get i8 op))).
Definition SFI (s : spu_thread) (op : Z) : outcome :=
  put s rt op (mm_sub 32 (mm_set1 32 (op_get si10 op)) (r s ra op)).
Definition SFHI (s : spu_thread) (op : Z) : outcome :=
  put s rt op (mm_sub 16 (mm_set1 16 (op_get si10 op)) (r s ra op)).
Definition ANDI (s : spu_thread) (op : Z) : outcome :=
  put s rt op (mm_and (r s ra op) (mm_set1 32 (op_get si10 op))).
Definition ANDHI (s : spu_thread) (op : Z) : outcome :=
  put s rt op (mm_and (r s ra op) (mm_set1 16 (op_get si10 op))).
Definition ANDBI (s : spu_thread) (op : Z) : outcome :=
  put s rt op (mm_and (r s ra op) (mm_set1 8 (op_get i8 op))).
Definition AI (s : spu_thread) (op : Z) : outcome :=
  put s rt op (mm_add 32 (mm_set1 32 (op_get si10 op)) (r s ra op)).
Definition AHI (s : spu_thread) (op : Z) : outcome :=
  put s rt op (mm_add 16 (mm_set1 16 (op_get si10 op)) (r s ra op)).
Definition XORI (s : spu_thread) (op : Z) : outcome :=
  put s rt op (mm_xor (r s ra op) (mm_set1 32 (op_get si10 op))).
Definition XORHI (s : spu_thread) (op : Z) : outcome :=
  put s rt op (mm_xor (r s ra op) (mm_set1 16 (op_get si10 op))).
Definition XORBI (s : spu_thread) (op : Z) : outcome :=
  put s rt op (mm_xor (r s ra op) (mm_set1 8 (op_get i8 op))).

(** ** Shifts and rotates of words and halfwords *)

(** [std::rotl]: the count is an [int], reduced by the C++ remainder. *)
Definition std_rotl (w x s : Z) : Z :=
  let n := Z.rem (s32 s) w in
  if n =? 0 then x
  else if 0 <? n then wrap w (Z.shiftl x n) .| Z.shiftr x (w - n)
  else Z.shiftr x (- n) .| wrap w (Z.shiftl x (w - - n)).

Definition ROT (s : spu_thread) (op : Z) : outcome :=
  let a := r s ra op in
  let b := r s rb op in
  Ret true (for_lanes 4 (fun i s => set_elem 32 s rt op i (std_rotl 32 (lane 32 i a) (lane 32 i b))) s).
Definition ROTM (s : spu_thread) (op : Z) : outcome :=
  let a := r s ra op in
  let b := r s rb op in
  Ret true (for_lanes 4 (fun i s =>
    let value := lane 32 i a in
    set_elem 32 s rt op i (u32 (Z.shiftr value (u32 (0 - lane 32 i b) .& 0x3f)))) s).
Definition ROTMA (s : spu_thread) (op : Z) : outcome :=
  let a := r s ra op in
  let b := r s rb op in
  Ret true (for_lanes 4 (fun i s =>
    let value := s32 (lane 32 i a) in
    set_elem 32 s rt op i (s32 (Z.shiftr value (u32 (0 - lane 32 i b) .& 0x3f)))) s).
Definition SHL (s : spu_thread) (op : Z) : outcome :=
  let a := r s ra op in
  let b := r s rb op in
  Ret true (for_lanes 4 (fun i s =>
    let value := lane 32 i a in
    set_elem 32 s rt op i (u32 (u64 (Z.shiftl value (lane 32 i b .& 0x3f))))) s).
Definition ROTH (s : spu_thread) (op : Z) : outcome :=
  let a := r s ra op in
  let b := r s rb op in
  Ret true (for_lanes 8 (fun i s => set_elem 16 s rt op i (std_rotl 16 (lane 16 i a) (lane 16 i b))) s).
(** The halfwords promote to [int], so [0 - b._u16[i]] is negative. *)
Definition ROTHM (s : spu_thread) (op : Z) : outcome :=
  let a := r s ra op in
  let b := r s rb op in
  Ret true (for_lanes 8 (fun i s =>
    let value := lane 16 i a in
    set_elem 16 s rt op i (u16 (Z.shiftr value ((0 - lane 16 i b) .& 0x1f)))) s).
Definition ROTMAH (s : spu_thread) (op : Z) : outcome :=
  let a := r s ra op in
  let b := r s rb op in
  Ret true (for_lanes 8 (fun i s =>
    let value := s16 (lane 16 i a) in
    set_elem 16 s rt op i (s16 (Z.shiftr value ((0 - lane 16 i b) .& 0x1f)))) s).
Definition SHLH (s : spu_thread) (op : Z) : outcome :=
  let a := r s ra op in
  let b := r s rb op in
  Ret true (for_lanes 8 (fun i s =>
    let value := lane 16 i a in
    set_elem 16 s rt op i (u16 (u32 (Z.shiftl value (lane 16 i b .& 0x1f))))) s).
Definition ROTI (s : spu_thread) (op : Z) : outcome :=
  let a := r s ra op in
  let n := op_get i7 op .& 0x1f in
  put s rt op (mm_or (mm_slli 32 a n) (mm_srli 32 a (32 - n))).
Definition ROTMI (s : spu_thread) (op : Z) : outcome :=
  put s rt op (mm_srli 32 (r s ra op) (u32 (0 - op_get i7 op) .& 0x3f)).
Definition ROTMAI (s : spu_thread) (op : Z) : outcome :=
  put s rt op (mm_srai 32 (r s ra op) (u32 (0 - op_get i7 op) .& 0x3f)).
Definition SHLI (s : spu_thread) (op : Z) : outcome :=
  put s rt op (mm_slli 32 (r s ra op) (op_get i7 op .& 0x3f)).
Definition ROTHI (s : spu_thread) (op : Z) : outcome :=
  let a := r s ra op in
  let n := op_get i7 op .& 0xf in
  put s rt op (mm_or (mm_slli 16 a n) (mm_srli 16 a (16 - n))).
Definition ROTHMI (s : spu_thread) (op : Z) : outcome :=
  put s rt op (mm_srli 16 (r s ra op) (u32 (0 - op_get i7 op) .& 0x1f)).
Definition ROTMAHI (s : spu_thread) (op : Z) : outcome :=
  put s rt op (mm_srai 16 (r s ra op) (u32 (0 - op_get i7 op) .& 0x1f)).
Definition SHLHI (s : spu_thread) (op : Z) : outcome :=
  put s rt op (mm_slli 16 (r s ra op) (op_get i7 op .& 0x1f)).

(** ** Quadword shifts and rotates *)

Definition ROTQBYBI (s : spu_thread) (op : Z) : outcome :=
  let a := r s ra op in
  put s rt op (mm_loadu [a; a] (16 - (Z.shiftr (lane 32 3 (r s rb op)) 3 .& 0xf))).
Definition ROTQMBYBI (s : spu_thread) (op : Z) : outcome :=
  let a := r s ra op in
  put s rt op (mm_loadu [a; 0; 0] (u32 (0 - Z.shiftr (lane 32 3 (r s rb op)) 3) .& 0x1f)).
Definition SHLQBYBI (s : spu_thread) (op : Z) : outcome :=
  let a := r s ra op in
  put s rt op (mm_loadu [0; 0; a] (32 - (Z.shiftr (lane 32 3 (r s rb op)) 3 .& 0x1f))).
Definition ROTQBI (s : spu_thread) (op : Z) : outcome :=
  let a := r s ra op in
  let n := s32 (lane 32 3 (r s rb op)) .& 0x7 in
  put s rt op (mm_or (mm_slli 64 a n) (mm_srli 64 (mm_shuffle_epi32 a 0x4E) (64 - n))).
Definition ROTQMBI (s : spu_thread) (op : Z) : outcome :=
  let a := r s ra op in
  let n := - s32 (lane 32 3 (r s rb op)) .& 0x7 in
  put s rt op (mm_or (mm_srli 64 a n) (mm_slli 64 (mm_srli_si128 a 8) (64 - n))).
Definition SHLQBI (s : spu_thread) (op : Z) : outcome :=
  let a := r s ra op in
  let n := lane 32 3 (r s rb op) .& 0x7 in
  put s rt op (mm_or (mm_slli 64 a n) (mm_srli 64 (mm_slli_si128 a 8) (64 - n))).
Definition ROTQBY (s : spu_thread) (op : Z) : outcome :=
  let a := r s ra op in
  put s rt op (mm_loadu [a; a] (16 - (lane 32 3 (r s rb op) .& 0xf))).
Definition ROTQMBY (s : spu_thread) (op : Z) : outcome :=
  let a := r s ra op in
  put s rt op (mm_loadu [a; 0; 0] (u32 (0 - lane 32 3 (r s rb op)) .& 0x1f)).
Definition SHLQBY (s : spu_thread) (op : Z) : outcome :=
  let a := r s ra op in
  put s rt op (mm_loadu [0; 0; a] (32 - (lane 32 3 (r s rb op) .& 0x1f))).
Definition ROTQBII (s : spu_thread) (op : Z) : outcome :=
  let a := r s ra op in
  let n := op_get i7 op .& 0x7 in
  put s rt op (mm_or (mm_slli 64 a n) (mm_srli 64 (mm_shuffle_epi32 a 0x4E) (64 - n))).
Definition ROTQMBII (s : spu_thread) (op : Z) : outcome :=
  let a := r s ra op in
  let n := u32 (0 - op_get i7 op) .& 0x7 in
  put s rt op (mm_or (mm_srli 64 a n) (mm_slli 64 (mm_srli_si128 a 8) (64 - n))).
Definition SHLQBII (s : spu_thread) (op : Z) : outcome :=
  let a := r s ra op in
  let n := op_get i7 op .& 0x7 in
  put s rt op (mm_or (mm_slli 64 a n) (mm_srli 64 (mm_slli_si128 a 8) (64 - n))).
Definition ROTQBYI (s : spu_thread) (op : Z) : outcome :=
  let a := r s ra op in
  put s rt op (mm_loadu [a; a] (16 - (op_get i7 op .& 0xf))).
Definition ROTQMBYI (s : spu_thread) (op : Z) : outcome :=
  let a := r s ra op in
  put s rt op (mm_loadu [a; 0; 0] (u32 (0 - op_get i7 op) .& 0x1f)).
Definition SHLQBYI (s : spu_thread) (op : Z) : outcome :=
  let a := r s ra op in
  put s rt op (mm_loadu [0; 0; a] (32 - (op_get i7 op .& 0x1f))).

(** ** Multiplication *)

Definition MPYHHU (s : spu_thread) (op : Z) : outcome :=
  let a := r s ra op in
  let b := r s rb op in
  put s rt op (mm_or (mm_srli 32 (mm_mullo_epi16 a b) 16)
                     (mm_and (mm_mulhi_epu16 a b) (mm_set1 32 0xffff0000))).
Definition MPYHHA (s : spu_thread) (op : Z) : outcome :=
  put s rt op (mm_add 32 (r s rt op) (mm_madd_epi16 (mm_srli 32 (r s ra op) 16) (mm_srli 32 (r s rb op) 16))).
Definition MPYHHAU (s : spu_thread) (op : Z) : outcome :=
  let a := r s ra op in
  let b := r s rb op in
  put s rt op (mm_add 32 (r s rt op)
    (mm_or (mm_srli 32 (mm_mullo_epi16 a b) 16) (mm_and (mm_mulhi_epu16 a b) (mm_set1 32 0xffff0000)))).
Definition MPY (s : spu_thread) (op : Z) : outcome :=
  let mask := mm_set1 32 0xffff in
  put s rt op (mm_madd_epi16 (mm_and (r s ra op) mask) (mm_and (r s rb op) mask)).
Definition MPYH (s : spu_thread) (op : Z) : outcome :=
  put s rt op (mm_slli 32 (mm_mullo_epi16 (mm_srli 32 (r s ra op) 16) (r s rb op)) 16).
Definition MPYHH (s : spu_thread) (op : Z) : outcome :=
  put s rt op (mm_madd_epi16 (mm_srli 32 (r s ra op) 16) (mm_srli 32 (r s rb op) 16)).
Definition MPYS (s : spu_thread) (op : Z) : outcome :=
  put s rt op (mm_srai 32 (mm_slli 32 (mm_mulhi_epi16 (r s ra op) (r s rb op)) 16) 16).
Definition MPYU (s : spu_thread) (op : Z) : outcome :=
  let a := r s ra op in
  let b := r s rb op in
  put s rt op (mm_or (mm_slli 32 (mm_mulhi_epu16 a b) 16)
                     (mm_and (mm_mullo_epi16 a b) (mm_set1 32 0xffff))).
Definition MPYI (s : spu_thread) (op : Z) : outcome :=
  put s rt op (mm_madd_epi16 (r s ra op) (mm_set1 32 (op_get si10 op .& 0xffff))).
Definition MPYUI (s : spu_thread) (op : Z) : outcome :=
  let a := r s ra op in
  let i := mm_set1 32 (op_get si10 op .& 0xffff) in
  put s rt op (mm_or (mm_slli 32 (mm_mulhi_epu16 a i) 16) (mm_mullo_epi16 a i)).
Definition MPYA (s : spu_thread) (op : Z) : outcome :=
  let mask := mm_set1 32 0xffff in
  put s rt4 op (mm_add 32 (r s rc op) (mm_madd_epi16 (mm_and (r s ra op) mask) (mm_and (r s rb op) mask))).

(** ** Counting, extension, bytes, masks *)

Definition CLZ (s : spu_thread) (op : Z) : outcome :=
  Ret true (for_lanes 4 (fun i s =>
    set_elem 32 s rt op i (countl_zero 32 (lane 32 i (r s ra op)))) s).
Definition XSWD (s : spu_thread) (op : Z) : outcome :=
  let s := set_elem 64 s rt op 0 (s32 (lane 32 0 (r s ra op))) in
  let s := set_elem 64 s rt op 1 (s32 (lane 32 2 (r s ra op))) in
  Ret true s.
Definition XSHW (s : spu_thread) (op : Z) : outcome :=
  put s rt op (mm_srai 32 (mm_slli 32 (r s ra op) 16) 16).
Definition XSBH (s : spu_thread) (op : Z) : outcome :=
  put s rt op (mm_srai 16 (mm_slli 16 (r s ra op) 8) 8).
Definition CNTB (s : spu_thread) (op : Z) : outcome :=
  let a := r s ra op in
  let mask1 := mm_set1 8 0x55 in
  let sum1 := mm_add 8 (mm_and (mm_srli 64 a 1) mask1) (mm_and a mask1) in
  let mask2 := mm_set1 8 0x33 in
  let sum2 := mm_add 8 (mm_and (mm_srli 64 sum1 2) mask2) (mm_and sum1 mask2) in
  let mask3 := mm_set1 8 0x0f in
  let sum3 := mm_add 8 (mm_and (mm_srli 64 sum2 4) mask3) (mm_and sum2 mask3) in
  put s rt op sum3.
Definition SUMB (s : spu_thread) (op : Z) : outcome :=
  let m1 := mm_set1 16 0xff in
  let m2 := mm_set1 32 0xffff in
  let a := r s ra op in
  let b := r s rb op in
  let a1 := mm_srli 16 a 8 in
  let a2 := mm_and a m1 in
  let b1 := mm_srli 16 b 8 in
  let b2 := mm_and b m1 in
  let sa := mm_add 16 a1 a2 in
  let sb := mm_add 16 b1 b2 in
  let s2 := mm_and sa m2 in
  let s1 := mm_srli 32 sa 16 in
  let s4 := mm_andnot m2 sb in
  let s3 := mm_slli 32 sb 16 in
  put s rt op (mm_or (mm_add 16 s1 s2) (mm_add 16 s3 s4)).
Definition GB (s : spu_thread) (op : Z) : outcome :=
  put s rt op (from32r (movemask 32 (mm_slli 32 (r s ra op) 31))).
Definition GBH (s : spu_thread) (op : Z) : outcome :=
  put s rt op (from32r (movemask 8 (mm_packs_epi16 (mm_slli 16 (r s ra op) 15) 0))).
Definition GBB (s : spu_thread) (op : Z) : outcome :=
  put s rt op (from32r (movemask 8 (mm_slli 64 (r s ra op) 7))).
Definition FSM (s : spu_thread) (op : Z) : outcome :=
  let bits := mm_shuffle_epi32 (r s ra op) 0xff in
  let mask := mm_set 32 [8; 4; 2; 1] in
  put s rt op (mm_cmpeq 32 (mm_and bits mask) mask).
Definition FSMH (s : spu_thread) (op : Z) : outcome :=
  let vsrc := r s ra op in
  let bits := mm_shuffle_epi32 (mm_unpackhi 16 vsrc vsrc) 0xaa in
  let mask := mm_set 16 [128; 64; 32; 16; 8; 4; 2; 1] in
  put s rt op (mm_cmpeq 16 (mm_and bits mask) mask).
Definition FSMB (s : spu_thread) (op : Z) : outcome :=
  let vsrc := r s ra op in
  let bits := mm_shuffle_epi32 (mm_shufflehi_epi16 (mm_unpackhi 8 vsrc vsrc) 0x50) 0xfa in
  let mask := mm_set 8 [-128; 64; 32; 16; 8; 4; 2; 1; -128; 64; 32; 16; 8; 4; 2; 1] in
  put s rt op (mm_cmpeq 8 (mm_and bits mask) mask).
Definition FSMBI (s : spu_thread) (op : Z) : outcome :=
  let vsrc := mm_set 32 [0; 0; 0; op_get i16 op] in
  let bits := mm_shuffle_epi32 (mm_shufflelo_epi16 (mm_unpacklo 8 vsrc vsrc) 0x50) 0x50 in
  let mask := mm_set 8 [-128; 64; 32; 16; 8; 4; 2; 1; -128; 64; 32; 16; 8; 4; 2; 1] in
  put s rt op (mm_cmpeq 8 (mm_and bits mask) mask).

(** ** Comparisons *)

Definition CGT (s : spu_thread) (op : Z) : outcome := put s rt op (mm_cmpgt 32 (r s ra op) (r s rb op)).
Definition CGTH (s : spu_thread) (op : Z) : outcome := put s rt op (mm_cmpgt 16 (r s ra op) (r s rb op)).
Definition CGTB (s : spu_thread) (op : Z) : outcome := put s rt op (mm_cmpgt 8 (r s ra op) (r s rb op)).
Definition CLGT (sse41 : bool) (s : spu_thread) (op : Z) : outcome :=
  put s rt op (gv_gtu32 sse41 (r s ra op) (r s rb op)).
Definition CLGTH (sse41 : bool) (s : spu_thread) (op : Z) : outcome :=
  put s rt op (gv_gtu16 sse41 (r s ra op) (r s rb op)).
Definition CLGTB (s : spu_thread) (op : Z) : outcome := put s rt op (gv_gtu8 (r s ra op) (r s rb op)).
Definition CEQ (s : spu_thread) (op : Z) : outcome := put s rt op (mm_cmpeq 32 (r s ra op) (r s rb op)).
Definition CEQH (s : spu_thread) (op : Z) : outcome := put s rt op (mm_cmpeq 16 (r s ra op) (r s rb op)).
Definition CEQB (s : spu_thread) (op : Z) : outcome := put s rt op (mm_cmpeq 8 (r s ra op) (r s rb op)).
Definition CGTI (s : spu_thread) (op : Z) : outcome :=
  put s rt op (mm_cmpgt 32 (r s ra op) (mm_set1 32 (op_get si10 op))).
Definition CGTHI (s : spu_thread) (op : Z) : outcome :=
  put s rt op (mm_cmpgt 16 (r s ra op) (mm_set1 16 (op_get si10 op))).
Definition CGTBI (s : spu_thread) (op : Z) : outcome :=
  put s rt op (mm_cmpgt 8 (r s ra op) (mm_set1 8 (op_get i8 op))).
Definition CLGTI (s : spu_thread) (op : Z) : outcome :=
  put s rt op (mm_cmpgt 32 (mm_xor (r s ra op) (mm_set1 32 0x80000000))
                           (mm_set1 32 (u32 (op_get si10 op) .^ 0x80000000))).
Definition CLGTHI (s : spu_thread) (op : Z) : outcome :=
  put s rt op (mm_cmpgt 16 (mm_xor (r s ra op) (mm_set1 32 0x80008000))
                           (mm_set1 16 (op_get si10 op .^ 0x8000))).
Definition CLGTBI (s : spu_thread) (op : Z) : outcome :=
  put s rt op (mm_cmpgt 8 (mm_xor (r s ra op) (mm_set1 32 0x80808080))
                          (mm_set1 8 (op_get i8 op .^ 0x80))).
Definition CEQI (s : spu_thread) (op : Z) : outcome :=
  put s rt op (mm_cmpeq 32 (r s ra op) (mm_set1 32 (op_get si10 op))).
Definition CEQHI (s : spu_thread) (op : Z) : outcome :=
  put s rt op (mm_cmpeq 16 (r s ra op) (mm_set1 16 (op_get si10 op))).
Definition CEQBI (s : spu_thread) (op : Z) : outcome :=
  put s rt op (mm_cmpeq 8 (r s ra op) (mm_set1 8 (op_get i8 op))).

(** Conditional halts: [halt] escapes from the handler. *)
Definition halt_if (c : bool) (s : spu_thread) : outcome := if c then Halt s else Ret true s.
Definition HGT (s : spu_thread) (op : Z) : outcome :=
  halt_if (s32 (lane 32 3 (r s rb op)) <? s32 (lane 32 3 (r s ra op))) s.
Definition HLGT (s : spu_thread) (op : Z) : outcome :=
  halt_if (lane 32 3 (r s rb op) <? lane 32 3 (r s ra op)) s.
Definition HEQ (s : spu_thread) (op : Z) : outcome :=
  halt_if (s32 (lane 32 3 (r s ra op)) =? s32 (lane 32 3 (r s rb op))) s.
Definition HGTI (s : spu_thread) (op : Z) : outcome :=
  halt_if (op_get si10 op <? s32 (lane 32 3 (r s ra op))) s.
Definition HLGTI (s : spu_thread) (op : Z) : outcome :=
  halt_if (u32 (op_get si10 op) <? lane 32 3 (r s ra op)) s.
Definition HEQI (s : spu_thread) (op : Z) : outcome :=
  halt_if (s32 (lane 32 3 (r s ra op)) =? op_get si10 op) s.

(** ** Shuffle *)

Definition SHUFB (s : spu_thread) (op : Z) : outcome :=
  let ab := pack_lanes 128 [r s rb op; r s ra op] in
  let c := r s rc op in
  let x := mm_andnot c (mm_set1 8 0x1f) in
  let res := foldl (fun res i => set_lane 8 i (lane 8 (lane 8 i x) ab) res) 0 (seqZ 0 16) in
  let xc0 := mm_set1 8 0xc0 in
  let xe0 := mm_set1 8 0xe0 in
  let cmp0 := mm_cmpgt 8 0 c in
  let cmp1 := mm_cmpeq 8 (mm_and c xc0) xc0 in
  let cmp2 := mm_cmpeq 8 (mm_and c xe0) xc0 in
  put s rt4 op (mm_or (mm_andnot cmp0 res) (mm_avg_epu8 cmp1 cmp2)).

(** The function emitted by [optimized_shufb].  [gpr_offset] is the byte offset [eax] into [gpr] computed by
    [build_spu_gpr_load] and [build_spu_gpr_store] for the field at bit [i]; [x0f], [xc0] and [xe0] are
    the emitted constants. *)
Definition gpr_offset (i op : Z) : Z :=
  if 4 <=? i then Z.shiftr op (i - 4) .& u32 (Z.shiftl 0x7f 4)
  else u32 (Z.shiftl (op .& 0x7f) (i + 4)).
Definition gpr_load (s : spu_thread) (i op : Z) : Z := get (gpr s) (gpr_offset i op / 16).
Definition gpr_store (s : spu_thread) (i op v : Z) : spu_thread :=
  with_gpr s (set (gpr s) (gpr_offset i op / 16) v).

Definition x0f : Z := from64 0x0f0f0f0f0f0f0f0f 0x0f0f0f0f0f0f0f0f.
Definition xc0 : Z := from64 0xc0c0c0c0c0c0c0c0 0xc0c0c0c0c0c0c0c0.
Definition xe0 : Z := from64 0xe0e0e0e0e0e0e0e0 0xe0e0e0e0e0e0e0e0.

Definition shufb_avx (va vb vc : Z) : Z :=
  let v5 := mm_and vc xe0 in
  let vc := mm_xor vc x0f in
  let va := mm_shuffle_epi8 va vc in
  let vt := mm_slli 32 vc 3 in
  let vm := xc0 in
  let v5 := mm_cmpeq 8 v5 vm in
  let vb := mm_shuffle_epi8 vb vc in
  let vc := mm_and vc vm in
  let vb := mm_blendv_epi8 va vb vt in
  let vt := mm_cmpeq 8 vc vm in
  let vt := mm_avg_epu8 vt v5 in
  let vt := mm_or vt vb in
  vt.

Definition shufb_sse (va vb vc : Z) : Z :=
  let v5 := vc in
  let v5 := mm_and v5 xe0 in
  let vt := vc in
  let vm := xc0 in
  let vt := mm_and vt vm in
  let vc := mm_xor vc x0f in
  let va := mm_shuffle_epi8 va vc in
  let vb := mm_shuffle_epi8 vb vc in
  let vc := mm_slli 32 vc 3 in
  let v5 := mm_cmpeq 8 v5 vm in
  let vt := mm_cmpeq 8 vt vm in
  let vm := mm_cmpeq 8 vm vm in
  let vc := mm_cmpgt 8 vc vm in
  let va := mm_and va vc in
  let vc := mm_andnot vc vb in
  let vc := mm_or vc va in
  let vt := mm_avg_epu8 vt v5 in
  let vt := mm_or vt vc in
  vt.

Definition optimized_shufb (has_avx : bool) (s : spu_thread) (op : Z) : outcome :=
  let va := gpr_load s 7 op in
  let vb := gpr_load s 14 op in
  let vc := gpr_load s 0 op in
  let vt := if has_avx then shufb_avx va vb vc else shufb_sse va vb vc in
  Ret true (gpr_store s 21 op vt).

(** ** Insertion masks *)

(** The guard the eight handlers start with. *)
Definition bad_sp (s : spu_thread) (op : Z) : bool :=
  (op_get ra op =? 1) && negb (lane 32 3 (get (gpr s) 1) .& 0xf =? 0).
Definition insert_base : Z := from64 0x18191A1B1C1D1E1F 0x1011121314151617.

Definition CBX (s : spu_thread) (op : Z) : outcome :=
  if bad_sp s op then Throw s else
  let t := bnot 32 (u32 (lane 32 3 (r s rb op) + lane 32 3 (r s ra op))) .& 0xf in
  Ret true (set_elem 8 (set_r s rt op insert_base) rt op t 0x03).
Definition CHX (s : spu_thread) (op : Z) : outcome :=
  if bad_sp s op then Throw s else
  let t := Z.shiftr (bnot 32 (u32 (lane 32 3 (r s rb op) + lane 32 3 (r s ra op))) .& 0xe) 1 in
  Ret true (set_elem 16 (set_r s rt op insert_base) rt op t 0x0203).
Definition CWX (s : spu_thread) (op : Z) : outcome :=
  if bad_sp s op then Throw s else
  let t := Z.shiftr (bnot 32 (u32 (lane 32 3 (r s rb op) + lane 32 3 (r s ra op))) .& 0xc) 2 in
  Ret true (set_elem 32 (set_r s rt op insert_base) rt op t 0x00010203).
Definition CDX (s : spu_thread) (op : Z) : outcome :=
  if bad_sp s op then Throw s else
  let t := Z.shiftr (bnot 32 (u32 (lane 32 3 (r s rb op) + lane 32 3 (r s ra op))) .& 0x8) 3 in
  Ret true (set_elem 64 (set_r s rt op insert_base) rt op t 0x0001020304050607).
Definition CBD (s : spu_thread) (op : Z) : outcome :=
  if bad_sp s op then Throw s else
  let t := bnot 32 (u32 (op_get i7 op + lane 32 3 (r s ra op))) .& 0xf in
  Ret true (set_elem 8 (set_r s rt op insert_base) rt op t 0x03).
Definition CHD (s : spu_thread) (op : Z) : outcome :=
  if bad_sp s op then Throw s else
  let t := Z.shiftr (bnot 32 (u32 (op_get i7 op + lane 32 3 (r s ra op))) .& 0xe) 1 in
  Ret true (set_elem 16 (set_r s rt op insert_base) rt op t 0x0203).
Definition CWD (s : spu_thread) (op : Z) : outcome :=
  if bad_sp s op then Throw s else
  let t := Z.shiftr (bnot 32 (u32 (op_get i7 op + lane 32 3 (r s ra op))) .& 0xc) 2 in
  Ret true (set_elem 32 (set_r s rt op insert_base) rt op t 0x00010203).
Definition CDD (s : spu_thread) (op : Z) : outcome :=
  if bad_sp s op then Throw s else
  let t := Z.shiftr (bnot 32 (u32 (op_get i7 op + lane 32 3 (r s ra op))) .& 0x8) 3 in
  Ret true (set_elem 64 (set_r s rt op insert_base) rt op t 0x0001020304050607).

(** ** Loads and stores *)

Definition STQX (s : spu_thread) (op : Z) : outcome :=
  Ret true (set_ref_v128 s (u32 (lane 32 3 (r s ra op) + lane 32 3 (r s rb op)) .& 0x3fff0) (r s rt op)).
Definition LQX (s : spu_thread) (op : Z) : outcome :=
  put s rt op (ref_v128 s (u32 (lane 32 3 (r s ra op) + lane 32 3 (r s rb op)) .& 0x3fff0)).
Definition STQA (s : spu_thread) (op : Z) : outcome :=
  Ret true (set_ref_v128 s (spu_ls_target 0 (op_get i16 op)) (r s rt op)).
Definition LQA (s : spu_thread) (op : Z) : outcome :=
  put s rt op (ref_v128 s (spu_ls_target 0 (op_get i16 op))).
Definition STQR (s : spu_thread) (op : Z) : outcome :=
  Ret true (set_ref_v128 s (spu_ls_target (pc s) (op_get i16 op)) (r s rt op)).
Definition LQR (s : spu_thread) (op : Z) : outcome :=
  put s rt op (ref_v128 s (spu_ls_target (pc s) (op_get i16 op))).
(** Signed sums; the mask keeps bits that do not depend on overflow. *)
Definition STQD (s : spu_thread) (op : Z) : outcome :=
  Ret true (set_ref_v128 s ((s32 (lane 32 3 (r s ra op)) + op_get si10 op * 16) .& 0x3fff0) (r s rt op)).
Definition LQD (s : spu_thread) (op : Z) : outcome :=
  put s rt op (ref_v128 s ((s32 (lane 32 3 (r s ra op)) + op_get si10 op * 16) .& 0x3fff0)).

(** ** Branches *)

Definition BIZ (s : spu_thread) (op : Z) : outcome :=
  if lane 32 3 (r s rt op) =? 0 then
    set_interrupt_status (with_pc s (spu_branch_target (lane 32 3 (r s ra op)) 0)) op
  else Ret true s.
Definition BINZ (s : spu_thread) (op : Z) : outcome :=
  if negb (lane 32 3 (r s rt op) =? 0) then
    set_interrupt_status (with_pc s (spu_branch_target (lane 32 3 (r s ra op)) 0)) op
  else Ret true s.
Definition BIHZ (s : spu_thread) (op : Z) : outcome :=
  if lane 16 6 (r s rt op) =? 0 then
    set_interrupt_status (with_pc s (spu_branch_target (lane 32 3 (r s ra op)) 0)) op
  else Ret true s.
Definition BIHNZ (s : spu_thread) (op : Z) : outcome :=
  if negb (lane 16 6 (r s rt op) =? 0) then
    set_interrupt_status (with_pc s (spu_branch_target (lane 32 3 (r s ra op)) 0)) op
  else Ret true s.
Definition BI (s : spu_thread) (op : Z) : outcome :=
  set_interrupt_status (with_pc s (spu_branch_target (lane 32 3 (r s ra op)) 0)) op.
Definition BISL (s : spu_thread) (op : Z) : outcome :=
  let target := spu_branch_target (lane 32 3 (r s ra op)) 0 in
  let s := set_r s rt op (from32r (spu_branch_target (u32 (pc s + 4)) 0)) in
  set_interrupt_status (with_pc s target) op.
Definition IRET (s : spu_thread) (op : Z) : outcome := set_interrupt_status (with_pc s (srr0 s)) op.
Definition BRZ (s : spu_thread) (op : Z) : outcome :=
  if lane 32 3 (r s rt op) =? 0 then Ret false (with_pc s (spu_branch_target (pc s) (op_get i16 op)))
  else Ret true s.
Definition BRNZ (s : spu_thread) (op : Z) : outcome :=
  if negb (lane 32 3 (r s rt op) =? 0) then Ret false (with_pc s (spu_branch_target (pc s) (op_get i16 op)))
  else Ret true s.
Definition BRHZ (s : spu_thread) (op : Z) : outcome :=
  if lane 16 6 (r s rt op) =? 0 then Ret false (with_pc s (spu_branch_target (pc s) (op_get i16 op)))
  else Ret true s.
Definition BRHNZ (s : spu_thread) (op : Z) : outcome :=
  if negb (lane 16 6 (r s rt op) =? 0) then Ret false (with_pc s (spu_branch_target (pc s) (op_get i16 op)))
  else Ret true s.
Definition BRA (s : spu_thread) (op : Z) : outcome :=
  Ret false (with_pc s (spu_branch_target 0 (op_get i16 op))).
Definition BRASL (s : spu_thread) (op : Z) : outcome :=
  let target := spu_branch_target 0 (op_get i16 op) in
  let s := set_r s rt op (from32r (spu_branch_target (u32 (pc s + 4)) 0)) in
  Ret false (with_pc s target).
Definition BR (s : spu_thread) (op : Z) : outcome :=
  Ret false (with_pc s (spu_branch_target (pc s) (op_get i16 op))).
Definition BRSL (s : spu_thread) (op : Z) : outcome :=
  let target := spu_branch_target (pc s) (op_get i16 op) in
  let s := set_r s rt op (from32r (spu_branch_target (u32 (pc s + 4)) 0)) in
  Ret false (with_pc s target).

(** ** Dispatch and the loop *)

(** [spu_interpreter_rt]: the handler each entry of the decoder points to. *)
Definition interp (sse41 : bool) (i : itype) (s : spu_thread) (op : Z) : outcome :=
  match i with
  | SpuOp.UNK => UNK s op
  | SpuOp.LNOP => LNOP s op
  | SpuOp.SYNC => SYNC s op
  | SpuOp.DSYNC => DSYNC s op
  | SpuOp.MFSPR => MFSPR s op
  | SpuOp.SF => SF s op
  | SpuOp.OR => OR s op
  | SpuOp.BG => BG sse41 s op
  | SpuOp.SFH => SFH s op
  | SpuOp.NOR => NOR s op
  | SpuOp.ABSDB => ABSDB s op
  | SpuOp.ROT => ROT s op
  | SpuOp.ROTM => ROTM s op
  | SpuOp.ROTMA => ROTMA s op
  | SpuOp.SHL => SHL s op
  | SpuOp.ROTH => ROTH s op
  | SpuOp.ROTHM => ROTHM s op
  | SpuOp.ROTMAH => ROTMAH s op
  | SpuOp.SHLH => SHLH s op
  | SpuOp.ROTI => ROTI s op
  | SpuOp.ROTMI => ROTMI s op
  | SpuOp.ROTMAI => ROTMAI s op
  | SpuOp.SHLI => SHLI s op
  | SpuOp.ROTHI => ROTHI s op
  | SpuOp.ROTHMI => ROTHMI s op
  | SpuOp.ROTMAHI => ROTMAHI s op
  | SpuOp.SHLHI => SHLHI s op
  | SpuOp.A => A s op
  | SpuOp.AND => AND s op
  | SpuOp.CG => CG s op
  | SpuOp.AH => AH s op
  | SpuOp.NAND => NAND s op
  | SpuOp.AVGB => AVGB s op
  | SpuOp.MTSPR => MTSPR s op
  | SpuOp.BIZ => BIZ s op
  | SpuOp.BINZ => BINZ s op
  | SpuOp.BIHZ => BIHZ s op
  | SpuOp.BIHNZ => BIHNZ s op
  | SpuOp.STQX => STQX s op
  | SpuOp.BI => BI s op
  | SpuOp.BISL => BISL s op
  | SpuOp.IRET => IRET s op
  | SpuOp.HBR => HBR s op
  | SpuOp.GB => GB s op
  | SpuOp.GBH => GBH s op
  | SpuOp.GBB => GBB s op
  | SpuOp.FSM => FSM s op
  | SpuOp.FSMH => FSMH s op
  | SpuOp.FSMB => FSMB s op
  | SpuOp.LQX => LQX s op
  | SpuOp.ROTQBYBI => ROTQBYBI s op
  | SpuOp.ROTQMBYBI => ROTQMBYBI s op
  | SpuOp.SHLQBYBI => SHLQBYBI s op
  | SpuOp.CBX => CBX s op
  | SpuOp.CHX => CHX s op
  | SpuOp.CWX => CWX s op
  | SpuOp.CDX => CDX s op
  | SpuOp.ROTQBI => ROTQBI s op
  | SpuOp.ROTQMBI => ROTQMBI s op
  | SpuOp.SHLQBI => SHLQBI s op
  | SpuOp.ROTQBY => ROTQBY s op
  | SpuOp.ROTQMBY => ROTQMBY s op
  | SpuOp.SHLQBY => SHLQBY s op
  | SpuOp.ORX => ORX s op
  | SpuOp.CBD => CBD s op
  | SpuOp.CHD => CHD s op
  | SpuOp.CWD => CWD s op
  | SpuOp.CDD => CDD s op
  | SpuOp.ROTQBII => ROTQBII s op
  | SpuOp.ROTQMBII => ROTQMBII s op
  | SpuOp.SHLQBII => SHLQBII s op
  | SpuOp.ROTQBYI => ROTQBYI s op
  | SpuOp.ROTQMBYI => ROTQMBYI s op
  | SpuOp.SHLQBYI => SHLQBYI s op
  | SpuOp.NOP => NOP s op
  | SpuOp.CGT => CGT s op
  | SpuOp.XOR => XOR s op
  | SpuOp.CGTH => CGTH s op
  | SpuOp.EQV => EQV s op
  | SpuOp.CGTB => CGTB s op
  | SpuOp.SUMB => SUMB s op
  | SpuOp.HGT => HGT s op
  | SpuOp.CLZ => CLZ s op
  | SpuOp.XSWD => XSWD s op
  | SpuOp.XSHW => XSHW s op
  | SpuOp.CNTB => CNTB s op
  | SpuOp.XSBH => XSBH s op
  | SpuOp.CLGT => CLGT sse41 s op
  | SpuOp.ANDC => ANDC s op
  | SpuOp.DFCGT => DFCGT s op
  | SpuOp.CLGTH => CLGTH sse41 s op
  | SpuOp.ORC => ORC s op
  | SpuOp.DFCMGT => DFCMGT s op
  | SpuOp.CLGTB => CLGTB s op
  | SpuOp.HLGT => HLGT s op
  | SpuOp.CEQ => CEQ s op
  | SpuOp.MPYHHU => MPYHHU s op
  | SpuOp.ADDX => ADDX s op
  | SpuOp.SFX => SFX s op
  | SpuOp.CGX => CGX s op
  | SpuOp.BGX => BGX s op
  | SpuOp.MPYHHA => MPYHHA s op
  | SpuOp.MPYHHAU => MPYHHAU s op
  | SpuOp.FSCRRD => FSCRRD s op
  | SpuOp.FSCRWR => FSCRWR s op
  | SpuOp.DFTSV => DFTSV s op
  | SpuOp.DFCEQ => DFCEQ s op
  | SpuOp.MPY => MPY s op
  | SpuOp.MPYH => MPYH s op
  | SpuOp.MPYHH => MPYHH s op
  | SpuOp.MPYS => MPYS s op
  | SpuOp.CEQH => CEQH s op
  | SpuOp.DFCMEQ => DFCMEQ s op
  | SpuOp.MPYU => MPYU s op
  | SpuOp.CEQB => CEQB s op
  | SpuOp.HEQ => HEQ s op
  | SpuOp.BRZ => BRZ s op
  | SpuOp.STQA => STQA s op
  | SpuOp.BRNZ => BRNZ s op
  | SpuOp.BRHZ => BRHZ s op
  | SpuOp.BRHNZ => BRHNZ s op
  | SpuOp.STQR => STQR s op
  | SpuOp.BRA => BRA s op
  | SpuOp.LQA => LQA s op
  | SpuOp.BRASL => BRASL s op
  | SpuOp.BR => BR s op
  | SpuOp.FSMBI => FSMBI s op
  | SpuOp.BRSL => BRSL s op
  | SpuOp.LQR => LQR s op
  | SpuOp.IL => IL s op
  | SpuOp.ILHU => ILHU s op
  | SpuOp.ILH => ILH s op
  | SpuOp.IOHL => IOHL s op
  | SpuOp.ORI => ORI s op
  | SpuOp.ORHI => ORHI s op
  | SpuOp.ORBI => ORBI s op
  | SpuOp.SFI => SFI s op
  | SpuOp.SFHI => SFHI s op
  | SpuOp.ANDI => ANDI s op
  | SpuOp.ANDHI => ANDHI s op
  | SpuOp.ANDBI => ANDBI s op
  | SpuOp.AI => AI s op
  | SpuOp.AHI => AHI s op
  | SpuOp.STQD => STQD s op
  | SpuOp.LQD => LQD s op
  | SpuOp.XORI => XORI s op
  | SpuOp.XORHI => XORHI s op
  | SpuOp.XORBI => XORBI s op
  | SpuOp.CGTI => CGTI s op
  | SpuOp.CGTHI => CGTHI s op
  | SpuOp.CGTBI => CGTBI s op
  | SpuOp.HGTI => HGTI s op
  | SpuOp.CLGTI => CLGTI s op
  | SpuOp.CLGTHI => CLGTHI s op
  | SpuOp.CLGTBI => CLGTBI s op
  | SpuOp.HLGTI => HLGTI s op
  | SpuOp.MPYI => MPYI s op
  | SpuOp.MPYUI => MPYUI s op
  | SpuOp.CEQI => CEQI s op
  | SpuOp.CEQHI => CEQHI s op
  | SpuOp.CEQBI => CEQBI s op
  | SpuOp.HEQI => HEQI s op
  | SpuOp.HBRA => HBRA s op
  | SpuOp.HBRR => HBRR s op
  | SpuOp.ILA => ILA s op
  | SpuOp.SELB => SELB s op
  | SpuOp.SHUFB => SHUFB s op
  | SpuOp.MPYA => MPYA s op
  | _ => Unmodelled i s
  end.

(** [base + pc]: local storage is mapped five times in a row, [ls] pointing to the third copy, so that reads
    past its end wrap around up to twice. *)
Definition fetch (s : spu_thread) : option Z :=
  if pc s + 4 <=? 3 * SPU_LS_SIZE then
    Some (pack_lanes 8 ((fun k => ls s ((pc s + k) mod SPU_LS_SIZE)) <$> [3; 2; 1; 0]))
  else None.

(** One iteration of the loop of [spu_recompiler_base::old_interpreter]. *)
Definition iteration (sse41 : bool) (s : spu_thread) : outcome :=
  if negb (state s =? 0) then Check_state s
  else match fetch s with
       | None => Fault s
       | Some op =>
           match interp sse41 (decode op) s op with
           | Ret true s => Ret true (with_pc s (u32 (pc s + 4)))
           | o => o
           end
       end.

(** [n] iterations, or fewer when the loop is left. *)
Fixpoint iterations (sse41 : bool) (n : nat) (s : spu_thread) : outcome :=
  match n with
  | O => Ret true s
  | S n =>
      match iteration sse41 s with
      | Ret _ s => iterations sse41 n s
      | o => o
      end
  end.

Definition old_interpreter (sse41 : bool) (n : nat) (s : spu_thread) : outcome :=
  match spu_decoder s with
  | _static => iterations sse41 n s
  | _ => Throw s
  end.

End Spu.
Import Spu.
