(* ===== verification/SpuWf.v ===== *)
(** Well-formed SPU threads.

    [wf] says that every register, memory byte and counter of a [spu_thread] is a value of its C++ type, that
    there are 128 registers, and that the program counter and the saved one are multiples of 4; [spu_wf]
    shows that no instruction word, whatever its fields, takes a thread out of it.  The lemmas on
    [for_lanes] relate the loops that write [gpr[op.rt]] lane by lane to an assignment of the whole
    register. *)

From Stdlib Require Import ZArith Lia Bool.
From stdpp Require Import base tactics option list numbers.
From S2P Require Import Prelude BitField Simd SpuOpcodes SpuInterp.
Import BitField Simd SpuOp Spu.
Local Open Scope Z_scope.
Local Open Scope word_scope.

Module SpuWf.

Record wf (s : spu_thread) : Prop := Wf {
  wf_gpr_len : length (gpr s) = 128%nat;
  wf_gpr : Forall (in_u 128) (gpr s);
  wf_pc : in_u 32 (pc s) /\ pc s mod 4 = 0;
  wf_ls : forall k, in_u 8 (ls s k);
  wf_srr0 : in_u 32 (srr0 s) /\ srr0 s mod 4 = 0;
  wf_events : in_u 64 (ch_events s);
  wf_state : in_u 32 (state s)
}.

Definition state_of (o : outcome) : spu_thread :=
  match o with
  | Ret _ s | Throw s | Halt s | Do_mfc s | Check_state s | Fault s | Unmodelled _ s => s
  end.

(** Local storage that starts with the words [ws], and a thread about to execute it. *)
Definition ls_of_words (ws : list Z) (k : Z) : Z := lane 8 (3 - k mod 4) (get ws (k / 4)).
Definition spu_init (m : Z -> Z) : spu_thread :=
  Spu_thread (replicate 128 0) 0 m 0 false 0 0 _static.

(** The same with the registers of [regs] set. *)
Definition spu_start (ws : list Z) (regs : list (Z * Z)) : spu_thread :=
  foldl (fun s '(k, v) => with_gpr s (set (gpr s) k v)) (spu_init (ls_of_words ws)) regs.

End SpuWf.
Import SpuWf.

Create HintDb spu discriminated.

(** ** Values *)

Lemma pack_in_128 w l : 0 < w -> w * Z.of_nat (length l) = 128 -> in_u 128 (pack_lanes w l).
Proof. intros Hw E. pose proof (pack_lanes_in_u w l Hw) as H. by rewrite E in H. Qed.

Lemma from32r_in_u x : in_u 128 (from32r x).
Proof. by apply pack_in_128. Qed.
Lemma from32p_in_u x : in_u 128 (from32p x).
Proof. by apply pack_in_128. Qed.
Lemma from64_in_u x y : in_u 128 (from64 x y).
Proof. by apply pack_in_128. Qed.

Lemma v_not_in_u a : in_u 128 a -> in_u 128 (v_not a).
Proof. intros. rewrite v_not_bnot by done. auto with word. Qed.
Lemma mm_or_in_u a b : in_u 128 a -> in_u 128 b -> in_u 128 (mm_or a b).
Proof. apply lor_in_u. lia. Qed.
Lemma mm_and_in_u a b : in_u 128 a -> in_u 128 (mm_and a b).
Proof. apply land_in_u_l. lia. Qed.
Lemma mm_xor_in_u a b : in_u 128 a -> in_u 128 b -> in_u 128 (mm_xor a b).
Proof. apply lxor_in_u. lia. Qed.
Lemma mm_andnot_in_u a b : in_u 128 (mm_andnot a b).
Proof. apply land_in_u_l; auto with word. Qed.
Lemma mm_loadu_in_u l n : in_u 128 (mm_loadu l n).
Proof. by apply wrap_in_u. Qed.

#[export] Hint Resolve from32r_in_u from32p_in_u from64_in_u v_not_in_u mm_or_in_u mm_and_in_u mm_xor_in_u
  mm_andnot_in_u mm_loadu_in_u : spu.
#[export] Hint Extern 1 (in_u 128 (build _ _)) => apply build_in_u; unfold width; lia : spu.
#[export] Hint Extern 1 (in_u 128 0) => apply in_u_0; lia : spu.
#[export] Hint Extern 2 (in_u 128 (_ .| _)) => apply lor_in_u; [lia| |] : spu.
#[export] Hint Extern 2 (in_u 128 (_ .& _)) => apply land_in_u_l; [lia|] : spu.
#[export] Hint Extern 2 (in_u 128 (_ .^ _)) => apply lxor_in_u; [lia| |] : spu.

Ltac unfold_simd :=
  cbv beta zeta delta [gv_add16 gv_add32 gv_sub8 gv_sub16 gv_sub32 gv_maxu8 gv_minu8 gv_andn
    mm_add mm_sub mm_cmpgt mm_cmpeq mm_slli mm_srli mm_srai mm_min_epu mm_max_epu mm_avg_epu8
    mm_mullo_epi16 mm_mulhi_epi16 mm_mulhi_epu16 mm_madd_epi16 mm_set1 mm_shuffle_epi32].

Lemma r_in_u s f op : wf s -> in_u 128 (r s f op).
Proof. intros H. unfold r. apply get_Forall; [apply in_u_0; lia|apply H]. Qed.

(** ** State changes *)

Lemma set_r_wf s f op v : wf s -> in_u 128 v -> wf (set_r s f op v).
Proof.
  intros [] Hv. split; cbn; try done; [by rewrite length_set|]. by apply set_Forall.
Qed.

Lemma set_elem_wf w s f op i x : width w -> wf s -> wf (set_elem w s f op i x).
Proof. intros Hw H. apply set_r_wf; [done|]. by apply build_in_u. Qed.

Lemma for_lanes_wf n body s : (forall i s, wf s -> wf (body i s)) -> wf s -> wf (for_lanes n body s).
Proof.
  intros Hb. unfold for_lanes. revert s. induction (seqZ 0 n) as [|i l IH]; intros s Hs; [done|].
  cbn [foldl]. auto.
Qed.

Lemma with_pc_wf s a : wf s -> in_u 32 a -> a mod 4 = 0 -> wf (with_pc s a).
Proof. by intros [] ??; split. Qed.

Lemma set_ref_v128_wf s a v : wf s -> wf (set_ref_v128 s a v).
Proof.
  intros []. split; cbn; try done. intros k. destruct (_ && _); [apply lane_in_u; lia|done].
Qed.

Lemma ref_v128_in_u s a : in_u 128 (ref_v128 s a).
Proof. apply build_in_u. unfold width. lia. Qed.

#[export] Hint Resolve r_in_u set_r_wf ref_v128_in_u set_ref_v128_wf for_lanes_wf with_pc_wf : spu.
#[export] Hint Extern 1 (wf (set_elem _ _ _ _ _ _)) => apply set_elem_wf; [unfold width; lia|] : spu.

(** Masking with [0x3fffc] gives a word address. *)
Lemma word_mask x : in_u 32 (x .& 0x3fffc) /\ (x .& 0x3fffc) mod 4 = 0.
Proof.
  split; [apply land_in_u_r; unfold in_u; lia|].
  change 4 with (2 ^ 2). rewrite <- Z.land_ones, <- Z.land_assoc by lia. apply Z.land_0_r.
Qed.

Lemma branch_target_ok a b : in_u 32 (spu_branch_target a b) /\ spu_branch_target a b mod 4 = 0.
Proof. apply word_mask. Qed.

Lemma branch_wf s a b : wf s -> wf (with_pc s (spu_branch_target a b)).
Proof. intros H. destruct (branch_target_ok a b). by apply with_pc_wf. Qed.

Lemma thread_set_interrupt_status_wf s e s' :
  wf s -> thread_set_interrupt_status s e = Some s' -> wf s'.
Proof.
  intros Hs. unfold thread_set_interrupt_status.
  assert (forall s, wf s -> wf (with_interrupts s e)) as Hi by (intros ? []; by split).
  assert (wf (with_state s (state s .| pending))) as Hp.
  { destruct Hs. split; try done. cbn. apply lor_in_u; [lia|done|]. unfold in_u, pending. lia. }
  destruct (_ && _); [|intros [= <-]; auto].
  destruct (spu_decoder s), (state s .& pending =? 0); intros [= <-]; auto.
Qed.

Lemma check_mfc_interrupts_wf s a : wf s -> in_u 32 a -> a mod 4 = 0 -> wf (check_mfc_interrupts s a).2.
Proof.
  intros Hs Ha Ha4. unfold check_mfc_interrupts. destruct (_ && _); [|done]. cbn [snd].
  apply with_pc_wf; [destruct Hs; by split| |]; destruct (_ =? _); try apply word_mask; done.
Qed.

Lemma set_interrupt_status_wf s op : wf s -> wf (state_of (set_interrupt_status s op)).
Proof.
  intros Hs. unfold set_interrupt_status. cbv zeta.
  match goal with |- context [match ?o with None => _ | Some _ => _ end] => destruct o as [s'|] eqn:E end; [|done].
  assert (wf s') as Hs'.
  { destruct (negb _), (negb _); try discriminate E;
      first [by eapply thread_set_interrupt_status_wf|by injection E as <-]. }
  pose proof (check_mfc_interrupts_wf s' (pc s') Hs' (proj1 (wf_pc _ Hs')) (proj2 (wf_pc _ Hs'))) as Hc.
  destruct (check_mfc_interrupts s' (pc s')) as [taken s'']. by destruct (taken && _).
Qed.

#[export] Hint Resolve branch_wf set_interrupt_status_wf : spu.

(** ** Every handler *)

Lemma put_wf s f op v : wf s -> in_u 128 v -> wf (state_of (put s f op v)).
Proof. apply set_r_wf. Qed.

Lemma insertion_wf w s op t x : width w -> wf s ->
  wf (state_of (if bad_sp s op then Throw s
                else Ret true (set_elem w (set_r s rt op insert_base) rt op t x))).
Proof.
  intros Hw Hs. destruct (bad_sp s op); [done|]. apply set_elem_wf; [done|].
  apply set_r_wf; [done|]. apply from64_in_u.
Qed.

Lemma gv_gtu32_in_u sse41 a b : in_u 128 (gv_gtu32 sse41 a b).
Proof. rewrite gv_gtu32_mask. apply build_in_u. unfold width. lia. Qed.
Lemma gv_gtu16_in_u sse41 a b : in_u 128 (gv_gtu16 sse41 a b).
Proof. rewrite gv_gtu16_mask. apply build_in_u. unfold width. lia. Qed.
Lemma gv_gtu8_in_u a b : in_u 128 (gv_gtu8 a b).
Proof. rewrite gv_gtu8_mask. apply build_in_u. unfold width. lia. Qed.

#[export] Hint Resolve gv_gtu32_in_u gv_gtu16_in_u gv_gtu8_in_u : spu.

Lemma iret_wf s : wf s -> wf (with_pc s (srr0 s)).
Proof. intros Hs. destruct (wf_srr0 s Hs). by apply with_pc_wf. Qed.

#[export] Hint Resolve iret_wf : spu.

Ltac handler_wf :=
  lazymatch goal with
  | |- wf (state_of (put _ _ _ _)) => apply put_wf; [done|unfold_simd; eauto 8 with spu]
  | |- wf (state_of (halt_if ?c _)) => destruct c; done
  | |- wf (state_of (if bad_sp _ _ then _ else _)) => apply insertion_wf; [unfold width; lia|done]
  | |- wf (state_of (if ?c then _ else _)) => destruct c; cbn [state_of]; eauto with spu
  | |- _ => cbn [state_of]; eauto with spu
  end.

Lemma interp_wf sse41 i s op : wf s -> wf (state_of (interp sse41 i s op)).
Proof.
  intros Hs. destruct i; cbn [interp]; try done.
  all: match goal with |- wf (state_of (?f _ _)) => unfold f | |- wf (state_of (?f _ _ _)) => unfold f end.
  all: cbv zeta; handler_wf.
Qed.

(** ** Where the program counter can be *)

(** From [s], a handler leaves the program counter alone or moves it below [B]. *)
Definition pc_moves (B : Z) (s s' : spu_thread) : Prop :=
  (pc s' = pc s \/ 0 <= pc s' < B) /\ (srr0 s' = srr0 s \/ 0 <= srr0 s' < B).

Lemma word_mask_ls x : 0 <= x .& 0x3fffc < SPU_LS_SIZE.
Proof. apply (land_in_u_r 18); unfold in_u; lia. Qed.

Lemma pc_moves_refl B s : pc_moves B s s.
Proof. split; by left. Qed.

Lemma pc_moves_same B s s' : pc s' = pc s -> srr0 s' = srr0 s -> pc_moves B s s'.
Proof. intros. split; by left. Qed.

Lemma pc_moves_for B n body s : (forall i s, pc_moves B s (body i s)) -> pc_moves B s (for_lanes n body s).
Proof.
  intros Hb. unfold for_lanes. revert s. induction (seqZ 0 n) as [|i l IH]; intros s; [apply pc_moves_refl|].
  cbn [foldl]. destruct (Hb i s) as [[E|E] [F|F]], (IH (body i s)) as [[E'|E'] [F'|F']];
    split; (left; congruence) || (right; congruence || (rewrite E' || rewrite F'; done) || done).
Qed.

Lemma check_mfc_pc B s a : SPU_LS_SIZE <= B -> 0 <= a < B -> 0 <= pc s < B -> 0 <= srr0 s < B ->
  0 <= pc (check_mfc_interrupts s a).2 < B /\ 0 <= srr0 (check_mfc_interrupts s a).2 < B.
Proof.
  intros. unfold check_mfc_interrupts. destruct (_ && _); [|done]. cbn. split; [|done].
  destruct (_ =? _); [|unfold SPU_LS_SIZE in *; lia].
  match goal with |- 0 <= ?x .& _ < _ => pose proof (word_mask_ls x) end. lia.
Qed.

Lemma thread_set_pc s e s' : thread_set_interrupt_status s e = Some s' -> pc s' = pc s /\ srr0 s' = srr0 s.
Proof.
  unfold thread_set_interrupt_status. destruct (_ && _); [|by intros [= <-]].
  destruct (spu_decoder s), (state s .& pending =? 0); by intros [= <-].
Qed.

Lemma set_interrupt_status_pc B s op : SPU_LS_SIZE <= B -> 0 <= pc s < B -> 0 <= srr0 s < B ->
  let s' := state_of (set_interrupt_status s op) in
  0 <= pc s' < B /\ 0 <= srr0 s' < B.
Proof.
  intros HB Hp Hr. unfold set_interrupt_status. cbv zeta.
  match goal with |- context [match ?o with None => _ | Some _ => _ end] => destruct o as [s1|] eqn:E end; [|done].
  assert (pc s1 = pc s /\ srr0 s1 = srr0 s) as [Ep Er].
  { destruct (negb _), (negb _); try discriminate E;
      first [by eapply thread_set_pc|by injection E as <-]. }
  pose proof (check_mfc_pc B s1 (pc s1) HB) as Hc. rewrite Ep, Er in Hc. rewrite Ep. specialize (Hc Hp Hp Hr).
  destruct (check_mfc_interrupts s1 (pc s)) as [taken s2]. by destruct (taken && _).
Qed.

Lemma interp_pc B sse41 i s op : SPU_LS_SIZE <= B -> 0 <= srr0 s < B -> pc_moves B s (state_of (interp sse41 i s op)).
Proof.
  intros HB Hr. assert (forall a, 0 <= a .& 0x3fffc < B) as Hm by (intros a; pose proof (word_mask_ls a); lia).
  assert (forall s' a, srr0 s' = srr0 s ->
    pc_moves B s (state_of (set_interrupt_status (with_pc s' (a .& 0x3fffc)) op))) as Hb.
  { intros s' a E. edestruct (set_interrupt_status_pc B (with_pc s' (a .& 0x3fffc)) op) as [H1 H2];
      [done|apply Hm|cbn; by rewrite E|split; by right]. }
  assert (forall s' a, srr0 s' = srr0 s -> pc_moves B s (with_pc s' (a .& 0x3fffc))) as Hb'.
  { intros s' a E. split; [right; apply Hm|by left]. }
  destruct i; cbn [interp]; try apply pc_moves_refl.
  all: match goal with
       | |- pc_moves _ _ (state_of (?f _ _)) => unfold f
       | |- pc_moves _ _ (state_of (?f _ _ _)) => unfold f
       end.
  all: unfold halt_if; cbv zeta; cbn [state_of put].
  all: try (apply pc_moves_for; intros).
  all: try (match goal with |- context [if ?c then _ else _] => destruct c; cbn [state_of] end).
  all: try (by apply pc_moves_same); try (by apply Hb); try (by apply Hb').
  destruct (set_interrupt_status_pc B (with_pc s (srr0 s)) op HB Hr Hr) as [H1 H2]. split; by right.
Qed.

Lemma interp_no_fault sse41 i s op s' : interp sse41 i s op <> Fault s'.
Proof.
  assert (forall s, set_interrupt_status s op <> Fault s') as Hi.
  { intros s0. unfold set_interrupt_status. cbv zeta.
    match goal with |- context [match ?o with None => _ | Some _ => _ end] => destruct o as [s1|] end; [|done].
    destruct (check_mfc_interrupts s1 (pc s1)) as [taken s2]. by destruct (taken && _). }
  destruct i; cbn [interp]; try done.
  all: match goal with |- ?f _ _ <> _ => unfold f | |- ?f _ _ _ <> _ => unfold f end.
  all: unfold halt_if; cbv zeta.
  all: try (match goal with |- context [if ?c then _ else _] => destruct c end); done || apply Hi.
Qed.

(** ** The loop *)

Lemma iteration_wf sse41 s : wf s -> wf (state_of (iteration sse41 s)).
Proof.
  intros Hs. unfold iteration. destruct (negb _); [done|]. destruct (fetch s) as [op|]; [|done].
  pose proof (interp_wf sse41 (decode op) s op Hs) as H.
  destruct (interp sse41 (decode op) s op) as [[|] s'|s'|s'|s'|s'|s'|i s']; try done. cbn in H |- *.
  destruct (wf_pc s' H) as [Hp H4]. apply with_pc_wf; [done|by apply wrap_in_u|].
  unfold wrap. rewrite Z.mod_mod_divide by (by exists (2 ^ 30)).
  rewrite Z.add_mod, H4 by lia. done.
Qed.

Lemma iteration_pc sse41 s B : SPU_LS_SIZE <= B <= 3 * SPU_LS_SIZE - 4 ->
  0 <= pc s < B -> 0 <= srr0 s < B ->
  let s' := state_of (iteration sse41 s) in
  0 <= pc s' < B + 4 /\ 0 <= srr0 s' < B /\ forall s'', iteration sse41 s <> Fault s''.
Proof.
  unfold SPU_LS_SIZE. intros HB Hp Hr. unfold iteration. destruct (negb _); [cbn; naive_solver lia|].
  unfold fetch, SPU_LS_SIZE. replace (pc s + 4 <=? 3 * 262144) with true by lia. cbv iota.
  set (op := pack_lanes 8 _). destruct (interp_pc B sse41 (decode op) s op) as [H1 H2]; [unfold SPU_LS_SIZE; lia|done|].
  pose proof (interp_no_fault sse41 (decode op) s op) as Hf. unfold SPU_LS_SIZE in *.
  destruct (interp sse41 (decode op) s op) as [[|] s'|s'|s'|s'|s'|s'|i s']; cbn in *;
    (split; [|split; [lia|naive_solver]]); [|lia..].
  rewrite wrap_small by (unfold in_u; lia). lia.
Qed.

Lemma iterations_wf sse41 n s : wf s -> wf (state_of (iterations sse41 n s)).
Proof.
  revert s. induction n as [|n IH]; intros s Hs; [done|]. cbn [iterations].
  pose proof (iteration_wf sse41 s Hs). destruct (iteration sse41 s); try done. by apply IH.
Qed.

Lemma iterations_fetch sse41 n s B : SPU_LS_SIZE <= B -> B + 4 * Z.of_nat n <= 3 * SPU_LS_SIZE ->
  0 <= pc s < B -> 0 <= srr0 s < B -> forall s', iterations sse41 n s <> Fault s'.
Proof.
  revert s B. induction n as [|n IH]; intros s B HB Hn Hp Hr s'; [done|]. cbn [iterations].
  pose proof (iteration_pc sse41 s B ltac:(lia) Hp Hr) as (H1 & H2 & H3).
  destruct (iteration sse41 s) as [b s1|s1|s1|s1|s1|s1|i s1]; try done.
  apply (IH s1 (B + 4)); cbn in *; lia.
Qed.

(** C10: whatever instruction words local storage holds, running the interpreter keeps every register, byte and
    counter within its type, the 128 registers, and the word alignment of [pc] and [srr0]; this covers all
    ways the loop can be left. *)
Theorem spu_wf sse41 n s (H : wf s) : wf (state_of (old_interpreter sse41 n s)).
Proof. unfold old_interpreter. destruct (spu_decoder s); try done. by apply iterations_wf. Qed.

Lemma wf_spu_init ws : wf (spu_init (ls_of_words ws)).
Proof.
  split; try done; [apply Forall_replicate, in_u_0; lia|]. intros k. apply lane_in_u. lia.
Qed.

Lemma wf_spu_start ws regs : forallb (fun '(_, v) => (0 <=? v) && (v <? 2 ^ 128)) regs = true ->
  wf (spu_start ws regs).
Proof.
  intros H. unfold spu_start. generalize (wf_spu_init ws). generalize (spu_init (ls_of_words ws)).
  induction regs as [|[k v] regs IH]; intros s Hs; [done|]. cbn [forallb foldl] in *.
  apply andb_prop in H as [Hv H]. apply IH; [done|]. destruct Hs. split; cbn; try done; [by rewrite length_set|].
  apply set_Forall; [|done]. unfold in_u. lia.
Qed.

(** [il $3,5; a $3,$3,$3; brsl $0,0] *)
Lemma spu_wf_witness :
  wf (state_of (old_interpreter true 3 (spu_init (ls_of_words [0x40800283; 0x1800c183; 0x33000000])))).
Proof. apply spu_wf, wf_spu_init. Defined.

(** C28: the loop adds 4 to [pc] without reducing it modulo the size of local storage, and [IRET] jumps to [srr0]
    without reducing it either.  Local storage is mapped five times in a row, three of them from [ls] on.  If
    [pc] and [srr0] are below a bound [B] that is at least the size of local storage, no instruction is fetched from
    unmapped memory within [n] iterations, for every [n] with [B + 4 * n] at most three times that size,
    whatever the code does: 131072 iterations when both start inside local storage.  (Every
    branch, and every interrupt that a branch instruction takes, leaves [pc] inside local storage, and the
    interrupt saves the target of the branch.  The interrupts taken while DMA commands are processed, which save
    [pc + 4], are not modelled.) *)
Theorem spu_fetch_safe sse41 n s B (HB : SPU_LS_SIZE <= B) (Hn : B + 4 * Z.of_nat n <= 3 * SPU_LS_SIZE)
  (Hp : 0 <= pc s < B) (Hr : 0 <= srr0 s < B) :
  forall s', old_interpreter sse41 n s <> Fault s'.
Proof.
  intros s'. unfold old_interpreter. destruct (spu_decoder s); try done. by apply (iterations_fetch sse41 n s B).
Qed.

(** Nothing but [nop]. *)
Lemma spu_fetch_safe_witness :
  match old_interpreter true 1000 (spu_init (fun k => if k mod 4 <? 1 then 0x40 else 0x20 * (b2z (k mod 4 =? 1)))) with
  | Fault _ => False
  | _ => True
  end.
Proof.
  pose proof (spu_fetch_safe true 1000 (spu_init (fun k => if k mod 4 <? 1 then 0x40 else 0x20 * (b2z (k mod 4 =? 1))))
    SPU_LS_SIZE) as H.
  destruct (old_interpreter true 1000 _); try exact I.
  refine (H _ _ _ _ _ eq_refl); unfold SPU_LS_SIZE; cbn; lia.
Defined.
