(* ===== verification/SpuRun.v ===== *)
(** Reasoning about SPU handlers and straight-line code.

    The registers named by an instruction word, the loops over lanes as one assignment, instruction
    words assembled from their fields ([rr], [ri10], [rrr], the instruction formats of the SPU ISA), and
    the execution of words fetched from local storage, one instruction at a time ([run_step]).  The
    files that follow prove programs with these lemmas. *)

From Stdlib Require Import ZArith Lia Bool.
From stdpp Require Import base tactics option list numbers.
From S2P Require Import Prelude BitField Simd SpuOpcodes SpuInterp SpuWf.
Import BitField Simd SpuOp Spu SpuWf.
Local Open Scope Z_scope.
Local Open Scope word_scope.

Module SpuRun.

(** The register fields. *)
Definition is_reg (f : spu_field) : bool :=
  match f with rt | rc | ra | rb | rt4 => true | _ => false end.

(** Instruction words: operation code [v] and fields, from the most significant. *)
Definition rr (v b a t : Z) : Z := Z.shiftl (Z.shiftl (Z.shiftl v 7 .| b) 7 .| a) 7 .| t.
Definition ri10 (v i a t : Z) : Z := Z.shiftl (Z.shiftl (Z.shiftl v 10 .| wrap 10 i) 7 .| a) 7 .| t.
Definition rrr (v t b a c : Z) : Z := Z.shiftl (Z.shiftl (Z.shiftl (Z.shiftl v 7 .| t) 7 .| b) 7 .| a) 7 .| c.

(** The words [ws] stand in memory [m] from address [p]. *)
Definition code_at (m : Z -> Z) (p : Z) (ws : list Z) : Prop :=
  forall k, 0 <= k < Z.of_nat (length ws) -> be32 m (p + 4 * k) = get ws k.

(** A running thread about to execute [ws], which ends within local storage. *)
Record at_code (s : spu_thread) (ws : list Z) : Prop := At_code {
  ac_wf : wf s;
  ac_decoder : spu_decoder s = _static;
  ac_state : state s = 0;
  ac_code : code_at (ls s) (pc s) ws;
  ac_end : pc s + 4 * Z.of_nat (length ws) <= SPU_LS_SIZE
}.

End SpuRun.
Import SpuRun.

(** ** Fields *)

Lemma spu_get_unsigned f op n p : field_desc f = Bf 32 false p n -> 0 <= p -> 0 < n -> p + n <= 32 ->
  op_get f op = Z.shiftr op p mod 2 ^ n.
Proof.
  intros E Hp Hn Hpn. unfold op_get. rewrite extract_mod; rewrite E; [done|]. unfold valid. cbn. lia.
Qed.

Lemma reg_range f op : is_reg f = true -> 0 <= op_get f op < 128.
Proof.
  intros Hf. destruct f; try discriminate Hf;
    (erewrite spu_get_unsigned by (reflexivity || lia); apply (Z.mod_pos_bound _ (2 ^ 7)); lia).
Qed.

Lemma fields_rr v b a t : 0 <= b < 128 -> 0 <= a < 128 -> 0 <= t < 128 ->
  op_get rt (rr v b a t) = t /\ op_get ra (rr v b a t) = a /\ op_get rb (rr v b a t) = b /\
  op_get i7 (rr v b a t) = b /\ spu_decode (rr v b a t) = v.
Proof.
  intros. unfold rr, spu_decode. rewrite !lor_shiftl_add by lia.
  repeat split; try (erewrite spu_get_unsigned by (reflexivity || lia));
    rewrite Z.shiftr_div_pow2 by lia;
    [rewrite Z.div_1_r| | | |]; Z.to_euclidean_division_equations; lia.
Qed.

Lemma fields_ri10 v i a t : 0 <= v < 256 -> in_s 10 i -> 0 <= a < 128 -> 0 <= t < 128 ->
  op_get rt (ri10 v i a t) = t /\ op_get ra (ri10 v i a t) = a /\ op_get si10 (ri10 v i a t) = i /\
  Z.shiftr (ri10 v i a t) 24 = v.
Proof.
  intros Hv Hi Ha Ht. pose proof (wrap_in_u 10 i ltac:(lia)) as Hw. unfold in_u in Hw.
  unfold ri10. rewrite !lor_shiftl_add by lia.
  assert (valid (field_desc si10)) by (unfold valid; cbn; lia).
  repeat split; try (erewrite spu_get_unsigned by (reflexivity || lia)).
  1, 2, 4: rewrite Z.shiftr_div_pow2 by lia; Z.to_euclidean_division_equations; lia.
  unfold op_get. rewrite extract_mod by done. unfold truncate. cbn [field_desc is_signed bitsize bitpos].
  rewrite Z.shiftr_div_pow2 by lia.
  replace (((_ * 2 ^ 7 + a) * 2 ^ 7 + t) / 2 ^ 14) with (v * 2 ^ 10 + wrap 10 i)
    by (Z.to_euclidean_division_equations; lia).
  rewrite <- (sgn_wrap 10), Z.add_comm, wrap_add_pow, wrap_wrap, sgn_wrap by lia. by apply sgn_small.
Qed.

Lemma fields_rrr v t b a c : 0 <= t < 128 -> 0 <= b < 128 -> 0 <= a < 128 -> 0 <= c < 128 ->
  op_get rt4 (rrr v t b a c) = t /\ op_get rb (rrr v t b a c) = b /\ op_get ra (rrr v t b a c) = a /\
  op_get rc (rrr v t b a c) = c /\ Z.shiftr (rrr v t b a c) 28 = v.
Proof.
  intros. unfold rrr. rewrite !lor_shiftl_add by lia.
  repeat split; try (erewrite spu_get_unsigned by (reflexivity || lia));
    rewrite Z.shiftr_div_pow2 by lia;
    [| | |rewrite Z.div_1_r|]; Z.to_euclidean_division_equations; lia.
Qed.

Lemma rr_in_u v b a t : 0 <= v < 2048 -> 0 <= b < 128 -> 0 <= a < 128 -> 0 <= t < 128 -> in_u 32 (rr v b a t).
Proof. intros. unfold rr, in_u. rewrite !lor_shiftl_add by lia. lia. Qed.

Lemma ri10_in_u v i a t : 0 <= v < 256 -> 0 <= a < 128 -> 0 <= t < 128 -> in_u 32 (ri10 v i a t).
Proof.
  intros. pose proof (wrap_in_u 10 i ltac:(lia)) as Hw. unfold ri10, in_u in *.
  rewrite !lor_shiftl_add by lia. lia.
Qed.

Lemma rrr_in_u v t b a c : 0 <= v < 16 -> 0 <= t < 128 -> 0 <= b < 128 -> 0 <= a < 128 -> 0 <= c < 128 ->
  in_u 32 (rrr v t b a c).
Proof. intros. unfold rrr, in_u. rewrite !lor_shiftl_add by lia. lia. Qed.

Lemma decode_rr v b a t i : 0 <= v < 2048 -> 0 <= b < 128 -> 0 <= a < 128 -> 0 <= t < 128 ->
  (0, v, i) ∈ instructions -> decode (rr v b a t) = i.
Proof.
  intros. apply (decode_row _ 0 v); [by apply rr_in_u|done|]. by apply (fields_rr v b a t).
Qed.

Lemma decode_ri10 v k a t i : 0 <= v < 256 -> in_s 10 k -> 0 <= a < 128 -> 0 <= t < 128 ->
  (3, v, i) ∈ instructions -> decode (ri10 v k a t) = i.
Proof.
  intros. apply (decode_row _ 3 v); [by apply ri10_in_u|done|]. by apply (fields_ri10 v k a t).
Qed.

Lemma decode_rrr v t b a c i : 0 <= v < 16 -> 0 <= t < 128 -> 0 <= b < 128 -> 0 <= a < 128 -> 0 <= c < 128 ->
  (7, v, i) ∈ instructions -> decode (rrr v t b a c) = i.
Proof.
  intros. apply (decode_row _ 7 v); [by apply rrr_in_u|done|]. by apply (fields_rrr v t b a c).
Qed.

(** ** Registers *)

Lemma r_set_r s f op v f' op' : length (gpr s) = 128%nat -> is_reg f = true -> is_reg f' = true ->
  r (set_r s f op v) f' op' = if op_get f op =? op_get f' op' then v else r s f' op'.
Proof.
  intros Hl Hf Hf'. pose proof (reg_range f op Hf). pose proof (reg_range f' op' Hf').
  unfold r, set_r. cbn. destruct (Z.eqb_spec (op_get f op) (op_get f' op')) as [E|E].
  - rewrite E. apply get_set_eq. rewrite Hl. lia.
  - apply get_set_ne; lia.
Qed.

Lemma r_set_r_eq s f op v : length (gpr s) = 128%nat -> is_reg f = true -> r (set_r s f op v) f op = v.
Proof. intros. by rewrite r_set_r, Z.eqb_refl. Qed.

Lemma set_r_set_r s f op v v' : set_r (set_r s f op v) f op v' = set_r s f op v'.
Proof. unfold set_r, with_gpr, set. cbn. by rewrite list_insert_insert_eq. Qed.

Lemma set_r_same s f op : length (gpr s) = 128%nat -> is_reg f = true -> set_r s f op (r s f op) = s.
Proof.
  intros Hl Hf. pose proof (reg_range f op Hf). unfold set_r, r, set, get. rewrite list_insert_id.
  - by destruct s.
  - rewrite nth_lookup. destruct (lookup_lt_is_Some_2 (gpr s) (Z.to_nat (op_get f op))) as [x E]; [lia|].
    by rewrite E.
Qed.

Lemma set_lane_build w f i x : width w -> 0 <= i < 128 / w ->
  set_lane w i x (build w f) = build w (fun j => if j =? i then x else f j).
Proof.
  intros Hw Hi. apply (lane_ext w); [done|by apply build_in_u..|]. intros j Hj. unfold set_lane.
  rewrite !lane_build by done. destruct (j =? i); [done|]. apply wrap_wrap.
Qed.

Lemma build_ext w f g : width w -> (forall i, 0 <= i < 128 / w -> wrap w (f i) = wrap w (g i)) ->
  build w f = build w g.
Proof.
  intros Hw H. apply (lane_ext w); [done|by apply build_in_u..|]. intros i Hi.
  rewrite !lane_build by done. by apply H.
Qed.

Lemma build_lanes w v : width w -> in_u 128 v -> build w (fun i => lane w i v) = v.
Proof.
  intros Hw Hv. apply (lane_ext w); [done|by apply build_in_u|done|]. intros i Hi.
  rewrite lane_build by done. destruct (width_facts w Hw). by apply wrap_small, lane_in_u; lia.
Qed.

(** A lane that was not written yet reads the same in every operand, whichever registers coincide. *)
Lemma lane_set_r w i s f op v f' : length (gpr s) = 128%nat -> is_reg f = true -> is_reg f' = true ->
  lane w i v = lane w i (r s f op) -> lane w i (r (set_r s f op v) f' op) = lane w i (r s f' op).
Proof.
  intros Hl Hf Hf' E. rewrite r_set_r by done.
  destruct (Z.eqb_spec (op_get f op) (op_get f' op)) as [Ef|]; [|done].
  rewrite E. unfold r. by rewrite Ef.
Qed.

(** A loop that writes the lanes of a register in order, from operands read lane by lane, is an assignment. *)
Lemma for_lanes_elem w n s f op (g : Z -> spu_thread -> Z) : width w -> n = 128 / w -> wf s -> is_reg f = true ->
  (forall i v, 0 <= i < n -> lane w i v = lane w i (r s f op) -> g i (set_r s f op v) = g i s) ->
  for_lanes n (fun i s => set_elem w s f op i (g i s)) s = set_r s f op (build w (fun i => g i s)).
Proof.
  intros Hw -> Hs Hf Hg. pose proof (wf_gpr_len s Hs) as Hl. destruct (width_facts w Hw) as (Hp & _).
  set (part k j := if j <? k then g j s else lane w j (r s f op)).
  assert (forall m : nat, Z.of_nat m <= 128 / w ->
    for_lanes (Z.of_nat m) (fun i s => set_elem w s f op i (g i s)) s =
    set_r s f op (build w (part (Z.of_nat m)))) as H.
  { induction m as [|m IH]; intros Hm.
    - unfold part. rewrite (build_ext w _ (fun i => lane w i (r s f op))), build_lanes by
        (done || (by apply r_in_u) || (intros i Hi; by destruct (Z.ltb_spec i (Z.of_nat 0)); [lia|])).
      by rewrite set_r_same.
    - unfold for_lanes. rewrite seqZ_S, foldl_app. fold (for_lanes (Z.of_nat m) (fun i s => set_elem w s f op i (g i s)) s).
      rewrite IH by lia. cbn [foldl]. unfold set_elem. rewrite set_r_set_r, r_set_r_eq, set_lane_build by (done || lia).
      rewrite Hg; [|lia|]; cycle 1.
      { rewrite lane_build by (done || lia). unfold part. replace (0 + Z.of_nat m <? Z.of_nat m) with false by lia.
        apply wrap_small, lane_in_u. lia. }
      f_equal. apply build_ext; [done|]. intros j Hj. unfold part. f_equal. rewrite Z.add_0_l.
      destruct (Z.eqb_spec j (Z.of_nat m)) as [->|Hne].
      { destruct (Z.ltb_spec (Z.of_nat m) (Z.of_nat (S m))); [done|lia]. }
      destruct (Z.ltb_spec j (Z.of_nat m)), (Z.ltb_spec j (Z.of_nat (S m))); done || lia. }
  pose proof (Z.div_pos 128 w ltac:(lia) Hp).
  specialize (H (Z.to_nat (128 / w))). rewrite Z2Nat.id in H by lia. rewrite H by lia. f_equal.
  apply build_ext; [done|]. intros i Hi. unfold part. by replace (i <? 128 / w) with true by lia.
Qed.

(** ** Straight-line code *)

Lemma fetch_at_code s w ws : at_code s (w :: ws) -> fetch s = Some w.
Proof.
  intros [Hs _ _ Hc He]. destruct (wf_pc s Hs) as [Hp _]. unfold in_u in Hp.
  unfold SPU_LS_SIZE in He. cbn [length] in He.
  specialize (Hc 0 ltac:(cbn [length]; lia)). rewrite Z.mul_0_r, Z.add_0_r in Hc.
  change (get (w :: ws) 0) with w in Hc. unfold fetch, SPU_LS_SIZE.
  replace (pc s + 4 <=? 3 * 262144) with true by lia. rewrite <- Hc. unfold be32. cbn [fmap list_fmap].
  rewrite !Z.mod_small, Z.add_0_r by lia. done.
Qed.

Lemma code_at_tail m p w ws : code_at m p (w :: ws) -> code_at m (p + 4) ws.
Proof.
  intros H k Hk. specialize (H (k + 1)). cbn [length] in H. rewrite <- Z.add_assoc.
  replace (4 + 4 * k) with (4 * (k + 1)) by lia. rewrite H by lia. unfold get.
  by rewrite Z2Nat.inj_add, Nat.add_1_r by lia.
Qed.

(** Everything but the registers and the program counter. *)
Definition rest (s : spu_thread) : (Z -> Z) * Z * bool * Z * Z * spu_decoder_type :=
  (ls s, srr0 s, interrupts_enabled s, ch_events s, state s, spu_decoder s).

Lemma rest_ls s s' : rest s' = rest s -> ls s' = ls s.
Proof. unfold rest. congruence. Qed.

Lemma rest_eq s s' g p : gpr s' = g -> pc s' = p -> rest s' = rest s -> s' = with_pc (with_gpr s g) p.
Proof. destruct s, s'. unfold rest. cbn. intros -> -> [= -> -> -> -> -> ->]. done. Qed.

(** An instruction that ends in an assignment to a register leaves a thread at the next instruction. *)
Lemma run_put sse41 n s w ws f v : at_code s (w :: ws) -> is_reg f = true -> in_u 128 v ->
  interp sse41 (decode w) s w = put s f w v ->
  exists s', iterations sse41 (S n) s = iterations sse41 n s' /\ at_code s' ws /\
    gpr s' = set (gpr s) (op_get f w) v /\ pc s' = pc s + 4 /\ rest s' = rest s.
Proof.
  intros H Hf Hv E. pose proof (fetch_at_code s w ws H) as HF. destruct H as [Hs Hd Ht Hc He].
  cbn [length] in He. exists (with_pc (set_r s f w v) (pc s + 4)).
  destruct (wf_pc s Hs) as [Hp H4]. unfold SPU_LS_SIZE in He. unfold in_u in Hp. split; [|split; [|repeat split]].
  - cbn [iterations]. unfold iteration. rewrite Ht. cbn [Z.eqb negb]. rewrite HF, E. unfold put.
    cbn [pc set_r with_gpr]. rewrite wrap_small by (unfold in_u; lia). reflexivity.
  - split; [|exact Hd|exact Ht| |].
    + apply with_pc_wf; [by apply set_r_wf|unfold in_u; lia|]. rewrite Z.add_mod, H4 by lia. done.
    + by eapply code_at_tail.
    + unfold SPU_LS_SIZE. cbn [pc with_pc]. lia.
Qed.

(** The same for the formats with registers [t], [a] and the field [b]. *)
Lemma run_rr sse41 n s v b a t ws i val : at_code s (rr v b a t :: ws) ->
  0 <= v < 2048 -> 0 <= b < 128 -> 0 <= a < 128 -> 0 <= t < 128 -> (0, v, i) ∈ instructions -> in_u 128 val ->
  (let op := rr v b a t in op_get rt op = t -> op_get ra op = a -> op_get rb op = b -> op_get i7 op = b ->
   interp sse41 i s op = put s rt op val) ->
  exists s', iterations sse41 (S n) s = iterations sse41 n s' /\ at_code s' ws /\
    gpr s' = set (gpr s) t val /\ pc s' = pc s + 4 /\ rest s' = rest s.
Proof.
  intros H Hv Hb Ha Ht Hi Hval E. cbv zeta in E. destruct (fields_rr v b a t Hb Ha Ht) as (E1 & E2 & E3 & E4 & _).
  pose proof (run_put sse41 n s (rr v b a t) ws rt val H eq_refl Hval) as R. rewrite E1 in R. apply R.
  rewrite (decode_rr v b a t i) by assumption. by apply E.
Qed.

Lemma run_ri10 sse41 n s v k a t ws i val : at_code s (ri10 v k a t :: ws) ->
  0 <= v < 256 -> in_s 10 k -> 0 <= a < 128 -> 0 <= t < 128 -> (3, v, i) ∈ instructions -> in_u 128 val ->
  (let op := ri10 v k a t in op_get rt op = t -> op_get ra op = a -> op_get si10 op = k ->
   interp sse41 i s op = put s rt op val) ->
  exists s', iterations sse41 (S n) s = iterations sse41 n s' /\ at_code s' ws /\
    gpr s' = set (gpr s) t val /\ pc s' = pc s + 4 /\ rest s' = rest s.
Proof.
  intros H Hv Hk Ha Ht Hi Hval E. cbv zeta in E. destruct (fields_ri10 v k a t Hv Hk Ha Ht) as (E1 & E2 & E3 & _).
  pose proof (run_put sse41 n s (ri10 v k a t) ws rt val H eq_refl Hval) as R. rewrite E1 in R. apply R.
  rewrite (decode_ri10 v k a t i) by assumption. by apply E.
Qed.

Lemma run_rrr sse41 n s v t b a c ws i val : at_code s (rrr v t b a c :: ws) ->
  0 <= v < 16 -> 0 <= t < 128 -> 0 <= b < 128 -> 0 <= a < 128 -> 0 <= c < 128 -> (7, v, i) ∈ instructions ->
  in_u 128 val ->
  (let op := rrr v t b a c in op_get rt4 op = t -> op_get rb op = b -> op_get ra op = a -> op_get rc op = c ->
   interp sse41 i s op = put s rt4 op val) ->
  exists s', iterations sse41 (S n) s = iterations sse41 n s' /\ at_code s' ws /\
    gpr s' = set (gpr s) t val /\ pc s' = pc s + 4 /\ rest s' = rest s.
Proof.
  intros H Hv Ht Hb Ha Hc Hi Hval E. cbv zeta in E.
  destruct (fields_rrr v t b a c Ht Hb Ha Hc) as (E1 & E2 & E3 & E4 & _).
  pose proof (run_put sse41 n s (rrr v t b a c) ws rt4 val H eq_refl Hval) as R. rewrite E1 in R. apply R.
  rewrite (decode_rrr v t b a c i) by assumption. by apply E.
Qed.

(** The program ran to its end: no instruction is left. *)
Lemma at_code_gpr s ws k : at_code s ws -> in_u 128 (get (gpr s) k).
Proof. intros H. apply get_Forall; [apply in_u_0; lia|apply H]. Qed.

Lemma at_code_len s ws : at_code s ws -> length (gpr s) = 128%nat.
Proof. intros H. apply H. Qed.

(** Membership in the instruction list. *)
Ltac in_table := solve [unfold instructions; repeat (apply list_elem_of_here || apply list_elem_of_further)].

(** Reading back through the assignments of a program. *)
Lemma get_set_same g k v : length g = 128%nat -> 0 <= k < 128 -> get (set g k v) k = v.
Proof. intros Hl Hk. apply get_set_eq. rewrite Hl. lia. Qed.

Lemma set_set g k v v' : set (set g k v) k v' = set g k v'.
Proof. unfold set. apply list_insert_insert_eq. Qed.

(** What the lemmas on one instruction ask for apart from its effect. *)
Ltac side := try solve [lia | in_table | unfold in_s; lia | unfold_simd; auto with spu].

(** A word is made of its four bytes. *)
Lemma word_of_bytes x : in_u 32 x -> pack_lanes 8 [lane 8 0 x; lane 8 1 x; lane 8 2 x; lane 8 3 x] = x.
Proof.
  intros Hx. apply (bits_inj_u 32); [lia|by apply (pack_lanes_in_u 8 [_; _; _; _])|done|]. intros n Hn.
  rewrite testbit_pack_lanes by lia. pose proof (Z.mod_pos_bound n 8 ltac:(lia)). pose proof (Z.div_mod n 8 ltac:(lia)).
  assert (n / 8 = 0 \/ n / 8 = 1 \/ n / 8 = 2 \/ n / 8 = 3) as Hq by (Z.to_euclidean_division_equations; lia).
  destruct Hq as [E | [E | [E | E]]]; rewrite E in *; cbv [get nth Z.to_nat Pos.to_nat Pos.iter_op Nat.add];
    rewrite testbit_lane by lia; replace (n mod 8 <? 8) with true by lia; cbn [andb]; f_equal; lia.
Qed.

Lemma spu_start_fields ws regs : let s := spu_start ws regs in
  pc s = 0 /\ ls s = ls_of_words ws /\ state s = 0 /\ spu_decoder s = _static.
Proof.
  unfold spu_start. set (s0 := spu_init (ls_of_words ws)).
  assert (pc s0 = 0 /\ ls s0 = ls_of_words ws /\ state s0 = 0 /\ spu_decoder s0 = _static) as H0 by done.
  revert H0. generalize s0. induction regs as [|[k v] regs IH]; intros s H; [done|]. by apply IH.
Qed.

(** Words laid out from address 0 are code. *)
Lemma at_code_start ws regs : Forall (in_u 32) ws -> 4 * Z.of_nat (length ws) <= SPU_LS_SIZE ->
  forallb (fun '(_, v) => (0 <=? v) && (v <? 2 ^ 128)) regs = true -> at_code (spu_start ws regs) ws.
Proof.
  intros Hw Hl Hr. destruct (spu_start_fields ws regs) as (Ep & El & Es & Ed).
  split; [by apply wf_spu_start|done|done| |rewrite Ep; lia]. rewrite Ep, El. intros k Hk.
  rewrite <- (word_of_bytes (get ws k)) by (apply get_Forall; [apply in_u_0; lia|done]).
  assert (forall j, 0 <= j < 4 -> (4 * k + j) mod 4 = j /\ (4 * k + j) / 4 = k) as H
    by (intros; Z.to_euclidean_division_equations; lia).
  pose proof (H 0) as H0. rewrite Z.add_0_r in H0. unfold be32, ls_of_words. rewrite Z.add_0_l.
  rewrite (proj1 (H 3 ltac:(lia))), (proj2 (H 3 ltac:(lia))), (proj1 (H 2 ltac:(lia))), (proj2 (H 2 ltac:(lia))),
    (proj1 (H 1 ltac:(lia))), (proj2 (H 1 ltac:(lia))), (proj1 (H0 ltac:(lia))), (proj2 (H0 ltac:(lia))). done.
Qed.
