(* ===== verification/SpuQuad.v ===== *)
(** SPU quadword shifts and rotates.

    The handlers move bytes by reading at an offset in an array of vectors, and bits with two 64-bit
    shifts; [spu_quad_shifts] gives each of them as one operation on the 128-bit register.  The
    programs are the usual sequences that shift or rotate a register by a variable number of bits. *)

From Stdlib Require Import ZArith Lia Bool.
From stdpp Require Import base tactics option list numbers.
From S2P Require Import Prelude BitField Simd SpuOpcodes SpuInterp SpuWf SpuRun.
Import BitField Simd SpuOp Spu SpuWf SpuRun.
Local Open Scope Z_scope.
Local Open Scope word_scope.

Module SpuQuad.

Definition shl128 (a n : Z) : Z := wrap 128 (Z.shiftl a n).
Definition shr128 (a n : Z) : Z := Z.shiftr a n.
Definition rot128 (a n : Z) : Z := rotl 128 a n.

(** The preferred slot: the most significant word. *)
Definition slot (v : Z) : Z := lane 32 3 v.

(** [shlqbybi t,a,n; shlqbi t,t,n] *)
Definition prog_shl (t a n : Z) : list Z := [rr 0x1cf n a t; rr 0x1db n t t].
(** [rotqbybi t,a,n; rotqbi t,t,n] *)
Definition prog_rot (t a n : Z) : list Z := [rr 0x1cc n a t; rr 0x1d8 n t t].
(** [sfi x,n,7; rotqmbybi t,a,x; sfi x,n,0; rotqmbi t,t,x] *)
Definition prog_shr (t a n x : Z) : list Z :=
  [ri10 0xc 7 n x; rr 0x1cd x a t; ri10 0xc 0 n x; rr 0x1d9 x t t].

End SpuQuad.
Import SpuQuad.

Section quad.
Context (s : spu_thread) (op : Z) (Hs : wf s).
Let a := r s ra op.
Let n := slot (r s rb op).
Let i := op_get i7 op.

Let Ha : in_u 128 a.
Proof. by apply r_in_u. Qed.

(** Bounds of the reduced counts, the vector lemmas, and equal counts. *)
Ltac quad :=
  rewrite ?land_7, ?land_15, ?land_31, ?Z.shiftr_div_pow2 by lia; fold a; fold n; fold i;
  unfold put; do 2 f_equal; unfold shl128, shr128, rot128;
  match goal with |- context [?x mod ?m] => pose proof (Z.mod_pos_bound x m ltac:(lia)) end;
  rewrite ?loadu_shl, ?loadu_shr, ?loadu_rot, ?shl_64, ?shr_64, ?rot_64 by (done || lia).

Lemma SHLQBY_val : SHLQBY s op = put s rt op (shl128 a (8 * (n mod 32))).
Proof. unfold SHLQBY; fold (slot (r s rb op)). by quad. Qed.
Lemma SHLQBYBI_val : SHLQBYBI s op = put s rt op (shl128 a (8 * (n / 8 mod 32))).
Proof. unfold SHLQBYBI; fold (slot (r s rb op)). by quad. Qed.
Lemma SHLQBI_val : SHLQBI s op = put s rt op (shl128 a (n mod 8)).
Proof. unfold SHLQBI; fold (slot (r s rb op)). by quad. Qed.
Lemma SHLQBYI_val : SHLQBYI s op = put s rt op (shl128 a (8 * (i mod 32))).
Proof. unfold SHLQBYI. by quad. Qed.
Lemma SHLQBII_val : SHLQBII s op = put s rt op (shl128 a (i mod 8)).
Proof. unfold SHLQBII. by quad. Qed.
Lemma ROTQBY_val : ROTQBY s op = put s rt op (rot128 a (8 * (n mod 16))).
Proof. unfold ROTQBY; fold (slot (r s rb op)). by quad. Qed.
Lemma ROTQBYBI_val : ROTQBYBI s op = put s rt op (rot128 a (8 * (n / 8 mod 16))).
Proof. unfold ROTQBYBI; fold (slot (r s rb op)). by quad. Qed.
Lemma ROTQBI_val : ROTQBI s op = put s rt op (rot128 a (n mod 8)).
Proof. unfold ROTQBI; fold (slot (r s rb op)). quad. f_equal. by apply (sgn_mod 32 3). Qed.
Lemma ROTQBYI_val : ROTQBYI s op = put s rt op (rot128 a (8 * (i mod 16))).
Proof. unfold ROTQBYI. by quad. Qed.
Lemma ROTQBII_val : ROTQBII s op = put s rt op (rot128 a (i mod 8)).
Proof. unfold ROTQBII. by quad. Qed.
Lemma ROTQMBY_val : ROTQMBY s op = put s rt op (shr128 a (8 * (- n mod 32))).
Proof. unfold ROTQMBY; fold (slot (r s rb op)). quad. do 2 f_equal. by apply (wrap_mod 32 5). Qed.
Lemma ROTQMBYBI_val : ROTQMBYBI s op = put s rt op (shr128 a (8 * (- (n / 8) mod 32))).
Proof. unfold ROTQMBYBI; fold (slot (r s rb op)). quad. do 2 f_equal. by apply (wrap_mod 32 5). Qed.
Lemma ROTQMBI_val : ROTQMBI s op = put s rt op (shr128 a (- n mod 8)).
Proof. unfold ROTQMBI; fold (slot (r s rb op)). quad. f_equal. by apply (sgn_opp_mod 32 3). Qed.
Lemma ROTQMBYI_val : ROTQMBYI s op = put s rt op (shr128 a (8 * (- i mod 32))).
Proof. unfold ROTQMBYI. quad. do 2 f_equal. by apply (wrap_mod 32 5). Qed.
Lemma ROTQMBII_val : ROTQMBII s op = put s rt op (shr128 a (- i mod 8)).
Proof. unfold ROTQMBII. quad. f_equal. by apply (wrap_mod 32 3). Qed.

End quad.

Lemma shl128_shl128 a m n : 0 <= m -> 0 <= n -> shl128 (shl128 a m) n = shl128 a (m + n).
Proof.
  intros Hm Hn. unfold shl128. rewrite <- (Z.shiftl_shiftl a m n) by lia. rewrite !(Z.shiftl_mul_pow2 _ n) by lia.
  apply wrap_mul_l. lia.
Qed.

Lemma shl128_in_u a n : in_u 128 (shl128 a n).
Proof. by apply wrap_in_u. Qed.
Lemma rot128_in_u a n : in_u 128 (rot128 a n).
Proof. by apply wrap_in_u. Qed.
Lemma shr128_in_u a n : 0 <= n -> in_u 128 a -> in_u 128 (shr128 a n).
Proof. intros. by apply shiftr_in_u. Qed.

(** C27: the fifteen quadword shift and rotate instructions, which the interpreter implements with
    unaligned reads and pairs of 64-bit shifts, each perform one shift or rotation of the 128-bit register, with the
    count taken from the bits of the preferred slot (or of the immediate) that the instruction uses; the
    right shifts use its negation. *)
Theorem spu_quad_shifts s op (H : wf s) :
  let a := r s ra op in let n := slot (r s rb op) in let i := op_get i7 op in
  SHLQBY s op = put s rt op (shl128 a (8 * (n mod 32))) /\
  SHLQBYBI s op = put s rt op (shl128 a (8 * (n / 8 mod 32))) /\
  SHLQBI s op = put s rt op (shl128 a (n mod 8)) /\
  SHLQBYI s op = put s rt op (shl128 a (8 * (i mod 32))) /\
  SHLQBII s op = put s rt op (shl128 a (i mod 8)) /\
  ROTQBY s op = put s rt op (rot128 a (8 * (n mod 16))) /\
  ROTQBYBI s op = put s rt op (rot128 a (8 * (n / 8 mod 16))) /\
  ROTQBI s op = put s rt op (rot128 a (n mod 8)) /\
  ROTQBYI s op = put s rt op (rot128 a (8 * (i mod 16))) /\
  ROTQBII s op = put s rt op (rot128 a (i mod 8)) /\
  ROTQMBY s op = put s rt op (shr128 a (8 * (- n mod 32))) /\
  ROTQMBYBI s op = put s rt op (shr128 a (8 * (- (n / 8) mod 32))) /\
  ROTQMBI s op = put s rt op (shr128 a (- n mod 8)) /\
  ROTQMBYI s op = put s rt op (shr128 a (8 * (- i mod 32))) /\
  ROTQMBII s op = put s rt op (shr128 a (- i mod 8)).
Proof.
  repeat split; auto using SHLQBY_val, SHLQBYBI_val, SHLQBI_val, SHLQBYI_val, SHLQBII_val, ROTQBY_val,
    ROTQBYBI_val, ROTQBI_val, ROTQBYI_val, ROTQBII_val, ROTQMBY_val, ROTQMBYBI_val, ROTQMBI_val,
    ROTQMBYI_val, ROTQMBII_val.
Qed.

Lemma spu_quad_shifts_witness :
  let s := spu_start [] [(1, 0x0123456789abcdef)] in
  SHLQBYI s (rr 0x1ff 4 1 2) = put s rt (rr 0x1ff 4 1 2) 0x0123456789abcdef00000000.
Proof.
  intros s. destruct (spu_quad_shifts s (rr 0x1ff 4 1 2)) as (_ & _ & _ & E & _);
    [by apply wf_spu_start|]. exact E.
Defined.

#[export] Hint Resolve shl128_in_u rot128_in_u : spu.

Lemma prog_shl_ok sse41 s t a n : at_code s (prog_shl t a n) ->
  0 <= t < 128 -> 0 <= a < 128 -> 0 <= n < 128 -> t <> n ->
  exists s', iterations sse41 2 s = Ret true s' /\
    gpr s' = set (gpr s) t (shl128 (get (gpr s) a) (slot (get (gpr s) n) mod 256)) /\
    pc s' = pc s + 8 /\ rest s' = rest s.
Proof.
  intros H Ht Ha Hn Htn. set (g := gpr s). set (c := slot (get g n)). pose proof (at_code_len s _ H) as Hl.
  destruct (run_rr sse41 1 s 0x1cf n a t _ SpuOp.SHLQBYBI (shl128 (get g a) (8 * (c / 8 mod 32))) H)
    as (s1 & R1 & H1 & G1 & P1 & L1); side.
  { intros op E1 E2 E3 _. cbn [interp]. rewrite SHLQBYBI_val by apply H. unfold r. by rewrite E2, E3. }
  destruct (run_rr sse41 0 s1 0x1db n t t _ SpuOp.SHLQBI (shl128 (shl128 (get g a) (8 * (c / 8 mod 32))) (c mod 8)) H1)
    as (s2 & R2 & H2 & G2 & P2 & L2); side.
  { intros op E1 E2 E3 _. cbn [interp]. rewrite SHLQBI_val by apply H1. unfold r. rewrite E2, E3, G1.
    by rewrite get_set_same, get_set_ne by (done || lia). }
  exists s2. rewrite R1, R2. split; [done|]. split; [|by rewrite P2, P1, L2, L1; split; [lia|]].
  rewrite G2, G1, set_set, shl128_shl128 by (Z.to_euclidean_division_equations; lia).
  do 2 f_equal. Z.to_euclidean_division_equations; lia.
Qed.

Lemma prog_rot_ok sse41 s t a n : at_code s (prog_rot t a n) ->
  0 <= t < 128 -> 0 <= a < 128 -> 0 <= n < 128 -> t <> n ->
  exists s', iterations sse41 2 s = Ret true s' /\
    gpr s' = set (gpr s) t (rot128 (get (gpr s) a) (slot (get (gpr s) n) mod 128)) /\
    pc s' = pc s + 8 /\ rest s' = rest s.
Proof.
  intros H Ht Ha Hn Htn. set (g := gpr s). set (c := slot (get g n)). pose proof (at_code_len s _ H) as Hl.
  destruct (run_rr sse41 1 s 0x1cc n a t _ SpuOp.ROTQBYBI (rot128 (get g a) (8 * (c / 8 mod 16))) H)
    as (s1 & R1 & H1 & G1 & P1 & L1); side.
  { intros op E1 E2 E3 _. cbn [interp]. rewrite ROTQBYBI_val by apply H. unfold r. by rewrite E2, E3. }
  destruct (run_rr sse41 0 s1 0x1d8 n t t _ SpuOp.ROTQBI (rot128 (rot128 (get g a) (8 * (c / 8 mod 16))) (c mod 8)) H1)
    as (s2 & R2 & H2 & G2 & P2 & L2); side.
  { intros op E1 E2 E3 _. cbn [interp]. rewrite ROTQBI_val by apply H1. unfold r. rewrite E2, E3, G1.
    by rewrite get_set_same, get_set_ne by (done || lia). }
  exists s2. rewrite R1, R2. split; [done|]. split; [|by rewrite P2, P1, L2, L1; split; [lia|]].
  unfold rot128 in *. rewrite G2, G1, set_set, rotl_rotl; [|lia|by eapply at_code_gpr|..];
    [|Z.to_euclidean_division_equations; lia..].
  do 2 f_equal. Z.to_euclidean_division_equations; lia.
Qed.

(** [sfi]: the count subtracted from a constant. *)
Lemma slot_sub k v : slot (mm_sub 32 (mm_set1 32 k) v) = u32 (k - slot v).
Proof.
  unfold slot, mm_sub, mm_set1. rewrite !lane_build by lane_side. unfold wrap.
  by rewrite Zminus_mod_idemp_l.
Qed.

Lemma count_shr c : 0 <= c ->
  8 * (- (u32 (7 - c) / 8) mod 32) + - u32 (0 - c) mod 8 = c mod 256.
Proof.
  intros Hc. unfold wrap. Z.to_euclidean_division_equations; lia.
Qed.

Lemma prog_shr_ok sse41 s t a n x : at_code s (prog_shr t a n x) ->
  0 <= t < 128 -> 0 <= a < 128 -> 0 <= n < 128 -> 0 <= x < 128 -> t <> n -> x <> t -> x <> a -> x <> n ->
  let v := shr128 (get (gpr s) a) (slot (get (gpr s) n) mod 256) in
  exists s', iterations sse41 4 s = Ret true s' /\
    get (gpr s') t = v /\ (forall k, 0 <= k < 128 -> k <> t -> k <> x -> get (gpr s') k = get (gpr s) k) /\
    pc s' = pc s + 16 /\ rest s' = rest s.
Proof.
  intros H Ht Ha Hn Hx Htn Hxt Hxa Hxn v. set (g := gpr s) in *. set (c := slot (get g n)) in *.
  pose proof (at_code_len s _ H) as Hl. set (sub k := mm_sub 32 (mm_set1 32 k) (get g n)).
  assert (forall k, in_u 128 (sub k)) as Hsub by (intros; apply build_in_u; lane_side).
  destruct (run_ri10 sse41 3 s 0xc 7 n x _ SpuOp.SFI (sub 7) H) as (s1 & R1 & H1 & G1 & P1 & L1); side.
  { intros op E1 E2 E3. cbn [interp]. unfold SFI, r. by rewrite E2, E3. }
  set (c1 := u32 (7 - c)). set (v1 := shr128 (get g a) (8 * (- (c1 / 8) mod 32))).
  assert (in_u 128 v1) as Hv1.
  { apply shr128_in_u; [|by eapply at_code_gpr]. Z.to_euclidean_division_equations; lia. }
  destruct (run_rr sse41 2 s1 0x1cd x a t _ SpuOp.ROTQMBYBI v1 H1) as (s2 & R2 & H2 & G2 & P2 & L2); side.
  { intros op E1 E2 E3 _. cbn [interp]. rewrite ROTQMBYBI_val by apply H1. unfold r. rewrite E2, E3, G1.
    rewrite get_set_same, get_set_ne by (done || lia). unfold sub. by rewrite slot_sub. }
  destruct (run_ri10 sse41 1 s2 0xc 0 n x _ SpuOp.SFI (sub 0) H2) as (s3 & R3 & H3 & G3 & P3 & L3); side.
  { intros op E1 E2 E3. cbn [interp]. unfold SFI, r. by rewrite E2, E3, G2, G1, !get_set_ne by lia. }
  assert (length (gpr s2) = 128%nat) as Hl2 by apply H2.
  assert (in_u 128 v) as Hv by (apply shr128_in_u; [Z.to_euclidean_division_equations; lia|by eapply at_code_gpr]).
  assert (v = shr128 v1 (- u32 (0 - c) mod 8)) as Ev.
  { unfold v, v1, shr128. rewrite Z.shiftr_shiftr by (Z.to_euclidean_division_equations; lia).
    unfold c1. by rewrite count_shr by (apply lane_in_u; lia). }
  destruct (run_rr sse41 0 s3 0x1d9 x t t _ SpuOp.ROTQMBI v H3) as (s4 & R4 & H4 & G4 & P4 & L4); side.
  { intros op E1 E2 E3 _. cbn [interp]. rewrite ROTQMBI_val by apply H3. unfold r. rewrite E2, E3, G3, Ev.
    rewrite get_set_same, get_set_ne, G2, get_set_same by (done || lia || by rewrite G1, length_set).
    unfold sub. by rewrite slot_sub. }
  exists s4. rewrite R1, R2, R3, R4, P4, P3, P2, P1, L4, L3, L2, L1, G4, G3. split; [done|].
  split; [apply get_set_same; [by rewrite length_set|done]|]. split; [|split; [lia|done]].
  intros k Hk Hkt Hkx. by rewrite !get_set_ne, G2, G1, !get_set_ne by lia.
Qed.

(** The usual instruction sequences for shifts by a variable number of bits compute, when run from local storage
    by the interpreter, the 128-bit shift left by the count modulo 256, the rotation by the count
    modulo 128, and the shift right by the count modulo 256 (whose byte count is negated and rounded by
    subtracting from 7); they change no other register than the target (and the scratch register), and
    not local storage. *)
Theorem spu_variable_shift sse41 s t a n x
  (Ht : 0 <= t < 128) (Ha : 0 <= a < 128) (Hn : 0 <= n < 128) (Hx : 0 <= x < 128)
  (Htn : t <> n) (Hxt : x <> t) (Hxa : x <> a) (Hxn : x <> n) :
  let v := get (gpr s) a in let c := slot (get (gpr s) n) in
  (at_code s (prog_shl t a n) -> exists s', old_interpreter sse41 2 s = Ret true s' /\
     gpr s' = set (gpr s) t (shl128 v (c mod 256)) /\ pc s' = pc s + 8 /\ rest s' = rest s) /\
  (at_code s (prog_rot t a n) -> exists s', old_interpreter sse41 2 s = Ret true s' /\
     gpr s' = set (gpr s) t (rot128 v (c mod 128)) /\ pc s' = pc s + 8 /\ rest s' = rest s) /\
  (at_code s (prog_shr t a n x) -> exists s', old_interpreter sse41 4 s = Ret true s' /\
     get (gpr s') t = shr128 v (c mod 256) /\
     (forall k, 0 <= k < 128 -> k <> t -> k <> x -> get (gpr s') k = get (gpr s) k) /\
     pc s' = pc s + 16 /\ rest s' = rest s).
Proof.
  unfold old_interpreter. repeat split; intros H; rewrite (ac_decoder _ _ H);
    [by apply prog_shl_ok|by apply prog_rot_ok|by apply prog_shr_ok].
Qed.

(** [0x8000...0] shifted right by 100. *)
Lemma spu_variable_shift_witness :
  exists s', old_interpreter true 4 (spu_start (prog_shr 3 4 5 6) [(4, 2 ^ 127); (5, 100 * 2 ^ 96)]) = Ret true s' /\
    get (gpr s') 3 = 2 ^ 27.
Proof.
  set (s := spu_start _ _).
  destruct (spu_variable_shift true s 3 4 5 6) as (_ & _ & H); [lia..|].
  destruct H as (s' & R & E & _); [by apply at_code_start; [repeat constructor; vm_compute|..]|].
  exists s'. split; [exact R|]. rewrite E. vm_compute. reflexivity.
Defined.
