(* ===== verification/SpuArith.v ===== *)
(** SPU arithmetic: carries and borrows, multiplication, shifts and rotates of words and halfwords.

    Each handler is first brought to the form of an assignment of [build w f], then the group is related to
    exact integer arithmetic.  Programs made of several instructions (a 128-bit addition, a 32-bit
    multiplication) run from local storage through the interpreter loop. *)

From Stdlib Require Import ZArith Lia Bool.
From stdpp Require Import base tactics option list numbers.
From S2P Require Import Prelude BitField Simd SpuOpcodes SpuInterp SpuWf SpuRun SpuQuad.
Import BitField Simd SpuOp Spu SpuWf SpuRun SpuQuad.
Local Open Scope Z_scope.
Local Open Scope word_scope.

Module SpuArith.

(** Lane [i] (of width [w]) of the register the instruction names in field [f], before it runs ... *)
Definition arg (w : Z) (s : spu_thread) (op : Z) (f : spu_field) (i : Z) : Z := lane w i (r s f op).

(** ... and of its target register after it ran and returned [true]. *)
Definition result (w : Z) (o : outcome) (f : spu_field) (op i : Z) : option Z :=
  match o with Ret true s => Some (lane w i (r s f op)) | _ => None end.

(** [cg t,a,b; shlqbyi t,t,4; cgx t,a,b; shlqbyi t,t,4; cgx t,a,b; shlqbyi t,t,4; addx t,a,b] *)
Definition prog_add128 (t a b : Z) : list Z :=
  [rr 0xc2 b a t; rr 0x1ff 4 t t; rr 0x342 b a t; rr 0x1ff 4 t t; rr 0x342 b a t; rr 0x1ff 4 t t; rr 0x340 b a t].

End SpuArith.
Import SpuArith.

Lemma result_put w s f op v i : wf s -> is_reg f = true -> result w (put s f op v) f op i = Some (lane w i v).
Proof. intros Hs Hf. unfold result, put. by rewrite r_set_r_eq by (done || apply Hs). Qed.

Lemma result_build w s f op g i : wf s -> is_reg f = true -> width w -> 0 <= i < 128 / w ->
  result w (put s f op (build w g)) f op i = Some (wrap w (g i)).
Proof. intros. by rewrite result_put, lane_build. Qed.

(** Lanes of the vector operations. *)
Ltac lanes :=
  repeat first
    [ rewrite lane_build by lane_side
    | rewrite lane_land by lia
    | rewrite lane_lor by lia
    | rewrite lane_lxor by lia ].

Lemma land_1 x : x .& 1 = x mod 2.
Proof. apply (Z.land_ones x 1). lia. Qed.

Lemma bnot_lxor w x : 0 <= w -> in_u w x -> bnot w x = x .^ bnot w 0.
Proof.
  intros Hw Hx. apply (bits_inj_u w); auto with word. intros i Hi. autorewrite with bits.
  replace (i <? w) with true by lia. by destruct (Z.testbit x i).
Qed.

(** ** Carries and borrows *)

Section carry.
Context (s : spu_thread) (op : Z) (Hs : wf s).
Let a := arg 32 s op ra.
Let b := arg 32 s op rb.
Let t := arg 32 s op rt.

Lemma CG_build : CG s op = put s rt op (build 32 (fun i => b2z (2 ^ 32 <=? a i + b i))).
Proof.
  unfold CG, mm_xor, mm_srli, mm_cmpgt, mm_set1. unfold put. do 2 f_equal. apply build_ext; [unfold width; lia|].
  intros i Hi. f_equal. lanes. fold (arg 32 s op ra i) (arg 32 s op rb i). fold (a i) (b i).
  assert (in_u 32 (a i)) as Ha by (apply lane_in_u; lia). assert (in_u 32 (b i)) as Hb by (apply lane_in_u; lia).
  change (wrap 32 0x80000000) with (2 ^ (32 - 1)).
  assert (a i .^ wrap 32 0x7fffffff = bnot 32 (a i) .^ 2 ^ (32 - 1)) as ->.
  { change (wrap 32 0x7fffffff) with (2 ^ (32 - 1) .^ bnot 32 0).
    rewrite (bnot_lxor 32 (a i)), Z.lxor_assoc by (done || lia). f_equal. }
  rewrite flip_sign, sgn_mask, bnot_val by (auto with word; lia).
  replace (2 ^ 32 - 1 - a i <? b i) with (2 ^ 32 <=? a i + b i) by lia. by destruct (2 ^ 32 <=? a i + b i).
Qed.

Lemma BG_build sse41 : BG sse41 s op = put s rt op (build 32 (fun i => b2z (a i <=? b i))).
Proof.
  unfold BG, mm_add, mm_set1. rewrite gv_gtu32_mask. unfold put, mask_of. do 2 f_equal.
  apply build_ext; [unfold width; lia|]. intros i Hi. lanes. fold (arg 32 s op ra i) (arg 32 s op rb i).
  fold (a i) (b i). rewrite sgn_mask by lia. destruct (Z.ltb_spec (b i) (a i)), (Z.leb_spec (a i) (b i)); done || lia.
Qed.

Lemma ADDX_build : ADDX s op = put s rt op (build 32 (fun i => a i + b i + t i mod 2)).
Proof.
  unfold ADDX, gv_add32, mm_add, put. do 2 f_equal. apply build_ext; [unfold width; lia|]. intros i Hi.
  rewrite from32p_set1. unfold mm_set1. lanes. change (wrap 32 1) with 1. rewrite land_1.
  rewrite wrap_add_l by lia. done.
Qed.

Lemma SFX_build : SFX s op = put s rt op (build 32 (fun i => b i - a i - (1 - t i mod 2))).
Proof.
  unfold SFX, gv_sub32, gv_andn, mm_sub, mm_andnot, put. do 2 f_equal. apply build_ext; [unfold width; lia|].
  intros i Hi. rewrite from32p_set1. unfold mm_set1. lanes. rewrite lane_bnot by (unfold width; lia).
  change (wrap 32 1) with 1. rewrite land_1. change (lane 32 i (r s rt op)) with (t i).
  assert (in_u 32 (t i)) as Ht by (apply lane_in_u; lia). rewrite bnot_val by (done || lia).
  replace ((2 ^ 32 - 1 - t i) mod 2) with (1 - t i mod 2) by (Z.to_euclidean_division_equations; lia).
  apply wrap_add_l. lia.
Qed.

(** The operands of the in-place loops are read from lanes not written yet. *)
Lemma lane_kept i v f : is_reg f = true -> lane 32 i v = lane 32 i (r s rt op) ->
  lane 32 i (r (set_r s rt op v) f op) = lane 32 i (r s f op).
Proof. intros Hf E. by apply lane_set_r; [apply Hs| | |]. Qed.

Lemma CGX_build : CGX s op = put s rt op (build 32 (fun i => (t i mod 2 + a i + b i) / 2 ^ 32)).
Proof.
  unfold CGX, put. f_equal. cbv zeta.
  rewrite (for_lanes_elem 32 4 s rt op (fun i s => Z.shiftr (u64 ((lane 32 i (r s rt op) .& 1) +
    lane 32 i (r s ra op) + lane 32 i (r s rb op))) 32)); [|unfold width; lia|done..|].
  - f_equal. apply build_ext; [unfold width; lia|]. intros i Hi. f_equal. rewrite land_1, Z.shiftr_div_pow2 by lia.
    change (lane 32 i (r s ra op)) with (a i). change (lane 32 i (r s rb op)) with (b i).
    change (lane 32 i (r s rt op)) with (t i).
    assert (in_u 32 (a i)) by (apply lane_in_u; lia). assert (in_u 32 (b i)) by (apply lane_in_u; lia).
    unfold in_u in *. rewrite wrap_small; [done|]. unfold in_u. Z.to_euclidean_division_equations; lia.
  - intros i v Hi E. by rewrite !lane_kept.
Qed.

Lemma BGX_build : BGX s op = put s rt op (build 32 (fun i => b2z (0 <=? b i - a i - (1 - t i mod 2)))).
Proof.
  unfold BGX, put. f_equal. cbv zeta.
  rewrite (for_lanes_elem 32 4 s rt op (fun i s => b2z (0 <=? s64 (lane 32 i (r s rb op) - lane 32 i (r s ra op) -
    (1 - (lane 32 i (r s rt op) .& 1)))))); [|unfold width; lia|done..|].
  - f_equal. apply build_ext; [unfold width; lia|]. intros i Hi. do 3 f_equal. rewrite land_1.
    change (lane 32 i (r s ra op)) with (a i). change (lane 32 i (r s rb op)) with (b i).
    change (lane 32 i (r s rt op)) with (t i).
    assert (in_u 32 (a i)) by (apply lane_in_u; lia). assert (in_u 32 (b i)) by (apply lane_in_u; lia).
    unfold in_u in *. apply sgn_small; [lia|]. unfold in_s. Z.to_euclidean_division_equations; lia.
  - intros i v Hi E. by rewrite !lane_kept.
Qed.

End carry.

(** Addition and subtraction with their carry and borrow instructions are exact on every word: the sum and
    the generated carry together are the sum of the operands (and of the low bit of the target, for
    the extended forms), and likewise the difference with the borrow, which is 0 when there is
    one.  This holds also when the target of [CGX] or [BGX], written word by word, is one of the operands. *)
Theorem spu_carry_borrow sse41 s op i (H : wf s) (Hi : 0 <= i < 4) :
  let a := arg 32 s op ra i in let b := arg 32 s op rb i in let c := arg 32 s op rt i mod 2 in
  (exists x y, result 32 (A s op) rt op i = Some x /\ result 32 (CG s op) rt op i = Some y /\
     a + b = x + 2 ^ 32 * y) /\
  (exists x y, result 32 (ADDX s op) rt op i = Some x /\ result 32 (CGX s op) rt op i = Some y /\
     a + b + c = x + 2 ^ 32 * y) /\
  (exists x y, result 32 (SF s op) rt op i = Some x /\ result 32 (BG sse41 s op) rt op i = Some y /\
     b - a = x - 2 ^ 32 * (1 - y)) /\
  (exists x y, result 32 (SFX s op) rt op i = Some x /\ result 32 (BGX s op) rt op i = Some y /\
     b - a - (1 - c) = x - 2 ^ 32 * (1 - y)).
Proof.
  intros a b c. rewrite CG_build, ADDX_build, CGX_build, BG_build, SFX_build, BGX_build by done.
  unfold A, SF, gv_add32, gv_sub32, mm_add, mm_sub.
  rewrite !result_build by (done || lane_side). fold a b. change (lane 32 i (r s ra op)) with a.
  change (lane 32 i (r s rb op)) with b. change (arg 32 s op rt i mod 2) with c.
  assert (in_u 32 a) as Ha by (apply lane_in_u; lia). assert (in_u 32 b) as Hb by (apply lane_in_u; lia).
  assert (0 <= c < 2) as Hc by (apply Z.mod_pos_bound; lia). unfold in_u in *.
  repeat split; eexists _, _; (split; [reflexivity|split; [reflexivity|]]).
  - destruct (Z.leb_spec (2 ^ 32) (a + b)); cbn [b2z]; word_lia.
  - rewrite (wrap_small 32 (_ / _)) by (unfold in_u; Z.to_euclidean_division_equations; lia). word_lia.
  - destruct (Z.leb_spec a b); cbn [b2z]; word_lia.
  - destruct (Z.leb_spec 0 (b - a - (1 - c))); cbn [b2z]; word_lia.
Qed.

(** [0xffffffff + 1]: the target is also an operand. *)
Lemma spu_carry_borrow_witness :
  exists x y, result 32 (A (spu_start [] [(1, 2 ^ 32 - 1); (2, 1)]) (rr 0xc0 2 1 1)) rt (rr 0xc0 2 1 1) 0 = Some x /\
    result 32 (CG (spu_start [] [(1, 2 ^ 32 - 1); (2, 1)]) (rr 0xc0 2 1 1)) rt (rr 0xc0 2 1 1) 0 = Some y /\
    2 ^ 32 = x + 2 ^ 32 * y.
Proof.
  destruct (spu_carry_borrow true (spu_start [] [(1, 2 ^ 32 - 1); (2, 1)]) (rr 0xc0 2 1 1) 0) as (E & _);
    [by apply wf_spu_start|lia|]. exact E.
Defined.

(** ** A 128-bit addition *)

Lemma lanes_sum v : in_u 128 v ->
  v = lane 32 0 v + 2 ^ 32 * lane 32 1 v + 2 ^ 64 * lane 32 2 v + 2 ^ 96 * lane 32 3 v.
Proof.
  intros Hv. assert (v = lane (2 * 64) 0 v) as E.
  { unfold lane. rewrite Z.mul_0_r, Z.shiftr_0_r, wrap_small; done. }
  rewrite E at 1. rewrite lane_halves by lia. change (2 * 0) with 0. change (0 + 1) with 1.
  rewrite !lane_64_of_32 by lia. change (2 * 0) with 0. change (0 + 1) with 1. change (2 * 1) with 2.
  change (2 + 1) with 3. lia.
Qed.

Lemma lane_shl4 i v : 0 <= i < 4 -> lane 32 i (shl128 v 32) = if i =? 0 then 0 else lane 32 (i - 1) v.
Proof.
  intros Hi. apply (bits_inj_u 32); [lia|apply lane_in_u; lia|destruct (i =? 0); [apply in_u_0; lia|apply lane_in_u; lia]|].
  intros n Hn. unfold shl128. rewrite testbit_lane, testbit_wrap, testbit_shiftl by lia.
  destruct (Z.eqb_spec i 0) as [->|].
  - rewrite Z.testbit_0_l. case_cmp; cbn [andb]; done.
  - rewrite testbit_lane by lia. case_cmp; cbn [andb]; f_equal; lia.
Qed.

(** One round: the carries move up one word, then [cgx] adds them in. *)
Definition carries (a b c : Z) : Z :=
  build 32 (fun i => (lane 32 i (shl128 c 32) mod 2 + lane 32 i a + lane 32 i b) / 2 ^ 32).

Lemma lane_carries a b c i : 0 <= i < 4 ->
  lane 32 i (carries a b c) = ((if i =? 0 then 0 else lane 32 (i - 1) c) mod 2 + lane 32 i a + lane 32 i b) / 2 ^ 32.
Proof.
  intros Hi. unfold carries. rewrite lane_build, lane_shl4 by lane_side.
  assert (in_u 32 (lane 32 i a)) by (apply lane_in_u; lia). assert (in_u 32 (lane 32 i b)) by (apply lane_in_u; lia).
  unfold in_u in *. apply wrap_small. unfold in_u. generalize (if i =? 0 then 0 else lane 32 (i - 1) c). intros x.
  Z.to_euclidean_division_equations; lia.
Qed.

Lemma add128_value a b : in_u 128 a -> in_u 128 b ->
  let c0 := build 32 (fun i => b2z (2 ^ 32 <=? lane 32 i a + lane 32 i b)) in
  let c := carries a b (carries a b c0) in
  build 32 (fun i => lane 32 i a + lane 32 i b + lane 32 i (shl128 c 32) mod 2) = wrap 128 (a + b).
Proof.
  intros Ha Hb c0 c. unfold wrap. apply (Z.mod_unique _ _
    ((lane 32 3 a + lane 32 3 b + lane 32 3 (shl128 c 32) mod 2) / 2 ^ 32)).
  { left. apply build_in_u. lane_side. }
  rewrite (lanes_sum a), (lanes_sum b) at 1 by done.
  set (v := build 32 _). rewrite (lanes_sum v) by (apply build_in_u; lane_side). unfold v.
  rewrite !lane_build, !lane_shl4 by lane_side. cbn [Z.eqb].
  change (1 - 1) with 0. change (2 - 1) with 1. change (3 - 1) with 2. unfold c.
  rewrite !lane_carries by lia. cbn [Z.eqb]. change (1 - 1) with 0. change (2 - 1) with 1.
  rewrite !lane_carries by lia. cbn [Z.eqb]. change (1 - 1) with 0. cbn [Z.eqb]. unfold c0. rewrite !lane_build by lane_side.
  assert (forall i, in_u 32 (lane 32 i a) /\ in_u 32 (lane 32 i b)) as H by (split; apply lane_in_u; lia).
  pose proof (H 0). pose proof (H 1). pose proof (H 2). pose proof (H 3). clear H v c c0 Ha Hb. unfold in_u in *.
  set (x0 := lane 32 0 a) in *. set (x1 := lane 32 1 a) in *. set (x2 := lane 32 2 a) in *. set (x3 := lane 32 3 a) in *.
  set (y0 := lane 32 0 b) in *. set (y1 := lane 32 1 b) in *. set (y2 := lane 32 2 b) in *. set (y3 := lane 32 3 b) in *.
  clearbody x0 x1 x2 x3 y0 y1 y2 y3.
  set (k1 := (x0 + y0) / 2 ^ 32).
  assert (wrap 32 (b2z (2 ^ 32 <=? x0 + y0)) = k1) as ->.
  { unfold k1. destruct (Z.leb_spec (2 ^ 32) (x0 + y0)); cbn [b2z]; word_lia. }
  assert ((0 mod 2 + x0 + y0) / 2 ^ 32 = k1) as -> by done.
  assert (0 <= k1 < 2) as Hk1 by (unfold k1; Z.to_euclidean_division_equations; lia).
  rewrite (Z.mod_small k1) by lia. set (k2 := (k1 + x1 + y1) / 2 ^ 32).
  assert (0 <= k2 < 2) as Hk2 by (unfold k2; Z.to_euclidean_division_equations; lia).
  rewrite (Z.mod_small k2) by lia. set (k3 := (k2 + x2 + y2) / 2 ^ 32).
  assert (0 <= k3 < 2) as Hk3 by (unfold k3; Z.to_euclidean_division_equations; lia).
  rewrite (Z.mod_small k3) by lia. unfold wrap. change (0 mod 2) with 0. rewrite Z.add_0_r.
  pose proof (Z.div_mod (x0 + y0) (2 ^ 32) ltac:(lia)) as E1. fold k1 in E1.
  pose proof (Z.div_mod (x1 + y1 + k1) (2 ^ 32) ltac:(lia)) as E2.
  pose proof (Z.div_mod (x2 + y2 + k2) (2 ^ 32) ltac:(lia)) as E3.
  pose proof (Z.div_mod (x3 + y3 + k3) (2 ^ 32) ltac:(lia)) as E4.
  replace ((x1 + y1 + k1) / 2 ^ 32) with k2 in E2 by (unfold k2; f_equal; lia).
  replace ((x2 + y2 + k2) / 2 ^ 32) with k3 in E3 by (unfold k3; f_equal; lia). lia.
Qed.

Lemma run_cg sse41 n s b a t ws : at_code s (rr 0xc2 b a t :: ws) -> 0 <= b < 128 -> 0 <= a < 128 -> 0 <= t < 128 ->
  exists s', iterations sse41 (S n) s = iterations sse41 n s' /\ at_code s' ws /\
    gpr s' = set (gpr s) t
      (build 32 (fun i => b2z (2 ^ 32 <=? lane 32 i (get (gpr s) a) + lane 32 i (get (gpr s) b)))) /\
    pc s' = pc s + 4 /\ rest s' = rest s.
Proof.
  intros H Hb Ha Ht. eapply run_rr with (i := SpuOp.CG); [exact H|side..|].
  intros op E1 E2 E3 _. cbn [interp]. rewrite CG_build by apply H. unfold arg, r. by rewrite E2, E3.
Qed.

(** [shlqbyi t,t,4; cgx t,a,b] *)
Lemma run_round sse41 n s b a t ws : at_code s (rr 0x1ff 4 t t :: rr 0x342 b a t :: ws) ->
  0 <= b < 128 -> 0 <= a < 128 -> 0 <= t < 128 -> t <> a -> t <> b ->
  exists s', iterations sse41 (S (S n)) s = iterations sse41 n s' /\ at_code s' ws /\
    gpr s' = set (gpr s) t (carries (get (gpr s) a) (get (gpr s) b) (get (gpr s) t)) /\
    pc s' = pc s + 8 /\ rest s' = rest s.
Proof.
  intros H Hb Ha Ht Hta Htb. pose proof (at_code_len _ _ H) as Hl.
  destruct (run_rr sse41 (S n) s 0x1ff 4 t t _ SpuOp.SHLQBYI (shl128 (get (gpr s) t) 32) H)
    as (s1 & R1 & H1 & G1 & P1 & L1); side.
  { intros op E1 E2 _ E4. cbn [interp]. rewrite SHLQBYI_val by apply H. unfold r. by rewrite E2, E4. }
  destruct (run_rr sse41 n s1 0x342 b a t _ SpuOp.CGX (carries (get (gpr s) a) (get (gpr s) b) (get (gpr s) t)) H1)
    as (s2 & R2 & H2 & G2 & P2 & L2); side; [apply build_in_u; lane_side| |].
  { intros op E1 E2 E3 _. cbn [interp]. rewrite CGX_build by apply H1. unfold arg, r. rewrite E1, E2, E3, G1.
    by rewrite get_set_same, !get_set_ne by (done || lia). }
  exists s2. rewrite R1, R2, G2, G1, set_set, P2, P1, L2, L1.
  split; [done|]. split; [exact H2|]. split; [done|]. split; [lia|done].
Qed.

(** C12: seven instructions that generate the carries of the four words, move them up a word at a time, and add
    them in, compute the 128-bit sum of two registers modulo [2 ^ 128]; run from local storage by the
    interpreter, they leave the thread as it was but for the target register, which gets the sum, and the
    program counter, which is past them.  The target register is neither of the operands (the sequence
    overwrites it before it has read them for the last time); the operands may be the same register.  The thread is
    well-formed, runs the static interpreter without pending state flags, and has the seven words at its program
    counter, inside local storage. *)
Theorem spu_add128 sse41 s t a b (H : at_code s (prog_add128 t a b))
  (Ht : 0 <= t < 128) (Ha : 0 <= a < 128) (Hb : 0 <= b < 128) (Hta : t <> a) (Htb : t <> b) :
  old_interpreter sse41 7 s =
    Ret true (with_pc (with_gpr s (set (gpr s) t (wrap 128 (get (gpr s) a + get (gpr s) b)))) (pc s + 28)).
Proof.
  unfold old_interpreter. rewrite (ac_decoder _ _ H). pose proof (at_code_len _ _ H) as Hl.
  pose proof (at_code_gpr _ _ a H) as Hva. pose proof (at_code_gpr _ _ b H) as Hvb.
  destruct (run_cg sse41 6 s b a t _ H) as (s1 & R1 & H1 & G1 & P1 & L1); [done..|].
  destruct (run_round sse41 4 s1 b a t _ H1) as (s2 & R2 & H2 & G2 & P2 & L2); [done..|].
  destruct (run_round sse41 2 s2 b a t _ H2) as (s3 & R3 & H3 & G3 & P3 & L3); [done..|].
  rewrite G2, G1 in G3. rewrite !set_set, !get_set_same, !(get_set_ne _ t) in G3
    by (rewrite ?length_set; done || lia).
  set (c := carries _ _ _) in G3.
  destruct (run_rr sse41 1 s3 0x1ff 4 t t _ SpuOp.SHLQBYI (shl128 c 32) H3)
    as (s4 & R4 & H4 & G4 & P4 & L4); side.
  { intros op E1 E2 _ E4. cbn [interp]. rewrite SHLQBYI_val by apply H3. unfold r. rewrite E2, E4, G3.
    by rewrite get_set_same. }
  destruct (run_rr sse41 0 s4 0x340 b a t _ SpuOp.ADDX (wrap 128 (get (gpr s) a + get (gpr s) b)) H4)
    as (s5 & R5 & H5 & G5 & P5 & L5); side; [by apply wrap_in_u| |].
  { intros op E1 E2 E3 _. cbn [interp]. rewrite ADDX_build by apply H4. unfold arg, r. rewrite E1, E2, E3, G4, G3.
    rewrite set_set, get_set_same, !get_set_ne by (done || lia). unfold put. do 2 f_equal. by apply add128_value. }
  rewrite R1, R2, R3, R4, R5. cbn [iterations]. f_equal. apply rest_eq; [|lia|congruence].
  by rewrite G5, G4, G3, !set_set.
Qed.

Lemma spu_add128_witness :
  exists s', old_interpreter false 7 (spu_start (prog_add128 3 4 5) [(4, 2 ^ 127 + 2 ^ 96 - 1); (5, 2 ^ 127 + 1)]) = Ret true s' /\
    get (gpr s') 3 = 2 ^ 96.
Proof.
  rewrite (spu_add128 false (spu_start (prog_add128 3 4 5) [(4, 2 ^ 127 + 2 ^ 96 - 1); (5, 2 ^ 127 + 1)]) 3 4 5);
    [|by apply at_code_start; [repeat constructor; vm_compute|..]|lia..].
  eexists. split; [reflexivity|]. vm_compute. reflexivity.
Defined.
