(* ===== verification/SpuMul.v ===== *)
(** SPU multiplication: the 16-bit multiplications of SPUInterpreter.cpp, which combine [pmaddwd], [pmullw] and
    [pmulhw] with shifts and masks, against exact products, and the sequence that multiplies 32-bit words. *)

From Stdlib Require Import ZArith Lia Bool.
From stdpp Require Import base tactics option list numbers.
From S2P Require Import Prelude BitField Simd SpuOpcodes SpuInterp SpuWf SpuRun SpuQuad SpuArith.
Import BitField Simd SpuOp Spu SpuWf SpuRun SpuQuad SpuArith.
Local Open Scope Z_scope.
Local Open Scope word_scope.

Module SpuMul.

(** [mpyh t,a,b; mpyh x,b,a; a t,t,x; mpyu x,a,b; a t,t,x] *)
Definition prog_mul32 (t a b x : Z) : list Z :=
  [rr 0x3c5 b a t; rr 0x3c5 a b x; rr 0xc0 x t t; rr 0x3cc b a x; rr 0xc0 x t t].

(** The word-wise product modulo [2 ^ 32]. *)
Definition mul32 (a b : Z) : Z := build 32 (fun i => lane 32 i a * lane 32 i b).

End SpuMul.
Import SpuMul.

(** ** Halfwords of words *)

Lemma half_lo i v : 0 <= i -> lane 16 (2 * i) v = lane 32 i v mod 2 ^ 16.
Proof.
  intros Hi. unfold lane. replace (16 * (2 * i)) with (32 * i) by lia.
  symmetry. apply (wrap_wrap_le 16 32). lia.
Qed.

Lemma half_hi i v : 0 <= i -> lane 16 (2 * i + 1) v = lane 32 i v / 2 ^ 16.
Proof.
  intros Hi. pose proof (lane_32_of_16 i v Hi). pose proof (lane_in_u 16 (2 * i) v ltac:(lia)) as H0. unfold in_u in H0.
  Z.to_euclidean_division_equations; lia.
Qed.

(** Lane [i] of a vector built from halfwords. *)
Lemma word_of_halves i f : 0 <= i < 4 ->
  lane 32 i (build 16 f) = u16 (f (2 * i)) + 2 ^ 16 * u16 (f (2 * i + 1)).
Proof. intros Hi. rewrite lane_32_of_16, !lane_build by lane_side. done. Qed.

Lemma land_ffff x : x .& 0xffff = x mod 2 ^ 16.
Proof. apply (land_mod x 16). lia. Qed.

Lemma s16_mod x : s16 (x mod 2 ^ 16) = s16 x.
Proof. by apply (sgn_wrap 16). Qed.

Lemma mul_low x y : u16 (s16 x * s16 y) = u16 (x * y).
Proof. by rewrite <- wrap_mul_l, <- wrap_mul_r, !wrap_sgn, wrap_mul_l, wrap_mul_r by lia. Qed.

Lemma u16_product x y : in_u 32 (u16 x * u16 y).
Proof.
  pose proof (wrap_in_u 16 x ltac:(lia)) as Hx. pose proof (wrap_in_u 16 y ltac:(lia)) as Hy. unfold in_u in *.
  generalize dependent (u16 x). generalize dependent (u16 y). intros. nia.
Qed.

(** The two halves of a product, put together in the low word ... *)
Lemma join_low p z w : 0 <= w ->
  u32 (Z.shiftl (u16 (Z.shiftr p 16) + 2 ^ 16 * z) 16) .| (u16 p + 2 ^ 16 * w) .& u32 0xffff = u32 p.
Proof.
  intros Hw. assert (u32 (Z.shiftl (u16 (Z.shiftr p 16) + 2 ^ 16 * z) 16) = Z.shiftl (u16 (Z.shiftr p 16)) 16) as ->.
  { rewrite !Z.shiftl_mul_pow2 by lia. rewrite Z.shiftr_div_pow2 by lia. word_lia. }
  change (u32 0xffff) with 0xffff. rewrite land_ffff.
  replace ((u16 p + 2 ^ 16 * w) mod 2 ^ 16) with (u16 p) by word_lia.
  rewrite lor_shiftl_add by (lia || apply wrap_in_u; lia). rewrite Z.shiftr_div_pow2 by lia. word_lia.
Qed.

Lemma land_high x : in_u 32 x -> x .& 0xffff0000 = Z.shiftl (Z.shiftr x 16) 16.
Proof.
  intros Hx. change 0xffff0000 with (Z.shiftl (Z.ones 16) 16). apply Z.bits_inj'. intros n Hn.
  destruct (Z.ltb_spec n 32) as [Hlt|Hge]; autorewrite with bits.
  - destruct (Z.leb_spec 16 n); cbn [andb]; [|by rewrite andb_false_r].
    rewrite testbit_ones, testbit_shiftr by lia. replace (n - 16 <? 16) with true by lia.
    rewrite andb_true_r. f_equal. lia.
  - rewrite !(testbit_high 32 x) by (done || lia). by rewrite andb_false_r.
Qed.

(** ... and in the high one. *)
Lemma join_high p z w : in_u 16 z -> in_u 16 w ->
  u32 (Z.shiftr (z + 2 ^ 16 * u16 p) 16) .| (w + 2 ^ 16 * u16 (Z.shiftr p 16)) .& u32 0xffff0000 = u32 p.
Proof.
  intros Hz Hw. unfold in_u in *. pose proof (wrap_in_u 16 (Z.shiftr p 16) ltac:(lia)) as H. unfold in_u in H.
  change (u32 0xffff0000) with 0xffff0000. rewrite land_high by (unfold in_u; lia).
  rewrite !Z.shiftr_div_pow2 in * by lia.
  replace ((w + 2 ^ 16 * u16 (p / 2 ^ 16)) / 2 ^ 16) with (u16 (p / 2 ^ 16)) by word_lia.
  replace (u32 ((z + 2 ^ 16 * u16 p) / 2 ^ 16)) with (u16 p) by word_lia.
  rewrite Z.lor_comm, lor_shiftl_add by (lia || apply wrap_in_u; lia). word_lia.
Qed.

(** The high half of a product, sign-extended. *)
Lemma high_signed q z : in_s 16 q -> Z.shiftr (s32 (u32 (Z.shiftl (u16 q + 2 ^ 16 * z) 16))) 16 = q.
Proof.
  intros Hq. rewrite Z.shiftl_mul_pow2, Z.shiftr_div_pow2 by lia. word_lia.
Qed.

Lemma s16_range x : - 2 ^ 15 <= s16 x < 2 ^ 15.
Proof. apply (sgn_in_s 16). lia. Qed.

Lemma hi_word x : in_u 32 x -> u32 (Z.shiftr x 16) mod 2 ^ 16 = x / 2 ^ 16 /\ u32 (Z.shiftr x 16) / 2 ^ 16 = 0.
Proof. intros Hx. rewrite Z.shiftr_div_pow2 by lia. word_lia. Qed.

Section mul.
Context (s : spu_thread) (op i : Z) (Hs : wf s) (Hi : 0 <= i < 4).
Let a := arg 32 s op ra i.
Let b := arg 32 s op rb i.
Let t := arg 32 s op rt i.

Let Ha : in_u 32 a.
Proof. apply lane_in_u. lia. Qed.
Let Hb : in_u 32 b.
Proof. apply lane_in_u. lia. Qed.

(** The lanes of the sources, as words and as halves. *)
Ltac mul :=
  unfold mm_madd_epi16, mm_mullo_epi16, mm_mulhi_epi16, mm_mulhi_epu16, mm_srli, mm_slli, mm_srai, mm_and, mm_or,
    mm_add, mm_set1;
  lanes; rewrite ?word_of_halves, ?half_lo, ?half_hi by lia; lanes;
  rewrite ?word_of_halves, ?half_lo, ?half_hi by lia; lanes; fold (arg 32 s op ra i) (arg 32 s op rb i); fold a b.

Lemma MPY_lane : result 32 (MPY s op) rt op i = Some (u32 (s16 a * s16 b)).
Proof.
  unfold MPY. rewrite result_put by done. f_equal. mul. change (u32 65535 mod 2 ^ 16) with 65535.
  change (u32 65535 / 2 ^ 16) with 0. by rewrite !Z.land_0_r, !land_ffff, !Z.mod_mod, !s16_mod, Z.add_0_r by lia.
Qed.

Lemma MPYU_lane : result 32 (MPYU s op) rt op i = Some (u16 a * u16 b).
Proof.
  unfold MPYU. rewrite result_put by done. f_equal. mul. rewrite mul_low, join_low by (apply wrap_in_u; lia).
  apply wrap_small, u16_product.
Qed.

Lemma MPYH_lane : result 32 (MPYH s op) rt op i = Some (u32 (2 ^ 16 * (a / 2 ^ 16 * b))).
Proof.
  unfold MPYH. rewrite result_put by done. f_equal. mul. destruct (hi_word a Ha) as [-> ->].
  rewrite mul_low, Z.shiftl_mul_pow2 by lia. generalize (u16 (s16 0 * s16 (b / 2 ^ 16))). intros z.
  assert (u16 (a / 2 ^ 16 * (b mod 2 ^ 16)) = u16 (a / 2 ^ 16 * b)) as -> by (by apply wrap_mul_r).
  generalize (a / 2 ^ 16 * b). intros p. word_lia.
Qed.

Lemma MPYS_lane : result 32 (MPYS s op) rt op i = Some (u32 (s16 a * s16 b / 2 ^ 16)).
Proof.
  unfold MPYS. rewrite result_put by done. f_equal. mul. rewrite !s16_mod.
  pose proof (s16_range a). pose proof (s16_range b). rewrite high_signed, Z.shiftr_div_pow2; [done|lia|].
  rewrite Z.shiftr_div_pow2 by lia. assert (- 2 ^ 30 <= s16 a * s16 b <= 2 ^ 30) by nia.
  unfold in_s. Z.to_euclidean_division_equations; lia.
Qed.

Lemma MPYHH_lane : result 32 (MPYHH s op) rt op i = Some (u32 (s16 (a / 2 ^ 16) * s16 (b / 2 ^ 16))).
Proof.
  unfold MPYHH. rewrite result_put by done. f_equal. mul.
  destruct (hi_word a Ha) as [-> ->], (hi_word b Hb) as [-> ->]. by rewrite Z.add_0_r.
Qed.

Lemma hi_product : 0 <= a / 2 ^ 16 * (b / 2 ^ 16) < 2 ^ 32.
Proof.
  unfold in_u in Ha, Hb. assert (0 <= a / 2 ^ 16 < 2 ^ 16) by (Z.to_euclidean_division_equations; lia).
  assert (0 <= b / 2 ^ 16 < 2 ^ 16) by (Z.to_euclidean_division_equations; lia). nia.
Qed.

Lemma MPYHHU_lane : result 32 (MPYHHU s op) rt op i = Some (a / 2 ^ 16 * (b / 2 ^ 16)).
Proof.
  unfold MPYHHU. rewrite result_put by done. f_equal. mul.
  rewrite (mul_low (a / _)), join_high by (apply wrap_in_u; lia). apply wrap_small, hi_product.
Qed.

Lemma MPYHHA_lane : result 32 (MPYHHA s op) rt op i = Some (u32 (t + s16 (a / 2 ^ 16) * s16 (b / 2 ^ 16))).
Proof.
  unfold MPYHHA. rewrite result_put by done. f_equal. mul. fold (arg 32 s op rt i). fold t.
  destruct (hi_word a Ha) as [-> ->], (hi_word b Hb) as [-> ->]. by rewrite wrap_add_r, Z.add_0_r by lia.
Qed.

Lemma MPYHHAU_lane : result 32 (MPYHHAU s op) rt op i = Some (u32 (t + a / 2 ^ 16 * (b / 2 ^ 16))).
Proof.
  unfold MPYHHAU. rewrite result_put by done. f_equal. mul. fold (arg 32 s op rt i). fold t.
  rewrite (mul_low (a / _)), join_high by (apply wrap_in_u; lia). by rewrite wrap_add_r by lia.
Qed.

Lemma MPYI_lane : result 32 (MPYI s op) rt op i = Some (u32 (s16 a * s16 (op_get si10 op))).
Proof.
  unfold MPYI. rewrite result_put by done. f_equal. mul. rewrite land_ffff. set (k := op_get si10 op).
  replace (u32 (k mod 2 ^ 16)) with (k mod 2 ^ 16) by word_lia. rewrite Z.mod_mod, !s16_mod by lia.
  replace (k mod 2 ^ 16 / 2 ^ 16) with 0 by word_lia. by rewrite Z.mul_0_r, Z.add_0_r.
Qed.

Lemma MPYUI_lane : result 32 (MPYUI s op) rt op i = Some (u16 a * u16 (op_get si10 op)).
Proof.
  unfold MPYUI. rewrite result_put by done. f_equal. mul. rewrite land_ffff. set (k := op_get si10 op).
  replace (u32 (k mod 2 ^ 16)) with (u16 k) by word_lia. change (u16 k mod 2 ^ 16) with (u16 (u16 k)).
  replace (u16 k / 2 ^ 16) with 0 by word_lia. rewrite !wrap_wrap, mul_low, !Z.mul_0_r.
  change (a mod 2 ^ 16) with (u16 a). pose proof (join_low (u16 a * u16 k) 0 0 ltac:(lia)) as J.
  rewrite Z.mul_0_r, !Z.add_0_r in J. change (u32 0xffff) with 0xffff in J. rewrite land_ffff in J.
  fold (u16 (u16 (u16 a * u16 k))) in J. rewrite wrap_wrap in J. rewrite !Z.add_0_r, J.
  apply wrap_small, u16_product.
Qed.

Lemma MPYA_lane : result 32 (MPYA s op) rt4 op i = Some (u32 (arg 32 s op rc i + s16 a * s16 b)).
Proof.
  unfold MPYA. rewrite result_put by done. f_equal. mul. change (u32 65535 mod 2 ^ 16) with 65535.
  change (u32 65535 / 2 ^ 16) with 0. rewrite !Z.land_0_r, !land_ffff, !Z.mod_mod, !s16_mod, Z.add_0_r by lia.
  by rewrite wrap_add_r by lia.
Qed.

End mul.

(** On every word, the multiplications give exactly the product of the halfwords they name: low halves
    (signed, unsigned, with an immediate, accumulated, or the high part of the product only), high
    halves, and high by low shifted into the high half; only the accumulating forms, [MPYH] and the
    negative results wrap modulo [2 ^ 32]. *)
Theorem spu_multiply s op i (H : wf s) (Hi : 0 <= i < 4) :
  let a := arg 32 s op ra i in let b := arg 32 s op rb i in let t := arg 32 s op rt i in
  let k := op_get si10 op in
  result 32 (MPY s op) rt op i = Some (u32 (s16 a * s16 b)) /\
  result 32 (MPYU s op) rt op i = Some (u16 a * u16 b) /\
  result 32 (MPYI s op) rt op i = Some (u32 (s16 a * s16 k)) /\
  result 32 (MPYUI s op) rt op i = Some (u16 a * u16 k) /\
  result 32 (MPYA s op) rt4 op i = Some (u32 (arg 32 s op rc i + s16 a * s16 b)) /\
  result 32 (MPYS s op) rt op i = Some (u32 (s16 a * s16 b / 2 ^ 16)) /\
  result 32 (MPYH s op) rt op i = Some (u32 (2 ^ 16 * (a / 2 ^ 16 * b))) /\
  result 32 (MPYHH s op) rt op i = Some (u32 (s16 (a / 2 ^ 16) * s16 (b / 2 ^ 16))) /\
  result 32 (MPYHHA s op) rt op i = Some (u32 (t + s16 (a / 2 ^ 16) * s16 (b / 2 ^ 16))) /\
  result 32 (MPYHHU s op) rt op i = Some (a / 2 ^ 16 * (b / 2 ^ 16)) /\
  result 32 (MPYHHAU s op) rt op i = Some (u32 (t + a / 2 ^ 16 * (b / 2 ^ 16))).
Proof.
  repeat split; auto using MPY_lane, MPYU_lane, MPYI_lane, MPYUI_lane, MPYA_lane, MPYS_lane, MPYH_lane, MPYHH_lane,
    MPYHHA_lane, MPYHHU_lane, MPYHHAU_lane.
Qed.

(** [-3 * 5], in the low halves. *)
Lemma spu_multiply_witness :
  result 32 (MPY (spu_start [] [(1, 0x1fffd); (2, 0x20005)]) (rr 0x3c4 2 1 3)) rt (rr 0x3c4 2 1 3) 0 =
  Some (2 ^ 32 - 15).
Proof.
  destruct (spu_multiply (spu_start [] [(1, 0x1fffd); (2, 0x20005)]) (rr 0x3c4 2 1 3) 0) as (E & _);
    [by apply wf_spu_start|lia|]. exact E.
Defined.

(** ** 32-bit multiplication *)

(** A handler whose result is known lane by lane assigns the vector of these results. *)
Lemma put_of_lanes w s f op v g : wf s -> is_reg f = true -> width w -> in_u 128 v ->
  (forall i, 0 <= i < 128 / w -> result w (put s f op v) f op i = Some (wrap w (g i))) -> v = build w g.
Proof.
  intros Hs Hf Hw Hv H. apply (lane_ext w); [done..|by apply build_in_u|]. intros i Hi. specialize (H i Hi).
  rewrite result_put in H by done. injection H as ->. by rewrite lane_build.
Qed.

Lemma mpyh_build s op : wf s -> MPYH s op = put s rt op
  (build 32 (fun i => 2 ^ 16 * (lane 32 i (r s ra op) / 2 ^ 16 * lane 32 i (r s rb op)))).
Proof.
  intros Hs. unfold MPYH at 1, put. do 2 f_equal. apply (put_of_lanes 32 s rt op); [done|done|lane_side| |].
  { apply build_in_u. lane_side. }
  intros i Hi. apply (MPYH_lane s op i Hs). lane_side.
Qed.

Lemma mpyu_build s op : wf s -> MPYU s op = put s rt op
  (build 32 (fun i => u16 (lane 32 i (r s ra op)) * u16 (lane 32 i (r s rb op)))).
Proof.
  intros Hs. unfold MPYU at 1, put. do 2 f_equal. apply (put_of_lanes 32 s rt op); [done|done|lane_side| |].
  { unfold_simd. auto with spu. }
  intros i Hi. etransitivity; [apply (MPYU_lane s op i Hs); lane_side|]. f_equal. symmetry. apply wrap_small.
  apply u16_product.
Qed.

(** Long multiplication without the part above [2 ^ 32]. *)
Lemma mul32_sum x y :
  u32 (u32 (u32 (2 ^ 16 * (x / 2 ^ 16 * y)) + u32 (2 ^ 16 * (y / 2 ^ 16 * x))) + u32 (u16 x * u16 y)) = u32 (x * y).
Proof.
  rewrite wrap_add_r, wrap_add_l, <- Z.add_assoc, wrap_add_l, Z.add_assoc, (Z.add_comm _ (u32 _)), <- Z.add_assoc,
    wrap_add_l, Z.add_assoc by lia. pose proof (Z.div_mod x (2 ^ 16) ltac:(lia)) as Ex.
  pose proof (Z.div_mod y (2 ^ 16) ltac:(lia)) as Ey. fold (u16 x) in Ex. fold (u16 y) in Ey.
  set (p := x / 2 ^ 16) in *. set (q := y / 2 ^ 16) in *. set (m := u16 x) in *. set (n := u16 y) in *.
  rewrite Ex, Ey. replace (_ + _ + m * n) with ((2 ^ 16 * p + m) * (2 ^ 16 * q + n) + (p * q) * 2 ^ 32) by lia.
  apply wrap_add_pow. lia.
Qed.

(** C26: there is no 32-bit multiplication instruction; the five-instruction sequence compilers use for it (the two
    cross products of halves, shifted, and the product of the low halves) gives the product of each pair of
    words modulo [2 ^ 32].  It changes the target register, a scratch register and the program counter, and nothing
    else of the thread: no other register, not local storage, SRR0, the interrupt flag, the events or the
    state flags.  The target and the scratch register are distinct and neither is an operand; the operands may be
    the same register.  The thread is well-formed, runs the static interpreter without pending state flags, and has
    the five words at its program counter, inside local storage. *)
Theorem spu_mul32 sse41 s t a b x (H : at_code s (prog_mul32 t a b x))
  (Ht : 0 <= t < 128) (Ha : 0 <= a < 128) (Hb : 0 <= b < 128) (Hx : 0 <= x < 128)
  (Hta : t <> a) (Htb : t <> b) (Hxt : x <> t) (Hxa : x <> a) (Hxb : x <> b) :
  exists s', old_interpreter sse41 5 s = Ret true s' /\
    get (gpr s') t = mul32 (get (gpr s) a) (get (gpr s) b) /\
    (forall k, 0 <= k < 128 -> k <> t -> k <> x -> get (gpr s') k = get (gpr s) k) /\
    pc s' = pc s + 20 /\ rest s' = rest s.
Proof.
  unfold old_interpreter. rewrite (ac_decoder _ _ H). pose proof (at_code_len _ _ H) as Hl. set (g := gpr s) in *.
  set (va := get g a). set (vb := get g b).
  set (cross u v := build 32 (fun i => 2 ^ 16 * (lane 32 i u / 2 ^ 16 * lane 32 i v))).
  assert (forall u v, in_u 128 (cross u v)) as Hcr by (intros; apply build_in_u; lane_side).
  destruct (run_rr sse41 4 s 0x3c5 b a t _ SpuOp.MPYH (cross va vb) H) as (s1 & R1 & H1 & G1 & P1 & L1); side.
  { intros op E1 E2 E3 _. cbn [interp]. rewrite mpyh_build by apply H. unfold r. by rewrite E2, E3. }
  destruct (run_rr sse41 3 s1 0x3c5 a b x _ SpuOp.MPYH (cross vb va) H1) as (s2 & R2 & H2 & G2 & P2 & L2); side.
  { intros op E1 E2 E3 _. cbn [interp]. rewrite mpyh_build by apply H1. unfold r.
    by rewrite E2, E3, G1, !get_set_ne by lia. }
  set (sum := gv_add32 (cross va vb) (cross vb va)).
  destruct (run_rr sse41 2 s2 0xc0 x t t _ SpuOp.A sum H2) as (s3 & R3 & H3 & G3 & P3 & L3); side.
  { apply build_in_u. lane_side. }
  { intros op E1 E2 E3 _. cbn [interp]. unfold A, r. rewrite E2, E3, G2, G1.
    by rewrite get_set_same, (get_set_ne _ x), get_set_same by (rewrite ?length_set; done || lia). }
  set (low := build 32 (fun i => u16 (lane 32 i va) * u16 (lane 32 i vb))).
  destruct (run_rr sse41 1 s3 0x3cc b a x _ SpuOp.MPYU low H3) as (s4 & R4 & H4 & G4 & P4 & L4); side.
  { apply build_in_u. lane_side. }
  { intros op E1 E2 E3 _. cbn [interp]. rewrite mpyu_build by apply H3. unfold r.
    by rewrite E2, E3, G3, G2, G1, !get_set_ne by lia. }
  assert (length (gpr s3) = 128%nat) as Hl3 by apply H3. assert (length (gpr s2) = 128%nat) as Hl2 by apply H2.
  destruct (run_rr sse41 0 s4 0xc0 x t t _ SpuOp.A (gv_add32 sum low) H4) as (s5 & R5 & H5 & G5 & P5 & L5); side.
  { intros op E1 E2 E3 _. cbn [interp]. unfold A, r. rewrite E2, E3, G4.
    by rewrite get_set_same, get_set_ne, G3, get_set_same by (done || lia). }
  exists s5. rewrite R1, R2, R3, R4, R5, G5, G4, P5, P4, P3, P2, P1, L5, L4, L3, L2, L1.
  split; [done|]. split; [|split; [|split; [lia|done]]].
  - rewrite get_set_same by (rewrite ?length_set; done). apply build_ext; [lane_side|]. intros i Hi.
    unfold sum, low, cross, gv_add32, mm_add. lanes. apply mul32_sum.
  - intros k Hk Hkt Hkx. by rewrite !get_set_ne, G3, G2, G1, !get_set_ne by lia.
Qed.

Lemma spu_mul32_witness :
  exists s', old_interpreter true 5 (spu_start (prog_mul32 3 4 5 6) [(4, 123456789); (5, 987654321)]) = Ret true s' /\
    get (gpr s') 3 = 123456789 * 987654321 mod 2 ^ 32.
Proof.
  destruct (spu_mul32 true (spu_start (prog_mul32 3 4 5 6) [(4, 123456789); (5, 987654321)]) 3 4 5 6)
    as (s' & R & G & _); [by apply at_code_start; [repeat constructor; vm_compute|..]|lia..|].
  exists s'. split; [exact R|]. rewrite G. vm_compute. reflexivity.
Defined.
