(* ===== verification/SpuShift.v ===== *)
(** SPU shifts and rotates of words and halfwords, in register and immediate form. *)

From Stdlib Require Import ZArith Lia Bool.
From stdpp Require Import base tactics option list numbers.
From S2P Require Import Prelude BitField Simd SpuOpcodes SpuInterp SpuWf SpuRun SpuArith.
Import BitField Simd SpuOp Spu SpuWf SpuRun SpuArith.
Local Open Scope Z_scope.
Local Open Scope word_scope.

(** [std::rotl] with a signed count, of either sign, is the rotation by the count modulo the width. *)
Lemma std_rotl_rotl w x c : w = 16 \/ w = 32 -> in_u w x -> std_rotl w x c = rotl w x (c mod w).
Proof.
  intros Hw Hx. unfold std_rotl. set (n := Z.rem (s32 c) w).
  assert (0 < w <= 32) as Hw0 by lia. assert (- w < n < w) as Hn.
  { pose proof (Z.rem_bound_abs (s32 c) w ltac:(lia)). lia. }
  assert (c mod w = n mod w) as E.
  { assert (n mod w = s32 c mod w) as ->.
    { unfold n. rewrite (Z.quot_rem (s32 c) w) at 2 by lia. rewrite Z.add_comm, Z.mul_comm, Z.mod_add by lia. done. }
    symmetry. destruct Hw as [-> | ->]; [apply (sgn_mod 32 4)|apply (sgn_mod 32 5)]; lia. }
  assert (forall k, 0 <= k -> in_u w (Z.shiftr x k)) as Hr by (intros; apply shiftr_in_u; (lia || done)).
  assert (forall k, 0 <= k -> rotl w x k = wrap w (Z.shiftl x k) .| wrap w (Z.shiftr x (w - k))) as Hk.
  { intros k Hk. unfold rotl. apply Z.bits_inj'. intros i Hi.
    rewrite Z.lor_spec, !testbit_wrap, Z.lor_spec by lia. by destruct (i <? w). }
  rewrite E. destruct (Z.eqb_spec n 0) as [->|Hne]; [|destruct (Z.ltb_spec 0 n)].
  - rewrite Z.mod_0_l, Hk, Z.shiftl_0_r, Z.sub_0_r by lia. rewrite (wrap_small w x), Z.shiftr_div_pow2 by (done || lia).
    unfold in_u in Hx. by rewrite (Z.div_small x) , Z.lor_0_r by lia.
  - by rewrite Z.mod_small, Hk, (wrap_small w (Z.shiftr _ _)) by (lia || apply Hr; lia).
  - replace (n mod w) with (w + n) by (Z.to_euclidean_division_equations; nia).
    rewrite Hk, (wrap_small w (Z.shiftr _ _)), Z.lor_comm by (lia || apply Hr; lia). f_equal; do 2 f_equal; lia.
Qed.

(** A loop over the lanes of a copy of the operands. *)
Lemma result_loop w n s op (g : Z -> Z) i : width w -> n = 128 / w -> wf s -> 0 <= i < n ->
  result w (Ret true (for_lanes n (fun i s => set_elem w s rt op i (g i)) s)) rt op i = Some (wrap w (g i)).
Proof.
  intros Hw Hn Hs Hi. rewrite (for_lanes_elem w n s rt op (fun i _ => g i)) by done.
  rewrite <- (result_build w s rt op g i) by (done || by rewrite <- Hn). done.
Qed.

(** Immediate rotations are written with two shifts. *)
Lemma rot_lanes w a n i : width w -> 0 <= n <= w -> 0 <= i < 128 / w ->
  lane w i (mm_or (mm_slli w a n) (mm_srli w a (w - n))) = rotl w (lane w i a) n.
Proof.
  intros Hw Hn Hi. destruct (width_facts w Hw) as (Hp & _). unfold mm_or, mm_slli, mm_srli, rotl.
  rewrite lane_lor, !lane_build by (done || lia). apply Z.bits_inj'. intros k Hk.
  rewrite Z.lor_spec, !testbit_wrap, Z.lor_spec by lia. by destruct (k <? w).
Qed.

(** The counts of the right shifts. *)
Lemma neg_63 c : u32 (0 - c) .& 63 = - c mod 64.
Proof. rewrite land_63. by apply (wrap_mod 32 6). Qed.
Lemma neg_31 c : u32 (0 - c) .& 31 = - c mod 32.
Proof. rewrite land_31. by apply (wrap_mod 32 5). Qed.

Lemma shr_small w a c m : 0 <= w -> 0 < m -> in_u w a -> wrap w (Z.shiftr a (c mod m)) = Z.shiftr a (c mod m).
Proof. intros. apply wrap_small, shiftr_in_u; [done| |done]. apply Z.mod_pos_bound. lia. Qed.

Section words.
Context (s : spu_thread) (op i : Z) (Hs : wf s) (Hi : 0 <= i < 4).
Let a := arg 32 s op ra i.
Let b := arg 32 s op rb i.
Let k := op_get i7 op.

Let Ha : in_u 32 a.
Proof. apply lane_in_u. lia. Qed.

Lemma SHL_lane : result 32 (SHL s op) rt op i = Some (u32 (Z.shiftl a (b mod 64))).
Proof.
  unfold SHL. rewrite result_loop by (done || lane_side). rewrite land_63, wrap_wrap, wrap_wrap_le by lia. done.
Qed.
Lemma SHLI_lane : result 32 (SHLI s op) rt op i = Some (u32 (Z.shiftl a (k mod 64))).
Proof. unfold SHLI, mm_slli. rewrite result_build, land_63 by (done || lane_side). done. Qed.
Lemma ROT_lane : result 32 (ROT s op) rt op i = Some (rotl 32 a (b mod 32)).
Proof.
  unfold ROT. rewrite result_loop by (done || lane_side). f_equal.
  rewrite std_rotl_rotl by (lia || done). apply wrap_wrap.
Qed.
Lemma ROTI_lane : result 32 (ROTI s op) rt op i = Some (rotl 32 a (k mod 32)).
Proof.
  unfold ROTI. cbv zeta. rewrite land_31. pose proof (Z.mod_pos_bound (op_get i7 op) 32 ltac:(lia)).
  rewrite result_put by done. by rewrite rot_lanes by (done || lia || lane_side).
Qed.
Lemma ROTM_lane : result 32 (ROTM s op) rt op i = Some (Z.shiftr a (- b mod 64)).
Proof.
  unfold ROTM. rewrite result_loop by (done || lane_side). rewrite neg_63, wrap_wrap. f_equal. by apply shr_small.
Qed.
Lemma ROTMI_lane : result 32 (ROTMI s op) rt op i = Some (Z.shiftr a (- k mod 64)).
Proof.
  unfold ROTMI, mm_srli. rewrite result_build, neg_63 by (done || lane_side). f_equal. by apply shr_small.
Qed.
Lemma ROTMA_lane : result 32 (ROTMA s op) rt op i = Some (u32 (Z.shiftr (s32 a) (- b mod 64))).
Proof. unfold ROTMA. rewrite result_loop by (done || lane_side). rewrite neg_63, wrap_sgn by lia. done. Qed.
Lemma ROTMAI_lane : result 32 (ROTMAI s op) rt op i = Some (u32 (Z.shiftr (s32 a) (- k mod 64))).
Proof. unfold ROTMAI, mm_srai. rewrite result_build, neg_63 by (done || lane_side). done. Qed.
End words.

Section halfwords.
Context (s : spu_thread) (op i : Z) (Hs : wf s) (Hi : 0 <= i < 8).
Let a := arg 16 s op ra i.
Let b := arg 16 s op rb i.
Let k := op_get i7 op.

Let Ha : in_u 16 a.
Proof. apply lane_in_u. lia. Qed.

Lemma SHLH_lane : result 16 (SHLH s op) rt op i = Some (u16 (Z.shiftl a (b mod 32))).
Proof.
  unfold SHLH. rewrite result_loop by (done || lane_side). rewrite land_31, wrap_wrap, wrap_wrap_le by lia. done.
Qed.
Lemma SHLHI_lane : result 16 (SHLHI s op) rt op i = Some (u16 (Z.shiftl a (k mod 32))).
Proof. unfold SHLHI, mm_slli. rewrite result_build, land_31 by (done || lane_side). done. Qed.
Lemma ROTH_lane : result 16 (ROTH s op) rt op i = Some (rotl 16 a (b mod 16)).
Proof.
  unfold ROTH. rewrite result_loop by (done || lane_side). f_equal.
  rewrite std_rotl_rotl by (lia || done). apply wrap_wrap.
Qed.
Lemma ROTHI_lane : result 16 (ROTHI s op) rt op i = Some (rotl 16 a (k mod 16)).
Proof.
  unfold ROTHI. cbv zeta. rewrite land_15. pose proof (Z.mod_pos_bound (op_get i7 op) 16 ltac:(lia)).
  rewrite result_put by done. by rewrite rot_lanes by (done || lia || lane_side).
Qed.
Lemma ROTHM_lane : result 16 (ROTHM s op) rt op i = Some (Z.shiftr a (- b mod 32)).
Proof.
  unfold ROTHM. rewrite result_loop by (done || lane_side). rewrite land_31, wrap_wrap. f_equal. by apply shr_small.
Qed.
Lemma ROTHMI_lane : result 16 (ROTHMI s op) rt op i = Some (Z.shiftr a (- k mod 32)).
Proof.
  unfold ROTHMI, mm_srli. rewrite result_build, neg_31 by (done || lane_side). f_equal. by apply shr_small.
Qed.
Lemma ROTMAH_lane : result 16 (ROTMAH s op) rt op i = Some (u16 (Z.shiftr (s16 a) (- b mod 32))).
Proof. unfold ROTMAH. rewrite result_loop by (done || lane_side). rewrite land_31, wrap_sgn by lia. done. Qed.
Lemma ROTMAHI_lane : result 16 (ROTMAHI s op) rt op i = Some (u16 (Z.shiftr (s16 a) (- k mod 32))).
Proof. unfold ROTMAHI, mm_srai. rewrite result_build, neg_31 by (done || lane_side). done. Qed.
End halfwords.

(** C37: shifts and rotates of words: counts are taken modulo 64 (32 for rotations), so that shifts of 32 to 63
    clear the word or fill it with its sign; right shifts use the negated count; a rotation by a
    count that is negative as an [int] is still the rotation modulo 32; and the immediate forms, which use
    other code, agree with the register forms at the same count.  Likewise for halfwords, modulo 32 and 16. *)
Theorem spu_shift_rotate s op (H : wf s) :
  (forall i, 0 <= i < 4 ->
     let a := arg 32 s op ra i in let b := arg 32 s op rb i in let k := op_get i7 op in
     result 32 (SHL s op) rt op i = Some (u32 (Z.shiftl a (b mod 64))) /\
     result 32 (SHLI s op) rt op i = Some (u32 (Z.shiftl a (k mod 64))) /\
     result 32 (ROT s op) rt op i = Some (rotl 32 a (b mod 32)) /\
     result 32 (ROTI s op) rt op i = Some (rotl 32 a (k mod 32)) /\
     result 32 (ROTM s op) rt op i = Some (Z.shiftr a (- b mod 64)) /\
     result 32 (ROTMI s op) rt op i = Some (Z.shiftr a (- k mod 64)) /\
     result 32 (ROTMA s op) rt op i = Some (u32 (Z.shiftr (s32 a) (- b mod 64))) /\
     result 32 (ROTMAI s op) rt op i = Some (u32 (Z.shiftr (s32 a) (- k mod 64)))) /\
  (forall i, 0 <= i < 8 ->
     let a := arg 16 s op ra i in let b := arg 16 s op rb i in let k := op_get i7 op in
     result 16 (SHLH s op) rt op i = Some (u16 (Z.shiftl a (b mod 32))) /\
     result 16 (SHLHI s op) rt op i = Some (u16 (Z.shiftl a (k mod 32))) /\
     result 16 (ROTH s op) rt op i = Some (rotl 16 a (b mod 16)) /\
     result 16 (ROTHI s op) rt op i = Some (rotl 16 a (k mod 16)) /\
     result 16 (ROTHM s op) rt op i = Some (Z.shiftr a (- b mod 32)) /\
     result 16 (ROTHMI s op) rt op i = Some (Z.shiftr a (- k mod 32)) /\
     result 16 (ROTMAH s op) rt op i = Some (u16 (Z.shiftr (s16 a) (- b mod 32))) /\
     result 16 (ROTMAHI s op) rt op i = Some (u16 (Z.shiftr (s16 a) (- k mod 32)))).
Proof.
  split; intros i Hi; repeat split;
    auto using SHL_lane, SHLI_lane, ROT_lane, ROTI_lane, ROTM_lane, ROTMI_lane, ROTMA_lane, ROTMAI_lane,
      SHLH_lane, SHLHI_lane, ROTH_lane, ROTHI_lane, ROTHM_lane, ROTHMI_lane, ROTMAH_lane, ROTMAHI_lane.
Qed.

(** Rotation by [0xffffffff], which is -1 as an [int]. *)
Lemma spu_shift_rotate_witness :
  result 32 (ROT (spu_start [] [(1, 1); (2, 0xffffffff)]) (rr 0x58 2 1 3)) rt (rr 0x58 2 1 3) 0 = Some 0x80000000.
Proof.
  destruct (spu_shift_rotate (spu_start [] [(1, 1); (2, 0xffffffff)]) (rr 0x58 2 1 3)) as [E _];
    [by apply wf_spu_start|]. destruct (E 0) as (_ & _ & E' & _); [lia|]. exact E'.
Defined.
