(* ===== verification/SpuShuf.v ===== *)
(** The SPU byte shuffle and what compilers use it for.

    [shufb_byte] is the definition of [SHUFB] in the ISA; the interpreter's handler and the two
    instruction sequences that [optimized_shufb] emits are shown to compute it.  With the masks of the
    [CBD] family it inserts one element into a quadword, which is how the SPU, whose loads and stores are
    16 bytes wide, stores bytes, halfwords, words and doublewords. *)

From Stdlib Require Import ZArith Lia Bool.
From stdpp Require Import base tactics option list numbers.
From S2P Require Import Prelude BitField Simd SpuOpcodes SpuInterp SpuWf SpuRun SpuQuad SpuArith.
Import BitField Simd SpuOp Spu SpuWf SpuRun SpuQuad SpuArith.
Local Open Scope Z_scope.
Local Open Scope word_scope.

Module SpuShuf.

(** The result for one control byte: constants for [111xxxxx], [110xxxxx] and [10xxxxxx], else byte [c mod 32] of
    [a] followed by [b], counted from the most significant. *)
Definition shufb_byte (a b c : Z) : Z :=
  if 0xe0 <=? c then 0x80
  else if 0xc0 <=? c then 0xff
  else if 0x80 <=? c then 0
  else let k := c mod 32 in if k <? 16 then lane 8 (15 - k) a else lane 8 (31 - k) b.

Definition shufb (a b c : Z) : Z := build 8 (fun i => shufb_byte a b (lane 8 i c)).

End SpuShuf.
Import SpuShuf.

(** ** Facts about bytes, by enumeration *)

Lemma all_bytes (P : Z -> bool) : forallb P (seqZ 0 256) = true -> forall c, in_u 8 c -> P c = true.
Proof.
  intros H c Hc. rewrite forallb_forall in H. apply H, list_elem_of_In, elem_of_seqZ. unfold in_u in Hc. lia.
Qed.

(** Every test the implementations make on a control byte, against its value. *)
Definition byte_tests (c : Z) : bool :=
  (bnot 8 c .& 0x1f =? 31 - c mod 32) &&
  eqb (s8 c <? 0) (0x80 <=? c) &&
  eqb (c .& 0xc0 =? 0xc0) (0xc0 <=? c) &&
  eqb (c .& 0xe0 =? 0xc0) ((0xc0 <=? c) && (c <? 0xe0)) &&
  eqb ((c .^ 0x0f) .& 0xc0 =? 0xc0) (0xc0 <=? c) &&
  eqb (Z.testbit (c .^ 0x0f) 7) (0x80 <=? c) &&
  eqb (Z.testbit (c .^ 0x0f) 4) (16 <=? c mod 32) &&
  ((c .^ 0x0f) .& 15 =? 15 - c mod 16).

Lemma byte_tests_ok c : in_u 8 c -> byte_tests c = true.
Proof. apply (all_bytes byte_tests). vm_compute. reflexivity. Qed.

(** ** The handler *)

Lemma foldl_set_lane w g v : width w ->
  foldl (fun v i => set_lane w i (g i) v) v (seqZ 0 (128 / w)) = build w g.
Proof.
  intros Hw. destruct (width_facts w Hw) as (Hp & _).
  assert (forall m : nat, Z.of_nat m <= 128 / w -> forall j, 0 <= j < 128 / w ->
    lane w j (foldl (fun v i => set_lane w i (g i) v) v (seqZ 0 (Z.of_nat m))) =
    if j <? Z.of_nat m then wrap w (g j) else lane w j v) as H.
  { induction m as [|m IH]; intros Hm j Hj; [by destruct (Z.ltb_spec j (Z.of_nat 0)); [lia|]|].
    rewrite seqZ_S, foldl_app. cbn [foldl]. unfold set_lane at 1. rewrite lane_build, IH by (done || lia).
    rewrite Z.add_0_l. destruct (Z.eqb_spec j (Z.of_nat m)) as [->|].
    - destruct (Z.ltb_spec (Z.of_nat m) (Z.of_nat (S m))); [done|lia].
    - destruct (Z.ltb_spec j (Z.of_nat m)), (Z.ltb_spec j (Z.of_nat (S m))); try lia; [apply wrap_wrap|].
      apply wrap_small, lane_in_u. lia. }
  pose proof (Z.div_pos 128 w ltac:(lia) Hp).
  specialize (H (Z.to_nat (128 / w))). rewrite Z2Nat.id in H by lia.
  assert (in_u 128 (foldl (fun v i => set_lane w i (g i) v) v (seqZ 0 (128 / w)))) as Hin.
  { destruct (Z.to_nat (128 / w)) as [|m] eqn:E; [destruct Hw as [-> | [-> | [-> | ->]]]; discriminate E|].
    replace (128 / w) with (Z.of_nat (S m)) by lia. rewrite seqZ_S, foldl_app. by apply build_in_u. }
  apply (lane_ext w); [done|done|by apply build_in_u|]. intros i Hi. rewrite H, lane_build by (done || lia).
  by replace (i <? 128 / w) with true by lia.
Qed.

(** Byte [x] of the array [{b, a}]. *)
Lemma lane_pair a b x : in_u 128 a -> in_u 128 b -> 0 <= x < 32 ->
  lane 8 x (pack_lanes 128 [b; a]) = if x <? 16 then lane 8 x b else lane 8 (x - 16) a.
Proof.
  intros Ha Hb Hx. apply (bits_inj_u 8); [lia|apply lane_in_u; lia|destruct (x <? 16); apply lane_in_u; lia|].
  intros n Hn. rewrite testbit_lane, testbit_pack_lanes by lia. replace (n <? 8) with true by lia. cbn [andb].
  destruct (Z.ltb_spec x 16).
  - rewrite Z.div_small, Z.mod_small by lia. change (get [b; a] 0) with b. rewrite testbit_lane by lia.
    by replace (n <? 8) with true by lia.
  - replace ((n + 8 * x) / 128) with 1 by (Z.to_euclidean_division_equations; lia).
    replace ((n + 8 * x) mod 128) with (n + 8 * (x - 16)) by (Z.to_euclidean_division_equations; lia).
    change (get [b; a] 1) with a. rewrite testbit_lane by lia. by replace (n <? 8) with true by lia.
Qed.

Lemma shufb_byte_in_u a b c : in_u 8 (shufb_byte a b c).
Proof.
  unfold shufb_byte. cbv zeta. repeat case_match; try (unfold in_u; lia); apply lane_in_u; lia.
Qed.

(** The selected byte, in terms of the index the handler uses. *)
Lemma select_byte a b c : in_u 128 a -> in_u 128 b -> in_u 8 c -> c < 0x80 ->
  lane 8 (31 - c mod 32) (pack_lanes 128 [b; a]) = shufb_byte a b c.
Proof.
  intros Ha Hb Hc H. pose proof (Z.mod_pos_bound c 32 ltac:(lia)). rewrite lane_pair by (done || lia).
  unfold shufb_byte. cbv zeta. case_cmp; f_equal; lia.
Qed.

(** A byte that is [x] or masked out, with the constants of the special control bytes. *)
Lemma special_byte a b c (p1 p2 : bool) x : in_u 8 c ->
  p1 = (0xc0 <=? c) -> p2 = ((0xc0 <=? c) && (c <? 0xe0)) ->
  (c < 0x80 -> x = shufb_byte a b c) -> (0x80 <= c -> x = 0) ->
  x .| u8 (Z.shiftr (u8 (if p1 then -1 else 0) + u8 (if p2 then -1 else 0) + 1) 1) = shufb_byte a b c.
Proof.
  intros Hc -> -> Hlo Hhi. unfold in_u in Hc. destruct (Z.ltb_spec c 0x80) as [H|H].
  - rewrite <- Hlo by done. replace (0xc0 <=? c) with false by lia. cbn [andb]. apply Z.lor_0_r.
  - rewrite Hhi by done. unfold shufb_byte. case_cmp; reflexivity.
Qed.

Lemma SHUFB_val s op : wf s -> SHUFB s op = put s rt4 op (shufb (r s ra op) (r s rb op) (r s rc op)).
Proof.
  intros Hs. pose proof (r_in_u s ra op Hs) as Ha. pose proof (r_in_u s rb op Hs) as Hb.
  unfold SHUFB, put. do 2 f_equal. set (a := r s ra op) in *. set (b := r s rb op) in *. set (vc := r s rc op).
  rewrite (foldl_set_lane 8) by lane_side.
  apply (lane_ext 8); [lane_side|unfold_simd; auto with spu|apply build_in_u; lane_side|]. intros i Hi.
  unfold shufb. rewrite lane_build by lane_side. rewrite (wrap_small 8) by apply shufb_byte_in_u.
  set (c := lane 8 i vc). assert (in_u 8 c) as Hc by (apply lane_in_u; lia).
  pose proof (byte_tests_ok c Hc) as T. unfold byte_tests in T. rewrite !andb_true_iff, !eqb_true_iff, !Z.eqb_eq in T.
  destruct T as [[[[[[[T1 T2] T3] T4] T5] T6] T7] T8].
  unfold mm_or, mm_andnot, mm_avg_epu8, mm_cmpgt, mm_cmpeq, mm_and, mm_set1. lanes.
  rewrite lane_bnot by lane_side. lanes. rewrite lane_bnot, lane_0 by lane_side. fold c.
  change (s8 0) with 0. change (u8 0x1f) with 0x1f. change (u8 0xc0) with 0xc0. change (u8 0xe0) with 0xe0.
  rewrite T1, T2, T3, T4. apply special_byte; [done..| |].
  - intros Hlt. replace (128 <=? c) with false by lia. change (bnot 8 (u8 0)) with (Z.ones 8).
    rewrite select_byte by done. rewrite Z.land_comm, <- wrap_land, wrap_wrap by lia.
    apply wrap_small, shufb_byte_in_u.
  - intros Hge. by replace (128 <=? c) with true by lia.
Qed.

(** ** The emitted sequences *)

(** After [pslld 3] the sign of a byte is its bit 4. *)
Lemma pslld_sign v i : 0 <= i < 16 -> Z.testbit (lane 8 i (mm_slli 32 v 3)) 7 = Z.testbit (lane 8 i v) 4.
Proof.
  intros Hi. unfold mm_slli. rewrite testbit_lane, testbit_build by lane_side. change (7 <? 8) with true. cbn [andb].
  assert (7 <= (7 + 8 * i) mod 32) as Hm by (Z.to_euclidean_division_equations; lia).
  pose proof (Z.mod_pos_bound (7 + 8 * i) 32 ltac:(lia)). pose proof (Z.div_mod (7 + 8 * i) 32 ltac:(lia)).
  rewrite testbit_shiftl by lia. replace (3 <=? (7 + 8 * i) mod 32) with true by lia. cbn [andb].
  rewrite !testbit_lane by (lia || apply Z.div_pos; lia). case_cmp. cbn [andb]. f_equal. lia.
Qed.

Lemma constants : x0f = mm_set1 8 0x0f /\ xc0 = mm_set1 8 0xc0 /\ xe0 = mm_set1 8 0xe0.
Proof. repeat split; vm_compute; reflexivity. Qed.

(** What [pshufb] of the two sources and the choice by bit 4 give for a control byte. *)
Lemma shuffled_byte a b c : in_u 8 c -> Z.testbit (c .^ 0x0f) 7 = (0x80 <=? c) ->
  Z.testbit (c .^ 0x0f) 4 = (16 <=? c mod 32) -> (c .^ 0x0f) .& 15 = 15 - c mod 16 ->
  let pick v := u8 (if Z.testbit (c .^ 0x0f) 7 then 0 else lane 8 ((c .^ 0x0f) .& 15) v) in
  let x := if Z.testbit (c .^ 0x0f) 4 then pick b else pick a in
  (c < 0x80 -> x = shufb_byte a b c) /\ (0x80 <= c -> x = 0).
Proof.
  intros Hc -> -> -> pick x. unfold in_u in Hc. split; intros H.
  - unfold x, pick, shufb_byte. cbv zeta. replace (128 <=? c) with false by lia.
    rewrite !(wrap_small 8 (lane _ _ _)) by (apply lane_in_u; lia).
    case_cmp; f_equal; Z.to_euclidean_division_equations; lia.
  - unfold x, pick. replace (128 <=? c) with true by lia. by destruct (16 <=? c mod 32).
Qed.

(** The common part of the two proofs: [x] is the byte chosen from the shuffled sources. *)
Lemma emitted_byte a b vc i : 0 <= i < 16 ->
  let c := lane 8 i vc in
  let pick v := u8 (if Z.testbit (c .^ 0x0f) 7 then 0 else lane 8 ((c .^ 0x0f) .& 15) v) in
  forall x, x = (if Z.testbit (c .^ 0x0f) 4 then pick b else pick a) ->
  u8 (Z.shiftr (u8 (if c .& 0xc0 =? 0xc0 then -1 else 0) + u8 (if c .& 0xe0 =? 0xc0 then -1 else 0) + 1) 1) .| x =
  shufb_byte a b c /\ ((c .^ 0x0f) .& 0xc0 =? 0xc0) = (c .& 0xc0 =? 0xc0).
Proof.
  intros Hi c pick x Hx. assert (in_u 8 c) as Hc by (apply lane_in_u; lia).
  pose proof (byte_tests_ok c Hc) as T. unfold byte_tests in T. rewrite !andb_true_iff, !eqb_true_iff, !Z.eqb_eq in T.
  destruct T as [[[[[[[T1 T2] T3] T4] T5] T6] T7] T8]. split; [|congruence].
  destruct (shuffled_byte a b c Hc T6 T7 T8) as [X1 X2].
  rewrite Z.lor_comm. apply special_byte; [done..| |]; intros H; rewrite Hx; auto.
Qed.

Lemma shufb_avx_val a b vc : shufb_avx a b vc = shufb a b vc.
Proof.
  unfold shufb_avx, shufb. destruct constants as (-> & -> & ->). cbv zeta. set (cx := mm_xor vc (mm_set1 8 0x0f)).
  apply (lane_ext 8); [lane_side|unfold mm_blendv_epi8; unfold_simd; auto with spu|apply build_in_u; lane_side|].
  intros i Hi. rewrite lane_build by lane_side. rewrite (wrap_small 8) by apply shufb_byte_in_u.
  assert (lane 8 i cx = lane 8 i vc .^ 0x0f) as Ex by (unfold cx, mm_xor, mm_set1; lanes; done).
  unfold mm_or, mm_avg_epu8, mm_blendv_epi8, mm_shuffle_epi8, mm_cmpeq, mm_and, mm_set1. lanes.
  rewrite pslld_sign by lane_side. rewrite Ex. change (u8 0xc0) with 0xc0. change (u8 0xe0) with 0xe0.
  edestruct (emitted_byte a b vc i ltac:(lane_side)) as [E1 E2]; [reflexivity|]. rewrite E2, <- E1. f_equal.
  by destruct (Z.testbit (lane 8 i vc .^ 0x0f) 4); apply wrap_wrap.
Qed.

(** Choosing with the mask and its complement. *)
Lemma mask_choice (p : bool) x y : in_u 8 x -> in_u 8 y ->
  (bnot 8 (u8 (if p then -1 else 0)) .& y) .| (x .& u8 (if p then -1 else 0)) = if p then x else y.
Proof.
  intros Hx Hy. destruct p.
  - change (bnot 8 (u8 (-1))) with 0. change (u8 (-1)) with (Z.ones 8). rewrite Z.land_0_l, Z.lor_0_l, <- wrap_land by lia.
    by apply wrap_small.
  - change (bnot 8 (u8 0)) with (Z.ones 8). change (u8 0) with 0.
    rewrite Z.land_0_r, Z.lor_0_r, Z.land_comm, <- wrap_land by lia. by apply wrap_small.
Qed.

Lemma above_minus_one y : in_u 8 y -> (s8 (u8 (-1)) <? s8 y) = negb (Z.testbit y 7).
Proof.
  intros Hy. apply eqb_prop. apply (all_bytes (fun y => eqb (s8 (u8 (-1)) <? s8 y) (negb (Z.testbit y 7)))); [|done].
  vm_compute. reflexivity.
Qed.

Lemma shufb_sse_val a b vc : in_u 128 vc -> shufb_sse a b vc = shufb a b vc.
Proof.
  intros Hvc. unfold shufb_sse, shufb. destruct constants as (-> & -> & ->). cbv zeta. set (cx := mm_xor vc (mm_set1 8 0x0f)).
  apply (lane_ext 8); [lane_side|unfold_simd; unfold mm_shuffle_epi8; auto 6 with spu|apply build_in_u; lane_side|].
  intros i Hi. rewrite lane_build by lane_side. rewrite (wrap_small 8) by apply shufb_byte_in_u.
  assert (lane 8 i cx = lane 8 i vc .^ 0x0f) as Ex by (unfold cx, mm_xor, mm_set1; lanes; done).
  unfold mm_or, mm_avg_epu8, mm_andnot, mm_shuffle_epi8, mm_cmpeq, mm_cmpgt, mm_and. lanes.
  rewrite lane_bnot by lane_side. unfold mm_set1. lanes. change (u8 0xc0) with 0xc0. change (u8 0xe0) with 0xe0.
  rewrite Z.eqb_refl, above_minus_one, pslld_sign, mask_choice, Ex by (lane_side || apply lane_in_u || apply wrap_in_u; lia).
  edestruct (emitted_byte a b vc i ltac:(lane_side)) as [E1 _]; [reflexivity|]. rewrite <- E1. f_equal.
  by destruct (Z.testbit (lane 8 i vc .^ 0x0f) 4).
Qed.

(** The emitted address computation selects the register of the field. *)
Lemma gpr_offset_field f p op : in_u 32 op -> (f = rc /\ p = 0 \/ f = ra /\ p = 7 \/ f = rb /\ p = 14 \/ f = rt4 /\ p = 21) ->
  gpr_offset p op / 16 = op_get f op.
Proof.
  intros Hop Hf. assert (forall k, 0 <= k -> Z.shiftr op k .& u32 (Z.shiftl 127 4) = Z.shiftl (Z.shiftr op (k + 4) mod 2 ^ 7) 4) as H.
  { intros k Hk. change (u32 (Z.shiftl 127 4)) with (Z.shiftl (Z.ones 7) 4). apply Z.bits_inj'. intros n Hn.
    fold (wrap 7 (Z.shiftr op (k + 4))). autorewrite with bits.
    destruct (Z.leb_spec 4 n); cbn [andb]; [|apply andb_false_r]. autorewrite with bits.
    rewrite andb_comm. do 2 f_equal; lia. }
  assert (op_get f op = Z.shiftr op p mod 2 ^ 7) as ->.
  { destruct Hf as [[-> ->]|[[-> ->]|[[-> ->]|[-> ->]]]]; by apply spu_get_unsigned. }
  unfold gpr_offset. change 16 with (2 ^ 4). rewrite <- Z.shiftr_div_pow2 by lia.
  destruct Hf as [[-> ->]|[[-> ->]|[[-> ->]|[-> ->]]]].
  { cbn [Z.leb Z.compare]. change (op .& 127) with (op .& (2 ^ 7 - 1)). rewrite land_mod, Z.shiftr_0_r by lia.
    pose proof (Z.mod_pos_bound op (2 ^ 7) ltac:(lia)). rewrite wrap_small.
    - rewrite Z.shiftr_shiftl_l, Z.shiftl_0_r by lia. done.
    - unfold in_u. rewrite Z.shiftl_mul_pow2 by lia. lia. }
  all: cbn [Z.leb Z.compare Pos.compare Pos.compare_cont]; rewrite H by lia; rewrite Z.shiftr_shiftl_l, Z.shiftl_0_r by lia; done.
Qed.

(** C11: the interpreter's [SHUFB], which indexes a 32-byte array and builds the special values from comparisons and
    averages, computes the ISA's definition of the instruction byte by byte; and both machine-code sequences that
    [optimized_shufb] can emit, with AVX and without, agree with it, including the way they find the registers in
    the instruction word. *)
Theorem spu_shufb has_avx s op (H : wf s) (Hop : in_u 32 op) :
  SHUFB s op = put s rt4 op (shufb (r s ra op) (r s rb op) (r s rc op)) /\
  optimized_shufb has_avx s op = SHUFB s op.
Proof.
  split; [by apply SHUFB_val|]. rewrite SHUFB_val by done. unfold optimized_shufb, gpr_load, gpr_store. cbv zeta.
  rewrite (gpr_offset_field ra 7), (gpr_offset_field rb 14), (gpr_offset_field rc 0), (gpr_offset_field rt4 21)
    by (done || tauto).
  fold (r s ra op) (r s rb op) (r s rc op).
  destruct has_avx; [rewrite shufb_avx_val|rewrite shufb_sse_val by (by apply r_in_u)]; done.
Qed.

Lemma spu_shufb_witness :
  let s := spu_start [] [(1, 0x000102030405060708090a0b0c0d0e0f); (2, 0xf0f1f2f3f4f5f6f7f8f9fafbfcfdfeff);
                         (3, 0x1f00c0e0801003071f1f1f1f1f1f1f0f)] in
  optimized_shufb true s (rrr 0xb 4 2 1 3) = SHUFB s (rrr 0xb 4 2 1 3) /\
  SHUFB s (rrr 0xb 4 2 1 3) = put s rt4 (rrr 0xb 4 2 1 3) 0xff00ff8000f00307ffffffffffffff0f.
Proof.
  intros s. destruct (spu_shufb true s (rrr 0xb 4 2 1 3)) as [E1 E2]; [by apply wf_spu_start|by vm_compute|].
  split; [exact E2|]. rewrite E1. vm_compute. reflexivity.
Defined.
