(* ===== verification/SpuStore.v ===== *)
(** Storing elements smaller than a quadword on the SPU.

    Loads and stores move 16 aligned bytes.  A compiler stores a byte, halfword, word or doubleword by loading the
    quadword, generating an insertion mask with [CBD], [CHD], [CWD] or [CDD], shuffling the element in,
    and storing the quadword back; [spu_store_element] runs that sequence through the interpreter. *)

From Stdlib Require Import ZArith Lia Bool.
From stdpp Require Import base tactics option list numbers.
From S2P Require Import Prelude BitField Simd SpuOpcodes SpuInterp SpuWf SpuRun SpuQuad SpuArith SpuShuf.
Import BitField Simd SpuOp Spu SpuWf SpuRun SpuQuad SpuArith SpuShuf.
Local Open Scope Z_scope.
Local Open Scope word_scope.

Module SpuStore.

(** Element [t] of the identity mask replaced by the preferred element of the other source. *)
Definition element_mask (w : Z) : Z :=
  if w =? 8 then 0x03 else if w =? 16 then 0x0203 else if w =? 32 then 0x00010203 else 0x0001020304050607.
Definition insertion (w t : Z) : Z := set_lane w t (element_mask w) insert_base.

(** The preferred element of width [w]. *)
Definition preferred (w v : Z) : Z := lane w (96 / w) v.

(** The element of width [w] that contains byte address [a] of a quadword; element 0 is the last. *)
Definition element_of (w a : Z) : Z := (15 - a mod 16) / (w / 8).

(** [lqd x,0(p); c?d y,0(p); shufb x,v,x,y; stqd x,0(p)] *)
Definition op_mask (w : Z) : Z := if w =? 8 then 0x1f4 else if w =? 16 then 0x1f5 else if w =? 32 then 0x1f6 else 0x1f7.
Definition prog_store (w v p x y : Z) : list Z :=
  [ri10 0x34 0 p x; rr (op_mask w) 0 p y; rrr 0xb x x v y; ri10 0x24 0 p x].

(** Local storage [m] with the element of width [w] at address [a], rounded down to its size, set to [e]. *)
Definition store_element (w : Z) (m : Z -> Z) (a e : Z) (k : Z) : Z :=
  let n := w / 8 in
  let base := a / n * n in
  if (base <=? k) && (k <? base + n) then lane 8 (base + n - 1 - k) e else m k.

End SpuStore.
Import SpuStore.

(** ** Bytes of wider lanes *)

(** One case per width. *)
Ltac widths Hw :=
  destruct Hw as [-> | [-> | [-> | ->]]];
  change (8 / 8) with 1 in *; change (16 / 8) with 2 in *; change (32 / 8) with 4 in *; change (64 / 8) with 8 in *;
  change (128 / 8) with 16 in *; change (128 / 16) with 8 in *; change (128 / 32) with 4 in *;
  change (128 / 64) with 2 in *; change (96 / 8) with 12 in *; change (96 / 16) with 6 in *;
  change (96 / 32) with 3 in *; change (96 / 64) with 1 in *.

Lemma byte_set_lane w t x v j : width w -> 0 <= t < 128 / w -> 0 <= j < 16 ->
  lane 8 j (set_lane w t x v) = if j / (w / 8) =? t then lane 8 (j mod (w / 8)) x else lane 8 j v.
Proof.
  intros Hw Ht Hj. apply (bits_inj_u 8); [lia|apply lane_in_u; lia|destruct (_ =? t); apply lane_in_u; lia|].
  intros n Hn. unfold set_lane. rewrite testbit_lane, testbit_build by (done || lia). replace (n <? 8) with true by lia.
  cbn [andb].
  assert ((n + 8 * j) / w = j / (w / 8) /\ (n + 8 * j) mod w = n + 8 * (j mod (w / 8)) /\
          0 <= j mod (w / 8) < w / 8 /\ 8 * (w / 8) = w /\ j = w / 8 * (j / (w / 8)) + j mod (w / 8) /\ 0 <= j / (w / 8))
    as (-> & -> & Hm & Ew & Ej & Hq).
  { widths Hw; Z.to_euclidean_division_equations; lia. }
  destruct (j / (w / 8) =? t); rewrite !testbit_lane by nia; case_cmp; cbn [andb]; f_equal; nia.
Qed.

Lemma byte_lane w i v e : width w -> 0 <= i -> 0 <= e < w / 8 -> lane 8 e (lane w i v) = lane 8 (i * (w / 8) + e) v.
Proof.
  intros Hw Hi He. assert (8 * (w / 8) = w) as Ew by (destruct Hw as [-> | [-> | [-> | ->]]]; done).
  destruct (width_facts w Hw). apply (bits_inj_u 8); [lia|apply lane_in_u; lia..|]. intros n Hn.
  rewrite !testbit_lane by nia. case_cmp; cbn [andb]; f_equal; nia.
Qed.

(** ** Insertion *)

Lemma byte_identity j : 0 <= j < 16 -> lane 8 j insert_base = 31 - j.
Proof.
  intros Hj. apply Z.eqb_eq. assert (forallb (fun j => lane 8 j insert_base =? 31 - j) (seqZ 0 16) = true) as H by done.
  rewrite forallb_forall in H. apply H, list_elem_of_In, elem_of_seqZ. lia.
Qed.

Lemma byte_mask w e : width w -> 0 <= e < w / 8 -> lane 8 e (element_mask w) = (if w =? 64 then 7 else 3) - e.
Proof.
  intros Hw He. apply Z.eqb_eq.
  assert (forallb (fun w => forallb (fun e => lane 8 e (element_mask w) =? (if w =? 64 then 7 else 3) - e) (seqZ 0 (w / 8)))
    [8; 16; 32; 64] = true) as H by done.
  rewrite forallb_forall in H. assert (In w [8; 16; 32; 64]) as Hin by (unfold width in Hw; cbn; intuition lia).
  specialize (H w Hin). rewrite forallb_forall in H. apply H, list_elem_of_In, elem_of_seqZ. lia.
Qed.

Lemma shufb_insertion w t a q : width w -> 0 <= t < 128 / w -> in_u 128 q ->
  shufb a q (insertion w t) = set_lane w t (preferred w a) q.
Proof.
  intros Hw Ht Hq. apply (lane_ext 8); [lane_side|apply build_in_u; lane_side|by apply build_in_u|]. intros j Hj.
  unfold shufb, insertion, preferred. rewrite lane_build, !byte_set_lane by (done || lane_side).
  rewrite (wrap_small 8) by apply shufb_byte_in_u. change (128 / 8) with 16 in Hj.
  assert (0 <= j mod (w / 8) < w / 8) as He by (apply Z.mod_pos_bound; widths Hw; lia).
  destruct (j / (w / 8) =? t).
  - rewrite byte_mask, byte_lane by (done || (widths Hw; lia)). unfold shufb_byte. cbv zeta.
    set (e := j mod (w / 8)) in *. clearbody e. widths Hw; cbn [Z.eqb Pos.eqb];
      rewrite (Z.mod_small (_ - e)) by lia; case_cmp; f_equal; lia.
  - rewrite byte_identity by lia. unfold shufb_byte. cbv zeta. rewrite Z.mod_small by lia. case_cmp. f_equal. lia.
Qed.

(** The element numbers of the handlers. *)
Lemma element_number x m : m .& 15 = m -> bnot 32 (u32 x) .& m = (15 - x mod 16) .& m.
Proof.
  intros Hm. rewrite <- Hm, (Z.land_comm m), !Z.land_assoc. f_equal. rewrite !land_15.
  pose proof (wrap_in_u 32 x ltac:(lia)) as Hx. rewrite bnot_val by (done || lia).
  rewrite (Z.mod_small (15 - _)) by (Z.to_euclidean_division_equations; lia).
  pose proof (wrap_mod 32 4 x ltac:(lia)) as E. change (2 ^ 4) with 16 in E. rewrite <- E. Z.to_euclidean_division_equations; lia.
Qed.

Lemma elements x :
  bnot 32 (u32 x) .& 0xf = element_of 8 x /\ Z.shiftr (bnot 32 (u32 x) .& 0xe) 1 = element_of 16 x /\
  Z.shiftr (bnot 32 (u32 x) .& 0xc) 2 = element_of 32 x /\ Z.shiftr (bnot 32 (u32 x) .& 0x8) 3 = element_of 64 x.
Proof.
  rewrite !element_number by done. unfold element_of. pose proof (Z.mod_pos_bound x 16 ltac:(lia)).
  set (y := x mod 16) in *. clearbody y.
  assert (forallb (fun y => ((15 - y) .& 15 =? (15 - y) / 1) && (Z.shiftr ((15 - y) .& 14) 1 =? (15 - y) / 2) &&
    (Z.shiftr ((15 - y) .& 12) 2 =? (15 - y) / 4) && (Z.shiftr ((15 - y) .& 8) 3 =? (15 - y) / 8)) (seqZ 0 16) = true)
    as E by done.
  rewrite forallb_forall in E. specialize (E y). rewrite !andb_true_iff, !Z.eqb_eq in E.
  destruct E as [[[E1 E2] E3] E4]; [by apply list_elem_of_In, elem_of_seqZ; lia|]. done.
Qed.

Lemma element_range w x : width w -> 0 <= element_of w x < 128 / w.
Proof.
  intros Hw. unfold element_of. pose proof (Z.mod_pos_bound x 16 ltac:(lia)).
  set (y := x mod 16) in *. clearbody y. widths Hw; Z.to_euclidean_division_equations; lia.
Qed.

Lemma insertion_in_u w t : width w -> in_u 128 (insertion w t).
Proof. intros. by apply build_in_u. Qed.

Lemma set_elem_set_r w s op v t x : wf s -> set_elem w (set_r s rt op v) rt op t x = set_r s rt op (set_lane w t x v).
Proof. intros Hs. unfold set_elem. by rewrite set_r_set_r, r_set_r_eq by (done || apply Hs). Qed.

(** The eight instructions that generate insertion masks put the mask of the element that contains the addressed
    byte, for an address given by two registers or by a register and an immediate, and throw exactly when the base
    is the stack pointer and not a multiple of 16; and shuffling with such a mask replaces that element of a
    quadword with the preferred element of the other source and keeps all other bytes. *)
Theorem spu_insertion_masks s op (H : wf s) :
  let x := slot (r s rb op) + slot (r s ra op) in let d := op_get i7 op + slot (r s ra op) in
  let mask w a := if bad_sp s op then Throw s else put s rt op (insertion w (element_of w a)) in
  CBX s op = mask 8 x /\ CHX s op = mask 16 x /\ CWX s op = mask 32 x /\ CDX s op = mask 64 x /\
  CBD s op = mask 8 d /\ CHD s op = mask 16 d /\ CWD s op = mask 32 d /\ CDD s op = mask 64 d /\
  (forall w a v q, width w -> in_u 128 q ->
     shufb v q (insertion w (element_of w a)) = set_lane w (element_of w a) (preferred w v) q).
Proof.
  intros x d mask. unfold CBX, CHX, CWX, CDX, CBD, CHD, CWD, CDD, mask. cbv zeta. rewrite !set_elem_set_r by done.
  destruct (elements x) as (E1 & E2 & E3 & E4), (elements d) as (F1 & F2 & F3 & F4).
  unfold x, d, slot in *. rewrite E1, E2, E3, E4, F1, F2, F3, F4. repeat split.
  intros. apply shufb_insertion; [done|by apply element_range|done].
Qed.

Lemma spu_insertion_masks_witness :
  let s := spu_start [] [(2, 5 * 2 ^ 96)] in
  CBD s (rr 0x1f4 1 2 3) = put s rt (rr 0x1f4 1 2 3) 0x101112131415031718191a1b1c1d1e1f.
Proof.
  intros s. destruct (spu_insertion_masks s (rr 0x1f4 1 2 3)) as (_ & _ & _ & _ & E & _); [by apply wf_spu_start|].
  rewrite E. vm_compute. reflexivity.
Defined.

(** ** Memory *)

Lemma quad_address x : (s32 x + 0 * 16) .& 0x3fff0 = 16 * (x mod SPU_LS_SIZE / 16).
Proof.
  rewrite Z.mul_0_l, Z.add_0_r. change 0x3fff0 with (Z.shiftl (Z.ones 14) 4).
  transitivity (Z.shiftl (wrap 14 (Z.shiftr x 4)) 4).
  - apply Z.bits_inj'. intros n Hn. autorewrite with bits.
    destruct (Z.leb_spec 4 n); cbn [andb]; [|apply andb_false_r]. autorewrite with bits.
    destruct (Z.ltb_spec (n - 4) 14); [|apply andb_false_r]. rewrite andb_true_r. cbn [andb].
    replace (n - 4 + 4) with n by lia. rewrite <- (Z.mod_pow2_bits_low (s32 x) 32 n), <- (Z.mod_pow2_bits_low x 32 n) by lia.
    f_equal. by apply (sgn_mod 32 32).
  - rewrite Z.shiftl_mul_pow2, Z.shiftr_div_pow2 by lia. unfold wrap, SPU_LS_SIZE. Z.to_euclidean_division_equations; lia.
Qed.

Lemma quad_inside x : 0 <= 16 * (x mod SPU_LS_SIZE / 16) /\ 16 * (x mod SPU_LS_SIZE / 16) + 16 <= SPU_LS_SIZE /\
  (16 * (x mod SPU_LS_SIZE / 16)) mod SPU_LS_SIZE = 16 * (x mod SPU_LS_SIZE / 16).
Proof. unfold SPU_LS_SIZE. Z.to_euclidean_division_equations; lia. Qed.

(** Writing back a quadword with one element replaced changes the bytes of the element. *)
Lemma store_inserted w m x e k : width w -> (forall k, in_u 8 (m k)) -> 0 <= k < SPU_LS_SIZE ->
  let a := 16 * (x mod SPU_LS_SIZE / 16) in
  let q := build 8 (fun i => m (a + 15 - i)) in
  (if (a <=? k) && (k <? a + 16) then lane 8 (a + 15 - k) (set_lane w (element_of w x) e q) else m k) =
  store_element w m (x mod SPU_LS_SIZE) e k.
Proof.
  intros Hw Hm Hk a q. pose proof (element_range w x Hw) as Ht. unfold store_element. cbv zeta.
  assert (forall j, 0 <= j < 16 -> lane 8 j q = m (a + 15 - j)) as Hq.
  { intros j Hj. unfold q. rewrite lane_build by lane_side. by apply wrap_small. }
  assert (x mod SPU_LS_SIZE mod 16 = x mod 16) as E16
    by (unfold SPU_LS_SIZE; apply Z.mod_mod_divide; by exists 16384).
  set (y := x mod SPU_LS_SIZE) in *. assert (0 <= y < SPU_LS_SIZE) as Hy by (apply Z.mod_pos_bound; done).
  unfold element_of in *. rewrite <- E16 in *. assert (a = 16 * (y / 16)) as Ea by done. clearbody a y.
  unfold SPU_LS_SIZE in *. destruct ((a <=? k) && (k <? a + 16)) eqn:Ein.
  - rewrite byte_set_lane, Hq by (done || lia). replace (a + 15 - (a + 15 - k)) with k by lia.
    assert (((a + 15 - k) / (w / 8) =? (15 - y mod 16) / (w / 8)) =
      (y / (w / 8) * (w / 8) <=? k) && (k <? y / (w / 8) * (w / 8) + w / 8)) as ->.
    { clear Hq q Ht. widths Hw; apply eq_true_iff_eq; rewrite Z.eqb_eq, andb_true_iff; Z.to_euclidean_division_equations; lia. }
    destruct ((y / (w / 8) * (w / 8) <=? k) && (k <? y / (w / 8) * (w / 8) + w / 8)) eqn:Ee; [|done]. f_equal.
    rewrite andb_true_iff, Z.leb_le, Z.ltb_lt in Ein, Ee. clear Hq q Ht. widths Hw; Z.to_euclidean_division_equations; lia.
  - replace ((y / (w / 8) * (w / 8) <=? k) && (k <? y / (w / 8) * (w / 8) + w / 8)) with false; [done|].
    symmetry. apply andb_false_iff. clear Hq q Ht. widths Hw; Z.to_euclidean_division_equations; lia.
Qed.

(** ** The sequence *)

Lemma run_stqd sse41 s p x : at_code s [ri10 0x24 0 p x] -> 0 <= p < 128 -> 0 <= x < 128 ->
  let a := 16 * (slot (get (gpr s) p) mod SPU_LS_SIZE / 16) in
  exists s', iterations sse41 1 s = Ret true s' /\ gpr s' = gpr s /\ pc s' = pc s + 4 /\
    rest (with_ls s' (ls s)) = rest s /\
    forall k, ls s' k = if (a <=? k) && (k <? a + 16) then lane 8 (a + 15 - k) (get (gpr s) x) else ls s k.
Proof.
  intros H Hp Hx a. pose proof (fetch_at_code _ _ _ H) as HF. destruct H as [Hs _ Ht _ He].
  destruct (fields_ri10 0x24 0 p x) as (E1 & E2 & E3 & _); [lia|unfold in_s; lia|lia..|].
  destruct (wf_pc s Hs) as [Hpc _]. cbn [length] in He. unfold in_u, SPU_LS_SIZE in *.
  exists (with_pc (set_ref_v128 s a (get (gpr s) x)) (pc s + 4)).
  cbn [iterations]. unfold iteration. rewrite Ht. cbn [Z.eqb negb]. rewrite HF.
  rewrite (decode_ri10 0x24 0 p x SpuOp.STQD) by (in_table || unfold in_s; lia).
  cbn [interp]. unfold STQD, r. rewrite E1, E2, E3. fold (slot (get (gpr s) p)). rewrite quad_address.
  unfold SPU_LS_SIZE. fold a. cbn [pc set_ref_v128 with_ls]. rewrite wrap_small by (unfold in_u; lia).
  do 4 (split; [done|]). intros k.
  cbn [ls with_pc set_ref_v128 with_ls]. unfold SPU_LS_SIZE.
  replace (a mod 262144) with a; [done|]. symmetry. apply quad_inside.
Qed.

(** The check of the stack pointer. *)
Lemma bad_sp_val s op : bad_sp s op = (op_get ra op =? 1) && negb (slot (get (gpr s) (op_get ra op)) mod 16 =? 0).
Proof.
  unfold bad_sp. destruct (Z.eqb_spec (op_get ra op) 1) as [->|]; [|done]. fold (slot (get (gpr s) 1)).
  change 0xf with 15. by rewrite land_15.
Qed.

(** The instruction generating the mask. *)
Lemma mask_handler sse41 w : width w -> exists i, (0, op_mask w, i) ∈ instructions /\
  forall s op p, wf s -> op_get ra op = p -> op_get i7 op = 0 -> interp sse41 i s op =
    if (p =? 1) && negb (slot (get (gpr s) p) mod 16 =? 0) then Throw s
    else put s rt op (insertion w (element_of w (slot (get (gpr s) p)))).
Proof.
  intros Hw. widths Hw; [exists SpuOp.CBD|exists SpuOp.CHD|exists SpuOp.CWD|exists SpuOp.CDD];
    (split; [cbn [op_mask Z.eqb Pos.eqb]; in_table|]); intros s op p Hs Hr H7; cbn [interp];
    destruct (elements (0 + slot (get (gpr s) p))) as (F1 & F2 & F3 & F4);
    unfold CBD, CHD, CWD, CDD; rewrite bad_sp_val, Hr, set_elem_set_r by done;
    unfold r; rewrite Hr, H7; fold (slot (get (gpr s) p)); rewrite ?F1, ?F2, ?F3, ?F4; rewrite Z.add_0_l; done.
Qed.

Lemma run_mask_refused sse41 n s w p y ws : width w -> at_code s (rr (op_mask w) 0 p y :: ws) ->
  0 <= p < 128 -> 0 <= y < 128 -> (p =? 1) && negb (slot (get (gpr s) p) mod 16 =? 0) = true ->
  iterations sse41 (S n) s = Throw s.
Proof.
  intros Hw H Hp Hy Hb. destruct (mask_handler sse41 w Hw) as (i & Hi & E).
  assert (0 <= op_mask w < 2048) as Hm by (widths Hw; unfold op_mask; cbn; lia).
  assert (0 <= 0 < 128) as H0 by lia. destruct (fields_rr (op_mask w) 0 p y) as (_ & E2 & _ & E4 & _); [lia..|].
  cbn [iterations]. unfold iteration. rewrite (ac_state _ _ H). cbn [Z.eqb negb]. rewrite (fetch_at_code _ _ _ H).
  rewrite (decode_rr (op_mask w) 0 p y i) by assumption.
  by rewrite (E s _ p (ac_wf _ _ H) E2 E4), Hb.
Qed.

Lemma run_mask sse41 n s w p y ws : width w -> at_code s (rr (op_mask w) 0 p y :: ws) ->
  0 <= p < 128 -> 0 <= y < 128 -> (p =? 1) && negb (slot (get (gpr s) p) mod 16 =? 0) = false ->
  exists s', iterations sse41 (S n) s = iterations sse41 n s' /\ at_code s' ws /\
    gpr s' = set (gpr s) y (insertion w (element_of w (slot (get (gpr s) p)))) /\ pc s' = pc s + 4 /\ rest s' = rest s.
Proof.
  intros Hw H Hp Hy Hb. destruct (mask_handler sse41 w Hw) as (i & Hi & E).
  apply (run_rr sse41 n s (op_mask w) 0 p y ws i); try (done || lia).
  - widths Hw; unfold op_mask; cbn; lia.
  - by apply insertion_in_u.
  - intros op _ Hr _ H7. by rewrite (E s op p (ac_wf _ _ H) Hr H7), Hb.
Qed.

(** C19: the sequence load quadword, generate mask, shuffle, store quadword, run from local storage by the
    interpreter, stores the preferred byte, halfword, word or doubleword of a register, big endian, at the address
    in another register, rounded down to the size of the element and taken modulo the size of local storage, and
    changes no other byte, and besides the two scratch registers and the program counter nothing else of the
    thread.  Only if the address is in register 1, the stack pointer, and not a multiple of 16, the instruction that
    generates the mask throws, when the quadword has been loaded and nothing else has changed.  The scratch
    registers are distinct and neither holds the value or the address, which may be in the same register.  The thread
    is well-formed, runs the static interpreter without pending state flags, and has the four words at its program
    counter, inside local storage. *)
Theorem spu_store_element sse41 w s v p x y (Hw : width w) (H : at_code s (prog_store w v p x y))
  (Hv : 0 <= v < 128) (Hp : 0 <= p < 128) (Hx : 0 <= x < 128) (Hy : 0 <= y < 128)
  (Hxp : x <> p) (Hyp : y <> p) (Hxv : x <> v) (Hyv : y <> v) (Hxy : x <> y) :
  let c := slot (get (gpr s) p) in
  if (p =? 1) && negb (c mod 16 =? 0) then
    old_interpreter sse41 4 s =
      Throw (with_pc (with_gpr s (set (gpr s) x (ref_v128 s (16 * (c mod SPU_LS_SIZE / 16))))) (pc s + 4))
  else exists s', old_interpreter sse41 4 s = Ret true s' /\
    (forall k, 0 <= k < SPU_LS_SIZE -> ls s' k =
       store_element w (ls s) (c mod SPU_LS_SIZE) (preferred w (get (gpr s) v)) k) /\
    (forall k, 0 <= k < 128 -> k <> x -> k <> y -> get (gpr s') k = get (gpr s) k) /\ pc s' = pc s + 16 /\
    rest (with_ls s' (ls s)) = rest s.
Proof.
  unfold old_interpreter. rewrite (ac_decoder _ _ H). pose proof (at_code_len _ _ H) as Hl.
  set (g := gpr s) in *. set (c := slot (get g p)). set (a := 16 * (c mod SPU_LS_SIZE / 16)). cbv zeta.
  set (q := build 8 (fun i => ls s (a + 15 - i))). assert (in_u 128 q) as Hq by (apply build_in_u; lane_side).
  assert (ref_v128 s a = q) as Eq by (unfold ref_v128, a; by rewrite (proj2 (proj2 (quad_inside c)))).
  destruct (run_ri10 sse41 3 s 0x34 0 p x _ SpuOp.LQD q H) as (s1 & R1 & H1 & G1 & P1 & L1); side.
  { intros op E1 E2 E3. cbn [interp]. unfold LQD, r. rewrite E2, E3. fold (slot (get (gpr s) p)).
    rewrite quad_address. fold g c a. by rewrite Eq. }
  assert (slot (get (gpr s1) p) = c) as Ec by (by rewrite G1, (get_set_ne _ x p) by lia).
  destruct ((p =? 1) && negb (c mod 16 =? 0)) eqn:Hb.
  { rewrite R1, (run_mask_refused sse41 2 s1 w p y _ Hw H1), Eq by (done || by rewrite Ec).
    f_equal. by apply rest_eq. }
  destruct (run_mask sse41 2 s1 w p y _ Hw H1) as (s2 & R2 & H2 & G2 & P2 & L2); [done|done|by rewrite Ec|].
  rewrite Ec, G1 in G2. set (t := element_of w c) in *.
  set (v' := set_lane w t (preferred w (get g v)) q). assert (in_u 128 v') as Hv' by (by apply build_in_u).
  destruct (run_rrr sse41 1 s2 0xb x x v y _ SpuOp.SHUFB v' H2) as (s3 & R3 & H3 & G3 & P3 & L3); side.
  { intros op E1 E2 E3 E4. cbn [interp]. rewrite SHUFB_val by apply H2. unfold r. rewrite E2, E3, E4, G2.
    rewrite get_set_same, !(get_set_ne _ y), get_set_same, get_set_ne by (rewrite ?length_set; done || lia).
    rewrite shufb_insertion by (done || by apply element_range). done. }
  destruct (run_stqd sse41 s3 p x H3) as (s4 & R4 & G4 & P4 & F4 & L4); [done..|].
  assert (rest s3 = rest s) as L by congruence.
  exists s4. rewrite R1, R2, R3, R4, P4, P3, P2, P1. split; [done|]. split; [|split; [|split; [lia|]]].
  - intros k Hk. rewrite L4, G3, G2, get_set_same, !get_set_ne by (rewrite ?length_set; done || lia). fold c a.
    rewrite (rest_ls s s3 L). apply (store_inserted w (ls s) c (preferred w (get g v)) k); [done|apply H|done].
  - intros k Hk Hkx Hky. by rewrite G4, G3, G2, !get_set_ne by lia.
  - by rewrite <- (rest_ls s s3 L), F4.
Qed.

(** The halfword at address 0x1235, which is the one at 0x1234; refused with the address in the stack pointer. *)
Lemma spu_store_element_witness :
  let s := spu_start (prog_store 16 4 5 6 7) [(4, 0xabcd * 2 ^ 96); (5, 0x1235 * 2 ^ 96)] in
  let s1 := spu_start (prog_store 16 4 1 6 7) [(4, 0xabcd * 2 ^ 96); (1, 0x1235 * 2 ^ 96)] in
  (exists s', old_interpreter true 4 s = Ret true s' /\
    ls s' 0x1233 = 0 /\ ls s' 0x1234 = 0xab /\ ls s' 0x1235 = 0xcd /\ ls s' 0x1236 = 0) /\
  (exists s', old_interpreter true 4 s1 = Throw s' /\ pc s' = 4).
Proof.
  intros s s1.
  pose proof (spu_store_element true 16 s 4 5 6 7) as (s' & R & L & _);
    [lane_side|by apply at_code_start; [repeat constructor; vm_compute|..]|lia..|].
  split; [exists s'; split; [exact R|]; rewrite !L by (unfold SPU_LS_SIZE; lia); vm_compute; repeat split|].
  pose proof (spu_store_element true 16 s1 4 1 6 7) as R1.
  eexists. split; [apply R1; lane_side || lia || by apply at_code_start; [repeat constructor; vm_compute|..]|reflexivity].
Defined.
