(* ===== verification/SpuBytes.v ===== *)
(** SPU byte sums and counts, mask expansion and gathering, sign extension and comparisons. *)

From Stdlib Require Import ZArith Lia Bool.
From stdpp Require Import base tactics option list numbers.
From S2P Require Import Prelude BitField Simd SpuOpcodes SpuInterp SpuWf SpuRun SpuQuad SpuArith SpuMul SpuShuf SpuStore.
Import BitField Simd SpuOp Spu SpuWf SpuRun SpuQuad SpuArith SpuMul SpuShuf SpuStore.
Local Open Scope Z_scope.
Local Open Scope word_scope.

Module SpuBytes.

(** The number of ones among the low [n] bits. *)
Definition ones_count (n : Z) (x : Z) : Z := foldr (fun i c => b2z (Z.testbit x i) + c) 0 (seqZ 0 n).

(** The sum of the bytes of word [i]. *)
Definition byte_sum (v i : Z) : Z :=
  lane 8 (4 * i) v + lane 8 (4 * i + 1) v + lane 8 (4 * i + 2) v + lane 8 (4 * i + 3) v.

(** The low bits of the lanes, lane 0 last. *)
Definition gather (w v : Z) : Z := pack_lanes 1 ((fun i => lane w i v) <$> seqZ 0 (128 / w)).

(** [cntb t,a; sumb t,t,t] *)
Definition prog_popcount (t a : Z) : list Z := [rr 0x2b4 0 a t; rr 0x253 t t t].

End SpuBytes.
Import SpuBytes.

(** ** Counting ones *)

(** A 64-bit shift right by less than a byte, under a mask that drops the bits of the next byte. *)
Lemma srli_byte v k m i : 0 <= i < 16 -> 0 <= k < 8 -> in_u (8 - k) m ->
  lane 8 i (mm_srli 64 v k) .& m = Z.shiftr (lane 8 i v) k .& m.
Proof.
  intros Hi Hk Hm. apply Z.bits_inj'. intros n Hn. rewrite !Z.land_spec.
  destruct (Z.ltb_spec n (8 - k)); [|by rewrite (testbit_high (8 - k) m n), !andb_false_r by (done || lia)].
  f_equal. unfold mm_srli. rewrite testbit_shiftr, !testbit_lane, testbit_build by lane_side.
  replace (n <? 8) with true by lia. replace (n + k <? 8) with true by lia. cbn [andb].
  pose proof (Z.mod_pos_bound (n + 8 * i) 64 ltac:(lia)). pose proof (Z.div_mod (n + 8 * i) 64 ltac:(lia)).
  pose proof (Z.div_pos (n + 8 * i) 64 ltac:(lia) ltac:(lia)).
  rewrite testbit_shiftr, testbit_lane by lia.
  replace ((n + 8 * i) mod 64 + k <? 64) with true by (Z.to_euclidean_division_equations; lia). cbn [andb]. f_equal. lia.
Qed.

Definition count_step (m k x : Z) : Z := u8 ((Z.shiftr x k .& m) + (x .& m)).

Lemma count_bytes c : in_u 8 c -> count_step 0x0f 4 (count_step 0x33 2 (count_step 0x55 1 c)) = ones_count 8 c.
Proof.
  intros Hc. apply Z.eqb_eq.
  apply (all_bytes (fun c => count_step 0x0f 4 (count_step 0x33 2 (count_step 0x55 1 c)) =? ones_count 8 c)); [|done].
  vm_compute. reflexivity.
Qed.

Lemma count_stage v m k i : 0 <= i < 16 -> 0 <= k < 8 -> in_u (8 - k) m ->
  lane 8 i (mm_add 8 (mm_and (mm_srli 64 v k) (mm_set1 8 m)) (mm_and v (mm_set1 8 m))) = count_step m k (lane 8 i v).
Proof.
  intros Hi Hk Hm. assert (u8 m = m) as Em.
  { apply wrap_small. unfold in_u in *. assert (2 ^ (8 - k) <= 2 ^ 8) by (apply Z.pow_le_mono_r; lia). lia. }
  unfold mm_add, mm_and, mm_set1. lanes. rewrite Em, srli_byte by done. done.
Qed.

Lemma CNTB_val s op : CNTB s op = put s rt op (build 8 (fun i => ones_count 8 (arg 8 s op ra i))).
Proof.
  unfold CNTB, put. do 2 f_equal.
  apply (lane_ext 8); [lane_side|apply build_in_u; lane_side..|]. intros i Hi.
  rewrite !count_stage by (unfold in_u; lane_side). rewrite lane_build by lane_side.
  rewrite <- count_bytes by (apply lane_in_u; lia). symmetry. apply wrap_wrap.
Qed.

(** ** Sums of bytes *)

Lemma pair_sum v j : 0 <= j < 8 ->
  lane 16 j (mm_add 16 (mm_srli 16 v 8) (mm_and v (mm_set1 16 0xff))) = lane 8 (2 * j) v + lane 8 (2 * j + 1) v.
Proof.
  intros Hj. unfold mm_add, mm_srli, mm_and, mm_set1. lanes. change (u16 0xff) with (2 ^ 8 - 1).
  rewrite land_mod, Z.shiftr_div_pow2, lane_16_of_8 by lia.
  pose proof (lane_in_u 8 (2 * j) v ltac:(lia)) as H0. pose proof (lane_in_u 8 (2 * j + 1) v ltac:(lia)) as H1.
  unfold in_u in *. set (x := lane 8 (2 * j) v) in *. set (y := lane 8 (2 * j + 1) v) in *. clearbody x y.
  word_lia.
Qed.

(** Both halfword sums of a word, in its low half or in its high half. *)
Lemma word_sums i v p q : 0 <= i < 4 -> lane 16 (2 * i) v = p -> lane 16 (2 * i + 1) v = q ->
  0 <= p < 2 ^ 10 -> 0 <= q < 2 ^ 10 ->
  lane 32 i (mm_add 16 (mm_srli 32 v 16) (mm_and v (mm_set1 32 0xffff))) = p + q /\
  lane 32 i (mm_add 16 (mm_slli 32 v 16) (mm_andnot (mm_set1 32 0xffff) v)) = Z.shiftl (p + q) 16.
Proof.
  intros Hi Ep Eq Hp Hq. unfold mm_add, mm_srli, mm_slli, mm_and, mm_andnot, mm_set1.
  rewrite !word_of_halves by done. rewrite !lane_land by lia. rewrite !half_lo, !half_hi by lia.
  rewrite !lane_bnot by lane_side. lanes.
  assert (lane 32 i v = p + 2 ^ 16 * q) as -> by (rewrite lane_32_of_16, Ep, Eq by lia; lia).
  change (u32 65535) with 65535. change (65535 mod 2 ^ 16) with 65535. change (65535 / 2 ^ 16) with 0.
  change (bnot 32 65535) with 0xffff0000. change (0xffff0000 mod 2 ^ 16) with 0.
  change (0xffff0000 / 2 ^ 16) with 65535. rewrite !Z.land_0_r, !land_ffff, (Z.land_comm 65535), land_ffff.
  rewrite !Z.shiftl_mul_pow2, Z.shiftr_div_pow2, Z.land_0_l by lia. clear Ep Eq.
  assert ((p + 2 ^ 16 * q) / 2 ^ 16 = q) as -> by word_lia. assert ((p + 2 ^ 16 * q) mod 2 ^ 16 = p) as -> by word_lia.
  assert (u32 ((p + 2 ^ 16 * q) * 2 ^ 16) = p * 2 ^ 16) as -> by word_lia. split; word_lia.
Qed.

Lemma byte_sum_bound v i : 0 <= byte_sum v i < 2 ^ 10.
Proof.
  unfold byte_sum. assert (forall k, 0 <= lane 8 k v < 2 ^ 8) as H by (intros; by apply lane_in_u).
  pose proof (H (4 * i)). pose proof (H (4 * i + 1)). pose proof (H (4 * i + 2)). pose proof (H (4 * i + 3)). lia.
Qed.

Lemma SUMB_val s op : SUMB s op = put s rt op
  (build 32 (fun i => byte_sum (r s ra op) i + 2 ^ 16 * byte_sum (r s rb op) i)).
Proof.
  unfold SUMB, put. do 2 f_equal. cbv zeta. set (a := r s ra op). set (b := r s rb op).
  apply (lane_ext 32); [lane_side|unfold_simd; auto with spu|apply build_in_u; lane_side|]. intros i Hi.
  change (128 / 32) with 4 in Hi. unfold mm_or. rewrite lane_lor by lia. rewrite lane_build by lane_side.
  assert (forall v, exists p q, p + q = byte_sum v i /\ 0 <= p < 2 ^ 10 /\ 0 <= q < 2 ^ 10 /\
    lane 16 (2 * i) (mm_add 16 (mm_srli 16 v 8) (mm_and v (mm_set1 16 0xff))) = p /\
    lane 16 (2 * i + 1) (mm_add 16 (mm_srli 16 v 8) (mm_and v (mm_set1 16 0xff))) = q) as Hv.
  { intros v. rewrite !pair_sum by lia. replace (2 * (2 * i)) with (4 * i) by lia.
    replace (2 * (2 * i + 1)) with (4 * i + 2) by lia. eexists _, _. split; [|split; [|split; [|split; reflexivity]]].
    - unfold byte_sum. replace (4 * i + 2 + 1) with (4 * i + 3) by lia. lia.
    - pose proof (lane_in_u 8 (4 * i) v ltac:(lia)). pose proof (lane_in_u 8 (4 * i + 1) v ltac:(lia)). unfold in_u in *. lia.
    - pose proof (lane_in_u 8 (4 * i + 2) v ltac:(lia)). pose proof (lane_in_u 8 (4 * i + 2 + 1) v ltac:(lia)). unfold in_u in *. lia. }
  destruct (Hv a) as (p & q & E & Hp & Hq & H0 & H1), (Hv b) as (p' & q' & E' & Hp' & Hq' & H0' & H1').
  rewrite (proj1 (word_sums i _ p q Hi H0 H1 Hp Hq)), (proj2 (word_sums i _ p' q' Hi H0' H1' Hp' Hq')).
  rewrite E, E', Z.lor_comm. pose proof (byte_sum_bound a i). pose proof (byte_sum_bound b i).
  rewrite lor_shiftl_add by lia. rewrite wrap_small by (unfold in_u; lia). lia.
Qed.

(** ** Mask expansion and gathering *)

Lemma land_pow2_eq x i : 0 <= i -> (x .& 2 ^ i =? 2 ^ i) = Z.testbit x i.
Proof.
  intros Hi. apply eq_true_iff_eq. rewrite Z.eqb_eq. split.
  - intros E. apply (f_equal (fun y => Z.testbit y i)) in E. rewrite Z.land_spec, Z.pow2_bits_true, andb_true_r in E by lia. done.
  - intros E. apply Z.bits_inj'. intros n Hn. rewrite Z.land_spec, Z.pow2_bits_eqb by lia.
    destruct (Z.eqb_spec i n) as [<-|]; [by rewrite E|apply andb_false_r].
Qed.

Lemma testbit_gather w v i : 0 <= i < 128 / w -> Z.testbit (gather w v) i = Z.testbit (lane w i v) 0.
Proof.
  intros Hi. unfold gather. rewrite testbit_pack_lanes by lia. rewrite Z.div_1_r, Z.mod_1_r, get_seqZ by lia. done.
Qed.

Lemma gather_in_u w v : width w -> in_u (128 / w) (gather w v).
Proof.
  intros Hw. pose proof (pack_lanes_in_u 1 ((fun i => lane w i v) <$> seqZ 0 (128 / w)) ltac:(lia)) as H.
  rewrite length_fmap, length_seqZ, Z2Nat.id, Z.mul_1_l in H by (widths Hw; lia). done.
Qed.

(** Gathering the mask of some bits gives them back. *)
Lemma gather_mask w x : width w -> gather w (mask_of w (Z.testbit x)) = wrap (128 / w) x.
Proof.
  intros Hw. assert (0 <= 128 / w) as H0 by (widths Hw; lia).
  apply (bits_inj_u (128 / w)); [done|by apply gather_in_u|by apply wrap_in_u|]. intros i Hi.
  rewrite testbit_gather, testbit_wrap by done. replace (i <? 128 / w) with true by lia. cbn [andb].
  unfold mask_of. rewrite lane_build, testbit_wrap by (done || widths Hw; lia).
  destruct (width_facts w Hw) as [Hp _]. replace (0 <? w) with true by lia. by destruct (Z.testbit x i).
Qed.

Lemma testbit_movemask_lane w v i : width w -> 0 <= i < 128 / w -> Z.testbit (movemask w v) i = Z.testbit (lane w i v) (w - 1).
Proof.
  intros Hw Hi. destruct (width_facts w Hw) as [Hp _]. unfold movemask.
  rewrite testbit_pack_lanes by lia. rewrite Z.div_1_r, Z.mod_1_r, get_seqZ, testbit_shiftr by lia. f_equal.
Qed.

Lemma movemask_in_u w v : width w -> in_u (128 / w) (movemask w v).
Proof.
  intros Hw. pose proof (pack_lanes_in_u 1 ((fun i => Z.shiftr (lane w i v) (w - 1)) <$> seqZ 0 (128 / w)) ltac:(lia)) as H.
  rewrite length_fmap, length_seqZ, Z2Nat.id, Z.mul_1_l in H by (widths Hw; lia). done.
Qed.

Lemma GB_gather v : movemask 32 (mm_slli 32 v 31) = gather 32 v.
Proof.
  apply (bits_inj_u 4); [lia|apply (movemask_in_u 32); lane_side|apply (gather_in_u 32); lane_side|]. intros i Hi.
  rewrite testbit_movemask_lane, testbit_gather by lane_side. unfold mm_slli. rewrite lane_build by lane_side.
  rewrite testbit_wrap, testbit_shiftl by lia. done.
Qed.

Lemma GBB_gather v : movemask 8 (mm_slli 64 v 7) = gather 8 v.
Proof.
  apply (bits_inj_u 16); [lia|apply (movemask_in_u 8); lane_side|apply (gather_in_u 8); lane_side|]. intros i Hi.
  rewrite testbit_movemask_lane, testbit_gather by lane_side. unfold mm_slli.
  rewrite testbit_lane, testbit_build by lane_side.
  pose proof (Z.mod_pos_bound (8 - 1 + 8 * i) 64 ltac:(lia)). pose proof (Z.div_mod (8 - 1 + 8 * i) 64 ltac:(lia)).
  assert (7 <= (8 - 1 + 8 * i) mod 64) by (Z.to_euclidean_division_equations; lia).
  pose proof (Z.div_pos (8 - 1 + 8 * i) 64 ltac:(lia) ltac:(lia)).
  rewrite testbit_shiftl, !testbit_lane by lia. case_cmp. cbn [andb]. f_equal. lia.
Qed.

(** Saturation keeps the sign of a halfword whose low bits are clear. *)
Lemma packs_sign x : Z.testbit (u8 (sat_s8 (s16 (u16 (Z.shiftl x 15))))) 7 = Z.testbit x 0.
Proof.
  assert (u16 (Z.shiftl x 15) = 2 ^ 15 * (x mod 2)) as ->.
  { rewrite Z.shiftl_mul_pow2 by lia. word_lia. }
  rewrite <- Z.bit0_mod. by destruct (Z.testbit x 0).
Qed.

Lemma GBH_gather v : movemask 8 (mm_packs_epi16 (mm_slli 16 v 15) 0) = gather 16 v.
Proof.
  apply (bits_inj_u 16); [lia|apply (movemask_in_u 8); lane_side| |].
  { pose proof (gather_in_u 16 v ltac:(lane_side)) as H. change (128 / 16) with 8 in H. unfold in_u in *. lia. }
  intros i Hi. rewrite testbit_movemask_lane by lane_side. unfold mm_packs_epi16. rewrite lane_build by lane_side.
  destruct (Z.ltb_spec i 8).
  - rewrite testbit_gather by lane_side. unfold mm_slli. rewrite lane_build by lane_side. apply packs_sign.
  - rewrite lane_0. rewrite (testbit_high 8 (gather 16 v)) by (lia || apply (gather_in_u 16); lane_side). done.
Qed.

(** Expansion: the bits a lane is compared with. *)
Lemma expand w bits mask x : width w -> in_u 128 bits ->
  (forall i, 0 <= i < 128 / w -> exists k, 0 <= k /\ lane w i mask = 2 ^ k /\ Z.testbit (lane w i bits) k = Z.testbit x i) ->
  mm_cmpeq w (mm_and bits mask) mask = mask_of w (Z.testbit x).
Proof.
  intros Hw Hb H. apply mask_of_ext; [done|]. intros i Hi. destruct (H i Hi) as (k & Hk & Em & E).
  destruct (width_facts w Hw) as [Hp _]. unfold mm_and. rewrite lane_land, Em, land_pow2_eq by lia. done.
Qed.

(** Byte [j] of a vector built from wider lanes. *)
Lemma byte_build w f j : width w -> 0 <= j < 16 -> lane 8 j (build w f) = lane 8 (j mod (w / 8)) (f (j / (w / 8))).
Proof.
  intros Hw Hj. apply (bits_inj_u 8); [lia|apply lane_in_u; lia..|]. intros n Hn.
  rewrite testbit_lane, testbit_build by (done || lia). replace (n <? 8) with true by lia. cbn [andb].
  assert ((n + 8 * j) / w = j / (w / 8) /\ (n + 8 * j) mod w = n + 8 * (j mod (w / 8)) /\ 0 <= j mod (w / 8)) as (-> & -> & Hm).
  { widths Hw; Z.to_euclidean_division_equations; lia. }
  rewrite testbit_lane by lia. by replace (n <? 8) with true by lia.
Qed.

Lemma FSM_val s op : FSM s op = put s rt op (mask_of 32 (Z.testbit (slot (r s ra op)))).
Proof.
  unfold FSM, put. do 2 f_equal. apply expand; [lane_side|apply build_in_u; lane_side|]. intros i Hi.
  change (128 / 32) with 4 in Hi. exists i. split; [lia|]. unfold mm_shuffle_epi32. rewrite lane_build by lane_side.
  assert (i = 0 \/ i = 1 \/ i = 2 \/ i = 3) as Hc by lia.
  destruct Hc as [-> | [-> | [-> | ->]]]; (split; [vm_compute; reflexivity|]); rewrite testbit_wrap by lia; done.
Qed.

(** Duplicating the lanes of the upper or lower half. *)
Lemma unpack_self w v : width w ->
  mm_unpackhi w v v = build w (fun i => lane w (64 / w + i / 2) v) /\ mm_unpacklo w v v = build w (fun i => lane w (i / 2) v).
Proof. intros Hw. split; apply build_ext; try done; intros i Hi; by destruct (i mod 2 =? 0). Qed.

(** Follow one byte through shuffles at constant indices. *)
Ltac norm_idx :=
  repeat match goal with
  | |- context [lane ?w ?x ?v] => progress (let y := eval vm_compute in x in change (lane w x v) with (lane w y v))
  | |- context [if ?c then _ else _] => let y := eval vm_compute in c in change c with y; cbv iota
  end.
Ltac byte_side := change (32 / 8) with 4; change (16 / 8) with 2; change (8 / 8) with 1; lane_side.
Ltac follow :=
  repeat (first [rewrite (byte_build 32) by byte_side | rewrite (byte_build 16) by byte_side
                | rewrite (byte_build 8) by byte_side | rewrite (byte_lane 32) by byte_side
                | rewrite (byte_lane 16) by byte_side | rewrite (byte_lane 8) by byte_side]; norm_idx).

(** One case per index. *)
Ltac each_index Hi :=
  match type of Hi with 0 <= ?i < ?n =>
    let H := fresh in
    assert (In i (seqZ 0 n)) as H by (apply list_elem_of_In, elem_of_seqZ; lia); clear Hi;
    vm_compute in H; repeat (destruct H as [<-|H]); [..|destruct H]
  end.

Lemma FSMH_bits v i : 0 <= i < 8 -> lane 8 (2 * i) (mm_shuffle_epi32 (mm_unpackhi 16 v v) 0xaa) = lane 8 12 v.
Proof.
  intros Hi. rewrite (proj1 (unpack_self 16 v ltac:(lane_side))). unfold mm_shuffle_epi32.
  each_index Hi; norm_idx; follow; done.
Qed.

Lemma FSMB_bits v i : 0 <= i < 16 ->
  lane 8 i (mm_shuffle_epi32 (mm_shufflehi_epi16 (mm_unpackhi 8 v v) 0x50) 0xfa) = lane 8 (12 + i / 8) v.
Proof.
  intros Hi. rewrite (proj1 (unpack_self 8 v ltac:(lane_side))). unfold mm_shuffle_epi32, mm_shufflehi_epi16.
  each_index Hi; norm_idx; follow; done.
Qed.

Lemma FSMBI_bits v i : 0 <= i < 16 ->
  lane 8 i (mm_shuffle_epi32 (mm_shufflelo_epi16 (mm_unpacklo 8 v v) 0x50) 0x50) = lane 8 (i / 8) v.
Proof.
  intros Hi. rewrite (proj2 (unpack_self 8 v ltac:(lane_side))). unfold mm_shuffle_epi32, mm_shufflelo_epi16.
  each_index Hi; norm_idx; follow; done.
Qed.

(** The low bytes of the preferred slot. *)
Lemma slot_bits v i : 0 <= i < 16 -> Z.testbit (lane 8 (12 + i / 8) v) (i mod 8) = Z.testbit (slot v) i.
Proof.
  intros Hi. pose proof (Z.mod_pos_bound i 8 ltac:(lia)). pose proof (Z.div_mod i 8 ltac:(lia)).
  pose proof (Z.div_pos i 8 ltac:(lia) ltac:(lia)). unfold slot. rewrite !testbit_lane by lia. case_cmp. cbn [andb]. f_equal. lia.
Qed.

Lemma FSMH_val s op : FSMH s op = put s rt op (mask_of 16 (Z.testbit (slot (r s ra op)))).
Proof.
  unfold FSMH, put. do 2 f_equal. set (v := r s ra op). apply expand; [lane_side|apply build_in_u; lane_side|]. intros i Hi.
  change (128 / 16) with 8 in Hi. exists i. split; [lia|]. split; [each_index Hi; vm_compute; reflexivity|].
  pose proof (FSMH_bits v i Hi) as E. rewrite <- (slot_bits v i) by lia.
  rewrite Z.div_small, Z.mod_small, Z.add_0_r, <- E, !testbit_lane by lia. case_cmp. cbn [andb]. f_equal. lia.
Qed.

Lemma byte_pow2_mask i : 0 <= i < 16 ->
  lane 8 i (mm_set 8 [-128; 64; 32; 16; 8; 4; 2; 1; -128; 64; 32; 16; 8; 4; 2; 1]) = 2 ^ (i mod 8).
Proof. intros Hi. each_index Hi; vm_compute; reflexivity. Qed.

Lemma FSMB_val s op : FSMB s op = put s rt op (mask_of 8 (Z.testbit (slot (r s ra op)))).
Proof.
  unfold FSMB, put. do 2 f_equal. set (v := r s ra op). apply expand; [lane_side|apply build_in_u; lane_side|]. intros i Hi.
  change (128 / 8) with 16 in Hi. exists (i mod 8). pose proof (Z.mod_pos_bound i 8 ltac:(lia)). split; [lia|].
  rewrite FSMB_bits, byte_pow2_mask, slot_bits by done. done.
Qed.

Lemma FSMBI_val s op : FSMBI s op = put s rt op (mask_of 8 (Z.testbit (op_get i16 op))).
Proof.
  unfold FSMBI, put. do 2 f_equal. set (x := op_get i16 op).
  assert (in_u 16 x) as Hx.
  { unfold x. erewrite spu_get_unsigned by (reflexivity || lia). by apply wrap_in_u. }
  apply expand; [lane_side|apply build_in_u; lane_side|]. intros i Hi.
  change (128 / 8) with 16 in Hi. exists (i mod 8). pose proof (Z.mod_pos_bound i 8 ltac:(lia)). split; [lia|].
  split; [by apply byte_pow2_mask|]. rewrite FSMBI_bits by done.
  pose proof (Z.div_mod i 8 ltac:(lia)). pose proof (Z.div_pos i 8 ltac:(lia) ltac:(lia)).
  assert (mm_set 32 [0; 0; 0; x] = x) as ->.
  { unfold mm_set. cbn [rev app pack_lanes]. change (wrap 32 0) with 0.
    repeat (rewrite Z.shiftl_0_l || rewrite Z.lor_0_r).
    apply wrap_small. unfold in_u in *. lia. }
  rewrite testbit_lane by lia. case_cmp. cbn [andb]. f_equal. lia.
Qed.

(** [FSM], [FSMH], [FSMB] and [FSMBI] expand the low 4, 8 or 16 bits of their operand to masks of words, halfwords
    or bytes, whatever detour of unpacks and shuffles the bits take; [GB], [GBH] and [GBB] gather the low bits of
    the lanes; and gathering an expanded mask gives the bits back. *)
Theorem spu_masks s op :
  let a := r s ra op in
  FSM s op = put s rt op (mask_of 32 (Z.testbit (slot a))) /\
  FSMH s op = put s rt op (mask_of 16 (Z.testbit (slot a))) /\
  FSMB s op = put s rt op (mask_of 8 (Z.testbit (slot a))) /\
  FSMBI s op = put s rt op (mask_of 8 (Z.testbit (op_get i16 op))) /\
  GB s op = put s rt op (from32r (gather 32 a)) /\
  GBH s op = put s rt op (from32r (gather 16 a)) /\
  GBB s op = put s rt op (from32r (gather 8 a)) /\
  (forall w x, width w -> gather w (mask_of w (Z.testbit x)) = x mod 2 ^ (128 / w)).
Proof.
  intros a. unfold GB, GBH, GBB. rewrite GB_gather, GBH_gather, GBB_gather.
  repeat split; auto using FSM_val, FSMH_val, FSMB_val, FSMBI_val. intros. by apply gather_mask.
Qed.

(** [CNTB] counts the ones of every byte, though its three rounds shift across byte boundaries; [SUMB] adds up the
    four bytes of each word, those of the first source in the low halfword and those of the second in the high one,
    without overflow between them; [AVGB] is the rounded-up average and [ABSDB] the absolute difference. *)
Theorem spu_byte_arithmetic s op :
  let a := r s ra op in let b := r s rb op in
  CNTB s op = put s rt op (build 8 (fun i => ones_count 8 (lane 8 i a))) /\
  SUMB s op = put s rt op (build 32 (fun i => byte_sum a i + 2 ^ 16 * byte_sum b i)) /\
  (forall i, 0 <= byte_sum a i < 2 ^ 10) /\
  AVGB s op = put s rt op (build 8 (fun i => (lane 8 i a + lane 8 i b + 1) / 2)) /\
  ABSDB s op = put s rt op (build 8 (fun i => Z.abs (lane 8 i a - lane 8 i b))).
Proof.
  intros a b. split; [apply CNTB_val|]. split; [apply SUMB_val|]. split; [apply byte_sum_bound|].
  unfold AVGB, ABSDB, put. split; do 2 f_equal.
  - apply build_ext; [lane_side|]. intros i Hi. by rewrite Z.shiftr_div_pow2 by lia.
  - unfold gv_sub8, gv_maxu8, gv_minu8, mm_sub, mm_max_epu, mm_min_epu. apply build_ext; [lane_side|]. intros i Hi.
    lanes. pose proof (lane_in_u 8 i a ltac:(lia)). pose proof (lane_in_u 8 i b ltac:(lia)). fold a b.
    unfold in_u in *. rewrite (wrap_small 8 (Z.max _ _)), (wrap_small 8 (Z.min _ _)) by (unfold in_u; lia).
    f_equal. lia.
Qed.

(** Two bytes' worth of ones add up to those of the word. *)
Lemma ones_count_app m n x : 0 <= m -> 0 <= n -> ones_count (m + n) x = ones_count m x + ones_count n (Z.shiftr x m).
Proof.
  intros Hm Hn. unfold ones_count. rewrite seqZ_app by done. rewrite foldr_app.
  assert (forall l c, foldr (fun i c => b2z (Z.testbit x i) + c) c l = foldr (fun i c => b2z (Z.testbit x i) + c) 0 l + c) as H.
  { induction l as [|i l IH]; intros c; [done|]. cbn [foldr]. rewrite IH. lia. }
  rewrite H. f_equal. rewrite Z.add_0_l. clear H.
  assert (forall l, (forall i, i ∈ l -> 0 <= i) ->
    foldr (fun i c => b2z (Z.testbit x i) + c) 0 ((fun i => i + m) <$> l) =
    foldr (fun i c => b2z (Z.testbit (Z.shiftr x m) i) + c) 0 l) as H.
  { induction l as [|i l IH]; intros Hl; [done|]. cbn [foldr fmap list_fmap].
    fold (fmap (fun i => i + m) l). rewrite IH by (intros; apply Hl; by constructor).
    rewrite testbit_shiftr by (apply Hl; constructor). done. }
  rewrite <- H by (intros i Hi; apply elem_of_seqZ in Hi; lia). f_equal.
  apply list_eq. intros k. rewrite list_lookup_fmap. destruct (decide (Z.of_nat k < n)).
  - rewrite !lookup_seqZ_lt by lia. cbn. f_equal. lia.
  - rewrite !lookup_seqZ_ge by lia. done.
Qed.

Lemma ones_count_low n x y : 0 <= n -> (forall i, 0 <= i < n -> Z.testbit x i = Z.testbit y i) ->
  ones_count n x = ones_count n y.
Proof.
  intros Hn H. unfold ones_count. assert (forall i, i ∈ seqZ 0 n -> Z.testbit x i = Z.testbit y i) as H'.
  { intros i Hi%elem_of_seqZ. apply H. lia. }
  clear H. induction (seqZ 0 n) as [|i l IH]; [done|]. cbn [foldr]. rewrite IH by (intros; apply H'; by constructor).
  rewrite H' by constructor. done.
Qed.

Lemma count_small x : in_u 8 (ones_count 8 x).
Proof.
  unfold ones_count, in_u. cbn [seqZ]. change (seqZ 0 8) with [0; 1; 2; 3; 4; 5; 6; 7]. cbn [foldr].
  pose proof (b2z_range (Z.testbit x 0)). pose proof (b2z_range (Z.testbit x 1)). pose proof (b2z_range (Z.testbit x 2)).
  pose proof (b2z_range (Z.testbit x 3)). pose proof (b2z_range (Z.testbit x 4)). pose proof (b2z_range (Z.testbit x 5)).
  pose proof (b2z_range (Z.testbit x 6)). pose proof (b2z_range (Z.testbit x 7)). lia.
Qed.

Lemma word_ones v i : 0 <= i ->
  ones_count 8 (lane 8 (4 * i) v) + ones_count 8 (lane 8 (4 * i + 1) v) + ones_count 8 (lane 8 (4 * i + 2) v) +
  ones_count 8 (lane 8 (4 * i + 3) v) = ones_count 32 (lane 32 i v).
Proof.
  intros Hi.
  assert (forall k, 0 <= k < 4 -> ones_count 8 (lane 8 (4 * i + k) v) = ones_count 8 (Z.shiftr (lane 32 i v) (8 * k))) as H.
  { intros k Hk. apply ones_count_low; [lia|]. intros n Hn. rewrite testbit_shiftr, !testbit_lane by lia.
    case_cmp; cbn [andb]; f_equal; lia. }
  pose proof (H 0 ltac:(lia)) as H0. rewrite Z.add_0_r in H0. rewrite H0, !H by lia.
  change (ones_count 32) with (ones_count (8 + (8 + (8 + 8)))). rewrite !ones_count_app, !Z.shiftr_shiftr by lia.
  rewrite Z.shiftr_0_r. change (8 * 1) with 8. change (8 * 2) with (8 + 8). change (8 * 3) with (8 + 8 + 8). lia.
Qed.

(** [cntb] followed by [sumb] counts the ones of every word: run from local storage, the two instructions leave the
    count of word [i] of the source in both halfwords of word [i] of the target. *)
Theorem spu_popcount sse41 s t a (H : at_code s (prog_popcount t a)) (Ht : 0 <= t < 128) (Ha : 0 <= a < 128) :
  exists s', old_interpreter sse41 2 s = Ret true s' /\
    gpr s' = set (gpr s) t (build 32 (fun i => ones_count 32 (lane 32 i (get (gpr s) a)) * (2 ^ 16 + 1))) /\
    pc s' = pc s + 8 /\ rest s' = rest s.
Proof.
  unfold old_interpreter. rewrite (ac_decoder _ _ H). pose proof (at_code_len _ _ H) as Hl. set (v := get (gpr s) a).
  set (c := build 8 (fun i => ones_count 8 (lane 8 i v))). assert (in_u 128 c) as Hc by (apply build_in_u; lane_side).
  destruct (run_rr sse41 1 s 0x2b4 0 a t _ SpuOp.CNTB c H) as (s1 & R1 & H1 & G1 & P1 & L1); side.
  { intros op E1 E2 _ _. cbn [interp]. rewrite CNTB_val. unfold arg, r. by rewrite E2. }
  set (d := build 32 (fun i => ones_count 32 (lane 32 i v) * (2 ^ 16 + 1))).
  assert (in_u 128 d) as Hd by (apply build_in_u; lane_side).
  destruct (run_rr sse41 0 s1 0x253 t t t _ SpuOp.SUMB d H1) as (s2 & R2 & H2 & G2 & P2 & L2); side.
  { intros op E1 E2 E3 _. cbn [interp]. rewrite SUMB_val. unfold r. rewrite E2, E3, G1, get_set_same by done.
    unfold put. do 2 f_equal. apply build_ext; [lane_side|]. intros i Hi.
    assert (byte_sum c i = ones_count 32 (lane 32 i v)) as ->; [|f_equal; lia].
    rewrite <- word_ones by lia. unfold byte_sum, c. rewrite !lane_build by lane_side.
    repeat f_equal; apply wrap_small, count_small. }
  exists s2. rewrite R1, R2, G2, G1, set_set, P2, P1, L2, L1. split; [done|]. split; [done|]. split; [lia|done].
Qed.

Lemma spu_popcount_witness :
  exists s', old_interpreter true 2 (spu_start (prog_popcount 3 4) [(4, 0xf0f0 * 2 ^ 96 + 0xffffffff)]) = Ret true s' /\
    get (gpr s') 3 = 0x80008 * 2 ^ 96 + 0x200020.
Proof.
  destruct (spu_popcount true (spu_start (prog_popcount 3 4) [(4, 0xf0f0 * 2 ^ 96 + 0xffffffff)]) 3 4) as (s' & R & G & _);
    [by apply at_code_start; [repeat constructor; vm_compute|..]|lia..|].
  exists s'. split; [exact R|]. rewrite G. vm_compute. reflexivity.
Defined.
