(* ===== verification/SpuBranch.v ===== *)
(** SPU comparisons, extensions, branches and interrupts.

    [spu_relative_branch] gives the address every branch goes to; [spu_interrupt_entry] that entering an interrupt
    handler through the branch at address 0 without executing it is the same as executing it, and
    [spu_interrupt_return] that [IRET] returns to where an interrupt was taken. *)

From Stdlib Require Import ZArith Lia Bool.
From stdpp Require Import base tactics option list numbers.
From S2P Require Import Prelude BitField Simd SpuOpcodes SpuInterp SpuWf SpuRun SpuQuad SpuArith.
Import BitField Simd SpuOp Spu SpuWf SpuRun SpuQuad SpuArith.
Local Open Scope Z_scope.
Local Open Scope word_scope.

(** ** Comparisons *)

Lemma si10_range op : in_s 10 (op_get si10 op).
Proof.
  unfold op_get. rewrite extract_mod by (unfold valid; cbn; lia). unfold truncate. cbn [field_desc is_signed bitsize].
  apply sgn_in_s. lia.
Qed.

Lemma i8_range op : in_u 8 (op_get i8 op).
Proof. erewrite spu_get_unsigned by (reflexivity || lia). by apply wrap_in_u. Qed.

(** Comparing with both signs flipped is comparing unsigned values. *)
Lemma flipped w a k m c : width w -> (forall i, 0 <= i < 128 / w -> lane w i m = 2 ^ (w - 1)) ->
  wrap w c = wrap w k .^ 2 ^ (w - 1) ->
  mm_cmpgt w (mm_xor a m) (mm_set1 w c) = mask_of w (fun i => wrap w k <? lane w i a).
Proof.
  intros Hw Hm Hc. destruct (width_facts w Hw) as [Hp _]. apply mask_of_ext; [done|]. intros i Hi.
  unfold mm_xor, mm_set1. rewrite lane_lxor, lane_build, Hm, Hc by (done || lia).
  apply flip_sign; [lia|by apply wrap_in_u; lia|apply lane_in_u; lia].
Qed.

Lemma lxor_wrap w x y : 0 <= w -> in_u w y -> wrap w (x .^ y) = wrap w x .^ y.
Proof.
  intros Hw Hy. apply Z.bits_inj'. intros n Hn. rewrite testbit_wrap, !Z.lxor_spec, testbit_wrap by lia.
  destruct (Z.ltb_spec n w); [done|]. by rewrite (testbit_high w y n) by (done || lia).
Qed.

Lemma all_signs w m : width w -> m = mm_set1 w (2 ^ (w - 1)) -> forall i, 0 <= i < 128 / w -> lane w i m = 2 ^ (w - 1).
Proof.
  intros Hw -> i Hi. unfold mm_set1. rewrite lane_build by done. destruct (width_facts w Hw) as [Hp _].
  apply wrap_small. unfold in_u. rewrite (pow2_half w) by done. pose proof (pow2_pos (w - 1) ltac:(lia)). lia.
Qed.

Lemma signed_imm w a k x : width w -> sgn w k = x -> mm_cmpgt w a (mm_set1 w k) = mask_of w (fun i => x <? sgn w (lane w i a)).
Proof.
  intros Hw E. destruct (width_facts w Hw) as [Hp _]. apply mask_of_ext; [done|]. intros i Hi. unfold mm_set1.
  rewrite lane_build, sgn_wrap, E by (done || lia). done.
Qed.

Lemma equal_imm w a k x : width w -> wrap w k = x -> mm_cmpeq w a (mm_set1 w k) = mask_of w (fun i => lane w i a =? x).
Proof.
  intros Hw E. apply mask_of_ext; [done|]. intros i Hi. unfold mm_set1. by rewrite lane_build, E by done.
Qed.

(** The comparisons give all ones where the relation holds and zero elsewhere, in every lane: signed, unsigned
    (whose register forms differ with the instruction set of the host and whose immediate forms flip the sign bits by
    hand) and equal; immediates are sign-extended to the lane, also for the unsigned comparisons, and the byte forms
    use their low eight bits. *)
Theorem spu_compare sse41 s op :
  let a w i := arg w s op ra i in let b w i := arg w s op rb i in
  let k := op_get si10 op in let k8 := op_get i8 op in let mask w c := put s rt op (mask_of w c) in
  CGT s op = mask 32 (fun i => s32 (b 32 i) <? s32 (a 32 i)) /\
  CGTH s op = mask 16 (fun i => s16 (b 16 i) <? s16 (a 16 i)) /\
  CGTB s op = mask 8 (fun i => s8 (b 8 i) <? s8 (a 8 i)) /\
  CLGT sse41 s op = mask 32 (fun i => b 32 i <? a 32 i) /\
  CLGTH sse41 s op = mask 16 (fun i => b 16 i <? a 16 i) /\
  CLGTB s op = mask 8 (fun i => b 8 i <? a 8 i) /\
  CEQ s op = mask 32 (fun i => a 32 i =? b 32 i) /\
  CEQH s op = mask 16 (fun i => a 16 i =? b 16 i) /\
  CEQB s op = mask 8 (fun i => a 8 i =? b 8 i) /\
  CGTI s op = mask 32 (fun i => k <? s32 (a 32 i)) /\
  CGTHI s op = mask 16 (fun i => k <? s16 (a 16 i)) /\
  CGTBI s op = mask 8 (fun i => s8 k8 <? s8 (a 8 i)) /\
  CLGTI s op = mask 32 (fun i => u32 k <? a 32 i) /\
  CLGTHI s op = mask 16 (fun i => u16 k <? a 16 i) /\
  CLGTBI s op = mask 8 (fun i => k8 <? a 8 i) /\
  CEQI s op = mask 32 (fun i => a 32 i =? u32 k) /\
  CEQHI s op = mask 16 (fun i => a 16 i =? u16 k) /\
  CEQBI s op = mask 8 (fun i => a 8 i =? k8).
Proof.
  intros a b k k8 mask. pose proof (si10_range op) as Hk. fold k in Hk. pose proof (i8_range op) as Hk8. fold k8 in Hk8.
  unfold mask. repeat split.
  - unfold CLGT. by rewrite gv_gtu32_mask.
  - unfold CLGTH. by rewrite gv_gtu16_mask.
  - unfold CLGTB. by rewrite gv_gtu8_mask.
  - unfold CGTI, put. do 2 f_equal. by apply signed_imm; [lane_side|rewrite sgn_small by (unfold in_s in *; lia)].
  - unfold CGTHI, put. do 2 f_equal. by apply signed_imm; [lane_side|rewrite sgn_small by (unfold in_s in *; lia)].
  - unfold CGTBI, put. do 2 f_equal. by apply signed_imm; [lane_side|].
  - unfold CLGTI, put. do 2 f_equal. apply flipped; [lane_side|apply all_signs; [lane_side|done]|].
    rewrite lxor_wrap, wrap_wrap by (unfold in_u; lia). done.
  - unfold CLGTHI, put. do 2 f_equal.
    apply flipped; [lane_side|apply all_signs; [lane_side|by vm_compute]|]. by apply lxor_wrap; unfold in_u.
  - unfold CLGTBI, put. do 2 f_equal. rewrite (flipped 8 _ k8); [|lane_side|apply all_signs; [lane_side|by vm_compute]|].
    + by rewrite (wrap_small 8) by done.
    + by apply lxor_wrap; unfold in_u.
  - unfold CEQI, put. do 2 f_equal. by apply equal_imm; [lane_side|].
  - unfold CEQHI, put. do 2 f_equal. by apply equal_imm; [lane_side|].
  - unfold CEQBI, put. do 2 f_equal. apply equal_imm; [lane_side|]. by apply wrap_small.
Qed.

(** ** Extension and counting *)

Lemma in_place w n s op (g : Z -> Z) : width w -> n = 128 / w -> wf s ->
  for_lanes n (fun i s => set_elem w s rt op i (g (lane w i (r s ra op)))) s =
  set_r s rt op (build w (fun i => g (lane w i (r s ra op)))).
Proof.
  intros Hw Hn Hs. rewrite (for_lanes_elem w n s rt op (fun i s => g (lane w i (r s ra op)))); [done..|].
  intros i v Hi E. f_equal. by apply lane_set_r; [apply Hs|..].
Qed.

Lemma clz_leading w x : 0 < w -> in_u w x ->
  let n := countl_zero w x in 0 <= n <= w /\ x < 2 ^ (w - n) /\ (x <> 0 -> 2 ^ (w - 1 - n) <= x).
Proof.
  intros Hw Hx. unfold countl_zero. destruct (Z.eqb_spec x 0) as [->|Hne]; cbv zeta.
  - rewrite Z.sub_diag. repeat split; lia.
  - unfold in_u in Hx. destruct (Z.log2_spec x ltac:(lia)) as [H1 H2]. pose proof (Z.log2_nonneg x).
    assert (Z.log2 x < w) by (apply Z.log2_lt_pow2; lia).
    replace (w - (w - 1 - Z.log2 x)) with (Z.succ (Z.log2 x)) by lia.
    replace (w - 1 - (w - 1 - Z.log2 x)) with (Z.log2 x) by lia. repeat split; lia.
Qed.

Lemma extend_shift w v i : width w -> 0 <= i < 128 / w ->
  lane w i (mm_srai w (mm_slli w v (w / 2)) (w / 2)) = wrap w (sgn (w / 2) (lane w i v)).
Proof.
  intros Hw Hi. unfold mm_srai, mm_slli. rewrite !lane_build, sgn_wrap by (done || destruct (width_facts w Hw); lia). f_equal.
  set (x := lane w i v). clearbody x.
  assert (exists h, w / 2 = h /\ w = h + h /\ 0 < h) as (h & -> & -> & Hh).
  { destruct Hw as [-> | [-> | [-> | ->]]]; [exists 4|exists 8|exists 16|exists 32]; done. }
  rewrite Z.shiftl_mul_pow2, Z.shiftr_div_pow2 by lia. unfold sgn.
  replace (2 ^ (h + h - 1)) with (2 ^ (h - 1) * 2 ^ h) by (rewrite <- Z.pow_add_r by lia; f_equal; lia).
  rewrite <- Z.mul_add_distr_r, Z.pow_add_r by lia. pose proof (pow2_pos h ltac:(lia)).
  rewrite Z.mul_mod_distr_r, <- Z.mul_sub_distr_r, Z.div_mul by lia. done.
Qed.

(** Sign extensions and the count of leading zeros are exact in every lane, also when the target is the
    source: [XSWD] and [CLZ] write their target one lane at a time. *)
Theorem spu_extend_count s op (H : wf s) :
  XSBH s op = put s rt op (build 16 (fun i => s8 (arg 16 s op ra i))) /\
  XSHW s op = put s rt op (build 32 (fun i => s16 (arg 32 s op ra i))) /\
  XSWD s op = put s rt op (build 64 (fun i => s32 (arg 64 s op ra i))) /\
  CLZ s op = put s rt op (build 32 (fun i => countl_zero 32 (arg 32 s op ra i))) /\
  (forall i, let x := arg 32 s op ra i in let n := countl_zero 32 x in
     0 <= n <= 32 /\ x < 2 ^ (32 - n) /\ (x <> 0 -> 2 ^ (31 - n) <= x)).
Proof.
  split; [|split; [|split; [|split]]].
  - unfold XSBH, put. do 2 f_equal. apply (lane_ext 16); [lane_side|apply build_in_u; lane_side..|]. intros i Hi.
    rewrite lane_build by lane_side. apply (extend_shift 16); lane_side.
  - unfold XSHW, put. do 2 f_equal. apply (lane_ext 32); [lane_side|apply build_in_u; lane_side..|]. intros i Hi.
    rewrite lane_build by lane_side. apply (extend_shift 32); lane_side.
  - pose proof (in_place 64 2 s op s32 ltac:(lane_side) eq_refl H) as E. unfold XSWD, put, arg. rewrite <- E.
    unfold for_lanes. change (seqZ 0 2) with [0; 1]. cbn [foldl]. f_equal.
    assert (forall v i, 0 <= i < 2 -> s32 (lane 32 (2 * i) v) = s32 (lane 64 i v)) as Hv.
    { intros v i Hi. rewrite lane_64_of_32 by lia. rewrite <- (sgn_wrap 32 (_ + _)) by lia.
      rewrite (Z.mul_comm 4294967296). change 4294967296 with (2 ^ 32).
      by rewrite wrap_add_pow, sgn_wrap by lia. }
    pose proof (Hv (r s ra op) 0 ltac:(lia)) as H0. change (2 * 0) with 0 in H0. rewrite H0.
    set (s1 := set_elem 64 s rt op 0 _). pose proof (Hv (r s1 ra op) 1 ltac:(lia)) as H1. change (2 * 1) with 2 in H1.
    by rewrite H1.
  - unfold CLZ, put. by rewrite in_place by (lane_side || done).
  - intros i. apply clz_leading; [lia|]. apply lane_in_u. lia.
Qed.

Lemma spu_extend_count_witness :
  let s := spu_start [] [(3, 0x80000000)] in
  XSWD s (rr 0x2a6 0 3 3) = put s rt (rr 0x2a6 0 3 3) 0xffffffff80000000.
Proof.
  intros s. destruct (spu_extend_count s (rr 0x2a6 0 3 3)) as (_ & _ & E & _); [by apply wf_spu_start|].
  rewrite E. vm_compute. reflexivity.
Defined.

(** ** Branches *)

(** The 16-bit displacement, in words, is signed: 18 bits of address wrap around. *)
Lemma branch_target_value a i : in_u 32 a -> a mod 4 = 0 -> in_u 16 i ->
  spu_branch_target a i = (a + 4 * s16 i) mod SPU_LS_SIZE.
Proof.
  intros Ha H4 Hi. unfold spu_branch_target. change 0x3fffc with (Z.shiftl (Z.ones 16) 2).
  transitivity (Z.shiftl (wrap 16 (Z.shiftr (u32 (a + u32 (Z.shiftl i 2))) 2)) 2).
  - apply Z.bits_inj'. intros n Hn. rewrite Z.land_spec, !testbit_shiftl by lia.
    destruct (Z.leb_spec 2 n); cbn [andb]; [|apply andb_false_r].
    rewrite testbit_ones, (testbit_wrap 16), testbit_shiftr, andb_comm by lia. do 2 f_equal. lia.
  - rewrite !Z.shiftl_mul_pow2, Z.shiftr_div_pow2 by lia. unfold SPU_LS_SIZE.
    rewrite sgn_unsigned by (done || lia). unfold wrap, in_u in *. destruct (2 ^ (16 - 1) <=? i); cbn [b2z];
      Z.to_euclidean_division_equations; lia.
Qed.

Lemma i16_range op : in_u 16 (op_get i16 op).
Proof. erewrite spu_get_unsigned by (reflexivity || lia). by apply wrap_in_u. Qed.

(** Relative branches go to the address of the branch plus the signed word displacement, modulo the size of local
    storage, when their condition on the preferred word or halfword holds, and to the next instruction otherwise;
    absolute branches take the displacement from address 0; the linking forms set the target register to the address of
    the next instruction in the preferred slot and zero elsewhere. *)
Theorem spu_relative_branch s op (H : wf s) :
  let disp := 4 * s16 (op_get i16 op) in
  let rel := with_pc s ((pc s + disp) mod SPU_LS_SIZE) in let abs := with_pc s (disp mod SPU_LS_SIZE) in
  let word := slot (r s rt op) in
  let link s' := with_gpr s' (set (gpr s) (op_get rt op) (2 ^ 96 * ((pc s + 4) mod SPU_LS_SIZE))) in
  BR s op = Ret false rel /\ BRA s op = Ret false abs /\
  BRSL s op = Ret false (link rel) /\ BRASL s op = Ret false (link abs) /\
  BRZ s op = (if word =? 0 then Ret false rel else Ret true s) /\
  BRNZ s op = (if word =? 0 then Ret true s else Ret false rel) /\
  BRHZ s op = (if word mod 2 ^ 16 =? 0 then Ret false rel else Ret true s) /\
  BRHNZ s op = (if word mod 2 ^ 16 =? 0 then Ret true s else Ret false rel).
Proof.
  intros disp rel abs word link. destruct (wf_pc s H) as [Hp H4]. pose proof (i16_range op) as Hi.
  assert (lane 16 6 (r s rt op) = word mod 2 ^ 16) as Eh.
  { unfold word, slot, lane. symmetry. apply (wrap_wrap_le 16 32). lia. }
  assert (from32r (spu_branch_target (u32 (pc s + 4)) 0) = 2 ^ 96 * ((pc s + 4) mod SPU_LS_SIZE)) as El.
  { assert (u32 (pc s + 4) mod 4 = 0) as Hm by (unfold in_u in Hp; word_lia).
    rewrite branch_target_value by (done || (by apply wrap_in_u) || unfold in_u; lia).
    change (4 * s16 0) with 0. rewrite Z.add_0_r. replace (u32 (pc s + 4) mod SPU_LS_SIZE) with ((pc s + 4) mod SPU_LS_SIZE).
    - pose proof (Z.mod_pos_bound (pc s + 4) SPU_LS_SIZE ltac:(done)) as Hb. unfold SPU_LS_SIZE in Hb.
      unfold from32r. cbn [pack_lanes]. change (wrap 32 0) with 0. rewrite Z.shiftl_0_l, !Z.lor_0_l, Z.lor_0_r.
      rewrite wrap_small by (unfold in_u, SPU_LS_SIZE; lia). rewrite !Z.shiftl_shiftl, Z.shiftl_mul_pow2 by lia. lia.
    - symmetry. apply (wrap_mod 32 18). lia. }
  unfold BR, BRA, BRSL, BRASL, BRZ, BRNZ, BRHZ, BRHNZ. cbv zeta. rewrite Eh, El. fold (slot (r s rt op)). fold word.
  rewrite (branch_target_value (pc s)), (branch_target_value 0) by (done || unfold in_u; lia). rewrite Z.add_0_l.
  repeat split; try by (destruct (word =? 0)). by destruct (word mod 2 ^ 16 =? 0).
Qed.

(** A branch back by two instructions from address 4 wraps around. *)
Lemma spu_relative_branch_witness :
  let s := with_pc (spu_start [] []) 4 in BR s 0x327fff00 = Ret false (with_pc s 0x3fffc).
Proof.
  intros s. destruct (spu_relative_branch s 0x327fff00) as (E & _).
  - apply with_pc_wf; [by apply wf_spu_start|unfold in_u; lia|done].
  - rewrite E. reflexivity.
Defined.

(** ** Interrupts *)

Lemma fetch_zero s : pc s = 0 -> fetch s = Some (ref_u32 s 0).
Proof.
  intros E. unfold fetch. rewrite E. change (0 + 4 <=? 3 * SPU_LS_SIZE) with true. cbv iota. unfold ref_u32, be32.
  cbn [fmap list_fmap]. rewrite !Z.add_0_l. done.
Qed.

Lemma ref_u32_in_u s a : in_u 32 (ref_u32 s a).
Proof. apply (pack_lanes_in_u 8 [_; _; _; _]). lia. Qed.

Lemma entry_target br : in_u 32 br -> Z.shiftr br 5 .& 0x3fffc = spu_branch_target 0 (op_get i16 br).
Proof.
  intros Hb. pose proof (i16_range br) as Hi. unfold spu_branch_target. rewrite Z.add_0_l, wrap_wrap.
  erewrite spu_get_unsigned in * by (reflexivity || lia). set (i := Z.shiftr br 7 mod 2 ^ 16) in *. unfold in_u in Hi.
  rewrite wrap_small by (unfold in_u; rewrite Z.shiftl_mul_pow2; lia).
  change 0x3fffc with (Z.shiftl (Z.ones 16) 2). apply Z.bits_inj'. intros n Hn.
  rewrite !Z.land_spec, testbit_shiftr, !testbit_shiftl by lia. destruct (Z.leb_spec 2 n); cbn [andb]; [|by rewrite andb_false_r].
  rewrite testbit_ones by lia. destruct (Z.ltb_spec (n - 2) 16); [|by rewrite !andb_false_r]. rewrite !andb_true_r.
  unfold i. rewrite Z.mod_pow2_bits_low, testbit_shiftr by lia. f_equal. lia.
Qed.

(** The first word of local storage is [BR] or [BRA] with zero in its unused low 7 bits. *)
Definition entry_branch (s : spu_thread) : bool :=
  match decode (ref_u32 s 0) with
  | SpuOp.BR | SpuOp.BRA => ref_u32 s 0 mod 2 ^ 7 =? 0
  | _ => false
  end.

(** The opcodes of [BR] and [BRA], in the leading 11 bits. *)
Lemma branch_opcodes d : 0 <= d < 2048 ->
  match decode_ref (Z.shiftl d 21) with SpuOp.BR | SpuOp.BRA => true | _ => false end = (d .& 0x7ec =? 0x180).
Proof.
  intros Hd. apply eqb_prop.
  assert (forallb (fun d => eqb (match decode_ref (Z.shiftl d 21) with SpuOp.BR | SpuOp.BRA => true | _ => false end)
    (d .& 0x7ec =? 0x180)) (seqZ 0 2048) = true) as T by (vm_compute; reflexivity).
  rewrite forallb_forall in T. apply T, list_elem_of_In, in_seqZ, Hd.
Qed.

(** The test of [check_mfc_interrupts] recognises them. *)
Lemma entry_branch_test s : entry_branch s = (ref_u32 s 0 .& 0xfd80007f =? 0x30000000).
Proof.
  pose proof (ref_u32_in_u s 0) as Hb. unfold entry_branch. set (br := ref_u32 s 0) in *. clearbody br.
  pose proof (branch_opcodes _ (spu_decode_range br Hb)) as E. rewrite <- decode_ref_high, <- decode_eq in E by done.
  assert (br .& 0xfd80007f = Z.shiftl (spu_decode br .& 0x7ec) 21 .| br mod 2 ^ 7) as ->.
  { unfold spu_decode. rewrite <- Z.land_ones by lia. change 0xfd80007f with (Z.shiftl 0x7ec 21 .| Z.ones 7).
    rewrite Z.land_lor_distr_r. f_equal. apply Z.bits_inj'. intros n Hn.
    rewrite Z.land_spec, !testbit_shiftl, Z.land_spec by lia. destruct (Z.leb_spec 21 n); cbn [andb]; [|apply andb_false_r].
    rewrite testbit_shiftr by lia. do 2 f_equal. lia. }
  pose proof (Z.mod_pos_bound br (2 ^ 7) ltac:(lia)) as Hm. rewrite lor_shiftl_add by lia.
  set (x := spu_decode br .& 0x7ec) in *. set (y := br mod 2 ^ 7) in *. clearbody x y.
  transitivity ((x =? 0x180) && (y =? 0)); [rewrite <- E; by destruct (decode br)|].
  apply eq_true_iff_eq. rewrite andb_true_iff, !Z.eqb_eq. change (2 ^ 7) with 128 in Hm. lia.
Qed.

(** C20: when an event is pending and interrupts are enabled, [check_mfc_interrupts] reports an interrupt, saves the
    next program counter in SRR0, disables interrupts and enters the handler at address 0, changing nothing else.  If
    the instruction there is a [BR] or [BRA] with zeros in the unused low 7 bits of its word, the program counter is
    already the target of that branch, and the thread is in the state that executing the branch at address 0 would
    give, if it has no pending state flags; otherwise the program counter is 0.  Without a pending event or with
    interrupts disabled, nothing changes. *)
Theorem spu_interrupt_entry sse41 s next :
  let s0 := with_pc (with_srr0 (with_interrupts s false) next) 0 in
  let s1 := with_pc s0 (4 * s16 (op_get i16 (ref_u32 s 0)) mod SPU_LS_SIZE) in
  check_mfc_interrupts s next =
    (if (ch_count (ch_events s) =? 0) || negb (interrupts_enabled s) then (false, s)
     else (true, if entry_branch s then s1 else s0)) /\
  (entry_branch s = true -> state s = 0 -> iteration sse41 s0 = Ret false s1).
Proof.
  intros s0 s1. pose proof (ref_u32_in_u s 0) as Hb. pose proof (i16_range (ref_u32 s 0)) as Hi. split.
  - unfold check_mfc_interrupts.
    change (ref_u32 (with_srr0 (with_interrupts s false) next) 0) with (ref_u32 s 0).
    rewrite <- entry_branch_test, entry_target by done.
    rewrite branch_target_value by (done || unfold in_u; lia). rewrite Z.add_0_l.
    destruct (ch_count (ch_events s) =? 0), (interrupts_enabled s), (entry_branch s); done.
  - intros E Hs. unfold iteration. change (state s0) with (state s). rewrite Hs. cbn [Z.eqb negb].
    rewrite (fetch_zero s0) by done. change (ref_u32 s0 0) with (ref_u32 s 0).
    unfold entry_branch in E. destruct (decode (ref_u32 s 0)); try discriminate E; cbn [interp]; unfold BR, BRA;
      rewrite branch_target_value by (done || unfold in_u; cbn; lia); done.
Qed.

(** The handler is at 0x100 and address 0 holds a branch to it. *)
Lemma spu_interrupt_entry_witness :
  let s := Spu_thread (replicate 128 0) 8 (ls_of_words [0x32002000]) 0 true (2 ^ 31) 0 _static in
  let s1 := with_pc (with_srr0 (with_interrupts s false) 12) 0x100 in
  check_mfc_interrupts s 12 = (true, s1) /\
  iteration true (with_pc (with_srr0 (with_interrupts s false) 12) 0) = Ret false s1.
Proof.
  intros s s1. destruct (spu_interrupt_entry true s 12) as [E1 E2].
  split; [exact E1|]. apply E2; [vm_compute; reflexivity|reflexivity].
Defined.

(** An indirect branch with the enable bit and no pending work takes a pending interrupt at once: control goes to the
    handler, with interrupts disabled and the branch target saved; and an [IRET] without enable bit, executed later with
    interrupts still disabled and [srr0] untouched, returns to that target and changes nothing else. *)
Theorem spu_interrupt_return s op (H : wf s) (Hs : state s = 0)
  (He : ch_count (ch_events s) <> 0) (Hm : ch_mask (ch_events s) .& SPU_EVENT_INTR_BUSY_CHECK = 0)
  (He1 : op_get f_e op = 1) (Hd0 : op_get f_d op = 0) :
  let target := spu_branch_target (slot (r s ra op)) 0 in
  exists s1, BI s op = Ret false s1 /\ interrupts_enabled s1 = false /\ srr0 s1 = target /\
    gpr s1 = gpr s /\ ls s1 = ls s /\
    (pc s1 = 0 \/ pc s1 = spu_branch_target 0 (op_get i16 (ref_u32 s 0))) /\
    forall s2 op2, srr0 s2 = srr0 s1 -> interrupts_enabled s2 = false ->
      op_get f_e op2 = 0 -> op_get f_d op2 = 0 -> IRET s2 op2 = Ret false (with_pc s2 target).
Proof.
  intros target. unfold BI. fold (slot (r s ra op)). fold target.
  unfold set_interrupt_status. rewrite He1, Hd0. cbn [Z.eqb negb]. unfold thread_set_interrupt_status.
  cbn [ch_events with_pc]. rewrite Hm. cbn [Z.eqb negb andb].
  unfold check_mfc_interrupts. cbn [ch_events interrupts_enabled with_interrupts with_pc].
  destruct (Z.eqb_spec (ch_count (ch_events s)) 0); [done|]. cbn [negb andb]. cbn [state with_pc with_srr0 with_interrupts].
  rewrite Hs. cbn [Z.land Z.eqb negb andb]. eexists. split; [reflexivity|]. split; [done|]. split; [done|].
  split; [done|]. split; [done|]. split.
  - cbn [pc with_pc]. destruct (_ =? _); [right|by left]. apply entry_target, ref_u32_in_u.
  - intros s2 op2 E Hdis H2e H2d. cbn [srr0 with_pc with_srr0] in E. unfold IRET, set_interrupt_status. rewrite H2e, H2d. cbn [Z.eqb negb].
    unfold check_mfc_interrupts. cbn [interrupts_enabled with_pc]. rewrite Hdis, andb_false_r. cbn [andb].
    rewrite E. done.
Qed.

Lemma spu_interrupt_return_witness :
  let s := Spu_thread (set (replicate 128 0) 5 (0x200 * 2 ^ 96)) 8 (ls_of_words []) 0 false (2 ^ 31) 0 _static in
  exists s1, BI s (rr 0x1a8 16 5 0) = Ret false s1 /\ srr0 s1 = 0x200.
Proof.
  intros s. destruct (spu_interrupt_return s (rr 0x1a8 16 5 0)) as (s1 & E & _ & E' & _);
    [|done|vm_compute; discriminate|done..|exists s1; split; [exact E|exact E']].
  destruct (wf_spu_start [] [(5, 0x200 * 2 ^ 96)] eq_refl). split; try done; unfold in_u; cbn; lia.
Defined.
