(* ===== verification/SpuChannel.v ===== *)
(** SPU channels: [spu_channel] of Emu/Cell/SPUThread.h, its waiting functions in SPUThread.cpp, and
    the signal notification that is built on it.

    A channel is one 64-bit word: the value in the low half, and three bits of the high half that say that
    there is a value ([bit_count]), that the SPU waits ([bit_wait]) and that it waits to pop or push
    ([bit_occupy]).  A waiting SPU and its partner meet in a second word, [jostling_value].

    The module [Signal] is the channel of a signal notification register: the SPU reads it with [pop_wait], any
    number of other threads write it with [push].  The module [Outbox] is an outbound mailbox: the SPU
    writes it with [push_wait], other threads read it with [pop].  Both are interleaving semantics with one
    step per access to shared memory.  A [fetch_op] whose function has no other effect is one step; where the
    function reads or writes [jostling_value], the load, that access, and the compare-and-swap are
    separate steps.  [thread_ctrl::wait_on] sleeps when the high half of the channel has the expected value,
    until it is notified, the thread is stopped, or the thread is signalled for another reason ([Alert]).  A call with
    [postpone_notify] leaves the notification to its caller; it is a step of its own here in any case. *)

From Stdlib Require Import ZArith Lia Bool.
From stdpp Require Import base tactics option list numbers.
From S2P Require Import Prelude BitField SpuInterp.
Import BitField.
Local Open Scope Z_scope.
Local Open Scope word_scope.

Module Channel.

Definition bit_wait : Z := 2 ^ 32.
Definition bit_occupy : Z := 2 ^ 33.
Definition bit_count : Z := 2 ^ 63.
Definition occupy_ored_wait : Z := bit_wait .| bit_occupy.

Definition has (data bit : Z) : bool := negb (data .& bit =? 0).

(** The high half, which [wait_on] and [notify_one] use. *)
Definition upper (data : Z) : Z := u32 (Z.shiftr data 32).

(** [spu_channel_op_state]. *)
Record op_state := Op_state { old_count : Z; count : Z; notify : bool; op_done : bool }.

(** The members that are a single access: the result and the new [data]. *)
Definition try_push (value data : Z) : bool * Z :=
  if negb (has data bit_count) then (true, bit_count .| value) else (false, data).
Definition try_pop (data : Z) : option Z * Z :=
  if has data bit_count then (Some (u32 data), 0) else (None, data).
Definition try_read (data : Z) : bool * Z := (has data bit_count, u32 data).
Definition set_value (value : Z) (c : bool) : Z := Z.shiftl (b2z c) 63 .| value.
Definition get_value (data : Z) : Z := u32 data.
Definition get_count (data : Z) : Z := if has data bit_count then 1 else 0.

(** The function of the [fetch_op] in [push]; [None] when it returns false. *)
Definition push_op (to_or : bool) (value data : Z) : option Z :=
  if has data bit_occupy then None
  else Some (if to_or then bit_count .| (u32 data .| value) else bit_count .| value).

(** What [push] returns, for the value [old] of its [fetch_op]. *)
Definition push_result (old : Z) : op_state :=
  Op_state (b2z (old .& bit_count =? 0)) 1 (has old bit_wait) true.

(** *** Events *)

(** The fields of [ch_events_t]. *)
Definition ev_events : bf := Bf 64 false 0 16.
Definition ev_locks : bf := Bf 64 false 16 8.
Definition ev_waiting : bf := Bf 64 false 30 1.
Definition ev_count : bf := Bf 64 false 31 1.
Definition ev_mask : bf := Bf 64 false 32 32.

(** [spu_thread::set_events]: the new [ch_events], and whether the thread is notified. *)
Definition set_events (bits ev : Z) : Z * bool :=
  let ev := or_assign ev_events ev bits in
  if negb (extract ev_mask ev .& bits =? 0) then
    (store ev_count ev 1,
     negb (extract ev_waiting ev =? 0) && negb (bits .& (Spu.SPU_EVENT_S1 .| Spu.SPU_EVENT_S2) =? 0))
  else (ev, false).

(** The event of [spu_thread::push_snr], and what it does to [ch_events] around and after a [push] that returned [st].  Its
    branch for a [push] that is not done leaves [ch_events] alone; [spu_channel::push] always reports [op_done]. *)
Definition snr_event (number : Z) : Z := Z.shiftr Spu.SPU_EVENT_S1 (number .& 1).
Definition push_snr (number : Z) (st : op_state) (ev : Z) : Z :=
  let ev := increment ev_locks ev in
  let ev := if old_count st <? count st then (set_events (snr_event number) ev).1 else ev in
  decrement ev_locks ev.

End Channel.
Import Channel.

(** ** Signal notification: [push] and [pop_wait] *)

Module Signal.

(** Where the SPU is in [pop_wait]. *)
Inductive rpc :=
| RIdle
| ROp (pop : bool) (old : Z)            (* [fetch_op] calls its function on [old] *)
| RCas (pop : bool) (old : Z)           (* no value: [fetch_op] tries to set the wait bits *)
| RSpin (pop : bool) (n : nat)          (* [n] turns of the first loop are left *)
| REnter (pop : bool) (expected : Z)    (* calls [wait_on] *)
| RSleep (pop : bool)
| RLoad (pop : bool)                    (* [wait_on] has returned *)
| RTake (pop : bool)                    (* the wait bit is off *)
| RAbort (pop : bool)                   (* stopped *)
| RSettle (v : Z)                       (* stopped, but there is a value *)
| RClear
| RDone (result : Z)
| RFailed.                              (* an ensure has failed *)

(** Where another thread is in [push]. *)
Inductive ppc :=
| PIdle
| PPush (value : Z) (to_or : bool)
| PJostle (value : Z) (to_or : bool) (old : Z)
| PClear (old : Z)
| PNotify (old : Z)
| PDone (r : op_state)
| PFailed.

Record state := St {
  data : Z;
  jostling_value : Z;
  rd : rpc;
  ps : tid -> ppc;
  stopped : bool        (* spu.is_stopped() *)
}.

Definition reader (r : rpc) (s : state) : state := St (data s) (jostling_value s) r (ps s) (stopped s).
Definition pusher (t : tid) (p : ppc) (s : state) : state :=
  St (data s) (jostling_value s) (rd s) (upd t p (ps s)) (stopped s).
Definition set_data (d : Z) (s : state) : state := St d (jostling_value s) (rd s) (ps s) (stopped s).
Definition set_jostling (j : Z) (s : state) : state := St (data s) j (rd s) (ps s) (stopped s).
Definition set_stopped (b : bool) (s : state) : state := St (data s) (jostling_value s) (rd s) (ps s) b.

(** The bits the function of [pop_wait] sets. *)
Definition waits (pop : bool) : Z := (if pop then bit_occupy else 0) .| bit_wait.

(** The compare-and-swap of [fetch_op] in [pop_wait]: on failure the function is called again. *)
Definition cas (pop : bool) (old new : Z) (next : rpc) (s : state) : state :=
  if data s =? old then reader next (set_data new s) else reader (ROp pop (data s)) s.

Definition pop_wait_step (s : state) : option state :=
  match rd s with
  | ROp pop old =>
      Some (if has old bit_count then
              if pop then cas pop old 0 (RDone (u32 old)) s else reader (RDone (u32 old)) s
            else if pop then reader (RCas pop old) (set_jostling bit_occupy s)
            else cas pop old (waits pop) (RSpin pop 10) s)
  | RCas pop old => Some (cas pop old (waits pop) (RSpin pop 10) s)
  | RSpin pop (S n) =>
      Some (if negb (has (data s) bit_wait) then reader (RTake pop) s else reader (RSpin pop n) s)
  | RSpin pop O => Some (reader (REnter pop (upper (waits pop))) s)
  | REnter pop expected =>
      Some (if (upper (data s) =? expected) && negb (stopped s) then reader (RSleep pop) s
            else reader (RLoad pop) s)
  | RLoad pop =>
      let old := data s in
      Some (if negb (has old bit_wait) then reader (RTake pop) s
            else if stopped s then reader (RAbort pop) s
            else reader (REnter pop (upper old)) s)
  | RTake true => Some (reader (RDone (u32 (jostling_value s))) (set_jostling 0 s))
  | RTake false => Some (reader (RDone (u32 (data s))) s)
  | RAbort true =>
      let v := jostling_value s in
      Some (reader (if negb (has v bit_occupy) then RSettle v else RClear) (set_jostling 0 s))
  | RAbort false => Some (reader (RDone (-1)) (set_data (data s .& bnot 64 bit_wait) s))
  | RSettle v => Some (if has (data s) bit_wait then s else reader (RDone (u32 v)) s)
  | RClear =>
      Some (reader (if has (data s) bit_wait then RDone (-1) else RFailed)
              (set_data (data s .& bnot 64 (bit_wait .| bit_occupy)) s))
  | RDone _ => Some (reader RIdle s)
  | RIdle | RSleep _ | RFailed => None
  end.

(** [notify_one]. *)
Definition wake (r : rpc) : rpc := match r with RSleep pop => RLoad pop | _ => r end.

Definition push_step (t : tid) (s : state) : option state :=
  match ps s t with
  | PPush value to_or =>
      let old := data s in
      Some (match push_op to_or value old with
            | Some new => pusher t (if has old bit_wait then PNotify old else PDone (push_result old)) (set_data new s)
            | None => pusher t (PJostle value to_or old) s
            end)
  | PJostle value to_or old =>
      Some (if jostling_value s =? bit_occupy then pusher t (PClear old) (set_jostling value s)
            else pusher t (PPush value to_or) s)
  | PClear old =>
      Some (pusher t (if negb (has (data s) bit_wait) then PFailed
                      else if negb (has old bit_wait) then PFailed else PNotify old)
              (set_data (data s .& bnot 64 occupy_ored_wait) s))
  | PNotify old => Some (pusher t (PDone (push_result old)) (reader (wake (rd s)) s))
  | PDone _ => Some (pusher t PIdle s)
  | PIdle | PFailed => None
  end.

(** What can happen next: a call by another thread or by the SPU, a step of either, the SPU being stopped
    (which ends its sleep) or resumed, or being signalled for another reason. *)
Inductive event :=
| Push (t : tid) (value : Z) (to_or : bool) | Step (t : tid) | Pop_wait (pop : bool) | Go | Stop | Resume | Alert.

Definition step (e : event) (s : state) : option state :=
  match e with
  | Push t value to_or => match ps s t with PIdle => Some (pusher t (PPush (u32 value) to_or) s) | _ => None end
  | Step t => push_step t s
  | Pop_wait pop => match rd s with RIdle => Some (reader (ROp pop (data s)) s) | _ => None end
  | Go => pop_wait_step s
  | Stop => Some (reader (wake (rd s)) (set_stopped true s))
  | Resume => match rd s with RIdle => Some (set_stopped false s) | _ => None end
  | Alert => Some (reader (wake (rd s)) s)
  end.

Definition init : state := St 0 0 RIdle (fun _ => PIdle) false.

Fixpoint run (l : list event) (s : state) : option state :=
  match l with
  | [] => Some s
  | e :: l => match step e s with Some s => run l s | None => None end
  end.

End Signal.

(** ** Outbound mailboxes: [push_wait] and [pop] *)

Module Outbox.

(** Where the SPU is in [push_wait]. *)
Inductive wpc :=
| WIdle
| WOp (value : Z) (push : bool) (old : Z)    (* [fetch_op] calls its function on [old] *)
| WCas (value : Z) (push : bool) (old : Z)   (* full: [fetch_op] tries to set the wait bits *)
| WSpin (n : nat) (st : Z)                   (* [n] turns of the first loop are left, [state] is [st] *)
| WEnter (st : Z)                            (* calls [wait_on] *)
| WSleep
| WLoad                                      (* [wait_on] has returned *)
| WAbort                                     (* stopped *)
| WDone (result : bool).

(** Where another thread is in [pop]. *)
Inductive qpc :=
| QIdle
| QOp (old : Z)
| QCas (old new : Z)
| QNotify (old : Z)
| QDone (result : Z).

Record state := St {
  data : Z;
  jostling_value : Z;
  wr : wpc;
  qs : tid -> qpc;
  stopped : bool
}.

Definition writer (w : wpc) (s : state) : state := St (data s) (jostling_value s) w (qs s) (stopped s).
Definition popper (t : tid) (q : qpc) (s : state) : state :=
  St (data s) (jostling_value s) (wr s) (upd t q (qs s)) (stopped s).
Definition set_data (d : Z) (s : state) : state := St d (jostling_value s) (wr s) (qs s) (stopped s).
Definition set_jostling (j : Z) (s : state) : state := St (data s) j (wr s) (qs s) (stopped s).
Definition set_stopped (b : bool) (s : state) : state := St (data s) (jostling_value s) (wr s) (qs s) b.

(** The compare-and-swap of [fetch_op] in [push_wait]; the new word is also the local [state]. *)
Definition cas (value : Z) (push : bool) (old new : Z) (s : state) : state :=
  if data s =? old then writer (WSpin 10 new) (set_data new s) else writer (WOp value push (data s)) s.

Definition push_wait_step (s : state) : option state :=
  match wr s with
  | WOp value push old =>
      Some (if has old bit_count
            then writer (WCas value push old) (set_jostling (if push then value else u32 old) s)
            else if push then cas value push old (bit_count .| value) s
            else writer (WSpin 10 old) s)
  | WCas value push old => Some (cas value push old (old .| ((if push then bit_occupy else 0) .| bit_wait)) s)
  | WSpin n st =>
      Some (if negb (has st bit_wait) then writer (WDone true) s
            else match n with
                 | S n => writer (WSpin n (data s)) s
                 | O => if stopped s then writer WAbort s else writer (WEnter st) s
                 end)
  | WEnter st =>
      Some (if (upper (data s) =? upper st) && negb (stopped s) then writer WSleep s else writer WLoad s)
  | WLoad => Some (writer (WSpin 0 (data s)) s)
  | WAbort => Some (writer (WDone (negb (has (data s) bit_wait))) (set_data (data s .& bnot 64 bit_wait) s))
  | WDone _ => Some (writer WIdle s)
  | WIdle | WSleep => None
  end.

Definition wake (w : wpc) : wpc := match w with WSleep => WLoad | _ => w end.

Definition pop_mask : Z := bit_count .| bit_occupy.

(** The end of [pop] after its [fetch_op] has replaced [old]. *)
Definition popped (old : Z) : qpc := if has old bit_wait then QNotify old else QDone (u32 old).

Definition pop_step (t : tid) (s : state) : option state :=
  match qs s t with
  | QOp old =>
      Some (if old .& pop_mask =? pop_mask
            then popper t (QCas old (bit_count .| u32 (jostling_value s))) s
            else if data s =? old
                 then popper t (popped old) (set_data (old .& bnot 64 (pop_mask .| bit_wait)) s)
                 else popper t (QOp (data s)) s)
  | QCas old new =>
      Some (if data s =? old then popper t (popped old) (set_data new s) else popper t (QOp (data s)) s)
  | QNotify old => Some (popper t (QDone (u32 old)) (writer (wake (wr s)) s))
  | QDone _ => Some (popper t QIdle s)
  | QIdle => None
  end.

(** [Try_pop] is the SPU taking its own value back. *)
Inductive event :=
| Push_wait (value : Z) (push : bool) | Go | Pop (t : tid) | Step (t : tid) | Try_pop | Stop | Resume | Alert.

Definition step (e : event) (s : state) : option state :=
  match e with
  | Push_wait value push => match wr s with WIdle => Some (writer (WOp (u32 value) push (data s)) s) | _ => None end
  | Go => push_wait_step s
  | Pop t => match qs s t with QIdle => Some (popper t (QOp (data s)) s) | _ => None end
  | Step t => pop_step t s
  | Try_pop => match wr s with WIdle => Some (set_data (try_pop (data s)).2 s) | _ => None end
  | Stop => Some (writer (wake (wr s)) (set_stopped true s))
  | Resume => match wr s with WIdle => Some (set_stopped false s) | _ => None end
  | Alert => Some (writer (wake (wr s)) s)
  end.

Definition init : state := St 0 0 WIdle (fun _ => QIdle) false.

Fixpoint run (l : list event) (s : state) : option state :=
  match l with
  | [] => Some s
  | e :: l => match step e s with Some s => run l s | None => None end
  end.

End Outbox.
