(* ===== verification/SpuChannelSpec.v ===== *)
(** Theorems on SPU channels ([SpuChannel]). *)

From Stdlib Require Import ZArith Lia Bool.
From stdpp Require Import base tactics option list numbers.
From S2P Require Import Prelude BitField SpuInterp SpuChannel.
Import BitField Channel.
Local Open Scope Z_scope.
Local Open Scope word_scope.

(** ** The word of a channel *)

Definition flags (c o w : bool) (v : Z) : Z := (b2z c * 2 ^ 31 + b2z o * 2 + b2z w) * 2 ^ 32 + v.

Lemma testbit_split a v i : in_u 32 v -> 0 <= i ->
  Z.testbit (a * 2 ^ 32 + v) i = if i <? 32 then Z.testbit v i else Z.testbit a (i - 32).
Proof.
  intros Hv Hi. rewrite <- lor_shiftl_add by (done || lia). rewrite Z.lor_spec, testbit_shiftl by lia.
  case_cmp; cbn [andb orb]; [done|]. by rewrite (testbit_high 32 v i), orb_false_r by (done || lia).
Qed.

Lemma land_split a v b l : in_u 32 v -> in_u 32 l ->
  Z.land (a * 2 ^ 32 + v) (b * 2 ^ 32 + l) = Z.land a b * 2 ^ 32 + Z.land v l.
Proof.
  intros Hv Hl. apply Z.bits_inj'. intros i Hi.
  rewrite Z.land_spec, !testbit_split, !Z.land_spec by (done || lia || by apply land_in_u_l). by case_cmp.
Qed.

Lemma lor_split a v b l : in_u 32 v -> in_u 32 l ->
  Z.lor (a * 2 ^ 32 + v) (b * 2 ^ 32 + l) = Z.lor a b * 2 ^ 32 + Z.lor v l.
Proof.
  intros Hv Hl. apply Z.bits_inj'. intros i Hi.
  rewrite Z.lor_spec, !testbit_split, !Z.lor_spec by (done || lia || by apply lor_in_u). by case_cmp.
Qed.

(** Bits of a channel word by computation on its high half. *)
Ltac by_halves :=
  rewrite ?land_split, ?lor_split, ?Z.land_0_r, ?Z.lor_0_l, ?Z.lor_0_r by (done || (unfold in_u; lia));
  try reflexivity.

Section Flags.
Context (c o w : bool) (v : Z) (Hv : in_u 32 v).

Lemma has_flags : has (flags c o w v) bit_count = c /\ has (flags c o w v) bit_occupy = o /\
  has (flags c o w v) bit_wait = w.
Proof.
  unfold has, flags. change bit_count with (2 ^ 31 * 2 ^ 32 + 0). change bit_occupy with (2 * 2 ^ 32 + 0).
  change bit_wait with (1 * 2 ^ 32 + 0). repeat split; destruct c, o, w; by_halves.
Qed.

Lemma has_count : has (flags c o w v) bit_count = c.
Proof. apply has_flags. Qed.
Lemma has_occupy : has (flags c o w v) bit_occupy = o.
Proof. apply has_flags. Qed.
Lemma has_wait : has (flags c o w v) bit_wait = w.
Proof. apply has_flags. Qed.

Lemma u32_flags : u32 (flags c o w v) = v.
Proof. unfold flags, wrap. rewrite Z.add_comm, Z.mod_add by lia. by apply Z.mod_small. Qed.

Lemma count_lor : bit_count .| v = flags true false false v.
Proof.
  transitivity ((2 ^ 31 * 2 ^ 32 + 0) .| (0 * 2 ^ 32 + v)); [by rewrite Z.mul_0_l|].
  rewrite lor_split by (done || (unfold in_u; lia)). by rewrite Z.lor_0_r, Z.lor_0_l.
Qed.

Lemma land_flags a : flags c o w v .& (a * 2 ^ 32 + (2 ^ 32 - 1)) =
  Z.land (b2z c * 2 ^ 31 + b2z o * 2 + b2z w) a * 2 ^ 32 + v.
Proof.
  unfold flags. rewrite land_split by (done || (unfold in_u; lia)).
  rewrite (land_mod v 32) by lia. by rewrite Z.mod_small.
Qed.

Lemma clear_both : flags c o w v .& bnot 64 (bit_wait .| bit_occupy) = flags c false false v.
Proof.
  change (bnot 64 (bit_wait .| bit_occupy)) with ((2 ^ 32 - 4) * 2 ^ 32 + (2 ^ 32 - 1)).
  rewrite land_flags. unfold flags. destruct c, o, w; by_halves.
Qed.

Lemma clear_wait : flags c o w v .& bnot 64 bit_wait = flags c o false v.
Proof.
  change (bnot 64 bit_wait) with ((2 ^ 32 - 2) * 2 ^ 32 + (2 ^ 32 - 1)).
  rewrite land_flags. unfold flags. destruct c, o, w; by_halves.
Qed.

Lemma upper_flags : upper (flags c o w v) = b2z c * 2 ^ 31 + b2z o * 2 + b2z w.
Proof.
  unfold upper, flags. rewrite Z.shiftr_div_pow2, Z.div_add_l, (Z.div_small v), Z.add_0_r by (done || lia).
  by destruct c, o, w.
Qed.

End Flags.

Lemma waits_flags pop : Signal.waits pop = flags false pop true 0.
Proof. by destruct pop. Qed.

Lemma low_not_occupy v : in_u 32 v -> v <> bit_occupy /\ has v bit_occupy = false.
Proof.
  intros Hv. split; [unfold in_u, bit_occupy in *; lia|].
  replace v with (flags false false false v) by (unfold flags; cbn [b2z]; lia). by apply has_occupy.
Qed.

Create Rewrite HintDb chan.
#[export] Hint Rewrite has_count has_occupy has_wait u32_flags count_lor clear_both clear_wait using
  (first [assumption | apply in_u_0; lia | solve [eauto with word]]) : chan.

(** ** The abstract signal register *)

Module SignalSpec.
Import Signal.

(** The value and whether there is one; [session] is [Some None] while the SPU waits for a value to be handed over
    and [Some (Some v)] when it has one it has not returned yet. *)
Record spec := Spec { slot : Z; full : bool; session : option (option Z) }.

Inductive label := Tau | Pushes (v : Z) (to_or : bool) | Waits | Returns (v : Z) | Peeks (v : Z) | Aborts.

Inductive spec_step : spec -> label -> spec -> Prop :=
| spec_tau a : spec_step a Tau a
| spec_put a v to_or : session a <> Some None ->
    spec_step a (Pushes v to_or) (Spec (if to_or then slot a .| v else v) true (session a))
| spec_hand a v to_or : session a = Some None -> full a = false ->
    spec_step a (Pushes v to_or) (Spec (slot a) false (Some (Some v)))
| spec_take a : session a = None -> full a = true -> spec_step a (Returns (slot a)) (Spec 0 false None)
| spec_wait a : session a = None -> full a = false -> spec_step a Waits (Spec (slot a) false (Some None))
| spec_return a v : session a = Some (Some v) -> spec_step a (Returns v) (Spec (slot a) (full a) None)
| spec_peek a : session a = None -> full a = true -> spec_step a (Peeks (slot a)) a
| spec_abort a : session a = Some None -> spec_step a Aborts (Spec (slot a) (full a) None).

Inductive spec_run : spec -> list label -> spec -> Prop :=
| spec_nil a : spec_run a [] a
| spec_cons a x b l d : spec_step a x b -> spec_run b l d -> spec_run a (x :: l) d.

(** What an access does to the abstract register. *)
Definition emits (e : event) (s : state) : label :=
  match e with
  | Go =>
      match rd s with
      | ROp pop old =>
          if has old bit_count then
            if pop then if data s =? old then Returns (u32 old) else Tau else Tau
          else Tau
      | RCas _ old => if data s =? old then Waits else Tau
      | RTake true => Returns (u32 (jostling_value s))
      | RTake false => Peeks (u32 (data s))
      | RAbort true => if has (jostling_value s) bit_occupy then Aborts else Tau
      | RSettle v => if has (data s) bit_wait then Tau else Returns (u32 v)
      | _ => Tau
      end
  | Step t =>
      match ps s t with
      | PPush v to_or => if has (data s) bit_occupy then Tau else Pushes v to_or
      | PJostle v to_or _ => if jostling_value s =? bit_occupy then Pushes v to_or else Tau
      | _ => Tau
      end
  | _ => Tau
  end.

(** The points of a [pop_wait] that waits to pop. *)
Definition popping (r : rpc) : bool :=
  match r with
  | RSpin true _ | REnter true _ | RSleep true | RLoad true | RAbort true => true
  | _ => false
  end.

(** A waiting SPU has been handed a value when [jostling_value] is not the mark it left there. *)
Definition session_of (r : rpc) (j : Z) : option (option Z) :=
  match r with
  | RTake true => Some (Some j)
  | RSettle v => Some (Some v)
  | _ => if popping r then Some (if j =? bit_occupy then None else Some j) else None
  end.

Definition abs (s : state) : spec :=
  Spec (u32 (data s)) (has (data s) bit_count) (session_of (rd s) (jostling_value s)).

(** Between finding the channel occupied and the compare-and-swap on [jostling_value]. *)
Definition at_jostle (p : ppc) : bool := match p with PJostle _ _ _ => true | _ => false end.
(** About to turn off the wait bit. *)
Definition at_clear (p : ppc) : bool := match p with PClear _ => true | _ => false end.
Definition at_notify (p : ppc) : bool := match p with PNotify _ => true | _ => false end.

Definition quiet (s : state) : Prop := forall t, at_jostle (ps s t) = false.

(** A run in which [pop_wait] is not called while a [push] that has found the channel occupied has not yet
    tried [jostling_value]. *)
Inductive disciplined : state -> list label -> state -> Prop :=
| disc_nil s : disciplined s [] s
| disc_cons s e s' l s'' : step e s = Some s' -> (e = Pop_wait true -> quiet s) ->
    disciplined s' l s'' -> disciplined s (emits e s :: l) s''.

(** *** The invariant *)

Definition ptok (p : ppc) : Prop :=
  match p with
  | PPush v _ => in_u 32 v
  | PJostle v _ old => in_u 32 v /\ has old bit_wait = true
  | PClear old => has old bit_wait = true
  | PFailed => False
  | _ => True
  end.

(** What the SPU's point says of the three flags, of [jostling_value] and of the other threads: [b] whether one is
    about to turn off the wait bit, [q]
    that none is about to try [jostling_value]. *)
Definition core (r : rpc) (c o w b : bool) (j : Z) (q : Prop) : Prop :=
  let free := o = false /\ w = false /\ b = false /\ (j = bit_occupy -> q) in
  let taken := c = false /\ o = true /\ w = true in
  let handed := o = false /\ w = false /\ b = false /\ in_u 32 j in
  match r with
  | RIdle | RDone _ | ROp false _ => free
  | ROp true _ => free /\ q
  | RCas true old => free /\ q /\ j = bit_occupy /\ has old bit_count = false
  | RSpin false _ | REnter false _ | RSleep false | RLoad false | RAbort false =>
      o = false /\ b = false /\ (j = bit_occupy -> q) /\ w = negb c
  | RTake false => free /\ c = true
  | RSpin true _ | REnter true _ | RSleep true | RLoad true | RAbort true =>
      taken /\ (j = bit_occupy /\ b = false \/ in_u 32 j /\ b = true) \/ handed
  | RTake true => handed
  | RSettle v => in_u 32 v /\ j <> bit_occupy /\ (taken /\ b = true \/ o = false /\ w = false /\ b = false)
  | RClear => taken /\ b = false /\ j <> bit_occupy
  | RCas false _ | RFailed => False
  end.

Definition inv (s : state) : Prop :=
  (exists c o w v b, data s = flags c o w v /\ in_u 32 v /\ (c = false -> v = 0) /\
     only at_clear b (ps s) /\ core (rd s) c o w b (jostling_value s) (quiet s)) /\
  (forall t, ptok (ps s t)) /\
  (forall pop, rd s = RSleep pop -> has (data s) bit_wait = true \/ exists t, at_notify (ps s t) = true) /\
  (forall pop expected, rd s = REnter pop expected -> Z.odd expected = true).

End SignalSpec.

Import Signal SignalSpec.

Lemma odd_upper_has d : Z.odd (upper d) = has d bit_wait.
Proof.
  unfold has, upper, bit_wait. rewrite land_pow2, negb_involutive, <- Z.bit0_odd, testbit_wrap, testbit_shiftr by lia. done.
Qed.

Lemma odd_upper c o w v : in_u 32 v -> Z.odd (upper (flags c o w v)) = w.
Proof. intros Hv. rewrite odd_upper_has. by apply has_wait. Qed.

(** The next state, when there is one, keeps the invariant and is an abstract step away. *)
Definition good (s : state) (x : label) (o : option state) : Prop :=
  match o with Some s' => inv s' /\ spec_step (abs s) x (abs s') | None => True end.

Lemma good_step c' o' w' v' b c o w v j r f st x d j' r' f' st' :
  in_u 32 v -> d = flags c' o' w' v' -> in_u 32 v' -> (c' = false -> v' = 0) -> only at_clear b f' ->
  core r' c' o' w' b j' (forall t, at_jostle (f' t) = false) -> (forall t, ptok (f' t)) ->
  (forall pop, r' = RSleep pop -> w' = true \/ exists t, at_notify (f' t) = true) ->
  (forall pop e, r' = REnter pop e -> Z.odd e = true) ->
  spec_step (Spec v c (session_of r j)) x (Spec v' c' (session_of r' j')) ->
  good (St (flags c o w v) j r f st) x (Some (St d j' r' f' st')).
Proof.
  intros Hv -> Hv' Hc Hb Hk Hp Hs He Hx. unfold good, abs; cbn [data jostling_value rd]. autorewrite with chan.
  split; [|done]. split; [by exists c', o', w', v', b|]. split; [done|]. split; [|done].
  intros pop Hr. cbn [data]. rewrite has_wait by done. by eapply Hs.
Qed.

Lemma handed_session r j : popping r = true -> in_u 32 j -> session_of r j = Some (Some j).
Proof.
  intros Hr Hj. replace (session_of r j) with (Some (if j =? bit_occupy then None else Some j))
    by (destruct r as [|[]|[]|[]|[]|[]|[]|[]|[]| | | |]; done).
  destruct (low_not_occupy j Hj) as [Hn _]. by case_cmp.
Qed.

Ltac open_inv H :=
  destruct H as ((c & o & w & v & b & Hd & Hv & Hc & Hb & Hk) & Hp & Hs & He);
  cbn [data jostling_value rd ps stopped] in *; subst.

(** An access of the SPU, given the new flags. *)
Ltac moves c o w v b := eapply (good_step c o w v b); try done; try (apply in_u_0; lia).
Ltac stays := eapply good_step; try done; try reflexivity.
Ltac leaf := match goal with
  | |- spec_step _ Tau _ => first [constructor | rewrite handed_session by (reflexivity || intuition discriminate); constructor]
  | |- spec_step _ _ _ => by constructor
  | |- core _ _ _ _ _ _ _ => cbv [core]; intuition discriminate
  | |- forall pop e, REnter _ _ = REnter pop e -> _ => intros ? ? [= <- <-]; first [done | by apply odd_upper]
  | |- forall pop, RSleep _ = RSleep pop -> _ => by left
  end.
Ltac split_cond := repeat case_match; repeat match goal with
  | H : (_ =? _) = true |- _ => apply Z.eqb_eq in H; subst
  | H : negb _ = true |- _ => apply negb_true_iff in H; subst
  | H : negb _ = false |- _ => apply negb_false_iff in H; subst
  end.

Lemma pop_wait_refines s : inv s -> good s (emits Go s) (pop_wait_step s).
Proof.
  destruct s as [d j r f st]. intros H. open_inv H.
  destruct r as [|[] old|[] old|[] [|n]|[] ex|[]|[]|[]|[]|u| |u|]; cbv [core] in Hk; try tauto;
    cbv [pop_wait_step emits cas rd data jostling_value stopped reader set_data set_jostling ps]; autorewrite with chan.
  - done.
  - destruct Hk as ((-> & -> & -> & Hj) & Hq). destruct (has old bit_count) eqn:Eo; split_cond.
    + autorewrite with chan in *. subst. moves false false false 0 false. by constructor.
    + stays. constructor.
    + stays. constructor.
  - destruct Hk as (-> & -> & -> & Hj). destruct (has old bit_count) eqn:Eo; split_cond.
    + stays. constructor.
    + autorewrite with chan in *. subst. rewrite waits_flags. rewrite Hc by done. moves false false true 0 false. constructor.
    + stays. constructor.
  - destruct Hk as ((-> & -> & -> & Hj) & Hq & -> & Eo). split_cond.
    + autorewrite with chan in *. subst. rewrite waits_flags, Hc by done. moves false true true 0 false; [|by constructor].
      cbv [core]. tauto.
    + stays. constructor.
  - stays; leaf.
  - destruct w; cbn [negb]; stays; leaf.
  - stays; leaf.
  - destruct w, c; cbn [negb] in *; stays; leaf.
  - pose proof (He _ _ eq_refl) as Ho. split_cond; [|stays; leaf].
    apply andb_true_iff in H as [<-%Z.eqb_eq _]. rewrite odd_upper in Ho by done. subst. stays; leaf.
  - pose proof (He _ _ eq_refl) as Ho. split_cond; [|stays; leaf].
    apply andb_true_iff in H as [<-%Z.eqb_eq _]. rewrite odd_upper in Ho by done. subst. stays; leaf.
  - done.
  - done.
  - destruct w; cbn [negb]; split_cond; stays; leaf.
  - destruct w, c; cbn [negb] in *; split_cond; stays; leaf.
  - destruct Hk as (-> & -> & -> & Hj). stays. rewrite (wrap_small 32 j) by done. by constructor.
  - destruct Hk as ((-> & -> & -> & Hj) & ->). stays. by constructor.
  - destruct Hk as [((-> & -> & ->) & [(-> & ->)|(Hj & ->)])|(-> & -> & -> & Hj)].
    + stays; leaf.
    + destruct (low_not_occupy j Hj) as [Hn ->]. cbn [negb]. stays; leaf.
    + destruct (low_not_occupy j Hj) as [Hn ->]. cbn [negb]. stays; leaf.
  - destruct Hk as (-> & -> & Hj & ->). stays; leaf.
  - destruct Hk as (Hu & Hj & Hk). destruct w; stays; try leaf.
    rewrite (wrap_small 32 u) by done. by constructor.
  - destruct Hk as ((-> & -> & ->) & -> & Hj). stays; leaf.
  - stays; leaf.
Qed.

(** *** [push] *)

Lemma core_mono r c o w b j (q q' : Prop) : (q -> q') -> core r c o w b j q -> core r c o w b j q'.
Proof. intros H. destruct r as [|[]|[]|[]|[]|[]|[]|[]|[]| | | |]; cbv [core]; tauto. Qed.

Lemma core_wake r c o w b j q : core (wake r) c o w b j q = core r c o w b j q.
Proof. by destruct r as [| | | | |[]| | | | | | |]. Qed.

Lemma session_wake r j : session_of (wake r) j = session_of r j.
Proof. by destruct r as [| | | | |[]| | | | | | |]. Qed.

(** An occupied channel: somebody waits to pop, and there is no value. *)
Lemma core_occupied r c w b j q : core r c true w b j q -> c = false /\ w = true.
Proof. destruct r as [|[]|[]|[]|[]|[]|[]|[]|[]| | | |]; cbv [core]; intuition discriminate. Qed.

Lemma core_occupied_any r c w b j q q' : core r c true w b j q -> core r c true w b j q'.
Proof. destruct r as [|[]|[]|[]|[]|[]|[]|[]|[]| | | |]; cbv [core]; intuition discriminate. Qed.

(** A value can be stored in a channel that is not occupied. *)
Lemma core_store r c w b j q : core r c false w b j q ->
  core r true false false b j q /\ session_of r j <> Some None.
Proof.
  intros H. split.
  - destruct r as [|[]|[]|[]|[]|[]|[]|[]|[]| | | |]; cbv [core] in *; intuition discriminate.
  - destruct (popping r) eqn:E.
    + rewrite handed_session; [done|done|].
      destruct r as [|[]|[]|[]|[]|[]|[]|[]|[]| | | |]; try discriminate E; cbv [core] in H; intuition discriminate.
    + by destruct r as [|[]|[]|[]|[]|[]|[]|[]|[]| | | |].
Qed.

(** The mark is only found by a thread that has seen the current session. *)
Lemma core_marked r c o w b (q : Prop) : core r c o w b bit_occupy q -> ~ q ->
  popping r = true /\ (c = false /\ o = true /\ w = true) /\ b = false.
Proof.
  intros H Hq. assert (~ in_u 32 bit_occupy) by (intros Hn; by destruct (low_not_occupy _ Hn)).
  destruct r as [|[]|[]|[]|[]|[]|[]|[]|[]| | | |]; cbv [core] in H; cbn [popping]; tauto.
Qed.

(** The wait bit is turned off by the thread that has handed a value over. *)
Lemma core_cleared r c o w j q : core r c o w true j q ->
  c = false /\ o = true /\ w = true /\ core r false false false false j q.
Proof. destruct r as [|[]|[]|[]|[]|[]|[]|[]|[]| | | |]; cbv [core]; intuition discriminate. Qed.

Lemma ptok_upd f t p : (forall y : tid, ptok (f y)) -> ptok p -> forall y, ptok (upd t p f y).
Proof. intros Hf Hp y. unfold upd. by case_match. Qed.

(** A thread that moves on without turning off the wait bit. *)
Ltac others E := first
  [ done
  | match goal with |- only _ _ (upd _ _ _) => apply only_upd; [done|by rewrite E|by repeat case_match] end
  | match goal with |- forall y, ptok (upd _ _ _ y) => apply ptok_upd; [done|by repeat case_match] end
  | match goal with |- core _ _ _ _ _ _ (forall y, at_jostle (upd _ _ _ y) = false) =>
      eapply core_mono; [|eassumption]; apply none_upd; by repeat case_match end ].

Lemma push_refines s t : inv s -> good s (emits (Step t) s) (push_step t s).
Proof.
  destruct s as [d j r f st]. intros H. open_inv H. pose proof (Hp t) as Ht.
  destruct (f t) as [|v' to_or|v' to_or old|old|old|res|] eqn:E; cbv [push_step emits rd ps data jostling_value];
    rewrite E; cbv [set_data set_jostling reader pusher rd ps data jostling_value stopped]; autorewrite with chan; try done.
  - unfold push_op. autorewrite with chan. destruct o.
    + destruct (core_occupied _ _ _ _ _ _ Hk) as [-> ->].
      eapply (good_step false true true v b); try others E.
      * by eapply core_occupied_any.
      * apply ptok_upd; [done|]. split; [done|by autorewrite with chan].
      * by left.
      * constructor.
    + destruct (core_store _ _ _ _ _ _ Hk) as [Hk' Hn]. cbn [ptok] in Ht.
      eapply (good_step true false false (if to_or then v .| v' else v') b); try others E.
      * by destruct to_or.
      * destruct to_or; [by apply lor_in_u|done].
      * intros pop ->. right. destruct w; [by apply exists_set|].
        apply exists_upd; [by rewrite E|]. destruct (Hs _ eq_refl) as [Hw|]; [|done].
        by rewrite has_wait in Hw.
      * by apply (spec_put (Spec v c (session_of r j))).
  - destruct Ht as [Hv' Ho]. case_cmp; subst.
    + destruct (core_marked _ _ _ _ _ _ Hk) as (Hr & (-> & -> & ->) & ->).
      { intros Hq. specialize (Hq t). cbn [ps] in Hq. by rewrite E in Hq. }
      eapply (good_step false true true v true); try others E.
      * by apply only_set.
      * destruct r as [|[]|[]|[]|[]|[]|[]|[]|[]| | | |]; try discriminate Hr; cbv [core] in *; tauto.
      * by left.
      * rewrite (handed_session r v') by done. apply (spec_hand (Spec v false _)); [|done].
        by destruct r as [|[]|[]|[]|[]|[]|[]|[]|[]| | | |].
    + eapply (good_step c o w v b); try others E; [|constructor].
      intros pop ->. destruct (Hs _ eq_refl) as [Hw|Hw]; [rewrite has_wait in Hw by done; by left|right].
      apply exists_upd; [by rewrite E|done].
  - destruct (only_unset at_clear b t (PNotify old) f Hb) as [-> Hb']; [by rewrite E|done|].
    destruct (core_cleared _ _ _ _ _ _ Hk) as (-> & -> & -> & Hk'). rewrite Ht. cbn [negb].
    eapply (good_step false false false v false); try others E; [|constructor].
    intros pop ->. right. by apply exists_set.
  - eapply (good_step c o w v b); try others E.
    + rewrite core_wake. others E.
    + by destruct r.
    + by destruct r.
    + rewrite session_wake. constructor.
  - eapply (good_step c o w v b); try others E; [|constructor].
    intros pop ->. destruct (Hs _ eq_refl) as [Hw|Hw]; [rewrite has_wait in Hw by done; by left|right].
    apply exists_upd; [by rewrite E|done].
Qed.

(** *** Runs *)

Lemma step_refines e s s' : inv s -> (e = Pop_wait true -> quiet s) -> step e s = Some s' ->
  inv s' /\ spec_step (abs s) (emits e s) (abs s').
Proof.
  intros H Hq E. change (good s (emits e s) (Some s')). rewrite <- E. clear E.
  destruct e as [t v' to_or|t|pop| | | |]; cbn [step].
  - destruct (ps s t) eqn:Ep; try done. destruct s as [d j r f st]. open_inv H; cbv [pusher reader set_stopped data jostling_value rd ps stopped].
    eapply (good_step c o w v b); try others Ep; [| |constructor].
    + apply ptok_upd; [done|]. by apply wrap_in_u.
    + intros pop ->. destruct (Hs _ eq_refl) as [Hw|Hw]; [rewrite has_wait in Hw by done; by left|right].
      apply exists_upd; [by rewrite Ep|done].
  - by apply push_refines.
  - destruct (rd s) eqn:Er; try done. destruct s as [d j r f st]. open_inv H; cbv [pusher reader set_stopped data jostling_value rd ps stopped]. destruct Hk as (-> & -> & -> & Hj).
    stays; [|constructor]. destruct pop; [|done]. split; [done|]. by apply Hq.
  - by apply pop_wait_refines.
  - destruct s as [d j r f st]. open_inv H; cbv [pusher reader set_stopped data jostling_value rd ps stopped]. eapply (good_step c o w v b); try done.
    + by rewrite core_wake.
    + by destruct r.
    + by destruct r.
    + rewrite session_wake. constructor.
  - destruct (rd s) eqn:Er; try done. destruct s as [d j r f st]. open_inv H; cbv [pusher reader set_stopped data jostling_value rd ps stopped]. stays. constructor.
  - destruct s as [d j r f st]. open_inv H; cbv [reader data jostling_value rd ps stopped]. eapply (good_step c o w v b); try done.
    + by rewrite core_wake.
    + by destruct r.
    + by destruct r.
    + rewrite session_wake. constructor.
Qed.

Lemma signal_inv_init : inv init.
Proof.
  split; [|done]. exists false, false, false, 0, false. repeat split; try done.
Qed.

Lemma disciplined_refines s l s' : disciplined s l s' -> inv s -> inv s' /\ spec_run (abs s) l (abs s').
Proof.
  induction 1 as [s|s e s' l s'' E He _ IH]; intros H; [by split; [|constructor]|].
  destruct (step_refines e s s' H He E) as [H' Hx]. destruct (IH H') as [H'' Hr]. split; [done|]. by econstructor.
Qed.

(** Executing a list of events that does not call [pop_wait] again. *)
Fixpoint trace (l : list event) (s : state) : option (list label * state) :=
  match l with
  | [] => Some ([], s)
  | e :: l =>
      match step e s with
      | Some s' => match trace l s' with Some (tr, s'') => Some (emits e s :: tr, s'') | None => None end
      | None => None
      end
  end.

Definition calls_pop (e : event) : bool := match e with Pop_wait true => true | _ => false end.

Lemma trace_disciplined l s tr s' : existsb calls_pop l = false -> trace l s = Some (tr, s') -> disciplined s tr s'.
Proof.
  revert s tr. induction l as [|e l IH]; intros s tr Hl E; cbn [trace existsb] in *.
  - injection E as <- <-. constructor.
  - apply orb_false_iff in Hl as [He Hl]. destruct (step e s) as [s1|] eqn:Es; [|discriminate E].
    destruct (trace l s1) as [[tr' s2]|] eqn:Et; [|discriminate E].
    assert (tr = emits e s :: tr' /\ s' = s2) as [-> ->] by (split; congruence).
    eapply disc_cons; [exact Es|by intros ->|]. by apply IH.
Qed.

(** C1: the channel of a signal notification register refines a register that keeps one value (overwritten by, or ored
    with, later ones) and hands a value directly to an SPU that waits for it.  Every interleaving of any number of
    [push] calls with the SPU's [pop_wait], including waiting, being stopped and resumed, is a run of the abstract
    register, and no ensure fails; provided that [pop_wait] is never called while a [push] is between finding the
    channel occupied and trying to hand its value over. *)
Theorem signal_refines l s (H : disciplined init l s) :
  spec_run (Spec 0 false None) l (abs s) /\ rd s <> RFailed /\ forall t, ps s t <> PFailed.
Proof.
  destruct (disciplined_refines _ _ _ H signal_inv_init) as [(Hi & Hp & _) Hr]. split; [exact Hr|]. split.
  - destruct Hi as (c & o & w & v & b & _ & _ & _ & _ & Hk). intros Er. by rewrite Er in Hk.
  - intros t Et. specialize (Hp t). by rewrite Et in Hp.
Qed.


Definition hand_over : list event := [Go; Go; Push 1 7 false; Step 1; Step 1; Step 1; Step 1; Go; Go].

(** The SPU waits and thread 1 hands 7 over. *)
Lemma signal_refines_witness :
  match trace hand_over (reader (ROp true 0) init) with
  | Some (tr, s) => tr = [Tau; Waits; Tau; Tau; Pushes 7 false; Tau; Tau; Tau; Returns 7] /\
      spec_run (Spec 0 false None) (Tau :: tr) (abs s)
  | None => False
  end.
Proof.
  destruct (trace hand_over (reader (ROp true 0) init)) as [[tr s]|] eqn:E; [|discriminate E].
  split; [vm_compute in E; injection E as <- _; reflexivity|].
  apply (signal_refines (Tau :: tr) s). apply (disc_cons init (Pop_wait true) (reader (ROp true 0) init));
    [reflexivity|intros _ t; reflexivity|]. by apply (trace_disciplined hand_over).
Defined.

(** What a run of the SPU alone ends with. *)
Definition returns_in (n : nat) (s : state) (v : Z) : Prop :=
  exists k s', (k <= n)%nat /\ run (replicate k Go) s = Some s' /\ rd s' = RDone v.

Lemma returns_now s v : rd s = RDone v -> returns_in 0 s v.
Proof. intros H. by exists O, s. Qed.

Lemma returns_go n s s' v : pop_wait_step s = Some s' -> returns_in n s' v -> returns_in (S n) s v.
Proof.
  intros E (k & s2 & Hk & Hr & Hv). exists (S k), s2. split; [lia|]. cbn [replicate run step]. by rewrite E.
Qed.

Lemma returns_mono n m s v : (n <= m)%nat -> returns_in n s v -> returns_in m s v.
Proof. intros Hn (k & s' & Hk & H). exists k, s'. split; [lia|done]. Qed.

Ltac goes := eapply returns_go; [cbv [pop_wait_step rd data jostling_value stopped reader set_data set_jostling];
  autorewrite with chan; reflexivity|]; cbn [negb].

(** C4: a value that has been handed over arrives, and no wake-up is lost.  In every run of [push] and [pop_wait] in which
    [pop_wait] is never called while a [push] is between finding the channel occupied and trying to hand its value over, when
    the SPU has been given a value and no thread is about to turn off the wait bits or to notify the SPU, the SPU is not asleep, and its next four accesses, without the help of
    any other thread, make [pop_wait] return that value. *)
Theorem signal_delivery l s v (H : disciplined init l s) (Hv : session (abs s) = Some (Some v))
  (Hq : forall t, at_clear (ps s t) = false /\ at_notify (ps s t) = false) : returns_in 4 s v.
Proof.
  destruct (disciplined_refines _ _ _ H signal_inv_init) as [Hi _]. clear H.
  destruct s as [d j r f st]. destruct Hi as ((c & o & w & u & b & Hd & Hu & Hc & Hb & Hk) & Hp & Hs & He).
  cbn [abs session rd jostling_value ps data] in *. subst d. apply only_none in Hb as ->; [|apply Hq].
  destruct (popping r) eqn:Er.
  - assert (in_u 32 j /\ o = false /\ w = false) as (Hj & -> & ->).
    { destruct r as [|[]|[]|[]|[]|[]|[]|[]|[]| | | |]; try discriminate Er; cbn in Hv, Hk;
        (destruct (Z.eqb_spec j bit_occupy); [discriminate Hv|]); intuition discriminate. }
    rewrite handed_session in Hv by done. injection Hv as <-. pose proof (wrap_small 32 j Hj) as Ej.
    assert (forall f st, returns_in 1 (St (flags c false false u) j (RTake true) f st) j) as Ht.
    { intros. goes. apply returns_now. cbn [rd]. by rewrite Ej. }
    assert (forall f st, returns_in 2 (St (flags c false false u) j (RLoad true) f st) j) as Hl.
    { intros. goes. apply Ht. }
    assert (forall ex f st, Z.odd ex = true -> returns_in 3 (St (flags c false false u) j (REnter true ex) f st) j) as Hx.
    { intros ex g st' Ho. eapply returns_go; [|apply (Hl g st')]. cbn [pop_wait_step rd data].
      destruct (Z.eqb_spec (upper (flags c false false u)) ex) as [<-|]; [|done]. by rewrite odd_upper in Ho. }
    destruct r as [|[]|[]|[] [|n]|[] ex|[]|[]|[]|[]| | | |]; try discriminate Er.
    + goes. by apply Hx.
    + goes. eapply returns_mono; [|apply Ht]. lia.
    + eapply returns_mono; [|apply Hx]; [lia|]. by eapply He.
    + destruct (Hs _ eq_refl) as [Hw|[t Hn]]; [by rewrite has_wait in Hw|]. by destruct (Hq t) as [_ Hn']; rewrite Hn in Hn'.
    + eapply returns_mono; [|apply Hl]. lia.
    + eapply returns_mono; [|eapply returns_go; [reflexivity|]]; [|].
      2: { cbv [reader set_jostling data ps stopped]. cbn [jostling_value]. destruct (low_not_occupy j Hj) as [_ ->]. cbn [negb].
        goes. apply returns_now. cbn [rd]. by rewrite Ej. }
      lia.
  - destruct r as [|[]|[]|[]|[]|[]|[]|[]|[]|u'| | |]; try discriminate Hv; try discriminate Er; injection Hv as ->.
    + destruct Hk as (-> & -> & _ & Hj). eapply returns_mono; [|goes; apply returns_now; cbn [rd]; by rewrite wrap_small]. lia.
    + destruct Hk as (Hj & _ & [(_ & [=])|(-> & -> & _)]).
      eapply returns_mono; [|goes; apply returns_now; cbn [rd]; by rewrite wrap_small]. lia.
Qed.

Definition handing : list event := [Go; Go; Push 1 7 false; Step 1; Step 1; Step 1; Step 1].

Lemma signal_delivery_witness :
  match trace handing (reader (ROp true 0) init) with Some (_, s) => returns_in 4 s 7 | None => False end.
Proof.
  destruct (trace handing (reader (ROp true 0) init)) as [[tr s]|] eqn:E; [|discriminate E].
  apply (signal_delivery (Tau :: tr) s 7).
  - apply (disc_cons init (Pop_wait true) (reader (ROp true 0) init)); [reflexivity|intros _ t; reflexivity|].
    by apply (trace_disciplined handing).
  - vm_compute in E. injection E as _ <-. reflexivity.
  - cbv [handing] in E. vm_compute in E. injection E as _ <-. intros t. cbn [ps].
    destruct t as [|[]|]; repeat split.
Defined.

(** The condition cannot be dropped.  Thread 3 finds the channel occupied; before it goes on, thread 1 serves the SPU,
    which calls [pop_wait] again and has just marked [jostling_value], but not yet set the wait bits.  Thread 3 takes
    the mark, finds no wait bit to turn off, and its ensure fails. *)
Theorem signal_race :
  match run [Pop_wait true; Go; Go; Push 3 30 false; Step 3; Push 1 10 false; Step 1; Step 1; Step 1; Step 1;
             Go; Go; Go; Pop_wait true; Go; Step 3; Step 3] init with
  | Some s => ps s 3 = PFailed
  | None => False
  end.
Proof. vm_compute. reflexivity. Qed.

(** ** The event of a signal *)

Lemma decrement_increment f d : is_signed f = false -> valid f -> in_u (bitmax f) d -> decrement f (increment f d) = d.
Proof.
  intros Hs Hv Hd. pose proof Hv as (?&?&?). unfold decrement, increment.
  apply (bits_inj_u (bitmax f)); [lia|by apply store_in_u, store_in_u|done|]. intros i Hi.
  rewrite !testbit_store, extract_store by done. destruct ((bitpos f <=? i) && _) eqn:E; [|done].
  apply andb_true_iff in E as [?%Z.leb_le ?%Z.ltb_lt]. unfold truncate. rewrite Hs.
  replace (Z.testbit d i) with (Z.testbit (extract f d) (i - bitpos f))
    by (rewrite testbit_extract by (done || lia); f_equal; lia).
  assert (forall x y, wrap (bitsize f) x = wrap (bitsize f) y -> Z.testbit x (i - bitpos f) = Z.testbit y (i - bitpos f)) as Hw.
  { intros x y Exy. apply (f_equal (fun z => Z.testbit z (i - bitpos f))) in Exy. rewrite !testbit_wrap in Exy by lia.
    revert Exy. by case_cmp. }
  apply Hw. unfold wrap. rewrite Zminus_mod_idemp_l. f_equal. lia.
Qed.

(** C40: [push_snr] signals the event when it should not.  [push] reports as the old count of the channel 1 when the channel
    was empty and 0 when it was full; so the first signal, which makes the count 1, leaves the event channel as it
    was, and the event is only raised by a further signal before the SPU has read the first one. *)
Theorem push_snr_event number old ev (Hn : number = 0 \/ number = 1) (H : in_u 64 ev) :
  (has old bit_count = false -> push_snr number (push_result old) ev = ev) /\
  (has old bit_count = true ->
     extract ev_events (push_snr number (push_result old) ev) = extract ev_events ev .| snr_event number).
Proof.
  assert (valid ev_locks /\ valid ev_events /\ valid ev_count) as (Hl & He & Hc) by (unfold valid; cbn; lia).
  assert (in_u 64 (increment ev_locks ev)) as Hi by (by apply (store_in_u ev_locks)).
  unfold push_snr, push_result, has. cbn [old_count count]. split; intros E.
  - apply negb_false_iff in E. rewrite E. cbn [b2z Z.ltb Z.compare]. by apply decrement_increment.
  - apply negb_true_iff in E. rewrite E. cbn [b2z Z.ltb Z.compare Z.compare]. unfold decrement.
    rewrite extract_store_ne by (done || (unfold disjoint_fields; cbn; lia)).
    assert (forall x, extract ev_events (or_assign ev_events (increment ev_locks ev) x) = truncate ev_events (extract ev_events ev .| x)) as Ho.
    { intros x. destruct (bitwise_assign ev_events (increment ev_locks ev) x He Hi) as (_ & -> & _).
      rewrite extract_store by done. unfold increment. by rewrite extract_store_ne by (done || (unfold disjoint_fields; cbn; lia)). }
    assert (truncate ev_events (extract ev_events ev .| snr_event number) = extract ev_events ev .| snr_event number) as Et.
    { unfold truncate. cbn [is_signed ev_events bitsize]. apply wrap_small, lor_in_u; [lia| |].
      - rewrite extract_mod by done. by apply wrap_in_u.
      - destruct Hn as [-> | ->]; by vm_compute. }
    unfold set_events. case_match; cbn [fst]; [|by rewrite Ho].
    rewrite extract_store_ne by (done || (unfold disjoint_fields; cbn; lia)). by rewrite Ho.
Qed.

Lemma push_snr_event_witness :
  push_snr 0 (push_result 0) (Z.shiftl Spu.SPU_EVENT_S1 32) = Z.shiftl Spu.SPU_EVENT_S1 32 /\
  extract ev_events (push_snr 0 (push_result (bit_count .| 5)) (Z.shiftl Spu.SPU_EVENT_S1 32)) = Spu.SPU_EVENT_S1.
Proof.
  split.
  - apply (push_snr_event 0 0); [by left|by vm_compute|reflexivity].
  - destruct (push_snr_event 0 (bit_count .| 5) (Z.shiftl Spu.SPU_EVENT_S1 32)) as [_ E]; [by left|by vm_compute|].
    rewrite E by reflexivity. reflexivity.
Defined.
