(* ===== verification/SpuOutboxSpec.v ===== *)
(** Theorems on outbound mailboxes: [push_wait] by the SPU and [pop] by other threads ([SpuChannel], module [Outbox]). *)

From Stdlib Require Import ZArith Lia Bool.
From stdpp Require Import base tactics option list numbers.
From S2P Require Import Prelude BitField SpuInterp SpuChannel SpuChannelSpec.
Import Channel Outbox.
Local Open Scope Z_scope.
Local Open Scope word_scope.

Module OutboxSpec.

(** What is in the mailbox: its value, and the value of an SPU that waits for it to be read. *)
Definition queue (s : state) : list Z :=
  if has (data s) bit_count
  then u32 (data s) :: (if has (data s) bit_occupy then [u32 (jostling_value s)] else [])
  else [].

(** The values an access puts in and takes out. *)
Definition pushes (e : event) (s : state) : list Z :=
  match e, wr s with
  | Go, WOp v true old => if negb (has old bit_count) && (data s =? old) then [v] else []
  | Go, WCas v true old => if data s =? old then [v] else []
  | _, _ => []
  end.

Definition pops (e : event) (s : state) : list Z :=
  match e with
  | Step t =>
      match qs s t with
      | QOp old =>
          if negb (old .& pop_mask =? pop_mask) && (data s =? old) && has old bit_count then [u32 old] else []
      | QCas old _ => if data s =? old then [u32 old] else []
      | _ => []
      end
  | Try_pop => match (try_pop (data s)).1 with Some v => [v] | None => [] end
  | _ => []
  end.

(** Inside the [fetch_op] of [pop]. *)
Definition active (q : qpc) : bool := match q with QOp _ | QCas _ _ => true | _ => false end.
Definition notifying (q : qpc) : bool := match q with QNotify _ => true | _ => false end.

(** The threads that read take turns, and the SPU is not stopped. *)
Definition allowed (e : event) (s : state) : Prop :=
  match e with
  | Stop => False
  | Pop _ => forall y, active (qs s y) = false
  | _ => True
  end.

Inductive serial : state -> list Z -> list Z -> state -> Prop :=
| serial_nil s : serial s [] [] s
| serial_cons s e s' p q s'' : step e s = Some s' -> allowed e s -> serial s' p q s'' ->
    serial s (pushes e s ++ p) (pops e s ++ q) s''.

(** *** The invariant *)

(** What the SPU's point says of the flags and of [jostling_value]. *)
Definition wcore (r : wpc) (c o w : bool) (j : Z) : Prop :=
  match r with
  | WIdle | WDone true => o = false /\ w = false
  | WOp v _ _ => o = false /\ w = false /\ in_u 32 v
  | WCas v push old => o = false /\ w = false /\ in_u 32 v /\ has old bit_count = true /\ (push = true -> j = v)
  | WSpin _ st => (o = true -> w = true /\ in_u 32 j) /\ (has st bit_wait = false -> w = false)
  | WEnter st => (o = true -> w = true /\ in_u 32 j) /\ Z.odd (upper st) = true
  | WSleep | WLoad => o = true -> w = true /\ in_u 32 j
  | WAbort | WDone false => False
  end.

(** What a reader's point says of the mailbox. *)
Definition qtok (q : qpc) (d j : Z) : Prop :=
  match q with
  | QOp old => has old bit_occupy = true -> d = old
  | QCas old new => d = old /\ has old bit_occupy = true /\ new = bit_count .| u32 j
  | _ => True
  end.

Definition inv (s : state) : Prop :=
  (exists c o w v, data s = flags c o w v /\ in_u 32 v /\ (c = false -> o = false /\ w = false) /\
     wcore (wr s) c o w (jostling_value s)) /\
  (forall t, qtok (qs s t) (data s) (jostling_value s)) /\
  (forall t y, active (qs s t) = true -> active (qs s y) = true -> t = y) /\
  (wr s = WSleep -> has (data s) bit_wait = true \/ exists t, notifying (qs s t) = true) /\
  stopped s = false.

(** The step keeps the invariant and moves values through the queue. *)
Definition good (e : event) (s : state) (o : option state) : Prop :=
  match o with Some s' => inv s' /\ queue s ++ pushes e s = pops e s ++ queue s' | None => True end.

End OutboxSpec.
Import OutboxSpec.

Lemma queue_flags c o w v j r f st : in_u 32 v ->
  queue (St (flags c o w v) j r f st) = if c then v :: (if o then [u32 j] else []) else [].
Proof. intros Hv. unfold queue. cbn [data jostling_value]. by autorewrite with chan. Qed.

Lemma lor_waits c w v (push : bool) : in_u 32 v ->
  flags c false w v .| ((if push then bit_occupy else 0) .| bit_wait) = flags c push true v.
Proof.
  intros Hv. change ((if push then bit_occupy else 0) .| bit_wait) with (Signal.waits push). rewrite waits_flags.
  unfold flags. rewrite lor_split by (done || (unfold in_u; lia)). rewrite Z.lor_0_r. by destruct c, w, push.
Qed.

Lemma pop_mask_flags c o w v : in_u 32 v -> (flags c o w v .& pop_mask =? pop_mask) = c && o.
Proof.
  intros Hv. change pop_mask with ((2 ^ 31 + 2) * 2 ^ 32 + 0). unfold flags.
  rewrite land_split by (done || (unfold in_u; lia)). rewrite Z.land_0_r. by destruct c, o, w.
Qed.

Lemma pop_clear c o w v : in_u 32 v -> flags c o w v .& bnot 64 (pop_mask .| bit_wait) = flags false false false v.
Proof.
  intros Hv. change (bnot 64 (pop_mask .| bit_wait)) with ((2 ^ 31 - 4) * 2 ^ 32 + (2 ^ 32 - 1)).
  rewrite land_flags by done. unfold flags. by destruct c, o, w.
Qed.

#[export] Hint Rewrite lor_waits pop_mask_flags pop_clear using assumption : chan.

Lemma outbox_step (c' o' w' : bool) v' (c o w : bool) v j r f st e d j' r' f' :
  in_u 32 v -> d = flags c' o' w' v' -> in_u 32 v' -> (c' = false -> o' = false /\ w' = false) ->
  wcore r' c' o' w' j' -> (forall t, qtok (f' t) d j') ->
  (forall t y, active (f' t) = true -> active (f' y) = true -> t = y) ->
  (r' = WSleep -> w' = true \/ exists t, notifying (f' t) = true) ->
  (if c then v :: (if o then [u32 j] else []) else []) ++ pushes e (St (flags c o w v) j r f st) =
  pops e (St (flags c o w v) j r f st) ++ (if c' then v' :: (if o' then [u32 j'] else []) else []) ->
  good e (St (flags c o w v) j r f st) (Some (St d j' r' f' false)).
Proof.
  intros Hv -> Hv' Hc Hk Hq Ha Hs Hx. unfold good. rewrite !queue_flags by done. split; [|done].
  split; [by exists c', o', w', v'|]. split; [done|]. split; [done|]. split; [|done].
  cbn [data]. by rewrite has_wait.
Qed.

Ltac open_out H :=
  destruct H as ((c & o & w & v & Hd & Hv & Hc & Hk) & Hq & Ha & Hs & Hst);
  cbn [data jostling_value wr qs stopped] in *; subst.

(** *** [push_wait] *)

(** While nobody waits to push, what the readers know does not depend on the mailbox. *)
Lemma qtok_free f c w v j : in_u 32 v -> (forall t : tid, qtok (f t) (flags c false w v) j) ->
  forall d' j' t, qtok (f t) d' j'.
Proof.
  intros Hv H d' j' t. specialize (H t). destruct (f t) as [|old|old new| |]; cbn [qtok] in *; try done.
  - intros E. specialize (H E). subst. by rewrite has_occupy in E.
  - destruct H as (<- & E & _). by rewrite has_occupy in E.
Qed.

(** The SPU's point matters neither to the readers nor to the queue. *)
Ltac stays := eapply outbox_step; [done|reflexivity|done|done| |done|done|..]; try done.
Ltac free := eapply qtok_free; [|eassumption]; assumption.
Ltac changes c o w v := eapply (outbox_step c o w v); try done; try free.
Ltac fin := cbn [negb andb app]; rewrite ?app_nil_r; done.
Ltac unmoved := unfold pushes, pops; cbn [wr qs data]; try fin.

Lemma push_wait_good s : inv s -> good Go s (push_wait_step s).
Proof.
  destruct s as [d j r f st]. intros H. open_out H.
  destruct r as [|x push old|x push old|n st|st| | | |[]]; cbv [wcore] in Hk; try contradiction;
    cbv [push_wait_step cas wr data jostling_value stopped writer set_data set_jostling qs]; autorewrite with chan.
  - exact I.
  - destruct Hk as (-> & -> & Hx). destruct (has old bit_count) eqn:Eo.
    + changes c false false v; [by destruct push|]. unmoved. rewrite Eo. destruct push; fin.
    + destruct push; [destruct (Z.eqb_spec (flags c false false v) old) as [<-|Hne]|].
      * rewrite has_count in Eo by done. subst c. rewrite count_lor by done. changes true false false x.
        unfold pushes, pops; cbn [wr data]. by autorewrite with chan; rewrite Z.eqb_refl.
      * stays. unmoved. rewrite Eo. case_cmp. fin.
      * stays. unmoved.
  - destruct Hk as (-> & -> & Hx & Eo & Hj). destruct (Z.eqb_spec (flags c false false v) old) as [<-|Hne].
    + rewrite lor_waits by done. rewrite has_count in Eo by done. subst c. changes true push true v.
      * destruct push; cbn [wcore]; [|by autorewrite with chan]. rewrite Hj by done. by autorewrite with chan.
      * unfold pushes, pops; cbn [wr data]. rewrite Z.eqb_refl. destruct push; [|done]. rewrite Hj by done.
        by rewrite wrap_small.
    + stays. unmoved. destruct push; [case_cmp|]; fin.
  - destruct Hk as (Ho & Hw). destruct (has st bit_wait) eqn:Es; cbn [negb]; [destruct n as [|n]|].
    + stays; [|unmoved]. cbn [wcore]. by rewrite odd_upper_has.
    + stays; [|unmoved]. cbn [wcore]. by autorewrite with chan.
    + rewrite Hw in * by done. stays; [|unmoved]. cbn [wcore]. split; [|done]. destruct o; [|done]. by destruct Ho.
  - destruct Hk as (Ho & Hw). case_match eqn:E; [|stays; unmoved].
    apply andb_true_iff in E as [E%Z.eqb_eq _]. rewrite <- E, odd_upper in Hw by done. subst.
    stays; [by left|unmoved].
  - exact I.
  - stays; [|unmoved]. cbn [wcore]. by autorewrite with chan.
  - stays. unmoved.
Qed.

(** *** [pop] *)

Lemma mask_occupy old : (old .& pop_mask =? pop_mask) = true -> has old bit_occupy = true.
Proof.
  intros E%Z.eqb_eq. unfold has, bit_occupy. rewrite land_pow2, negb_involutive by lia.
  apply (f_equal (fun z => Z.testbit z 33)) in E. rewrite Z.land_spec in E. by apply andb_prop in E as [-> _].
Qed.

(** The SPU does not mind its value being read. *)
Lemma wcore_pop r c c' o w j : wcore r c o w j -> wcore r c' false false j.
Proof. destruct r as [| | | | | | | |[]]; cbn [wcore]; intuition discriminate. Qed.

Lemma wcore_occupied r c w j : wcore r c true w j -> w = true /\ in_u 32 j.
Proof. destruct r as [| | | | | | | |[]]; cbn [wcore]; intuition discriminate. Qed.

Lemma wcore_wake r c o w j : wcore (wake r) c o w j = wcore r c o w j.
Proof. by destruct r. Qed.

Section Readers.
Context (f : tid -> qpc) (t : tid) (q : qpc).
Context (Ha : forall t y, active (f t) = true -> active (f y) = true -> t = y).

(** The other readers are not inside [fetch_op], so the mailbox can change. *)
Lemma qtok_upd d j d' j' : (forall y, qtok (f y) d j) -> active (f t) = true \/ (d' = d /\ j' = j) -> qtok q d' j' ->
  forall y, qtok (upd t q f y) d' j'.
Proof.
  intros H Ht Hq y. unfold upd. destruct (Z.eqb_spec y t) as [->|Hne]; [done|].
  destruct Ht as [Ht|[-> ->]]; [|done]. destruct (active (f y)) eqn:Ey; [by destruct Hne; apply Ha|].
  by destruct (f y).
Qed.

End Readers.

(** The wait bit, or a reader that is going to notify. *)
Ltac asleep Hs E := let Hr := fresh in let Hw := fresh in intros Hr; destruct (Hs Hr) as [Hw|Hw];
  [rewrite has_wait in Hw by done; subst; auto | right; apply exists_upd; [by rewrite E|done]].
Ltac reads E := first
  [ done
  | match goal with |- forall x y, active (upd _ _ _ x) = true -> _ =>
      apply unique_upd; [done|]; first [by left | right; by rewrite E] end
  | match goal with |- forall y, qtok (upd _ _ _ y) _ _ =>
      eapply qtok_upd; [done|done| |try done]; first [left; by rewrite E | by right] end ].

Lemma pop_good s t : inv s -> good (Step t) s (pop_step t s).
Proof.
  destruct s as [d j r f st]. intros H. open_out H. pose proof (Hq t) as Ht.
  destruct (f t) as [|old|old new|old|res] eqn:E; cbv [pop_step qs data jostling_value]; rewrite E;
    cbv [popper writer set_data wr qs data jostling_value stopped]; autorewrite with chan; try exact I.
  - destruct (Z.eqb_spec (flags c o w v) old) as [<-|Hne].
    + autorewrite with chan. destruct (c && o) eqn:Em.
      * apply andb_true_iff in Em as [-> ->]. eapply (outbox_step true true w v); try reads E.
        { eapply qtok_upd; [done|done|by right|]. cbn [qtok]. by autorewrite with chan. }
        { asleep Hs E. }
        unfold pushes, pops; cbn [wr qs data]. rewrite E. autorewrite with chan. fin.
      * assert (o = false) as -> by (destruct c, o; try done; by destruct Hc).
        unfold popped. autorewrite with chan.
        eapply (outbox_step false false false v); try reads E.
        { by eapply wcore_pop. }
        { destruct w; reads E. }
        { intros Hr. right. destruct w; [by apply exists_set|]. apply exists_upd; [by rewrite E|].
          destruct (Hs Hr) as [Hw|]; [by rewrite has_wait in Hw|done]. }
        unfold pushes, pops; cbn [wr qs data]. rewrite E, Z.eqb_refl. autorewrite with chan. rewrite Em. by destruct c.
    + destruct (old .& pop_mask =? pop_mask) eqn:Em; [by destruct Hne; apply Ht, mask_occupy|].
      eapply (outbox_step c o w v); try reads E; [asleep Hs E|].
      unfold pushes, pops; cbn [wr qs data]. rewrite E, Em. case_cmp. fin.
  - destruct Ht as (<- & Ho & ->). rewrite has_occupy in Ho by done. subst o. rewrite Z.eqb_refl.
    destruct (wcore_occupied _ _ _ _ Hk) as [-> Hj].
    assert (c = true) as -> by (destruct c; [done|]; by destruct Hc). unfold popped. autorewrite with chan.
    eapply (outbox_step true false false (u32 j)); try reads E.
    + by apply wrap_in_u.
    + by eapply wcore_pop.
    + intros _. right. by apply exists_set.
    + unfold pushes, pops; cbn [wr qs data]. rewrite E, Z.eqb_refl. by autorewrite with chan.
  - eapply (outbox_step c o w v); try reads E.
    + by rewrite wcore_wake.
    + by destruct r.
    + unfold pushes, pops; cbn [wr qs data]. rewrite E. fin.
  - eapply (outbox_step c o w v); try reads E; [asleep Hs E|].
    unfold pushes, pops; cbn [wr qs data]. rewrite E. fin.
Qed.

(** *** Runs *)

Lemma outbox_step_good e s : inv s -> allowed e s -> good e s (step e s).
Proof.
  intros H Hal. destruct e as [x push| |t|t| | | |]; cbn [step]; cbn [allowed] in Hal; try contradiction.
  - destruct (wr s) eqn:Ew; try exact I. destruct s as [d j r f st]. open_out H. destruct Hk as [-> ->].
    stays; [|unmoved]. split; [done|]. split; [done|]. by apply wrap_in_u.
  - by apply push_wait_good.
  - destruct (qs s t) eqn:E; try exact I. destruct s as [d j r f st]. open_out H. unfold popper; cbn [data jostling_value wr qs stopped].
    eapply (outbox_step c o w v); try reads E; [|asleep Hs E|unmoved].
    intros x y. unfold upd. repeat case_match; try lia; by rewrite ?Hal.
  - by apply pop_good.
  - destruct (wr s) eqn:Ew; try exact I. destruct s as [d j r f st]. open_out H. destruct Hk as [-> ->].
    unfold set_data, try_pop; cbn [data jostling_value wr qs stopped]. autorewrite with chan.
    destruct c; cbn [snd].
    + change 0 with (flags false false false 0). changes false false false 0.
      unfold pushes, pops, try_pop; cbn [data]. by autorewrite with chan.
    + changes false false false v. unfold pushes, pops, try_pop; cbn [data]. by autorewrite with chan.
  - destruct (wr s) eqn:Ew; try exact I. destruct s as [d j r f st]. open_out H. stays. unmoved.
  - destruct s as [d j r f st]. open_out H. eapply (outbox_step c o w v); try done.
    + by rewrite wcore_wake.
    + by destruct r.
    + unmoved.
Qed.

Lemma serial_fifo s p q s' : serial s p q s' -> inv s -> inv s' /\ queue s ++ p = q ++ queue s'.
Proof.
  induction 1 as [s|s e s' p q s'' E Hal _ IH]; intros H; [by rewrite app_nil_r|].
  pose proof (outbox_step_good e s H Hal) as Hg. rewrite E in Hg. destruct Hg as [H' Eq].
  destruct (IH H') as [H'' Eq']. split; [done|]. by rewrite app_assoc, Eq, <- app_assoc, Eq', app_assoc.
Qed.

Lemma outbox_inv_init : inv init.
Proof. split; [|done]. exists false, false, false, 0. by repeat split. Qed.

(** C3: an outbound mailbox is a queue.  Whatever the interleaving of the SPU's calls of [push_wait] (and of [try_pop])
    with the accesses of other threads in [pop], provided the latter take turns and the SPU is not stopped: the
    values taken out, followed by those still inside, are the values put in, in the same order, none lost or
    duplicated; there are never more than two; [push_wait] never fails; and when the SPU sleeps and nobody is about to
    notify it, its value is still inside. *)
Theorem outbox_fifo p q s (H : serial init p q s) :
  p = q ++ queue s /\ (length (queue s) <= 2)%nat /\ wr s <> WDone false /\
  (wr s = WSleep -> (forall t, notifying (qs s t) = false) -> has (data s) bit_wait = true /\ queue s <> []).
Proof.
  destruct (serial_fifo _ _ _ _ H outbox_inv_init) as [Hi E]. split; [exact E|].
  split; [unfold queue; repeat case_match; cbn [length]; lia|].
  destruct Hi as ((c & o & w & v & Hd & Hv & Hc & Hk) & Hq & Ha & Hs & Hst). split.
  - intros Ew. by rewrite Ew in Hk.
  - intros Ew Hn. destruct (Hs Ew) as [Hw|[t Ht]]; [|by rewrite Hn in Ht]. split; [done|].
    unfold queue. rewrite Hd in *. rewrite has_wait in Hw by done. subst w. rewrite has_count by done.
    destruct c; [done|]. by destruct Hc.
Qed.

(** Executing a list of events. *)
Fixpoint exchanged (l : list event) (s : state) : option (list Z * list Z * state) :=
  match l with
  | [] => Some ([], [], s)
  | e :: l =>
      match step e s with
      | Some s' =>
          match exchanged l s' with Some (p, q, s'') => Some (pushes e s ++ p, pops e s ++ q, s'') | None => None end
      | None => None
      end
  end.

Definition harmless (e : event) : bool := match e with Stop | Pop _ => false | _ => true end.

Lemma exchanged_serial l s p q s' : forallb harmless l = true -> exchanged l s = Some (p, q, s') -> serial s p q s'.
Proof.
  revert s p q. induction l as [|e l IH]; intros s p q Hl E; cbn [exchanged forallb] in *.
  - injection E as <- <- <-. constructor.
  - apply andb_true_iff in Hl as [He Hl]. destruct (step e s) as [s1|] eqn:Es; [|discriminate E].
    destruct (exchanged l s1) as [[[p' q'] s2]|] eqn:Et; [|discriminate E].
    assert (p = pushes e s ++ p' /\ q = pops e s ++ q' /\ s' = s2) as (-> & -> & ->) by (repeat split; congruence).
    eapply serial_cons; [exact Es|by destruct e|]. by apply IH.
Qed.

(** The SPU puts 1 in and then waits with 2. *)
Definition fill : list event := [Push_wait 1 true; Go; Go; Go; Push_wait 2 true; Go; Go].

Lemma outbox_fifo_witness :
  match exchanged fill init with
  | Some (p, q, s) => p = [1; 2] /\ q = [] /\ p = q ++ queue s
  | None => False
  end.
Proof.
  destruct (exchanged fill init) as [[[p q] s]|] eqn:E; [|discriminate E].
  pose proof (proj1 (outbox_fifo p q s (exchanged_serial fill init p q s eq_refl E))) as Eq.
  vm_compute in E. injection E as <- <- _. split; [reflexivity|]. split; [reflexivity|exact Eq].
Defined.

Definition turns (n : nat) : list event := replicate n Go.

(** A [pop] by thread [t] from beginning to end: when the SPU waits, and when it does not. *)
Definition whole_pop (t : tid) : list event := [Pop t; Step t; Step t; Step t; Step t].
Definition short_pop (t : tid) : list event := [Pop t; Step t; Step t].

(** A stopped [push_wait] can put its value in although it returns false.  It turns off the wait bit but not the
    occupied bit, so the next [pop] still takes its value over; when the SPU is resumed and repeats the call, the value 2 is
    read twice, after having been put in successfully once. *)
Theorem outbox_abort_duplicates :
  match exchanged (fill ++ turns 11 ++ [Stop] ++ turns 4) init with
  | Some (_, _, s) =>
      wr s = WDone false /\
      match exchanged ([Go; Resume; Pop 9; Step 9; Step 9; Step 9] ++ [Push_wait 2 true; Go; Go] ++ whole_pop 9 ++ short_pop 9) s with
      | Some (_, q, s') => q = [1; 2; 2] /\ queue s' = []
      | None => False
      end
  | None => False
  end.
Proof. vm_compute. repeat split. Qed.

(** Two threads that read at the same time can lose a value.  The mailbox holds 5 and the SPU waits with another 5; thread
    8 has read both.  Thread 9 takes the first 5, the SPU goes on and waits with 6: the word is the same as before, so the
    compare-and-swap of thread 8 succeeds, puts the 5 it has read in the place of 6, and lets the SPU return. *)
Theorem outbox_aba_loses :
  match exchanged ([Push_wait 5 true; Go; Go; Go; Push_wait 5 true; Go; Go; Pop 8; Step 8] ++ whole_pop 9 ++
                   [Go; Go; Go; Push_wait 6 true; Go; Go] ++ [Step 8; Step 8; Step 8] ++ turns 3 ++ short_pop 9) init with
  | Some (p, q, s) => p = [5; 5; 6] /\ q = [5; 5; 5] /\ queue s = [] /\ wr s = WIdle
  | None => False
  end.
Proof. vm_compute. repeat split. Qed.
