(* ===== verification/SpuMailbox.v ===== *)
(** The inbound mailbox of an SPU: [spu_channel_4_t] of Emu/Cell/SPUThread.h and SPUThread.cpp.

    The counter, the wait bits and the first three values are one 128-bit word, [values]; the fourth value is a word
    of its own, [value3], written before the counter is increased and read when a value is popped.  As in
    [SpuChannel], a waiting SPU is handed a value in [jostling_value].

    The SPU calls [pop_wait] and [try_pop], other threads [push].  The semantics has one step per access to shared
    memory, and [Stop], [Resume] and [Alert] as in [SpuChannel]; the functions that [pop_wait] and [try_pop] give to [fetch_op] access [value3] or [jostling_value], so
    their load, that access and the compare-and-swap are separate steps. *)

From Stdlib Require Import ZArith Lia Bool.
From stdpp Require Import base tactics option list numbers.
From S2P Require Import Prelude.
Local Open Scope Z_scope.
Local Open Scope word_scope.

Module Mailbox.

(** [sync_var_t]. *)
Record sync_var := Sv { waiting : Z; count : Z; value3_inval : Z; value0 : Z; value1 : Z; value2 : Z }.

#[export] Instance sync_var_eq_dec : EqDecision sync_var.
Proof. solve_decision. Defined.

Definition bit_wait : Z := 2 ^ 0.
Definition bit_occupy : Z := 2 ^ 7.
Definition jostling_flag : Z := 2 ^ 63.

Definition has (x bit : Z) : bool := negb (x .& bit =? 0).

Definition set_waiting (w : Z) (d : sync_var) : sync_var := Sv w (count d) (value3_inval d) (value0 d) (value1 d) (value2 d).

(** The first 32 bits of [values], which [wait_on] and [notify_one] use. *)
Definition low (d : sync_var) : Z := waiting d .| Z.shiftl (count d) 8 .| Z.shiftl (value3_inval d) 16.

(** The function of the [fetch_op] in [push]; [None] when it returns false. *)
Definition mb_push_op (value : Z) (d : sync_var) : option sync_var :=
  if has (waiting d) bit_occupy then None
  else Some (
    let c := u8 (count d + 1) in
    if count d =? 0 then Sv (waiting d) c (value3_inval d) value (value1 d) (value2 d)
    else if count d =? 1 then Sv (waiting d) c (value3_inval d) (value0 d) value (value2 d)
    else if count d =? 2 then Sv (waiting d) c (value3_inval d) (value0 d) (value1 d) value
    else Sv (waiting d) 4 (u16 (value3_inval d + 1)) (value0 d) (value1 d) (value2 d)).

(** One value taken out, [v3] being what was read from [value3]. *)
Definition pop_op (v3 : Z) (d : sync_var) : sync_var :=
  Sv 0 (u8 (count d - 1)) (value3_inval d) (value1 d) (value2 d) v3.

(** What the SPU does: [pop_wait] with and without [pop_value], or [try_pop]. *)
Inductive kind := Popping | Peeking | Trying.

Definition waits (k : kind) : Z := (match k with Popping => bit_occupy | _ => 0 end) .| bit_wait.

Inductive rpc :=
| RIdle
| ROp (k : kind) (old : sync_var)             (* the function is called on [old] *)
| RCas (k : kind) (old new : sync_var)
| RSpin (k : kind) (n : nat) (expected : Z)   (* [n] turns of the first loop are left *)
| REnter (k : kind) (expected : Z)            (* calls [wait_on] *)
| RSleep (k : kind)
| RLoad (k : kind)                            (* [wait_on] has returned *)
| RTake (k : kind)                            (* the wait bit is off *)
| RAbort (k : kind)                           (* stopped *)
| RGiveUp (k : kind)
| RDone (old_count value : Z).

Inductive ppc :=
| PIdle
| PStore (value : Z)                          (* writes [value3] *)
| POp (value : Z)
| PJostle (value : Z) (old : sync_var)
| PWake (old : sync_var)                      (* turns off the wait bits *)
| PNotify (old : sync_var)
| PDone (old_count count : Z) (notify op_done : bool).

Record state := St {
  values : sync_var;
  jostling_value : Z;
  value3 : Z;
  rd : rpc;
  ps : tid -> ppc;
  stopped : bool
}.

Definition reader (r : rpc) (s : state) : state := St (values s) (jostling_value s) (value3 s) r (ps s) (stopped s).
Definition pusher (t : tid) (p : ppc) (s : state) : state :=
  St (values s) (jostling_value s) (value3 s) (rd s) (upd t p (ps s)) (stopped s).
Definition set_values (d : sync_var) (s : state) : state := St d (jostling_value s) (value3 s) (rd s) (ps s) (stopped s).
Definition set_jostling (j : Z) (s : state) : state := St (values s) j (value3 s) (rd s) (ps s) (stopped s).
Definition set_value3 (v : Z) (s : state) : state := St (values s) (jostling_value s) v (rd s) (ps s) (stopped s).
Definition set_stopped (b : bool) (s : state) : state := St (values s) (jostling_value s) (value3 s) (rd s) (ps s) b.

(** What follows a successful compare-and-swap of [old]. *)
Definition after (k : kind) (old : sync_var) : rpc :=
  match k with
  | Trying => RDone (count old) (value0 old)
  | _ => if count old =? 0 then RSpin k 10 (low (set_waiting (waits k) old)) else RDone (count old) (value0 old)
  end.

Definition cas (k : kind) (old new : sync_var) (s : state) : state :=
  if bool_decide (values s = old) then reader (after k old) (set_values new s) else reader (ROp k (values s)) s.

Definition mb_pop_step (s : state) : option state :=
  match rd s with
  | ROp k old =>
      Some (if negb (count old =? 0) then
              match k with
              | Peeking => cas k old old s
              | _ => reader (RCas k old (pop_op (value3 s) old)) s
              end
            else match k with
                 | Trying => cas k old old s
                 | _ => reader (RCas k old (set_waiting (waits k) old))
                          (set_jostling (match k with Popping => jostling_flag | _ => 0 end) s)
                 end)
  | RCas k old new => Some (cas k old new s)
  | RSpin k (S n) e => Some (reader (if waiting (values s) =? 0 then RTake k else RSpin k n e) s)
  | RSpin k O e => Some (reader (REnter k e) s)
  | REnter k e => Some (reader (if (low (values s) =? e) && negb (stopped s) then RSleep k else RLoad k) s)
  | RLoad k =>
      Some (reader (if negb (has (waiting (values s)) bit_wait) then RTake k
                    else if stopped s then RAbort k else REnter k (low (values s))) s)
  | RTake Popping => Some (reader (RDone 1 (u32 (jostling_value s))) (set_jostling 0 s))
  | RTake _ => Some (reader (RDone 1 0) s)
  | RAbort Popping =>
      let v := jostling_value s in
      Some (reader (if negb (has v jostling_flag) then RDone 1 (u32 v) else RGiveUp Popping) (set_jostling 0 s))
  | RAbort k => Some (reader (RGiveUp k) s)
  | RGiveUp k =>
      Some (reader (if negb (has (waiting (values s)) bit_wait) then RTake k else RDone 0 0)
              (set_values (set_waiting 0 (values s)) s))
  | RDone _ _ => Some (reader RIdle s)
  | RIdle | RSleep _ => None
  end.

Definition wake (r : rpc) : rpc := match r with RSleep k => RLoad k | _ => r end.

(** The end of [push] after its value is stored or handed over. *)
Definition pushed (old : sync_var) : ppc :=
  if has (waiting old) bit_wait then PWake old
  else PDone (count old) (Z.min (u8 (count old + 1)) 4) false true.

Definition mb_push_step (t : tid) (s : state) : option state :=
  match ps s t with
  | PStore value => Some (pusher t (POp value) (set_value3 value s))
  | POp value =>
      let old := values s in
      Some (match mb_push_op value old with
            | Some new => pusher t (pushed old) (set_values new s)
            | None => pusher t (PJostle value old) s
            end)
  | PJostle value old =>
      Some (if jostling_value s =? jostling_flag then pusher t (pushed old) (set_jostling value s)
            else pusher t (PStore value) s)
  | PWake old =>
      Some (pusher t (if negb (has (waiting (values s)) bit_wait) then PDone (count old) (count old) false false
                      else PNotify old)
              (set_values (set_waiting 0 (values s)) s))
  | PNotify old =>
      Some (pusher t (PDone (count old) (Z.min (u8 (count old + 1)) 4) true true) (reader (wake (rd s)) s))
  | PDone _ _ _ _ => Some (pusher t PIdle s)
  | PIdle => None
  end.

Inductive event := Push (t : tid) (value : Z) | Step (t : tid) | Pop (k : kind) | Go | Stop | Resume | Alert.

Definition step (e : event) (s : state) : option state :=
  match e with
  | Push t value => match ps s t with PIdle => Some (pusher t (PStore (u32 value)) s) | _ => None end
  | Step t => mb_push_step t s
  | Pop k => match rd s with RIdle => Some (reader (ROp k (values s)) s) | _ => None end
  | Go => mb_pop_step s
  | Stop => Some (reader (wake (rd s)) (set_stopped true s))
  | Resume => match rd s with RIdle => Some (set_stopped false s) | _ => None end
  | Alert => Some (reader (wake (rd s)) s)
  end.

(** After [clear]. *)
Definition init : state := St (Sv 0 0 0 0 0 0) 0 0 RIdle (fun _ => PIdle) false.

(** [try_read]: the count and the values. *)
Definition try_read (s : state) : Z * list Z :=
  let d := values s in
  (count d, if negb (count d =? 0) then [value0 d; value1 d; value2 d; value3 s] else []).

Definition get_count (s : state) : Z := count (values s).

Fixpoint run (l : list event) (s : state) : option state :=
  match l with
  | [] => Some s
  | e :: l => match step e s with Some s => run l s | None => None end
  end.

End Mailbox.
