(* ===== verification/SpuMailboxSpec.v ===== *)
(** Theorems on the inbound mailbox ([SpuMailbox]). *)

From Stdlib Require Import ZArith Lia Bool.
From stdpp Require Import base tactics option list numbers.
From S2P Require Import Prelude SpuMailbox.
Import Mailbox.
Local Open Scope Z_scope.
Local Open Scope word_scope.

Module MailboxSpec.

(** The values in the mailbox, and the one that has been handed to the waiting SPU. *)
Definition contents (d : sync_var) (v3 : Z) : list Z :=
  take (Z.to_nat (count d)) [value0 d; value1 d; value2 d; v3].

Definition in_session (r : rpc) : bool :=
  match r with RSpin Popping _ _ | REnter Popping _ | RSleep Popping | RLoad Popping => true | _ => false end.

Definition handed_value (r : rpc) (j : Z) : list Z :=
  match r with
  | RTake Popping => [u32 j]
  | _ => if in_session r && negb (j =? jostling_flag) then [u32 j] else []
  end.

Definition queue (s : state) : list Z := handed_value (rd s) (jostling_value s) ++ contents (values s) (value3 s).

(** The values an access puts in and takes out. *)
Definition pushes (e : event) (s : state) : list Z :=
  match e with
  | Step t =>
      match ps s t with
      | POp v => if has (waiting (values s)) bit_occupy then [] else [v]
      | PJostle v _ => if jostling_value s =? jostling_flag then [v] else []
      | _ => []
      end
  | _ => []
  end.

Definition pops (e : event) (s : state) : list Z :=
  match e, rd s with
  | Go, RCas _ old _ => if bool_decide (values s = old) && negb (count old =? 0) then [value0 old] else []
  | Go, RTake Popping => [u32 (jostling_value s)]
  | _, _ => []
  end.

(** Inside [push], before the notification. *)
Definition in_push (p : ppc) : bool :=
  match p with PStore _ | POp _ | PJostle _ _ | PWake _ => true | _ => false end.
Definition at_wake (p : ppc) : bool := match p with PWake _ => true | _ => false end.
Definition at_notify (p : ppc) : bool := match p with PNotify _ => true | _ => false end.

(** Calls of [push] take turns, as [group->mutex] makes them, and are not made when the mailbox is full; the SPU is not
    stopped. *)
Definition allowed (e : event) (s : state) : Prop :=
  match e with
  | Stop => False
  | Push _ _ => (forall y, in_push (ps s y) = false) /\ count (values s) < 4
  | _ => True
  end.

Inductive serial : state -> list Z -> list Z -> state -> Prop :=
| serial_nil s : serial s [] [] s
| serial_cons s e s' p q s'' : step e s = Some s' -> allowed e s -> serial s' p q s'' ->
    serial s (pushes e s ++ p) (pops e s ++ q) s''.

(** *** The invariant *)

(** What the SPU's point says of the word, of [jostling_value] and [value3], and of the other threads: [b] says whether one
    is about to turn off the wait bits. *)
Definition core (r : rpc) (d : sync_var) (j v3 : Z) (b : bool) : Prop :=
  let free := waiting d = 0 /\ b = false in
  let popping := (waiting d = 0x81 /\ count d = 0 /\ (j = jostling_flag /\ b = false \/ in_u 32 j /\ b = true)) \/
                 (free /\ in_u 32 j) in
  let peeking := (waiting d = 1 /\ (b = false -> count d = 0)) \/ free in
  match r with
  | RIdle | RDone _ _ => free
  | ROp _ old => free /\ (count old = 4 -> d = old)
  | RCas k old new => free /\
      (count old <> 0 /\ k <> Peeking /\
         (exists x, new = pop_op x old /\ (count old = 4 -> d = old /\ x = v3)) \/
       count old = 0 /\ k <> Trying /\ new = set_waiting (waits k) old /\ (k = Popping -> j = jostling_flag))
  | RSpin Popping _ e | REnter Popping e => popping /\ Z.odd e = true
  | RSleep Popping | RLoad Popping => popping
  | RSpin Peeking _ e | REnter Peeking e => peeking /\ Z.odd e = true
  | RSleep Peeking | RLoad Peeking => peeking
  | RTake Popping => free /\ in_u 32 j
  | RTake Peeking => free
  | _ => False
  end.

Definition ptok (p : ppc) (d : sync_var) (v3 : Z) : Prop :=
  match p with
  | PStore v => in_u 32 v /\ count d < 4
  | POp v => in_u 32 v /\ count d < 4 /\ v3 = v
  | PJostle v old => in_u 32 v /\ waiting d = 0x81 /\ waiting old = 0x81
  | PDone _ _ _ op_done => op_done = true
  | _ => True
  end.

Definition inv (s : state) : Prop :=
  0 <= count (values s) <= 4 /\
  (exists b, only at_wake b (ps s) /\ core (rd s) (values s) (jostling_value s) (value3 s) b) /\
  (forall t, ptok (ps s t) (values s) (value3 s)) /\
  (forall t y, in_push (ps s t) = true -> in_push (ps s y) = true -> t = y) /\
  (forall k, rd s = RSleep k -> waiting (values s) <> 0 \/ exists t, at_notify (ps s t) = true) /\
  stopped s = false.

Definition good (e : event) (s : state) (o : option state) : Prop :=
  match o with Some s' => inv s' /\ queue s ++ pushes e s = pops e s ++ queue s' | None => True end.

End MailboxSpec.
Import MailboxSpec.

Lemma mail_step b d j v3 r f st e d' j' v3' r' f' :
  0 <= count d' <= 4 -> only at_wake b f' -> core r' d' j' v3' b -> (forall t, ptok (f' t) d' v3') ->
  (forall t y, in_push (f' t) = true -> in_push (f' y) = true -> t = y) ->
  (forall k, r' = RSleep k -> waiting d' <> 0 \/ exists t, at_notify (f' t) = true) ->
  (handed_value r j ++ contents d v3) ++ pushes e (St d j v3 r f st) =
  pops e (St d j v3 r f st) ++ handed_value r' j' ++ contents d' v3' ->
  good e (St d j v3 r f st) (Some (St d' j' v3' r' f' false)).
Proof. intros Hc Hb Hk Hp Ha Hs Hq. split; [|exact Hq]. split; [done|]. split; [by exists b|]. done. Qed.

(** *** The word and its contents *)

Ltac by_count n :=
  let E := fresh in assert (n = 0 \/ n = 1 \/ n = 2 \/ n = 3 \/ n = 4) as E by lia;
  destruct E as [->|[->|[->|[->| ->]]]]; try lia.

(** The fourth value only counts when the mailbox is full. *)
Lemma contents_value3 d x y : 0 <= count d < 4 -> contents d x = contents d y.
Proof. destruct d as [w n i v0 v1 v2]. unfold contents. cbn [count]. intros H. by_count n; done. Qed.

Lemma contents_pop x d v3 : 0 <= count d <= 4 -> count d <> 0 -> (count d = 4 -> x = v3) ->
  contents d v3 = value0 d :: contents (pop_op x d) v3 /\ count (pop_op x d) = count d - 1.
Proof.
  destruct d as [w n i v0 v1 v2]. unfold contents, pop_op. cbn [count value0 value1 value2]. intros H H0 Hx.
  by_count n; (split; [|by vm_compute]); try done. by rewrite Hx.
Qed.

Lemma contents_push v d d' : 0 <= count d < 4 -> mb_push_op v d = Some d' ->
  contents d' v = contents d v ++ [v] /\ 0 <= count d' <= 4 /\ waiting d' = waiting d.
Proof.
  destruct d as [w n i v0 v1 v2]. unfold contents, mb_push_op. cbn [count waiting value0 value1 value2 value3_inval]. intros H.
  case_match; [done|]. intros E. apply (inj Some) in E. subst d'. by_count n; by vm_compute.
Qed.

Lemma odd_low d : Z.odd (low d) = Z.odd (waiting d).
Proof.
  unfold low. rewrite <- !Z.bit0_odd, !Z.lor_spec, !testbit_shiftl by lia. cbn [Z.leb Z.compare andb]. by rewrite !orb_false_r.
Qed.

Lemma contents_waiting w d v3 : contents (set_waiting w d) v3 = contents d v3.
Proof. done. Qed.

(** The wait bits take three values. *)
Lemma core_waiting r d j v3 b : core r d j v3 b ->
  waiting d = 0 /\ b = false \/ waiting d = 1 \/ waiting d = 0x81 /\ in_session r = true /\ count d = 0 /\ (b = false -> j = jostling_flag).
Proof.
  destruct r as [|[]|[]|[]|[]|[]|[]|[]|[]|[]|]; cbn [core in_session]; intuition congruence.
Qed.

Lemma low_not_flag j : in_u 32 j -> (j =? jostling_flag) = false.
Proof. unfold in_u, jostling_flag. intros. apply Z.eqb_neq. lia. Qed.

(** *** The SPU *)

Ltac open_mail H :=
  destruct H as (Hn & (b & Hb & Hk) & Hp & Ha & Hs & Hst); cbn [values jostling_value value3 rd ps stopped] in *; subst.

Ltac stays := eapply mail_step; [| eassumption | | eassumption | eassumption |..]; try done.
Ltac fin := cbn [negb andb app]; rewrite ?app_nil_r; done.

(** While nobody waits, a smaller count is all right for the other threads. *)
Lemma ptok_free f d d' v3 : waiting d = 0 -> count d' <= count d -> (forall t : tid, ptok (f t) d v3) ->
  forall t, ptok (f t) d' v3.
Proof.
  intros Hw Hc H t. specialize (H t). destruct (f t); cbn [ptok] in *; intuition lia.
Qed.

Lemma handed_low r j : in_session r = true -> in_u 32 j -> handed_value r j = [u32 j].
Proof.
  intros Hr Hj. destruct r as [| | |[]|[]|[]|[]| | | |]; try discriminate Hr; cbn [handed_value in_session andb]; by rewrite low_not_flag.
Qed.

Ltac leaf := cbv [core] in *; match goal with
  | |- _ ++ pushes _ _ = _ => unfold pushes, pops; cbn [rd values]; first [fin | rewrite handed_low by (reflexivity || intuition congruence); fin]
  | |- forall k, RSleep _ = RSleep k -> _ => intros ? _; left; congruence
  | |- _ => intuition congruence
  end.

(** The compare-and-swap of [pop_wait] and [try_pop]. *)
Lemma mail_cas_good k old new d j v3 f : inv (St d j v3 (RCas k old new) f false) ->
  good Go (St d j v3 (RCas k old new) f false) (Some (cas k old new (St d j v3 (RCas k old new) f false))).
Proof.
  intros H. open_mail H. destruct Hk as ([Hw ->] & Hk).
  cbv [cas rd values jostling_value value3 stopped reader set_values ps].
  case_bool_decide as Ed; [|stays; unfold pushes, pops; cbn [rd values]; rewrite bool_decide_false by done; fin].
  subst old. destruct Hk as [(Hc & Hk & x & -> & Hx)|(Hc & Hk & -> & Hj)].
  - destruct (contents_pop x d v3) as [Ec Hc']; [done|done|intros; by apply Hx|].
    assert (after k d = RDone (count d) (value0 d)) as -> by (unfold after; destruct k; [case_cmp|case_cmp|]; done).
    eapply (mail_step false); try done; [lia|eapply ptok_free; [exact Hw| |done]; lia|].
    unfold pushes, pops; cbn [rd values handed_value in_session andb]. rewrite bool_decide_true by done. case_cmp. rewrite Ec. fin.
  - assert (after k d = RSpin k 10 (low (set_waiting (waits k) d))) as -> by (unfold after; destruct k; [case_cmp|case_cmp|]; done).
    eapply (mail_step false); try done.
    + destruct k; [..|done]; cbv [core]; rewrite odd_low; cbn [set_waiting waiting count]; [|by split; [left|]].
      split; [left; split; [done|]; split; [done|]; left; auto|done].
    + eapply ptok_free; [exact Hw| |done]. done.
    + unfold pushes, pops; cbn [rd values]. rewrite bool_decide_true by done. rewrite Hc.
      destruct k; cbn; rewrite ?Hj by done; cbn; fin.
Qed.

Lemma mail_pop_good s : inv s -> good Go s (mb_pop_step s).
Proof.
  destruct s as [d j v3 r f st]. intros H. pose proof H as H'. open_mail H.
  destruct r as [|k old|k old new|k [|n] e|k e|k|k|k|k|k|c v];
    cbv [mb_pop_step cas rd values jostling_value value3 stopped reader set_values set_jostling ps].
  - exact I.
  - destruct Hk as [[Hw ->] Ho]. destruct (Z.eqb_spec (count old) 0) as [E|E]; cbn [negb]; destruct k;
      try (case_bool_decide as Ed; [unfold after; rewrite <- Ed in *; case_cmp|]); stays; try leaf;
      (split; [done|]; left; repeat split; try done; exists v3; auto).
  - by apply mail_cas_good.
  - destruct k; try done; stays; leaf.
  - destruct k; try done; (destruct (Z.eqb_spec (waiting d) 0) as [Ew|Ew]; stays; leaf).
  - destruct k; try done; (destruct Hk as [Hk He]; case_match eqn:El;
      [apply andb_true_iff in El as [<-%Z.eqb_eq _]; rewrite odd_low in He|]; stays; try leaf;
      intros ? _; left; intros E0; by rewrite E0 in He).
  - exact I.
  - assert (negb (has (waiting d) bit_wait) = true -> waiting d = 0) as Hw0.
    { intros E. destruct (core_waiting _ _ _ _ _ Hk) as [[]|[Ew|[Ew _]]]; [done|by rewrite Ew in E..]. }
    assert (has (waiting d) bit_wait = true -> Z.odd (low d) = true) as Hw1.
    { intros E. rewrite odd_low. destruct (core_waiting _ _ _ _ _ Hk) as [[Ew _]|[Ew|[Ew _]]]; by rewrite Ew in *. }
    destruct k; try done; (destruct (has (waiting d) bit_wait); [specialize (Hw1 eq_refl)|specialize (Hw0 eq_refl)];
      cbn [negb]; stays; leaf).
  - destruct k; try done; stays; leaf.
  - done.
  - done.
  - stays; leaf.
Qed.

(** *** [push] *)

Section Pusher.
Context (f : tid -> ppc) (t : tid) (p : ppc).
Context (Ha : forall t y, in_push (f t) = true -> in_push (f y) = true -> t = y).

(** The other threads are not inside [push], so the mailbox can change. *)
Lemma mail_ptok_upd d v3 d' v3' : (forall y, ptok (f y) d v3) -> in_push (f t) = true \/ (d' = d /\ v3' = v3) ->
  ptok p d' v3' -> forall y, ptok (upd t p f y) d' v3'.
Proof.
  intros H Ht Hp y. unfold upd. destruct (Z.eqb_spec y t) as [->|Hne]; [done|].
  destruct Ht as [Ht|[-> ->]]; [|done]. destruct (in_push (f y)) eqn:Ey; [by destruct Hne; apply Ha|].
  specialize (H y). by destruct (f y).
Qed.

(** The thread that is inside is not about to turn off the wait bits, so none is. *)
Lemma not_waking b : only at_wake b f -> in_push (f t) = true -> at_wake (f t) = false -> b = false.
Proof.
  intros Hb Ht Hw. eapply only_none; [exact Hb|]. intros y. destruct (at_wake (f y)) eqn:Ey; [|done].
  assert (y = t) as ->; [|congruence]. apply Ha; [|done]. by destruct (f y).
Qed.

End Pusher.

Lemma core_value3 r d j v3 v3' b : count d < 4 -> core r d j v3 b -> core r d j v3' b.
Proof.
  intros Hd. destruct r as [|[]|[]|[]|[]|[]|[]|[]|[]|[]|]; cbv [core]; try tauto;
    (intros [Hf [(Hc & Hk & x & -> & Hx)|H]]; (split; [done|]); [left|by right]; repeat split; try done; exists x;
     split; [done|]; intros E; destruct (Hx E) as [-> _]; lia).
Qed.

(** A value is stored; a thread that peeks is going to be woken up. *)
Lemma core_push r d d' j v3 : count d < 4 -> waiting d' = waiting d -> waiting d = 0 \/ waiting d = 1 ->
  core r d j v3 false -> core r d' j v3 (waiting d =? 1).
Proof.
  intros Hd Ew Hw.
  destruct r as [|k old|k old new|[]|[]|[]|[]|[]|[]|[]|]; cbv [core]; rewrite ?Ew;
    (destruct Hw as [E|E]; rewrite ?E; cbn [Z.eqb Pos.eqb]); try (intuition congruence).
  - intros [Hf Ho]. split; [done|]. intros Hc. destruct (Ho Hc). lia.
  - intros [Hf [(Hc & Hk & x & -> & Hx)|H]]; (split; [done|]); [left|by right]. repeat split; try done. exists x.
    split; [done|]. intros Hc'. destruct (Hx Hc') as [-> _]. lia.
Qed.

(** The wait bits are turned off by the thread that has stored or handed over a value. *)
Lemma core_woken r d j v3 : core r d j v3 true ->
  core r (set_waiting 0 d) j v3 false /\ (waiting d = 1 \/ waiting d = 0x81).
Proof.
  destruct r as [|[]|[]|[]|[]|[]|[]|[]|[]|[]|]; cbv [core]; cbn [set_waiting waiting]; intuition congruence.
Qed.

Lemma core_handed r d v v3 : in_session r = true -> waiting d = 0x81 -> count d = 0 -> in_u 32 v ->
  core r d jostling_flag v3 false -> core r d v v3 true.
Proof.
  intros Hr Hw Hc Hv. destruct r as [|[]|[]|[]|[]|[]|[]|[]|[]|[]|]; try discriminate Hr; cbv [core]; intuition congruence.
Qed.

Lemma mail_core_wake r d j v3 b : core (wake r) d j v3 b = core r d j v3 b.
Proof. by destruct r as [| | | | |[]| | | | |]. Qed.

Lemma handed_wake r j : handed_value (wake r) j = handed_value r j.
Proof. by destruct r as [| | | | |[]| | | | |]. Qed.

Ltac asleep Hs E := let Hr := fresh in let Hw := fresh in intros ? Hr; destruct (Hs _ Hr) as [Hw|Hw];
  [left; congruence | right; apply exists_upd; [by rewrite E|done]].
Ltac others Ha E := first
  [ done
  | match goal with |- only _ _ (upd _ _ _) => apply only_upd; [done|by rewrite E|done] end
  | match goal with |- forall x y, in_push (upd _ _ _ x) = true -> _ =>
      apply unique_upd; [done|]; first [by left | right; by rewrite E] end
  | match goal with |- forall y, ptok (upd _ _ _ y) _ _ =>
      eapply mail_ptok_upd; [exact Ha|eassumption|first [left; by rewrite E | by right]|try done] end ].

Lemma mail_push_good s t : inv s -> good (Step t) s (mb_push_step t s).
Proof.
  destruct s as [d j v3 r f st]. intros H. open_mail H. pose proof (Hp t) as Ht. pose proof (not_waking f t Ha b Hb) as Hb0.
  destruct (f t) as [|v|v|v old|old|old|? ? ? ?] eqn:E; cbv [mb_push_step ps values jostling_value]; rewrite E;
    cbv [set_values set_jostling set_value3 reader pusher rd ps values jostling_value value3 stopped]; try exact I.
  - destruct Ht as [Hv Hd]. eapply (mail_step b); try others Ha E.
    + by eapply core_value3.
    + asleep Hs E.
    + unfold pushes, pops; cbn [ps rd]. rewrite E. rewrite (contents_value3 d v3 v) by lia. fin.
  - destruct Ht as (Hv & Hd & ->). specialize (Hb0 eq_refl eq_refl) as ->.
    destruct (mb_push_op v d) as [d'|] eqn:Eo.
    + destruct (contents_push v d d') as (Ec & Hc & Ew); [lia|done|].
      assert (waiting d = 0 \/ waiting d = 1) as Hw.
      { destruct (core_waiting _ _ _ _ _ Hk) as [[]|[]]; [tauto..|]. unfold mb_push_op in Eo.
        by rewrite (proj1 H) in Eo. }
      eapply (mail_step (waiting d =? 1)).
      * done.
      * unfold pushed. destruct Hw as [-> | ->]; [apply only_upd; [done|by rewrite E|done]|by apply only_set].
      * by apply core_push.
      * unfold pushed. destruct Hw as [-> | ->]; others Ha E.
      * unfold pushed. destruct Hw as [-> | ->]; others Ha E.
      * rewrite Ew. asleep Hs E.
      * unfold pushes, pops; cbn [ps rd values]. rewrite E, Ec. destruct Hw as [-> | ->]; cbn [app]; by rewrite !app_assoc.
    + unfold mb_push_op in Eo. destruct (has (waiting d) bit_occupy) eqn:Eb; [|discriminate Eo].
      destruct (core_waiting _ _ _ _ _ Hk) as [[Ew _]|[Ew|(Ew & _)]]; [by rewrite Ew in Eb..|].
      eapply (mail_step false); try others Ha E; [asleep Hs E|].
      unfold pushes, pops; cbn [ps rd values]. rewrite E, Eb. fin.
  - destruct Ht as (Hv & Ew & Eo). specialize (Hb0 eq_refl eq_refl) as ->.
    destruct (core_waiting _ _ _ _ _ Hk) as [[E0 _]|[E0|(_ & Hr & Hc & Hj)]]; [by rewrite Ew in E0..|].
    rewrite (Hj eq_refl) in *. rewrite Z.eqb_refl. unfold pushed. rewrite Eo.
    eapply (mail_step true); try others Ha E.
    + by apply only_set.
    + by apply core_handed.
    + asleep Hs E.
    + unfold pushes, pops; cbn [ps rd values jostling_value]. rewrite E, Z.eqb_refl. rewrite (handed_low r v) by done.
      unfold contents. rewrite Hc, (wrap_small 32 v) by done. by destruct r as [| | |[]|[]|[]|[]| | | |].
  - destruct (only_unset at_wake b t (PNotify old) f Hb) as [-> Hb']; [by rewrite E|done|].
    destruct (core_woken _ _ _ _ Hk) as [Hk' Hw].
    assert (has (waiting d) bit_wait = true) as -> by (by destruct Hw as [-> | ->]). cbn [negb].
    eapply (mail_step false); try others Ha E.
    + intros k _. right. by apply exists_set.
    + unfold pushes, pops; cbn [ps rd]. rewrite E. fin.
  - eapply (mail_step b); try others Ha E.
    + by rewrite mail_core_wake.
    + by destruct r.
    + unfold pushes, pops; cbn [ps rd]. rewrite E, handed_wake. fin.
  - eapply (mail_step b); try others Ha E; [asleep Hs E|].
    unfold pushes, pops; cbn [ps rd]. rewrite E. fin.
Qed.

(** *** Runs *)

Lemma mail_step_good e s : inv s -> allowed e s -> good e s (step e s).
Proof.
  intros H Hal. destruct e as [t x|t|k| | | |]; cbn [step]; cbn [allowed] in Hal; try contradiction.
  - destruct (ps s t) eqn:E; try exact I. destruct s as [d j v3 r f st]. open_mail H. destruct Hal as [Hal Hc].
    unfold pusher; cbn [values jostling_value value3 rd ps stopped].
    eapply (mail_step b); try others Ha E; [| |asleep Hs E|fin].
    + split; [by apply wrap_in_u|done].
    + intros y y'. unfold upd. repeat case_match; try lia; by rewrite ?Hal.
  - by apply mail_push_good.
  - destruct (rd s) eqn:E; try exact I. destruct s as [d j v3 r f st]. open_mail H. stays. fin.
  - by apply mail_pop_good.
  - destruct (rd s) eqn:E; try exact I. destruct s as [d j v3 r f st]. open_mail H. stays. fin.
  - destruct s as [d j v3 r f st]. open_mail H. eapply (mail_step b); try done.
    + by rewrite mail_core_wake.
    + by destruct r.
    + cbn [rd]. rewrite handed_wake. fin.
Qed.

Lemma mail_serial_fifo s p q s' : serial s p q s' -> inv s -> inv s' /\ queue s ++ p = q ++ queue s'.
Proof.
  induction 1 as [s|s e s' p q s'' E Hal _ IH]; intros H; [by rewrite app_nil_r|].
  pose proof (mail_step_good e s H Hal) as Hg. rewrite E in Hg. destruct Hg as [H' Eq].
  destruct (IH H') as [H'' Eq']. split; [done|]. by rewrite app_assoc, Eq, <- app_assoc, Eq', app_assoc.
Qed.

Lemma mail_inv_init : inv init.
Proof. split; [done|]. split; [by exists false|]. done. Qed.

Lemma queue_length s : inv s -> (length (queue s) <= 5)%nat.
Proof.
  intros (Hn & _). unfold queue, contents. rewrite length_app, length_take.
  assert (length (handed_value (rd s) (jostling_value s)) <= 1)%nat.
  { unfold handed_value. repeat case_match; cbn [length]; lia. }
  lia.
Qed.

(** C2: the inbound mailbox is a queue.  Whatever the interleaving of the SPU's [pop_wait] and [try_pop] with the accesses of
    [push], provided that the calls of [push] take turns (as the mutex of the thread group makes them) and are not made
    on a full mailbox, and that the SPU is not stopped: the values taken out, followed by those still inside or handed
    to the waiting SPU, are the values put in, in the same order; [push] always succeeds; and no wake-up is lost: an
    SPU that sleeps while nobody is in [push] has nothing to read. *)
Theorem mailbox_fifo p q s (H : serial init p q s) :
  p = q ++ queue s /\ (length (queue s) <= 5)%nat /\
  (forall t c c' n, ps s t <> PDone c c' n false) /\
  (forall k, rd s = RSleep k -> (forall t, in_push (ps s t) = false /\ at_notify (ps s t) = false) -> queue s = []).
Proof.
  destruct (mail_serial_fifo _ _ _ _ H mail_inv_init) as [Hi E]. split; [exact E|]. split; [by apply queue_length|].
  destruct Hi as (Hn & (b & Hb & Hk) & Hp & Ha & Hs & Hst). split.
  - intros t c c' n Et. specialize (Hp t). by rewrite Et in Hp.
  - intros k Er Hq. assert (b = false) as ->.
    { eapply only_none; [exact Hb|]. intros t. destruct (Hq t) as [Ht _]. by destruct (ps s t). }
    destruct (Hs k Er) as [Hw|[t Ht]]; [|destruct (Hq t); congruence].
    unfold queue, contents. rewrite Er in *. destruct k; cbv [core] in Hk; [| |done].
    + destruct Hk as [(_ & -> & [(-> & _)|(_ & [=])])|[[] _]]; done.
    + destruct Hk as [(_ & Hc)|[]]; [|done]. by rewrite Hc.
Qed.

(** Executing a list of events. *)
Fixpoint exchanged (l : list event) (s : state) : option (list Z * list Z * state) :=
  match l with
  | [] => Some ([], [], s)
  | e :: l =>
      match step e s with
      | Some s' =>
          match exchanged l s' with Some (p, q, s'') => Some (pushes e s ++ p, pops e s ++ q, s'') | None => None end
      | None => None
      end
  end.

Definition harmless (e : event) : bool := match e with Stop | Push _ _ => false | _ => true end.

Lemma mail_exchanged_serial l s p q s' : forallb harmless l = true -> exchanged l s = Some (p, q, s') -> serial s p q s'.
Proof.
  revert s p q. induction l as [|e l IH]; intros s p q Hl E; cbn [exchanged forallb] in *.
  - injection E as <- <- <-. constructor.
  - apply andb_true_iff in Hl as [He Hl]. destruct (step e s) as [s1|] eqn:Es; [|discriminate E].
    destruct (exchanged l s1) as [[[p' q'] s2]|] eqn:Et; [|discriminate E].
    assert (p = pushes e s ++ p' /\ q = pops e s ++ q' /\ s' = s2) as (-> & -> & ->) by (repeat split; congruence).
    eapply serial_cons; [exact Es|by destruct e|]. by apply IH.
Qed.

(** The SPU waits while thread 1 is in [push], and is handed the value. *)
Definition hand_over : list event :=
  [Pop Popping; Go; Go; Step 1; Step 1; Step 1; Step 1; Step 1; Go; Go].

Lemma mailbox_fifo_witness :
  match exchanged hand_over (pusher 1 (PStore 9) init) with
  | Some (p, q, s) => p = [9] /\ q = [9] /\ p = q ++ queue s
  | None => False
  end.
Proof.
  destruct (exchanged hand_over (pusher 1 (PStore 9) init)) as [[[p q] s]|] eqn:E; [|discriminate E].
  assert (serial init ([] ++ p) ([] ++ q) s) as H.
  { apply (serial_cons init (Push 1 9) (pusher 1 (PStore 9) init)); [reflexivity|split; [reflexivity|reflexivity]|].
    by apply (mail_exchanged_serial hand_over). }
  pose proof (proj1 (mailbox_fifo p q s H)) as Eq.
  vm_compute in E. injection E as <- <- _. split; [reflexivity|]. split; [reflexivity|exact Eq].
Defined.

(** A [push] by thread [t] from beginning to end, while the SPU does not wait. *)
Definition whole_push (t : tid) (v : Z) : list event := [Push t v; Step t; Step t; Step t].

(** A [push] on a full mailbox that meets a [pop_wait] duplicates its value and loses another.  The mailbox holds 1, 2, 3, 4;
    thread 1 has written 5 to [value3] but not yet counted it; the SPU takes 1 out and moves 5 up in the place of 4; then
    thread 1 finds three values and counts 5 once more. *)
Theorem mailbox_overrun :
  match run (whole_push 1 1 ++ whole_push 1 2 ++ whole_push 1 3 ++ whole_push 1 4 ++
             [Pop Popping; Push 1 5; Step 1; Go; Go; Step 1]) init with
  | Some s => rd s = RDone 4 1 /\ try_read s = (4, [2; 3; 5; 5])
  | None => False
  end.
Proof. vm_compute. repeat split. Qed.

(** Nor can calls of [push] be left without a mutex (as for a raw SPU, whose mailbox is a memory-mapped register).  The
    mailbox holds 1 and 2; thread 3 has written 30 to [value3] and thread 4, after it, 40; 40 becomes the third value, and when
    thread 3 counts its value as the fourth, that is 40 again, and 30 is lost. *)
Theorem mailbox_push_race :
  match run (whole_push 1 1 ++ whole_push 1 2 ++ [Push 3 30; Push 4 40; Step 3; Step 4; Step 4; Step 3]) init with
  | Some s => try_read s = (4, [1; 2; 40; 40])
  | None => False
  end.
Proof. vm_compute. reflexivity. Qed.

(** Nor can stops be allowed.  Thread 1 has put 9 in [jostling_value] and has not yet turned off the wait bits when the SPU is
    stopped; [pop_wait] returns 9 at once.  The SPU is resumed and calls [pop_wait] again; thread 1 turns off the wait
    bits of this second call, which returns 0, a value nobody has put in. *)
Theorem mailbox_stop_invents :
  match run ([Pop Popping] ++ replicate 14 Go ++ [Push 1 9; Step 1; Step 1; Step 1; Stop; Go; Go]) init with
  | Some s =>
      rd s = RDone 1 9 /\
      match run [Go; Resume; Pop Popping; Go; Go; Step 1; Go; Go] s with
      | Some s' => rd s' = RDone 1 0 /\ get_count s' = 0
      | None => False
      end
  | None => False
  end.
Proof. vm_compute. repeat split. Qed.

